(** * MLPF tensor model: a shallow embedding of [mlpf/tfmodel/model.py]

    Tensors are nested lists over the real numbers: a rank-1 tensor is a
    [vec], a rank-2 tensor a [mat] (list of rows), and so on.  A tensor
    without rows carries no width of its own; it stands for the tensor whose
    inner dimensions are the ones the caller expects.  Floating point
    numbers are idealised as reals, so rounding, overflow and NaN are out of
    the model, except where a property turns on them: the sigmoid of the
    gated convolution is rounded to float32, and the tensors of the
    histogram loss can hold NaN.  Integer tensors hold [nat] (indices) or
    [Z] (int64 values).

    TensorFlow and Python exceptions are values of [error]; code that can
    raise returns a [result]. *)

From Stdlib Require Import ZArith Reals Lra Lia Sorted.
From stdpp Require Import base decidable option list gmap strings.

Set Default Proof Using "Type*".

(** ** Python values and exceptions *)

(** Values found in configuration dictionaries and keyword arguments. *)
Inductive value : Type :=
| VStr (s : string)
| VInt (z : Z)
| VFloat (x : R)
| VBool (b : bool)
| VNone.

(** [v == "s"] for a string literal. *)
Definition is_str (v : value) (s : string) : bool :=
  match v with
  | VStr s' => String.eqb s' s
  | _ => false
  end.

Inductive error : Type :=
| InvalidArgumentError
| ValueError
| TypeError
| KeyError (key : value)
| UnboundLocalError (var : string)
| AttributeError (attr : string)
| IndexError.

Inductive result (A : Type) : Type :=
| Ok (a : A)
| Raise (e : error).
Arguments Ok {A} a.
Arguments Raise {A} e.

#[global] Instance result_ret : MRet result := fun A a => Ok a.
#[global] Instance result_bind : MBind result := fun A B f m =>
  match m with
  | Ok a => f a
  | Raise e => Raise e
  end.
#[global] Instance result_fmap : FMap result := fun A B f m =>
  match m with
  | Ok a => Ok (f a)
  | Raise e => Raise e
  end.

Definition is_Ok {A} (m : result A) : Prop := exists a, m = Ok a.

(** Run a fallible function over the entries of a list, left to right, and
    stop at the first exception ([tf.map_fn], or a per-row kernel). *)
Fixpoint traverse {A B} (f : A -> result B) (l : list A) : result (list B) :=
  match l with
  | [] => Ok []
  | x :: l' => y ← f x; ys ← traverse f l'; Ok (y :: ys)
  end.

(** ** Index kernels: argmax, argsort, reshape, gather *)

Section ArgKernels.
Context {A : Type} (ltb : A -> A -> bool).

(** Scan of [tf.argmax] along one row: [bi] is the position of the running
    maximum [best], [i] the position of the head of the rest.  A later
    entry replaces the maximum only when it is strictly larger, so ties
    resolve to the smallest index. *)
Fixpoint argmax_from (best : A) (bi i : nat) (l : list A) : nat :=
  match l with
  | [] => bi
  | x :: l' =>
      if ltb best x then argmax_from x i (S i) l'
      else argmax_from best bi (S i) l'
  end.

(** [tf.argmax(row, axis=-1)]; an empty reduction axis is an error. *)
Definition argmax (row : list A) : result nat :=
  match row with
  | [] => Raise InvalidArgumentError
  | x :: l => Ok (argmax_from x 0 1 l)
  end.
End ArgKernels.

(** Stable insertion of an (int64 key, position) pair into a list sorted by
    key: the new pair goes before the first pair whose key is not smaller. *)
Fixpoint insert_key (k : Z) (i : nat) (l : list (Z * nat)) : list (Z * nat) :=
  match l with
  | [] => [(k, i)]
  | (k', i') :: l' =>
      if (k <=? k')%Z then (k, i) :: l else (k', i') :: insert_key k i l'
  end.

Definition sort_keys (l : list (Z * nat)) : list (Z * nat) :=
  foldr (fun p acc => insert_key p.1 p.2 acc) [] l.

(** [tf.argsort(keys)] (ascending): the positions [0..n-1] ordered by key.
    TensorFlow leaves the order of equal keys open; here they keep their
    original order. *)
Definition argsort (keys : list Z) : list nat :=
  (sort_keys (zip keys (seq 0 (length keys)))).*2.

(** Row-major split of a flat list into [n] consecutive rows of [size]. *)
Fixpoint chunks {A} (size n : nat) (l : list A) : list (list A) :=
  match n with
  | O => []
  | S n' => take size l :: chunks size n' (drop size l)
  end.

(** [tf.reshape(l, (d0, d1))] of a rank-1 tensor: the element count has to
    match. *)
Definition reshape2 {A} (l : list A) (d0 d1 : nat) : result (list (list A)) :=
  if decide (length l = d0 * d1) then Ok (chunks d1 d0 l)
  else Raise InvalidArgumentError.

(** [tf.math.floordiv] on non-negative int32 scalars. *)
Definition floordiv (a b : nat) : result nat :=
  if decide (b = 0) then Raise InvalidArgumentError else Ok (a / b).

(** [tf.gather(params, indices)] along the first axis, one index; out of
    range is an error (CPU kernel). *)
Definition gather1 {A} (params : list A) (i : nat) : result A :=
  match params !! i with
  | Some x => Ok x
  | None => Raise InvalidArgumentError
  end.

(** [tf.gather(params, indices)] with [indices] of rank 2 (bins by slots). *)
Definition gather {A} (params : list A) (indices : list (list nat))
  : result (list (list A)) :=
  traverse (traverse (gather1 params)) indices.

(** [tf.gather(params, indices, batch_dims=1)]: entry [b] of the batch is
    gathered with the indices of entry [b]. *)
Fixpoint gather_batch {A} (params : list (list A))
    (indices : list (list (list nat))) : result (list (list (list A))) :=
  match params, indices with
  | [], [] => Ok []
  | p :: ps, ix :: ixs =>
      g ← gather p ix; gs ← gather_batch ps ixs; Ok (g :: gs)
  | _, _ => Raise InvalidArgumentError
  end.

(** ** Bin assignment *)

Section Bins.
Context {A : Type} (ltb : A -> A -> bool).

(** [split_indices_to_bins(cmul, nbins, bin_size)], model.py:15-18. *)
Definition split_indices_to_bins (cmul : list (list A)) (nbins bin_size : nat)
  : result (list (list nat)) :=
  bin_idx ← traverse (argmax ltb) cmul;
  reshape2 (argsort (Z.of_nat <$> bin_idx)) nbins bin_size.

(** First line of [split_indices_to_bins_batch] for one batch entry:
    [tf.argmax(cmul, axis=-1) + tf.cast(tf.where(~msk, nbins-1, 0), tf.int64)]. *)
Definition bin_index (nbins : nat) (row : list A) (m : bool) : result Z :=
  a ← argmax ltb row;
  Ok (Z.of_nat a + (if negb m then Z.of_nat nbins - 1 else 0))%Z.

Fixpoint bin_indices (nbins : nat) (cmul : list (list A)) (msk : list bool)
  : result (list Z) :=
  match cmul, msk with
  | [], [] => Ok []
  | row :: cmul', m :: msk' =>
      k ← bin_index nbins row m; ks ← bin_indices nbins cmul' msk'; Ok (k :: ks)
  | _, _ => Raise InvalidArgumentError
  end.

(** One batch entry of [split_indices_to_bins_batch]. *)
Definition split_indices_to_bins_event (nbins bin_size : nat)
    (cmul : list (list A)) (msk : list bool) : result (list (list nat)) :=
  bin_idx ← bin_indices nbins cmul msk;
  reshape2 (argsort bin_idx) nbins bin_size.

(** [split_indices_to_bins_batch(cmul, nbins, bin_size, msk)],
    model.py:20-23, on a batch of events. *)
Fixpoint split_indices_to_bins_batch (cmul : list (list (list A)))
    (nbins bin_size : nat) (msk : list (list bool))
  : result (list (list (list nat))) :=
  match cmul, msk with
  | [], [] => Ok []
  | c :: cmul', m :: msk' =>
      b ← split_indices_to_bins_event nbins bin_size c m;
      bs ← split_indices_to_bins_batch cmul' nbins bin_size msk';
      Ok (b :: bs)
  | _, _ => Raise InvalidArgumentError
  end.
End Bins.

(** ** Real tensors *)

Abbreviation vec := (list R) (only parsing).
Abbreviation mat := (list (list R)) (only parsing).

Definition zeros (n : nat) : vec := replicate n 0%R.
Definition vadd (u v : vec) : vec := zip_with Rplus u v.

Definition vneg (v : vec) : vec := Ropp <$> v.
Definition scale (c : R) (v : vec) : vec := Rmult c <$> v.
Definition vsum (v : vec) : R := foldr Rplus 0%R v.
Definition dot (u v : vec) : R := vsum (zip_with Rmult u v).

#[global] Instance Rlt_decision (x y : R) : Decision (x < y)%R := Rlt_dec x y.
#[global] Instance Rle_decision (x y : R) : Decision (x <= y)%R := Rle_dec x y.
#[global] Instance Req_decision : EqDecision R := Req_dec_T.

Definition Rltb (x y : R) : bool := bool_decide (x < y)%R.
Definition Rleb (x y : R) : bool := bool_decide (x <= y)%R.

(** [tf.cast(m, dtype)] of a boolean. *)
Definition cast_bool (m : bool) : R := if m then 1%R else 0%R.

(** Number of columns and a column of a rank-2 tensor. *)
Definition ncols (b : mat) : nat := length (hd [] b).
Definition column (j : nat) (b : mat) : vec := (fun row => nth j row 0%R) <$> b.

(** [w[:, :h]] *)
Definition take_cols (h : nat) (w : mat) : mat := take h <$> w.

(** [tf.linalg.matmul(a, b)] on rank-2 tensors; the inner dimensions have
    to agree. *)
Definition matmul (a b : mat) : result mat :=
  if decide (Forall (fun r => length r = length b) a)
  then Ok ((fun r => (fun j => dot r (column j b)) <$> seq 0 (ncols b)) <$> a)
  else Raise InvalidArgumentError.

(** [tf.clip_by_value(x, lo, hi)] = [minimum(maximum(x, lo), hi)]. *)
Definition clip_by_value (x lo hi : R) : R := Rmin (Rmax x lo) hi.

(** [tf.keras.activations.elu] with alpha = 1. *)
Definition elu (x : R) : R := if decide (0 < x)%R then x else (exp x - 1)%R.

(** The logistic function over the reals. *)
Definition sigmoid (x : R) : R := (1 / (1 + exp (- x)))%R.

(** ** Single precision

    Whether the gate of the gated convolution can reach 0 or 1 is decided
    by the rounding of the float32 kernel, so [tf.nn.sigmoid] carries it. *)

(** Round to the nearest integer, ties to the even one. *)
Definition round_half_even (x : R) : Z :=
  let f := Int_part x in
  if decide (x - IZR f < 1 / 2)%R then f
  else if decide (1 / 2 < x - IZR f)%R then (f + 1)%Z
  else if Z.even f then f else (f + 1)%Z.

(** The float32 nearest to a real number of magnitude below [2^128]: 24
    significant bits, the exponent not below -126 (below it the subnormal
    numbers, multiples of [2^-149]), ties to even. *)
Definition float32 (x : R) : R :=
  if decide (x = 0)%R then 0%R
  else
    let e := Z.max (Int_part (ln (Rabs x) / ln 2)) (-126) in
    (IZR (round_half_even (x * powerRZ 2 (23 - e))) * powerRZ 2 (e - 23))%R.

(** [tf.nn.sigmoid] on a float32 tensor: the float32 nearest to the real
    value of the logistic function. *)
Definition sigmoid_f32 (x : R) : R := float32 (sigmoid x).

(** Shape of a rank-4 tensor, read off its first entries ([tf.shape]). *)
Definition shape4 {A} (t : list (list (list (list A)))) : nat * nat * nat * nat :=
  let e := hd [] t in
  let b := hd [] e in
  (length t, length e, length b, length (hd [] b)).

(** [tf.reshape(l, (d0, d1, d2))] of flat data. *)
Definition reshape3 {A} (l : list A) (d0 d1 d2 : nat)
  : result (list (list (list A))) :=
  if decide (length l = d0 * d1 * d2)
  then Ok (chunks d1 d0 (chunks d2 (d0 * d1) l))
  else Raise InvalidArgumentError.

(** ** Inverse bin scatter *)

(** Accumulation loop of [tf.scatter_nd] for index pairs (batch, element):
    every update is added to the addressed row of the output, in order; an
    index out of range is an error (CPU kernel). *)
Fixpoint scatter_add (acc : list mat) (indices : list (nat * nat))
    (updates : list vec) : result (list mat) :=
  match indices, updates with
  | [], [] => Ok acc
  | (b, i) :: indices', u :: updates' =>
      match acc !! b with
      | Some ev =>
          match ev !! i with
          | Some row =>
              scatter_add (<[b := <[i := vadd row u]> ev]> acc) indices' updates'
          | None => Raise InvalidArgumentError
          end
      | None => Raise InvalidArgumentError
      end
  | _, _ => Raise InvalidArgumentError
  end.

(** [tf.scatter_nd(indices, updates, shape=(d0, d1, d2))] with index depth 2:
    a zero tensor of the given shape receives the updates. *)
Definition scatter_nd (indices : list (list (nat * nat)))
    (updates : list (list vec)) (d0 d1 d2 : nat) : result (list mat) :=
  if decide (length <$> indices = length <$> updates)
  then scatter_add (replicate d0 (replicate d1 (zeros d2)))
         (concat indices) (concat updates)
  else Raise InvalidArgumentError.

(** [reverse_lsh(bins_split, points_binned_enc)], model.py:83-106. *)
Definition reverse_lsh (bins_split : list (list (list nat)))
    (points_binned_enc : list (list (list vec))) : result (list mat) :=
  let '(batch_dim, shp1, shp2, n_features) := shape4 points_binned_enc in
  let n_points := shp1 * shp2 in
  bins_split_flat ← reshape2 (concat (concat bins_split)) batch_dim n_points;
  points_binned_enc_flat ←
    reshape3 (concat (concat (concat points_binned_enc)))
      batch_dim n_points n_features;
  batch_inds ←
    reshape2 (concat (replicate n_points <$> seq 0 batch_dim)) batch_dim n_points;
  let bins_split_flat_batch := zip_with zip batch_inds bins_split_flat in
  scatter_nd bins_split_flat_batch points_binned_enc_flat
    batch_dim n_points n_features.

(** ** Pairwise kernels *)

(** [tf.matmul(a, b, False, True)] on rank-2 tensors: rows against rows. *)
Definition matmul_nt (a b : mat) : result mat :=
  if decide (Forall (fun r => length r = ncols b) a)
  then Ok ((fun r => dot r <$> b) <$> a)
  else Raise InvalidArgumentError.

(** [pairwise_gaussian_dist(A, B)], model.py:26-37, on one bin. *)
Definition pairwise_gaussian_dist (A B : mat) : result mat :=
  let na := (fun r => vsum ((fun x => x * x)%R <$> r)) <$> A in
  let nb := (fun r => vsum ((fun x => x * x)%R <$> r)) <$> B in
  ab ← matmul_nt A B;
  Ok (zip_with (fun na_i row =>
        zip_with (fun ab_ij nb_j =>
          sqrt (Rmax (na_i - 2 * ab_ij + nb_j) (1 / 1000000)))%R row nb)
      na ab).

(** [pairwise_learnable_dist(A, B, ffn)], model.py:39-54, on one bin:
    [res[i, j] = ffn(concat(A[i], B[j]))]. *)
Definition pairwise_learnable_dist (A B : mat) (ffn : vec -> vec)
  : list (list vec) :=
  (fun a => (fun b => ffn (a ++ b)) <$> B) <$> A.

(** ** Top-k neighbours of the sparse graph builder *)

(** [tf.gather_nd(params, indices, batch_dims=1)] for indices of shape
    (bins, elements, 1): entry [e] of bin [b] is [params[b][indices[b][e]]]. *)
Fixpoint gather_nd_batch {X} (params : list (list X)) (indices : list (list nat))
  : result (list (list X)) :=
  match params, indices with
  | [], [] => Ok []
  | p :: ps, ix :: ixs =>
      g ← traverse (gather1 p) ix; gs ← gather_nd_batch ps ixs; Ok (g :: gs)
  | _, _ => Raise InvalidArgumentError
  end.

(** [t[:, :, i]] of a rank-3 tensor. *)
Definition slice_last {X} (dflt : X) (i : nat) (t : list (list (list X)))
  : list (list X) :=
  fmap (M:=list) (fmap (M:=list) (fun l => nth i l dflt)) t.

(** [tf.transpose(t, [1, 2, 0])] of a tensor of shape (k, d1, d2). *)
Definition transpose_120 {X} (dflt : X) (d1 d2 : nat) (t : list (list (list X)))
  : list (list (list X)) :=
  (fun b => (fun e => (fun ti => nth e (nth b ti []) dflt) <$> t) <$> seq 0 d2)
    <$> seq 0 d1.

Section TopK.
Context {A : Type} (leb : A -> A -> bool) (d : A).

(** Insertion into a list of (value, position) pairs sorted by decreasing
    value.  The pair comes from a smaller position than the ones in the
    list, and goes before the first value that is not larger. *)
Fixpoint insert_desc (x : A) (i : nat) (l : list (A * nat)) : list (A * nat) :=
  match l with
  | [] => [(x, i)]
  | (y, j) :: l' =>
      if leb y x then (x, i) :: l else (y, j) :: insert_desc x i l'
  end.

(** The order of the pairs [tf.nn.top_k] returns: a pair is followed by a
    value that is not larger. *)
Definition desc (p q : A * nat) : Prop := leb q.1 p.1 = true.

Definition sort_desc (l : list (A * nat)) : list (A * nat) :=
  foldr (fun p acc => insert_desc p.1 p.2 acc) [] l.

(** [tf.nn.top_k(row, k)] on one row: the [k] largest values with their
    positions, largest first, equal values by increasing position.  The
    row needs at least [k] entries. *)
Definition top_k (k : nat) (row : list A) : result (list (A * nat)) :=
  if decide (k <= length row)
  then Ok (take k (sort_desc (zip row (seq 0 (length row)))))
  else Raise InvalidArgumentError.

(** Lines 367-393 of [subpoints_to_sparse_matrix]: from the similarity
    matrices [dm] of the bins to the index pairs and the values of the
    sparse matrix. *)
Definition knn_edges (num_neighbors : nat) (subindices : list (list nat))
    (dm : list (list (list A))) : result (list (nat * nat) * list A) :=
  let nbins := length dm in
  let nelems := length (hd [] dm) in
  top_k_all ← traverse (traverse (top_k num_neighbors)) dm;
  let top_k_values :=
    fmap (M:=list) (fmap (M:=list) (fmap (M:=list) fst)) top_k_all in
  let top_k_indices :=
    fmap (M:=list) (fmap (M:=list) (fmap (M:=list) snd)) top_k_all in
  let top_k_vals := concat top_k_values in
  indices_gathered ←
    traverse (fun i => gather_nd_batch subindices (slice_last 0 i top_k_indices))
      (seq 0 num_neighbors);
  let indices_gathered := transpose_120 0 nbins nelems indices_gathered in
  let func (i : nat) : result (list (nat * nat) * list A) :=
    let dst_ind := concat (slice_last 0 i indices_gathered) in
    src_ind ← (if decide (length (concat subindices) = nbins * nelems)
               then Ok (concat subindices) else Raise InvalidArgumentError);
    let src_dst_inds := zip src_ind dst_ind in
    Ok (src_dst_inds, (fun r => nth i r d) <$> top_k_vals) in
  ret ← traverse func (seq 0 num_neighbors);
  let inds := concat (fst <$> ret) in
  let vals := concat (snd <$> ret) in
  Ok (inds, vals).
End TopK.

(** ** Sparse LSH graph builder *)

Module SparseHashedNNDistance.

Record t : Type := mk {
  num_neighbors : nat;
  dist_mult : R;
  distance_dim : nat;
  max_num_bins : nat;
  bin_size : nat;
  (** weight created by [build]: shape (distance_dim, max_num_bins // 2) *)
  codebook_random_rotations : mat
}.

(** [subpoints_to_sparse_matrix(subindices, subpoints)], model.py:359-393. *)
Definition subpoints_to_sparse_matrix (self : t) (subindices : list (list nat))
    (subpoints : list mat) : result (list (nat * nat) * list R) :=
  dm ← traverse (fun bin => pairwise_gaussian_dist bin bin) subpoints;
  let dm := fmap (M:=list) (fmap (M:=list)
              (fmap (M:=list) (fun x => exp (- dist_mult self * x)))) dm in
  knn_edges Rleb 0%R (num_neighbors self) subindices dm.

(** [construct_sparse_dm_batch(points)], model.py:395-419. *)
Definition construct_sparse_dm_batch (self : t) (points : mat)
  : result (list (list nat) * (list (nat * nat) * list R)) :=
  let n_points := length points in
  n_bins ← floordiv n_points (bin_size self);
  mul ← matmul points (take_cols (n_bins / 2) (codebook_random_rotations self));
  let cmul := zip_with app mul (vneg <$> mul) in
  bins_split ← split_indices_to_bins Rltb cmul n_bins (bin_size self);
  parts ← gather points bins_split;
  sparse_distance_matrix ← subpoints_to_sparse_matrix self bins_split parts;
  Ok (bins_split, sparse_distance_matrix).

End SparseHashedNNDistance.

(** ** Keyword arguments *)

(** [d.pop(key)] *)
Definition pop (key : string) (d : gmap string value)
  : result (value * gmap string value) :=
  match d !! key with
  | Some v => Ok (v, delete key d)
  | None => Raise (KeyError (VStr key))
  end.

(** [d.pop(key, default)] *)
Definition pop_default (key : string) (default : value) (d : gmap string value)
  : value * gmap string value :=
  match d !! key with
  | Some v => (v, delete key d)
  | None => (default, d)
  end.

(** Keyword arguments accepted by [tf.keras.layers.Layer.__init__]; any other
    keyword is a [TypeError]. *)
Definition layer_kwargs : list string :=
  ["trainable"; "name"; "dtype"; "dynamic"; "input_dim"; "input_shape";
   "batch_input_shape"; "batch_size"; "weights"; "activity_regularizer";
   "autocast"; "implementation"].

Definition Layer_init (kwargs : gmap string value) : result unit :=
  if forallb (fun k => bool_decide (k ∈ layer_kwargs)) (map_to_list kwargs).*1
  then Ok tt else Raise TypeError.

(** ** Dense graph builder *)

Module GraphBuilderDense.

Record t : Type := mk {
  dist_mult : R;
  distance_dim : nat;
  max_num_bins : nat;
  bin_size : nat;
  clip_value_low : R;
  kernel : value;
  (** the attribute exists only for the learnable kernel *)
  ffn_dist : option (vec -> vec);
  (** weight created by [build]: shape (distance_dim, max_num_bins // 2) *)
  codebook_random_rotations : mat
}.

(** [GraphBuilderDense.__init__], model.py:423-437.  [ffn] and [codebook]
    are the learned and the random parameters the layer would create. *)
Definition init (clip_value_low : R) (distance_dim max_num_bins bin_size : nat)
    (dist_mult : R) (kwargs : gmap string value)
    (ffn : vec -> vec) (codebook : mat) : result t :=
  '(kernel, kwargs) ← pop "kernel" kwargs;
  let ffn_dist :=
    if is_str kernel "learnable" then Some ffn
    else if is_str kernel "gaussian" then None
    else None in
  _ ← Layer_init kwargs;
  Ok (mk dist_mult distance_dim max_num_bins bin_size clip_value_low
        kernel ffn_dist codebook).

(** Lines 457-461 of [call] for one batch entry: the hash scores. *)
Definition hash_scores (self : t) (n_bins : nat) (x_dist : mat) : result mat :=
  mul ← matmul x_dist (take_cols (n_bins / 2) (codebook_random_rotations self));
  Ok (zip_with app mul (vneg <$> mul)).

(** The two [tf.einsum] calls of lines 476-477 on one bin: row [i] and
    column [j] of the similarity tensor are multiplied by the mask. *)
Definition mask_rows_cols (dm : list (list vec)) (m : vec) : list (list vec) :=
  let dm1 := zip_with (fun row m_i => scale m_i <$> row) dm m in
  (fun row => zip_with (fun e m_j => scale m_j e) row m) <$> dm1.

(** Output of [call]: bins_split, x_features_binned, dm, msk_f_binned. *)
Record output : Type := mk_output {
  bins_split : list (list (list nat));
  x_features_binned : list (list mat);
  dm : list (list (list (list vec)));
  msk_f_binned : list (list (list vec))
}.

(** [tf.expand_dims(tf.cast(msk, dtype), -1)] *)
Definition expand_mask (msk : list (list bool)) : list mat :=
  fmap (M:=list) (fmap (M:=list) (fun m => [cast_bool m])) msk.

(** [tf.squeeze(msk_f_binned, axis=-1)]: the last axis has one entry. *)
Definition squeeze (t : list (list mat)) : list (list vec) :=
  fmap (M:=list) (fmap (M:=list) (fmap (M:=list) (hd 0%R))) t.

(** Lines 468-469: the learnable kernel followed by [elu], bin by bin. *)
Definition learnable_kernel (ffn : vec -> vec) (x_dist_binned : list (list mat))
  : list (list (list (list vec))) :=
  fmap (M:=list) (fmap (M:=list) (fun bin =>
    fmap (M:=list) (fmap (M:=list) (fmap (M:=list) elu))
      (pairwise_learnable_dist bin bin ffn))) x_dist_binned.

(** Lines 471-473: the Gaussian kernel, bin by bin (a rank 4 tensor). *)
Definition gaussian_kernel (self : t) (x_dist_binned : list (list mat))
  : result (list (list mat)) :=
  traverse (traverse (fun bin =>
    d ← pairwise_gaussian_dist bin bin;
    Ok (fmap (M:=list) (fmap (M:=list) (fun x =>
          clip_by_value (exp (- dist_mult self * x)) (clip_value_low self) 1)) d)))
    x_dist_binned.

(** [GraphBuilderDense.call(x_dist, x_features, msk)], model.py:449-479. *)
Definition call (self : t) (x_dist x_features : list mat)
    (msk : list (list bool)) : result output :=
  let msk_f := expand_mask msk in
  let n_points := length (hd [] x_dist) in
  n_bins ← floordiv n_points (bin_size self);
  cmul ← traverse (hash_scores self n_bins) x_dist;
  bins_split ← split_indices_to_bins_batch Rltb cmul n_bins (bin_size self) msk;
  x_dist_binned ← gather_batch x_dist bins_split;
  x_features_binned ← gather_batch x_features bins_split;
  msk_f_binned ← gather_batch msk_f bins_split;
  if is_str (kernel self) "learnable" then
    match ffn_dist self with
    | Some ffn =>
        let dm := learnable_kernel ffn x_dist_binned in
        let dm := zip_with (zip_with mask_rows_cols) dm (squeeze msk_f_binned) in
        Ok (mk_output bins_split x_features_binned dm msk_f_binned)
    | None => Raise TypeError
    end
  else if is_str (kernel self) "gaussian" then
    (* the similarity tensor has rank 4 here, and the einsum equation
       "abijk,abi->abijk" asks for rank 5 *)
    _ ← gaussian_kernel self x_dist_binned;
    Raise ValueError
  else Raise (UnboundLocalError "dm").

End GraphBuilderDense.

(** ** Convolution layer selection *)

(** The layer objects [get_conv_layer] can build, with the attributes their
    constructors take from the keyword arguments. *)
Inductive conv_layer : Type :=
| MPNNNodeFunction_obj (output_dim hidden_dim num_layers activation : value)
| GHConvDense_obj (activation output_dim normalize_degrees : value).

(** [GHConvDense.__init__], model.py:209-214. *)
Definition GHConvDense_init (kwargs : gmap string value) : result conv_layer :=
  '(activation, kwargs) ← pop "activation" kwargs;
  '(output_dim, kwargs) ← pop "output_dim" kwargs;
  let '(normalize_degrees, kwargs) := pop_default "normalize_degrees" (VBool true) kwargs in
  _ ← Layer_init kwargs;
  Ok (GHConvDense_obj activation output_dim normalize_degrees).

(** [MPNNNodeFunction.__init__], model.py:247-255. *)
Definition MPNNNodeFunction_init (kwargs : gmap string value) : result conv_layer :=
  '(output_dim, kwargs) ← pop "output_dim" kwargs;
  '(hidden_dim, kwargs) ← pop "hidden_dim" kwargs;
  '(num_layers, kwargs) ← pop "num_layers" kwargs;
  '(activation, kwargs) ← pop "activation" kwargs;
  _ ← Layer_init kwargs;
  Ok (MPNNNodeFunction_obj output_dim hidden_dim num_layers activation).

(** The [classes] dictionary of [get_conv_layer]. *)
Definition classes (class_name : value)
  : result (gmap string value -> result conv_layer) :=
  if is_str class_name "MPNNNodeFunction" then Ok MPNNNodeFunction_init
  else if is_str class_name "GHConvDense" then Ok GHConvDense_init
  else Raise (KeyError class_name).

(** [get_conv_layer(config_dict)], model.py:272-281. *)
Definition get_conv_layer (config_dict : gmap string value) : result conv_layer :=
  '(class_name, config_dict) ← pop "type" config_dict;
  conv_cls ← classes class_name;
  conv_cls config_dict.

(** ** Input encoding *)

(** Truncation of a real towards zero. *)
Definition trunc (x : R) : Z :=
  if decide (0 <= x)%R then Int_part x else (- Int_part (- x))%Z.

(** [tf.cast(x, tf.int32)] of a float: truncation towards zero; a value out
    of the int32 range gives the "integer indefinite" value [-2^31] of the
    x86 conversion. *)
Definition cast_int32 (x : R) : Z :=
  let z := trunc x in
  if decide (- 2 ^ 31 <= z < 2 ^ 31)%Z then z else (- 2 ^ 31)%Z.

(** [tf.one_hot(idx, depth)] as floats: an index outside [0, depth) gives a
    row of zeros. *)
Definition one_hot (idx : Z) (depth : nat) : vec :=
  (fun j => if decide (Z.of_nat j = idx) then 1%R else 0%R) <$> seq 0 depth.

Module InputEncoding.

(** The categorical index of an element: [tf.cast(X[b, i, 0], tf.int32)];
    an element without features has no entry 0. *)
Definition type_index (x : vec) : result Z :=
  match x with
  | [] => Raise InvalidArgumentError
  | x0 :: _ => Ok (cast_int32 x0)
  end.

(** One element of [InputEncoding.call]. *)
Definition encode (num_input_classes : nat) (x : vec) : result vec :=
  idx ← type_index x;
  let Xid := one_hot idx num_input_classes in
  let Xprop := drop 1 x in
  Ok (Xid ++ Xprop).

(** [InputEncoding.call(X)], model.py:116-124. *)
Definition call (num_input_classes : nat) (X : list mat) : result (list mat) :=
  traverse (traverse (encode num_input_classes)) X.

End InputEncoding.

Module InputEncodingCMS.

(** [X[b, i, j]]; the index has to be in range. *)
Definition feature (x : vec) (j : nat) : result R :=
  match x !! j with
  | Some v => Ok v
  | None => Raise InvalidArgumentError
  end.

(** One element of [InputEncodingCMS.call]. *)
Definition encode (num_input_classes : nat) (x : vec) : result vec :=
  idx ← InputEncoding.type_index x;
  let Xid := one_hot idx num_input_classes in
  x1 ← feature x 1; x2 ← feature x 2; x3 ← feature x 3; x4 ← feature x 4;
  x5 ← feature x 5; x6 ← feature x 6; x10 ← feature x 10; x12 ← feature x 12;
  Ok (Xid ++ [ln (x1 + 1); sinh x2; cosh x2; sin x3; cos x3; ln (x4 + 1);
              x5 * 10; x6 * 10; sin x10; cos x10; sin x12; cos x12]%R ++ x).

(** [InputEncodingCMS.call(X)], model.py:141-169. *)
Definition call (num_input_classes : nat) (X : list mat) : result (list mat) :=
  traverse (traverse (encode num_input_classes)) X.

End InputEncodingCMS.

(** ** Convolution layers *)

(** Elementwise product of a rank-2 tensor with a column of shape (n, 1),
    the way [x * msk] broadcasts. *)
Definition mul_col (x : mat) (col : mat) : mat :=
  zip_with (fun row m => (fun v => v * hd 0 m)%R <$> row) x col.

(** A function applied to every entry of a rank-2 tensor. *)
Definition map_entries (f : R -> R) (m : mat) : mat :=
  fmap (M:=list) (fmap (M:=list) f) m.

(** Elementwise operation on two rank-2 tensors of one shape. *)
Definition map2 (op : R -> R -> R) (a b : mat) : mat :=
  zip_with (zip_with op) a b.

Module GHConvDense.

Record t : Type := mk {
  activation : R -> R;
  output_dim : nat;
  normalize_degrees : bool;
  (** weights created by [build] *)
  W_t : mat;
  b_t : vec;
  W_h : mat;
  theta : mat
}.

(** Line 241: [tf.nn.sigmoid(tf.linalg.matmul(x, self.W_t) + self.b_t)]. *)
Definition gate (self : t) (x : mat) : result mat :=
  xw ← matmul x (W_t self);
  Ok (fmap (M:=list)
        (fun row => fmap (M:=list) sigmoid_f32 (zip_with Rplus row (b_t self))) xw).

(** Lines 229-232: the degree normalisation, a column of shape (n, 1). *)
Definition norm (adj msk : mat) : mat :=
  let in_degrees :=
    (fun row => clip_by_value (vsum (Rabs <$> row)) 0 1000) <$> adj in
  mul_col ((fun deg => [Rpower (deg + 1 / 1000000) (- (1 / 2))]%R) <$> in_degrees) msk.

(** [GHConvDense.call((x, adj, msk))], model.py:225-244, on one bin. *)
Definition call (self : t) (x adj msk : mat) : result mat :=
  f_hom ← matmul (mul_col x msk) (theta self);
  let f_hom := mul_col f_hom msk in
  f_hom ← (if normalize_degrees self
           then
             let norm := norm adj msk in
             r ← matmul adj (mul_col f_hom norm);
             Ok (mul_col r norm)
           else matmul adj f_hom);
  f_het ← matmul (mul_col x msk) (W_h self);
  gate ← gate self x;
  let out :=
    map2 Rplus (map2 Rmult gate f_hom)
               (map2 Rmult (map_entries (fun g => 1 - g)%R gate) f_het) in
  Ok (mul_col (map_entries (activation self) out) msk).

End GHConvDense.

(** [tf.reduce_mean(t, axis=-2)] of a tensor of shape (n, K): the mean of
    the rows. *)
Definition reduce_mean_rows (t : mat) : vec :=
  (fun c => vsum (column c t) / INR (length t))%R <$> seq 0 (ncols t).

Module MPNNNodeFunction.

Record t : Type := mk {
  (** the feed-forward stack built by [__init__], applied to each node *)
  ffn : vec -> vec
}.

(** [tf.concat([a, b], axis=-1)] of two rank-2 tensors. *)
Definition concat_cols (a b : mat) : result mat :=
  if decide (length a = length b) then Ok (zip_with app a b)
  else Raise InvalidArgumentError.

(** Line 259 for one node: the mean over the neighbour axis of the edge
    entries [adj[i, j, :]]. *)
Definition avg_message (adj : list (list vec)) : mat :=
  reduce_mean_rows <$> adj.

(** [MPNNNodeFunction.call((x, adj, msk))], model.py:257-261, on one bin;
    [adj] has shape (n, n, K). *)
Definition call (self : t) (x : mat) (adj : list (list vec)) (msk : mat)
  : result mat :=
  x2 ← concat_cols x (avg_message adj);
  let x2 := mul_col x2 msk in
  Ok (fmap (M:=list) (ffn self) x2).

End MPNNNodeFunction.

(** ** Rank-3 helpers of the top-level models *)

(** A per-element layer (a stack of [Dense] layers acts on the last axis). *)
Definition map_rows3 (f : vec -> vec) (t : list mat) : list mat :=
  fmap (M:=list) (fmap (M:=list) f) t.

Definition map_entries3 (f : R -> R) (t : list mat) : list mat :=
  map_rows3 (fmap (M:=list) f) t.

(** [t * msk_input] with [msk_input] of shape (B, N, 1). *)
Definition mul_mask (t msk_input : list mat) : list mat :=
  zip_with mul_col t msk_input.

(** [t[:, :, a:b]] *)
Definition slice_cols (a b : nat) (t : list mat) : list mat :=
  map_rows3 (fun row => take (b - a) (drop a row)) t.

(** [tf.nn.softmax] along the last axis. *)
Definition softmax (v : vec) : vec :=
  (fun x => exp x / vsum (exp <$> v))%R <$> v.

(** The (B, N) part of the shape of a rank-3 tensor. *)
Definition shape2 (t : list mat) : list nat := length <$> t.

(** [tf.concat(ts, axis=-1)] of rank-3 tensors: the list is not empty and
    the tensors agree on the batch and element axes. *)
Fixpoint concat_last (ts : list (list mat)) : result (list mat) :=
  match ts with
  | [] => Raise ValueError
  | [t] => Ok t
  | t :: ts' =>
      r ← concat_last ts';
      if decide (shape2 t = shape2 r) then Ok (zip_with (zip_with app) t r)
      else Raise InvalidArgumentError
  end.

(** [X[:, :, 0] != 0] for one element. *)
Definition valid (x : vec) : result bool :=
  match x with
  | [] => Raise InvalidArgumentError
  | x0 :: _ => Ok (bool_decide (x0 <> 0%R))
  end.

(** [tf.expand_dims(tf.cast(msk, tf.float32), -1)] *)
Definition mask_input (msk : list (list bool)) : list mat :=
  fmap (M:=list) (fmap (M:=list) (fun m => [cast_bool m])) msk.

(** The named outputs of the models. *)
Record outputs : Type := mk_outputs {
  cls : list mat;
  charge : list mat;
  pt : list mat;
  eta : list mat;
  sin_phi : list mat;
  cos_phi : list mat;
  energy : list mat
}.

(** A graph layer as the models use it: from the element features and the
    mask to new element features, for the same batch and the same elements
    ([CombinedGraphLayer] returns the output of [reverse_lsh], the sparse
    [EncoderDecoderGNN] acts on the feature axis). *)
Record graph_layer (G : Type) : Type := mk_graph_layer {
  run : list mat -> G -> result (list mat);
  run_shape : forall x g y, run x g = Ok y -> shape2 y = shape2 x
}.
Arguments run {G} _ _ _.
Arguments run_shape {G} _ _ _ _ _.

(** ** Dense top-level model *)

Module PFNetDense.

Inductive input_encoder : Type :=
| EncCMS (num_input_classes : nat)
| EncDefault (num_input_classes : nat).

Definition run_encoder (e : input_encoder) (X : list mat) : result (list mat) :=
  match e with
  | EncCMS n => InputEncodingCMS.call n X
  | EncDefault n => InputEncoding.call n X
  end.

(** Lines 771-774 of [__init__]: [self.enc] is set for two encoding names. *)
Definition select_encoder (input_encoding : value) (num_input_classes : nat)
  : option input_encoder :=
  if is_str input_encoding "cms" then Some (EncCMS num_input_classes)
  else if is_str input_encoding "default" then Some (EncDefault num_input_classes)
  else None.

Inductive momentum_head : Type :=
| Separate (ffns : list (vec -> vec))
| Joint (ffn : vec -> vec).

Record t : Type := mk {
  multi_output : bool;
  activation : R -> R;
  focal_loss_from_logits : bool;
  skip_connection : bool;
  regression_use_classification : bool;
  enc : option input_encoder;
  ffn_enc_id : vec -> vec;
  ffn_enc_reg : vec -> vec;
  momentum_mult : vec;
  cg_id : list (graph_layer (list (list bool)));
  cg_reg : list (graph_layer (list (list bool)));
  ffn_id : vec -> vec;
  ffn_charge : vec -> vec;
  ffn_momentum : momentum_head
}.

Inductive output : Type :=
| Named (ret : outputs)
| Concatenated (t : list mat).

(** The loops of lines 826-831 and 836-841: each layer takes the encoding
    of the one before, and all encodings are kept. *)
Fixpoint run_layers (cgs : list (graph_layer (list (list bool))))
    (x : list mat) (msk : list (list bool)) : result (list (list mat)) :=
  match cgs with
  | [] => Ok []
  | cg :: cgs' =>
      y ← run cg x msk; ys ← run_layers cgs' y msk; Ok (y :: ys)
  end.

(** [encs[-1]] *)
Definition last_encoding (encs : list (list mat)) : result (list mat) :=
  match last encs with
  | Some e => Ok e
  | None => Raise IndexError
  end.

(** Lines 848-849: the sum over the elements divided by the number of
    elements of the input, repeated for every element. *)
Definition graph_sum (X : list mat) (e : list mat) : list mat :=
  let n := length (hd [] X) in
  fmap (M:=list)
    (fun ev => replicate n
       ((fun c => vsum (column c ev) / INR n)%R <$> seq 0 (ncols ev))) e.

(** [self.momentum_mult * pred_momentum]: the widths agree. *)
Definition mul_momentum (w : vec) (t : list mat) : result (list mat) :=
  if decide (Forall (Forall (fun row => length row = length w)) t)
  then Ok (map_rows3 (zip_with Rmult w) t)
  else Raise InvalidArgumentError.

(** [PFNetDense.call(inputs)], model.py:812-906 (the debugging entries are
    left out). *)
Definition call (self : t) (X : list mat) : result output :=
  msk ← traverse (traverse valid) X;
  let msk_input := mask_input msk in
  encoder ← (match enc self with
             | Some e => Ok e
             | None => Raise (AttributeError "enc")
             end);
  enc ← run_encoder encoder X;
  let enc_id := map_entries3 (activation self) (map_rows3 (ffn_enc_id self) enc) in
  encs_id ← run_layers (cg_id self) enc_id msk;
  let enc_reg := map_entries3 (activation self) (map_rows3 (ffn_enc_reg self) enc) in
  encs_reg ← run_layers (cg_reg self) enc_reg msk;
  last_id ← last_encoding encs_id;
  let dec_input_cls :=
    (if skip_connection self then [enc] else []) ++ encs_id ++ [graph_sum X last_id] in
  dec_output_id ← concat_last dec_input_cls;
  let dec_output_id := mul_mask dec_output_id msk_input in
  let out_id_logits := mul_mask (map_rows3 (ffn_id self) dec_output_id) msk_input in
  let out_id_softmax :=
    if focal_loss_from_logits self then out_id_logits
    else map_entries3 (fun p => clip_by_value p 0 1) (map_rows3 softmax out_id_logits) in
  let out_charge := mul_mask (map_rows3 (ffn_charge self) dec_output_id) msk_input in
  last_reg ← last_encoding encs_reg;
  let dec_input_reg :=
    (if skip_connection self then [enc] else [])
    ++ (if regression_use_classification self then [out_id_logits] else [])
    ++ encs_reg ++ [graph_sum X last_reg] in
  dec_output_reg ← concat_last dec_input_reg;
  let dec_output_reg := mul_mask dec_output_reg msk_input in
  pred_momentum ←
    match ffn_momentum self with
    | Separate ffns =>
        p ← concat_last ((fun ffn => map_rows3 ffn dec_output_reg) <$> ffns);
        Ok (mul_mask p msk_input)
    | Joint ffn => Ok (mul_mask (map_rows3 ffn dec_output_reg) msk_input)
    end;
  pred_momentum ← mul_momentum (momentum_mult self) pred_momentum;
  let out_charge := map_entries3 (fun c => clip_by_value c (-2) 2) out_charge in
  let ret := {|
    cls := out_id_softmax;
    charge := out_charge;
    pt := map_entries3 (fun p => exp (clip_by_value p (-6) 8))
            (slice_cols 0 1 pred_momentum);
    eta := slice_cols 1 2 pred_momentum;
    sin_phi := slice_cols 2 3 pred_momentum;
    cos_phi := slice_cols 3 4 pred_momentum;
    energy := map_entries3 (fun p => exp (clip_by_value p (-6) 8))
                (slice_cols 4 5 pred_momentum)
  |} in
  if multi_output self then Ok (Named ret)
  else
    t ← concat_last [cls ret; charge ret; pt ret; eta ret; sin_phi ret;
                     cos_phi ret; energy ret];
    Ok (Concatenated t).

End PFNetDense.

(** ** Sparse top-level model *)

(** A [tf.SparseTensor] of rank 3. *)
Record sparse_tensor : Type := mk_sparse {
  indices : list (nat * nat * nat);
  values : list R;
  dense_shape : nat * nat * nat
}.

Module PFNet.

Record t : Type := mk {
  skip_connection : bool;
  multi_output : bool;
  return_matrix : bool;
  num_input_classes : nat;
  (** [SparseHashedNNDistance.call]: the adjacency and the bins *)
  dist : list mat -> result (sparse_tensor * list (list (list nat)));
  gnn_id : graph_layer sparse_tensor;
  gnn_reg : graph_layer sparse_tensor;
  layer_id : vec -> vec;
  layer_charge : vec -> vec;
  layer_momentum : vec -> vec
}.

Inductive output : Type :=
| Named (ret : outputs) (matrix : option (sparse_tensor * list (list (list nat))))
| Concatenated (t : list mat).

(** [PFNet.call(inputs)], model.py:618-666. *)
Definition call (self : t) (X : list mat) : result output :=
  msk ← traverse (traverse valid) X;
  let msk_input := mask_input msk in
  enc ← InputEncoding.call (num_input_classes self) X;
  '(dm, bins) ← dist self enc;
  x_id ← run (gnn_id self) enc dm;
  to_decode ← concat_last ((if skip_connection self then [enc] else []) ++ [x_id]);
  let out_id_logits := mul_mask (map_rows3 (layer_id self) to_decode) msk_input in
  let out_charge := mul_mask (map_rows3 (layer_charge self) to_decode) msk_input in
  reg_input ← concat_last [enc; out_id_logits];
  x_reg ← run (gnn_reg self) reg_input dm;
  to_decode ← concat_last ((if skip_connection self then [enc] else [])
                           ++ [out_id_logits; x_reg]);
  let pred_momentum := mul_mask (map_rows3 (layer_momentum self) to_decode) msk_input in
  let out_id_softmax :=
    map_entries3 (fun p => clip_by_value p 0 1) (map_rows3 softmax out_id_logits) in
  let out_charge := map_entries3 (fun c => clip_by_value c (-2) 2) out_charge in
  if multi_output self then
    let ret := {|
      cls := out_id_softmax;
      charge := out_charge;
      pt := map_entries3 (fun p => exp (clip_by_value p (-4) 4))
              (slice_cols 0 1 pred_momentum);
      eta := slice_cols 1 2 pred_momentum;
      sin_phi := slice_cols 2 3 pred_momentum;
      cos_phi := slice_cols 3 4 pred_momentum;
      energy := map_entries3 (fun p => exp (clip_by_value p (-5) 6))
                  (slice_cols 4 5 pred_momentum)
    |} in
    Ok (Named ret (if return_matrix self then Some (dm, bins) else None))
  else
    t ← concat_last [out_id_softmax; out_charge; pred_momentum];
    Ok (Concatenated t).

End PFNet.



(** Entry [(b, i)] of a rank-3 tensor, if it is in range. *)
Definition row_at (t : list (list (list R))) (b i : nat) : option vec :=
  t !! b ≫= fun ev => ev !! i.

(** A rank-3 tensor of shape (B, N, F), and a bin assignment of shape
    (B, nbins, bin_size). *)
Definition has_shape3 {A} (t : list (list (list A))) (d1 d2 : nat) : Prop :=
  Forall (fun ev => length ev = d1 /\ Forall (fun r => length r = d2) ev) t.

(** ** Statements under test *)

(** Masked and valid elements of one event never share a bin index: the
    reading of "pushed into a disjoint overflow bin" on the bin indices that
    [GraphBuilderDense.call] sorts. *)
Definition masked_bins_disjoint (self : GraphBuilderDense.t)
    (x_dist : mat) (msk : list bool) : Prop :=
  forall n_bins cmul ks i j ki kj,
    floordiv (length x_dist) (GraphBuilderDense.bin_size self) = Ok n_bins ->
    GraphBuilderDense.hash_scores self n_bins x_dist = Ok cmul ->
    bin_indices Rltb n_bins cmul msk = Ok ks ->
    msk !! i = Some true -> msk !! j = Some false ->
    ks !! i = Some ki -> ks !! j = Some kj ->
    ki <> kj.

(** A tensor is zero at element [(b, i)]. *)
Definition zero_at (t : list mat) (b i : nat) : Prop :=
  forall v, row_at t b i = Some v -> Forall (fun a => a = 0%R) v.

(** C1 as stated: at every masked element every named output is zero. *)
Definition masked_outputs_zero (X : list mat) (ret : outputs) : Prop :=
  forall b i x, row_at X b i = Some x -> hd 0%R x = 0%R ->
    zero_at (cls ret) b i /\ zero_at (charge ret) b i /\ zero_at (pt ret) b i
    /\ zero_at (eta ret) b i /\ zero_at (sin_phi ret) b i
    /\ zero_at (cos_phi ret) b i /\ zero_at (energy ret) b i.

(** What the models compute at a masked element: the four outputs taken
    after the mask are zero, [pt] and [energy] are [exp 0 = 1], and the
    class scores are the softmax of zero logits ([uniform] is false when
    the logits themselves are returned). *)
Definition masked_outputs_computed (uniform : bool) (X : list mat) (ret : outputs)
  : Prop :=
  forall b i x, row_at X b i = Some x -> hd 0%R x = 0%R ->
    zero_at (charge ret) b i /\ zero_at (eta ret) b i
    /\ zero_at (sin_phi ret) b i /\ zero_at (cos_phi ret) b i
    /\ (forall v, row_at (pt ret) b i = Some v -> Forall (fun a => a = 1%R) v)
    /\ (forall v, row_at (energy ret) b i = Some v -> Forall (fun a => a = 1%R) v)
    /\ (forall v, row_at (cls ret) b i = Some v ->
          Forall (fun a => a = if uniform then (1 / INR (length v))%R else 0%R) v).

(** Every named output has one row per input element. *)
Definition outputs_cover (X : list mat) (ret : outputs) : Prop :=
  Forall (fun t => shape2 t = shape2 X)
    [cls ret; charge ret; pt ret; eta ret; sin_phi ret; cos_phi ret; energy ret].


(** The identity as a graph layer. *)
Definition identity_layer (G : Type) : graph_layer G :=
  mk_graph_layer G (fun x _ => Ok x) (fun x _ y H =>
    match H in (_ = r)
      return (match r with
              | Ok y' => shape2 y' = shape2 x
              | Raise _ => True
              end)
    with
    | eq_refl => eq_refl
    end).

(** Small models for tests: one class feature, identity graph layers,
    constant output heads; the momentum head returns extreme values. *)
Definition pfnet_dense_small : PFNetDense.t :=
  PFNetDense.mk true (fun v => v) false false true
    (Some (PFNetDense.EncDefault 1)) (fun v => v) (fun v => v)
    [1; 1; 1; 1; 1]%R [identity_layer _] [identity_layer _]
    (fun _ => [1; 2]%R) (fun _ => [1]%R)
    (PFNetDense.Joint (fun _ => [1000000; 1; 1; 1; -1000000]%R)).

Definition pfnet_small : PFNet.t :=
  PFNet.mk false true false 1
    (fun _ => Ok (mk_sparse [] [] (0, 0, 0), []))
    (identity_layer _) (identity_layer _)
    (fun _ => [1; 2]%R) (fun _ => [1]%R)
    (fun _ => [1000000; 1; 1; 1; -1000000]%R).

(** A batch of one event with a masked and a valid element. *)
Definition two_elements : list (list (list R)) := [[[0; 5]; [1; 6]]]%R.

(** An unknown graph kernel is refused when the layer is built: the reading
    of "fatal at model-construction time" for [GraphBuilderDense.__init__],
    called as [CombinedGraphLayer.__init__] calls it (the only keyword left
    in [kwargs] is [kernel]). *)
Definition unknown_kernel_refused_at_construction (kernel : value) : Prop :=
  is_str kernel "learnable" = false ->
  is_str kernel "gaussian" = false ->
  forall clip_value_low distance_dim max_num_bins bin_size dist_mult ffn codebook,
  exists e,
    GraphBuilderDense.init clip_value_low distance_dim max_num_bins bin_size
      dist_mult {[ "kernel" := kernel ]} ffn codebook = Raise e.

(** The message-passing step as C8 words it: the message of node [i] is the
    average over the neighbours [j] of the feature vector [x[j]] weighted by
    the adjacency entry [adj[i, j]], and the concatenation of [x[i]] with it
    goes through the feed-forward stack. *)
Definition weighted_neighbor_mean (x : mat) (adj : list (list vec)) : mat :=
  fmap (M:=list)
    (fun adj_i =>
       reduce_mean_rows (zip_with (fun a_ij x_j => scale (hd 0%R a_ij) x_j) adj_i x))
    adj.

Definition mpnn_as_claimed (self : MPNNNodeFunction.t) (x : mat)
    (adj : list (list vec)) : result mat :=
  x2 ← MPNNNodeFunction.concat_cols x (weighted_neighbor_mean x adj);
  Ok (fmap (M:=list) (MPNNNodeFunction.ffn self) x2).

(** A message-passing layer whose feed-forward stack is the identity. *)
Definition mpnn_identity : MPNNNodeFunction.t :=
  MPNNNodeFunction.mk (fun v => v).

(** The adjacency returned by the dense graph builder is zero wherever the
    row element or the column element of the entry is masked. *)
Definition adjacency_masked (out : GraphBuilderDense.output) : Prop :=
  forall b k (dmk : list (list (list R))) (mk : list (list R)) i j row e m,
    GraphBuilderDense.dm out !! b ≫= (fun ev => ev !! k) = Some dmk ->
    GraphBuilderDense.msk_f_binned out !! b ≫= (fun ev => ev !! k) = Some mk ->
    dmk !! i = Some row -> row !! j = Some e ->
    mk !! i = Some m \/ mk !! j = Some m ->
    hd 0%R m = 0%R ->
    Forall (fun a => a = 0%R) e.

(** A dense graph builder for two bins: a one-dimensional distance
    embedding, one random direction, bins of one element. *)
Definition gbd_two_bins : GraphBuilderDense.t :=
  GraphBuilderDense.mk (1 / 10) 1 2 1 0 (VStr "learnable") (Some (fun v => v)) [[1%R]].

(** The same builder with bins of two elements. *)
Definition gbd_bins_of_two : GraphBuilderDense.t :=
  GraphBuilderDense.mk (1 / 10) 1 2 2 0 (VStr "learnable") (Some (fun v => v)) [[1%R]].

(** C3 as stated, for the sparse variant and one batch entry of the dense
    variant: whenever the number of hash score rows is a multiple of
    [bin_size], both functions return bins that are a permutation of the
    row positions. *)
Definition bins_split_permutation_as_claimed (cmul : list (list R))
    (msk : list bool) (n_points bin_size : nat) : Prop :=
  bin_size <> 0 -> (bin_size | n_points) ->
  length cmul = n_points -> length msk = n_points ->
  (exists bins,
      split_indices_to_bins Rltb cmul (n_points / bin_size) bin_size = Ok bins
      /\ concat bins ≡ₚ seq 0 n_points)
  /\ (exists bins,
      split_indices_to_bins_batch Rltb [cmul] (n_points / bin_size) bin_size [msk]
        = Ok [bins]
      /\ concat bins ≡ₚ seq 0 n_points).

(** C7 as stated, for the gate: every component lies strictly between 0
    and 1. *)
Definition gate_strictly_inside (self : GHConvDense.t) (x : mat) : Prop :=
  forall gate, GHConvDense.gate self x = Ok gate ->
    Forall (Forall (fun v => 0 < v < 1)%R) gate.





(** A sparse builder that keeps one neighbour per element. *)
Definition shnn_one_neighbor : SparseHashedNNDistance.t :=
  SparseHashedNNDistance.mk 1 (1 / 10) 1 2 2 [[1%R]].

(** The same builder with two neighbours per element. *)
Definition shnn_two_neighbors : SparseHashedNNDistance.t :=
  SparseHashedNNDistance.mk 2 (1 / 10) 1 2 2 [[1%R]].

(** A gated convolution with one feature and unit weights. *)
Definition ghconv_unit : GHConvDense.t :=
  GHConvDense.mk (fun v => v) 1 true [[1%R]] [0%R] [[1%R]] [[1%R]].

(** ** Statement helpers for the further properties *)

(** Every row of a rank-3 tensor has [n] entries. *)
Definition rows_width (t : list mat) (n : nat) : Prop :=
  Forall (Forall (fun row => length row = n)) t.

(** Small models with three momentum outputs, the default of
    [num_momentum_outputs]. *)
Definition pfnet_dense_three_outputs : PFNetDense.t :=
  PFNetDense.mk true (fun v => v) false false true
    (Some (PFNetDense.EncDefault 1)) (fun v => v) (fun v => v)
    [1; 1; 1]%R [identity_layer _] [identity_layer _]
    (fun _ => [1; 2]%R) (fun _ => [1]%R)
    (PFNetDense.Joint (fun _ => [1; 2; 3]%R)).

Definition pfnet_three_outputs : PFNet.t :=
  PFNet.mk false true false 1
    (fun _ => Ok (mk_sparse [] [] (0, 0, 0), []))
    (identity_layer _) (identity_layer _)
    (fun _ => [1; 2]%R) (fun _ => [1]%R)
    (fun _ => [1; 2; 3]%R).

(** ** Element-wise cross-check model *)

Module DummyNet.

Record t : Type := mk {
  num_input_classes : nat;
  ffn_id : vec -> vec;
  ffn_charge : vec -> vec;
  ffn_momentum : vec -> vec
}.

(** [DummyNet.call(inputs, training)], model.py:953-967. *)
Definition call (self : t) (X : list mat) : result (list mat) :=
  msk ← traverse (traverse valid) X;
  let msk_input := mask_input msk in
  enc ← InputEncoding.call (num_input_classes self) X;
  let out_id_logits := map_rows3 (ffn_id self) enc in
  let out_charge := mul_mask (map_rows3 (ffn_charge self) enc) msk_input in
  dec_output_reg ← concat_last [enc; out_id_logits];
  let pred_momentum :=
    mul_mask (map_rows3 (ffn_momentum self) dec_output_reg) msk_input in
  concat_last [out_id_logits; out_charge; pred_momentum].

End DummyNet.

(** A cross-check model with constant heads. *)
Definition dummynet_small : DummyNet.t :=
  DummyNet.mk 1 (fun _ => [7; 8]%R) (fun _ => [1]%R) (fun _ => [1; 2; 3]%R).

(** ** Training targets ([mlpf/tfmodel/utils.py]) *)

(** The function returned by [targets_multi_output(num_output_classes)],
    utils.py:287-305, applied to [(X, y, w)]; the target dictionary has the
    keys of the model outputs. *)
Definition targets_multi_output {TX TW} (num_output_classes : nat)
    (X : TX) (y : list mat) (w : TW) : result (TX * outputs * TW) :=
  msk ← traverse (traverse valid) y;
  let msk := mask_input msk in
  idx ← traverse (traverse InputEncoding.type_index) y;
  Ok (X,
      {| cls := fmap (M:=list) (fmap (M:=list)
                  (fun i => one_hot i num_output_classes)) idx;
         charge := mul_mask (slice_cols 1 2 y) msk;
         pt := mul_mask (slice_cols 2 3 y) msk;
         eta := mul_mask (slice_cols 3 4 y) msk;
         sin_phi := mul_mask (slice_cols 4 5 y) msk;
         cos_phi := mul_mask (slice_cols 5 6 y) msk;
         energy := mul_mask (slice_cols 6 7 y) msk |},
      w).

(** A rank-4 tensor of shape (B, d1, d2, d3). *)
Definition has_shape4 {A} (t : list (list (list (list A)))) (d1 d2 d3 : nat)
  : Prop :=
  Forall (fun ev => length ev = d1 /\ has_shape3 ev d2 d3) t.

(** ** Combined graph layer *)

(** A fallible function over the entries of three tensors that agree on the
    first axis. *)
Fixpoint traverse3 {A B C D} (f : A -> B -> C -> result D)
    (la : list A) (lb : list B) (lc : list C) : result (list D) :=
  match la, lb, lc with
  | [], [], [] => Ok []
  | a :: la', b :: lb', c :: lc' =>
      y ← f a b c; ys ← traverse3 f la' lb' lc'; Ok (y :: ys)
  | _, _, _ => Raise InvalidArgumentError
  end.

Module CombinedGraphLayer.

(** A convolution layer as [call] uses it: from [(x_binned, dm, msk_binned)]
    to the new [x_binned]. *)
Abbreviation conv :=
  (list (list mat) -> list (list (list (list vec))) -> list (list mat)
   -> result (list (list mat))) (only parsing).

(** [MPNNNodeFunction.call] on tensors with a batch and a bin axis. *)
Definition MPNN_conv (l : MPNNNodeFunction.t) : conv :=
  traverse3 (traverse3 (MPNNNodeFunction.call l)).

Record t : Type := mk {
  (** [LayerNormalization] on the feature axis; the attribute exists when
      [do_layernorm] is set *)
  layernorm : option (vec -> vec);
  ffn_dist : vec -> vec;
  dist : GraphBuilderDense.t;
  convs : list conv;
  (** what [Dropout] does to a tensor in training; at inference it is the
      identity; [None] when the dropout rate is zero *)
  dropout_layer : option (list (list mat) -> list (list mat))
}.

(** The dictionary [call] returns. *)
Record output : Type := mk_output {
  enc : list mat;
  dist_out : list mat;
  bins : list (list (list nat));
  dm : list (list (list (list vec)))
}.

(** The loop of lines 720-723. *)
Fixpoint run_convs (cs : list conv)
    (dropout : option (list (list mat) -> list (list mat))) (training : bool)
    (x_binned : list (list mat)) (dm : list (list (list (list vec))))
    (msk_binned : list (list mat)) : result (list (list mat)) :=
  match cs with
  | [] => Ok x_binned
  | c :: cs' =>
      x_binned ← c x_binned dm msk_binned;
      let x_binned :=
        match dropout with
        | Some d => if training then d x_binned else x_binned
        | None => x_binned
        end in
      run_convs cs' dropout training x_binned dm msk_binned
  end.

(** [CombinedGraphLayer.call(x, msk, training)], model.py:713-727. *)
Definition call (self : t) (x : list mat) (msk : list (list bool))
    (training : bool) : result output :=
  let x := match layernorm self with
           | Some ln => map_rows3 ln x
           | None => x
           end in
  let x_dist := map_rows3 (ffn_dist self) x in
  out ← GraphBuilderDense.call (dist self) x_dist x msk;
  x_binned ← run_convs (convs self) (dropout_layer self) training
                (GraphBuilderDense.x_features_binned out)
                (GraphBuilderDense.dm out) (GraphBuilderDense.msk_f_binned out);
  x_enc ← reverse_lsh (GraphBuilderDense.bins_split out) x_binned;
  Ok {| enc := x_enc; dist_out := x_dist;
        bins := GraphBuilderDense.bins_split out;
        dm := GraphBuilderDense.dm out |}.

End CombinedGraphLayer.

(** A message-passing layer whose feed-forward stack sums its input. *)
Definition mpnn_sum : MPNNNodeFunction.t :=
  MPNNNodeFunction.mk (fun v => [vsum v]).

(** Combined graph layers over [gbd_two_bins], with one message-passing
    layer and with no convolution layer. *)
Definition cgl_mpnn : CombinedGraphLayer.t :=
  CombinedGraphLayer.mk None (fun v => [vsum v]) gbd_two_bins
    [CombinedGraphLayer.MPNN_conv mpnn_sum] None.

Definition cgl_no_conv : CombinedGraphLayer.t :=
  CombinedGraphLayer.mk None (fun v => [vsum v]) gbd_two_bins [] None.

(** ** Jet reconstruction losses ([mlpf/tfmodel/utils.py]) *)

(** [tf.tensor_scatter_nd_add(tensor, indices, updates)] on a rank-1 tensor
    with indices of shape (M, 1): every update is added to the addressed
    entry, in order; an index out of range is an error (CPU kernel). *)
Fixpoint tensor_scatter_nd_add1 (tensor : vec) (indices : list Z) (updates : vec)
  : result vec :=
  match indices, updates with
  | [], [] => Ok tensor
  | i :: indices', u :: updates' =>
      if decide (0 <= i < Z.of_nat (length tensor))%Z
      then tensor_scatter_nd_add1
             (alter (fun a => a + u)%R (Z.to_nat i) tensor) indices' updates'
      else Raise InvalidArgumentError
  | _, _ => Raise InvalidArgumentError
  end.

(** [tf.where(jet_idx <= max_jets, jet_idx, 0)] on one entry. *)
Definition cap_jet_idx (max_jets : nat) (j : Z) : Z :=
  if decide (j <= Z.of_nat max_jets)%Z then j else 0%Z.

(** [jet_reco(px, py, jet_idx, max_jets)], utils.py:538-569. *)
Definition jet_reco (px py : vec) (jet_idx : list Z) (max_jets : nat)
  : result vec :=
  _ ← (if decide (length py = length px /\ length jet_idx = length px)
       then Ok tt else Raise ValueError);
  let jet_idx_capped := cap_jet_idx max_jets <$> jet_idx in
  let jet_px := zeros max_jets in
  let jet_py := zeros max_jets in
  jet_px_new ← tensor_scatter_nd_add1 jet_px jet_idx_capped px;
  jet_py_new ← tensor_scatter_nd_add1 jet_py jet_idx_capped py;
  let jet_pt := zip_with (fun a b => sqrt (a ^ 2 + b ^ 2))%R jet_px_new jet_py_new in
  Ok jet_pt.

(** The summed momentum component of the particles whose capped jet index
    is [k]. *)
Definition jet_sum (max_jets : nat) (jet_idx : list Z) (p : vec) (k : nat) : R :=
  vsum (snd <$> filter (fun e => cap_jet_idx max_jets e.1 = Z.of_nat k)
                  (zip jet_idx p)).

(** [y[..., j]] of a rank-3 tensor; the index has to be in range. *)
Definition last_index (j : nat) (y : list mat) : result mat :=
  traverse (traverse (fun row => InputEncodingCMS.feature row j)) y.

(** [batched_jet_reco(px, py, jet_idx, max_jets)], utils.py:572-591: the
    three inputs have one shape (B, N). *)
Definition batched_jet_reco (px py : mat) (jet_idx : list (list Z))
    (max_jets : nat) : result mat :=
  let n := length (hd [] px) in
  _ ← (if decide (length py = length px /\ length jet_idx = length px
                  /\ Forall (fun r => length r = n) px
                  /\ Forall (fun r => length r = n) py
                  /\ Forall (fun r => length r = n) jet_idx)
       then Ok tt else Raise ValueError);
  traverse3 (fun a b c => jet_reco a b c max_jets) px py jet_idx.

(** The body of the loop of [compute_jet_pt], utils.py:607-610, for one of
    the two tensors. *)
Definition jet_pt_of (y : list mat) (jet_idx : list (list Z)) (max_jets : nat)
  : result mat :=
  pt ← last_index 0 y; c ← last_index 4 y;
  let px := map2 Rmult pt c in
  pt ← last_index 0 y; s ← last_index 3 y;
  let py := map2 Rmult pt s in
  batched_jet_reco px py jet_idx max_jets.

(** [compute_jet_pt(y_true, y_pred, max_jets)], utils.py:599-611; the
    result holds the entries "true" and "pred" of the dictionary. *)
Definition compute_jet_pt (y_true y_pred : list mat) (max_jets : nat)
  : result (mat * mat) :=
  idx ← last_index 5 y_true;
  let jet_idx := fmap (M:=list) (fmap (M:=list) cast_int32) idx in
  jt ← jet_pt_of y_true jet_idx max_jets;
  jp ← jet_pt_of y_pred jet_idx max_jets;
  Ok (jt, jp).

(** [tf.reduce_mean(t, axis=[-1, -2])] of a rank-2 tensor. *)
Definition reduce_mean_all (t : mat) : R :=
  (vsum (concat t) / INR (length (concat t)))%R.

(** [gen_jet_mse_loss(y_true, y_pred)], utils.py:614-619. *)
Definition gen_jet_mse_loss (y_true y_pred : list mat) : result R :=
  '(jt, jp) ← compute_jet_pt y_true y_pred 201;
  let mse := sqrt (reduce_mean_all (map2 (fun a b => (a - b) ^ 2)%R jt jp)) in
  Ok mse.

(** [tf.keras.losses.log_cosh(y_true, y_pred)]: the mean over the last axis
    of [x + softplus(-2 x) - log 2] with [x = y_pred - y_true]. *)
Definition log_cosh (y_true y_pred : mat) : vec :=
  zip_with (fun t p =>
    let l := zip_with (fun a b =>
               let x := b - a in x + ln (1 + exp (- 2 * x)) - ln 2)%R t p in
    (vsum l / INR (length l))%R) y_true y_pred.

(** [gen_jet_logcosh_loss(y_true, y_pred)], utils.py:622-627. *)
Definition gen_jet_logcosh_loss (y_true y_pred : list mat) : result vec :=
  '(jt, jp) ← compute_jet_pt y_true y_pred 201;
  Ok (log_cosh jt jp).

(** The jet index of every particle of a target batch can be scattered:
    column 5 holds, after the cast, an index from 0 that is not
    [max_jets]. *)
Definition jet_indices_valid (max_jets : nat) (y_true : list mat) : Prop :=
  Forall (Forall (fun row =>
    (0 <= cast_int32 (nth 5 row 0%R)
     /\ cast_int32 (nth 5 row 0%R) <> Z.of_nat max_jets)%Z)) y_true.

(** A target batch with one particle: pt 1, cos_phi 1, jet index 0. *)
Definition one_particle : list (list (list R)) := [[[1; 0; 0; 0; 1; 0]]]%R.

(** ** Histogram loss ([mlpf/tfmodel/utils.py])

    The histograms are filled at bin indices computed from floating point
    values, and a NaN value gives an index that the scatter refuses.  The
    tensors of this part therefore hold [fval]: a real number or NaN
    (infinities and rounding stay idealised). *)

Inductive fval : Type :=
| Num (x : R)
| NaN.

(** Operations of one and two arguments: NaN in, NaN out. *)
Definition fval_map (f : R -> R) (a : fval) : fval :=
  match a with
  | Num x => Num (f x)
  | NaN => NaN
  end.

Definition fval_map2 (op : R -> R -> R) (a b : fval) : fval :=
  match a, b with
  | Num x, Num y => Num (op x y)
  | _, _ => NaN
  end.

(** [x != 0.0]: true for NaN. *)
Definition fval_nonzero (a : fval) : bool :=
  match a with
  | Num x => bool_decide (x <> 0%R)
  | NaN => true
  end.

(** [tf.reduce_mean] over all entries: a NaN entry gives NaN, and so does
    a tensor without entries. *)
Definition fval_mean (l : list fval) : fval :=
  match l with
  | [] => NaN
  | _ => fval_map (fun s => s / INR (length l))%R
           (foldr (fval_map2 Rplus) (Num 0) l)
  end.

(** [tf.histogram_fixed_width_bins(values, value_range, nbins)] on one
    value: the floor of the scaled value, clipped to the bins, as int32.
    NaN passes the floor and the clip, and its cast to int32 is the
    smallest int32 (the "integer indefinite" value of the x86
    conversion). *)
Definition histogram_fixed_width_bins (v : fval) (value_range : R * R)
    (nbins : nat) : Z :=
  match v with
  | Num v =>
      let nbins_float := INR nbins in
      let scaled_values :=
        ((v - value_range.1) / (value_range.2 - value_range.1))%R in
      let indices := IZR (Int_part (nbins_float * scaled_values)) in
      cast_int32 (clip_by_value indices 0 (nbins_float - 1))
  | NaN => (- 2 ^ 31)%Z
  end.

(** [tf.boolean_mask(t, mask)] along the first axis. *)
Definition boolean_mask {A} (t : list A) (mask : list bool) : result (list A) :=
  if decide (length mask = length t)
  then Ok (fst <$> filter (fun e => e.2 = true) (zip t mask))
  else Raise ValueError.

(** [tf.tensor_scatter_nd_add(tensor, indices, updates)] on a rank-2 tensor
    with indices of shape (M, 2); an index out of range is an error (CPU
    kernel). *)
Fixpoint tensor_scatter_nd_add2 (tensor : list (list fval))
    (indices : list (Z * Z)) (updates : list fval)
  : result (list (list fval)) :=
  match indices, updates with
  | [], [] => Ok tensor
  | (i, j) :: indices', u :: updates' =>
      if decide ((0 <= i < Z.of_nat (length tensor))%Z
                 /\ (0 <= j < Z.of_nat (length (hd [] tensor)))%Z)
      then tensor_scatter_nd_add2
             (alter (alter (fun a => fval_map2 Rplus a u) (Z.to_nat j))
                (Z.to_nat i) tensor)
             indices' updates'
      else Raise InvalidArgumentError
  | _, _ => Raise InvalidArgumentError
  end.

(** [histogram_2d(mask, eta, phi, weights_px, weights_py, eta_range,
    phi_range, nbins)], utils.py:16-33. *)
Definition histogram_2d (mask : list bool)
    (eta phi weights_px weights_py : list fval)
    (eta_range phi_range : R * R) (nbins : nat) : result (list (list fval)) :=
  _ ← (if decide (nbins = 0) then Raise InvalidArgumentError else Ok tt);
  let eta_bins := (fun v => histogram_fixed_width_bins v eta_range nbins) <$> eta in
  let phi_bins := (fun v => histogram_fixed_width_bins v phi_range nbins) <$> phi in
  let hist_px := replicate nbins (replicate nbins (Num 0)) in
  let hist_py := replicate nbins (replicate nbins (Num 0)) in
  indices ← (if decide (length eta_bins = length phi_bins)
             then Ok (zip eta_bins phi_bins) else Raise InvalidArgumentError);
  indices_masked ← boolean_mask indices mask;
  weights_px_masked ← boolean_mask weights_px mask;
  weights_py_masked ← boolean_mask weights_py mask;
  hist_px ← tensor_scatter_nd_add2 hist_px indices_masked weights_px_masked;
  hist_py ← tensor_scatter_nd_add2 hist_py indices_masked weights_py_masked;
  let hist_pt :=
    zip_with (zip_with (fval_map2 (fun a b => sqrt (a ^ 2 + b ^ 2))%R))
      hist_px hist_py in
  Ok hist_pt.

(** [batched_histogram_2d(mask, eta, phi, w_px, w_py, x_range, y_range,
    nbins)], utils.py:36-45: [tf.map_fn] over five tensors with one batch
    axis. *)
Fixpoint batched_histogram_2d (mask : list (list bool))
    (eta phi w_px w_py : list (list fval))
    (x_range y_range : R * R) (nbins : nat)
  : result (list (list (list fval))) :=
  match mask, eta, phi, w_px, w_py with
  | [], [], [], [], [] => Ok []
  | m :: mask', e :: eta', p :: phi', wx :: w_px', wy :: w_py' =>
      h ← histogram_2d m e p wx wy x_range y_range nbins;
      hs ← batched_histogram_2d mask' eta' phi' w_px' w_py' x_range y_range nbins;
      Ok (h :: hs)
  | _, _, _, _, _ => Raise ValueError
  end.

(** [y[..., j]] of a rank-3 tensor of [fval]; the index has to be in
    range. *)
Definition last_index_fval (j : nat) (y : list (list (list fval)))
  : result (list (list fval)) :=
  traverse (traverse (fun row : list fval =>
    match row !! j with
    | Some v => Ok v
    | None => Raise InvalidArgumentError
    end)) y.

(** Elementwise product of two rank-2 tensors of one shape. *)
Definition fval_mul2 (a b : list (list fval)) : list (list fval) :=
  zip_with (zip_with (fval_map2 Rmult)) a b.

(** [hist_2d_loss(y_true, y_pred)], utils.py:491-535. *)
Definition hist_2d_loss (y_true y_pred : list (list (list fval)))
  : result (list fval) :=
  eta_true ← last_index_fval 2 y_true;
  eta_pred ← last_index_fval 2 y_pred;
  sin_phi_true ← last_index_fval 3 y_true;
  sin_phi_pred ← last_index_fval 3 y_pred;
  pt_true ← last_index_fval 0 y_true;
  pt_pred ← last_index_fval 0 y_pred;
  c ← last_index_fval 4 y_true; let px_true := fval_mul2 pt_true c in
  s ← last_index_fval 3 y_true; let py_true := fval_mul2 pt_true s in
  c ← last_index_fval 4 y_pred; let px_pred := fval_mul2 pt_pred c in
  s ← last_index_fval 3 y_pred; let py_pred := fval_mul2 pt_pred s in
  let mask := fmap (M:=list) (fmap (M:=list) fval_nonzero) eta_true in
  pt_hist_true ←
    batched_histogram_2d mask eta_true sin_phi_true px_true py_true
      (-6, 6)%R (-1, 1)%R 20;
  pt_hist_pred ←
    batched_histogram_2d mask eta_pred sin_phi_pred px_pred py_pred
      (-6, 6)%R (-1, 1)%R 20;
  let mse :=
    zip_with (fun t p =>
      fval_map sqrt
        (fval_mean (concat (zip_with (zip_with
           (fval_map2 (fun a b => (a - b) ^ 2)%R)) t p))))
      pt_hist_true pt_hist_pred in
  Ok mse.

(** The coordinates that [hist_2d_loss] turns into bin indices are numbers
    at every element the mask keeps: at an element whose target eta is not
    the number 0, the eta and sin_phi of the target and of the prediction
    are not NaN. *)
Definition binned_coordinates_are_numbers (y_true y_pred : list (list (list fval)))
  : Prop :=
  forall b i rt rp,
    y_true !! b ≫= (fun ev => ev !! i) = Some rt ->
    y_pred !! b ≫= (fun ev => ev !! i) = Some rp ->
    rt !! 2 <> Some (Num 0) ->
    rt !! 2 <> Some NaN /\ rt !! 3 <> Some NaN
    /\ rp !! 2 <> Some NaN /\ rp !! 3 <> Some NaN.

(** Every entry of a rank-3 tensor is a number. *)
Definition all_numbers (y : list (list (list fval))) : Prop :=
  Forall (Forall (Forall (fun a => a <> NaN))) y.

(** A target batch with one particle, as numbers, and a prediction whose
    eta is NaN. *)
Definition one_particle_fval : list (list (list fval)) :=
  [[[Num 1; Num 0; Num 1; Num 0; Num 1; Num 0]]].
Definition one_particle_nan : list (list (list fval)) :=
  [[[Num 1; Num 0; NaN; Num 0; Num 1; Num 0]]].

(** Entry [(i, j)] of [pairwise_gaussian_dist(A, B)] for the rows [a] of [A]
    and [b] of [B]: the Euclidean distance, not below 1e-3. *)
Definition gaussian_dist (a b : vec) : R :=
  sqrt (Rmax (vsum ((fun x => x * x)%R <$> a) - 2 * dot a b
              + vsum ((fun x => x * x)%R <$> b)) (1 / 1000000))%R.

(** * Properties *)

Example knn_edges_ex :
  knn_edges Z.leb 0%Z 2 [[4; 7; 9]] [[[5; 1; 3]; [2; 2; 0]; [0; 8; 9]]]%Z
  = Ok ([(4, 4); (7, 4); (9, 9); (4, 9); (7, 7); (9, 7)], [5; 2; 9; 3; 2; 8]%Z).
Proof. reflexivity. Qed.

Example argsort_ex : argsort [2; 0; 1; 0]%Z = [1; 3; 2; 0].
Proof. reflexivity. Qed.

Example split_ex :
  split_indices_to_bins Z.ltb [[1;-1];[-1;1];[3;-3];[-2;2]]%Z 2 2
  = Ok [[0; 2]; [1; 3]].
Proof. reflexivity. Qed.

Local Open Scope R_scope.
Example reverse_lsh_ex :
  reverse_lsh [[[1; 0]%nat]] [[[[3; 4]; [1; 2]]]] = Ok [[[0 + 1; 0 + 2]; [0 + 3; 0 + 4]]].
Proof. reflexivity. Qed.
Local Close Scope R_scope.


(** ** The error monad *)

Lemma traverse_length {A B} (f : A -> result B) l r :
  traverse f l = Ok r -> length r = length l.
Proof.
  revert r; induction l as [|x l IH]; intros r; simpl.
  - by intros [= <-].
  - destruct (f x) as [y|]; simpl; [|done].
    destruct (traverse f l) as [ys|]; simpl; [|done].
    intros [= <-]. simpl. by rewrite (IH ys).
Qed.

Lemma traverse_is_Ok {A B} (f : A -> result B) l :
  Forall (fun x => is_Ok (f x)) l -> is_Ok (traverse f l).
Proof.
  induction 1 as [|x l [y Hy] _ [ys Hys]]; simpl.
  - by eexists.
  - rewrite Hy; simpl. rewrite Hys; simpl. by eexists.
Qed.

Lemma traverse_lookup {A B} (f : A -> result B) l r i x :
  traverse f l = Ok r -> l !! i = Some x ->
  exists y, f x = Ok y /\ r !! i = Some y.
Proof.
  revert r i; induction l as [|a l IH]; intros r i; simpl; [done|].
  destruct (f a) as [y|] eqn:Hy; simpl; [|done].
  destruct (traverse f l) as [ys|]; simpl; [|done].
  intros [= <-]. destruct i as [|i]; simpl.
  - intros [= <-]. eauto.
  - intros Hi. by apply IH.
Qed.

(** ** Sorting and reshaping *)

Lemma insert_key_Permutation k i l : insert_key k i l ≡ₚ (k, i) :: l.
Proof.
  induction l as [|[k' i'] l IH]; simpl; [done|].
  destruct (k <=? k')%Z; [done|].
  rewrite IH. apply Permutation_swap.
Qed.

Lemma sort_keys_Permutation l : sort_keys l ≡ₚ l.
Proof.
  induction l as [|[k i] l IH]; simpl; [done|].
  rewrite insert_key_Permutation. by constructor.
Qed.

Lemma argsort_Permutation keys : argsort keys ≡ₚ seq 0 (length keys).
Proof.
  unfold argsort. rewrite sort_keys_Permutation.
  rewrite snd_zip; [done|]. by rewrite length_seq.
Qed.

Lemma argsort_length keys : length (argsort keys) = length keys.
Proof. by rewrite argsort_Permutation, length_seq. Qed.

Lemma concat_chunks {A} size n (l : list A) :
  length l = n * size -> concat (chunks size n l) = l.
Proof.
  revert l; induction n as [|n IH]; intros l Hl; simpl.
  - destruct l; [done|]. simpl in Hl. lia.
  - rewrite IH; [apply take_drop|]. rewrite length_drop. lia.
Qed.

Lemma chunks_length {A} size n (l : list A) : length (chunks size n l) = n.
Proof. revert l; induction n as [|n IH]; intros l; simpl; [done|]. by rewrite IH. Qed.

Lemma chunks_widths {A} size n (l : list A) :
  length l = n * size -> Forall (fun c => length c = size) (chunks size n l).
Proof.
  revert l; induction n as [|n IH]; intros l Hl; simpl; constructor.
  - rewrite length_take. lia.
  - apply IH. rewrite length_drop. lia.
Qed.

Lemma chunks_concat {A} size (t : list (list A)) :
  Forall (fun c => length c = size) t ->
  chunks size (length t) (concat t) = t.
Proof.
  induction 1 as [|c t Hc _ IH]; simpl; [done|].
  rewrite take_app_length', drop_app_length' by done. by rewrite IH.
Qed.

Lemma concat_length_uniform {A} size (t : list (list A)) :
  Forall (fun c => length c = size) t -> length (concat t) = length t * size.
Proof.
  induction 1 as [|c t Hc _ IH]; simpl; [done|]. rewrite length_app. lia.
Qed.

Lemma reshape2_Ok {A} (l : list A) d0 d1 :
  length l = d0 * d1 -> reshape2 l d0 d1 = Ok (chunks d1 d0 l).
Proof. intros H. unfold reshape2. by rewrite decide_True. Qed.

(** ** Bin assignment is a permutation *)

Section BinsFacts.
Context {A : Type} (ltb : A -> A -> bool).

Lemma argmax_from_bound best bi i (l : list A) :
  bi < i -> argmax_from ltb best bi i l < i + length l.
Proof.
  revert best bi i; induction l as [|x l IH]; intros best bi i Hbi; simpl.
  - lia.
  - destruct (ltb best x).
    + specialize (IH x i (S i)). lia.
    + specialize (IH best bi (S i)). lia.
Qed.

Lemma argmax_bound row a : argmax ltb row = Ok a -> a < length row.
Proof.
  destruct row as [|x l]; simpl; [done|]. intros [= <-].
  pose proof (argmax_from_bound x 0 1 l). lia.
Qed.

Lemma argmax_is_Ok row : row <> [] -> is_Ok (argmax ltb row).
Proof. destruct row; [done|]. intros _. by eexists. Qed.

Lemma bin_indices_is_Ok nbins cmul msk :
  length msk = length cmul -> Forall (fun row => row <> []) cmul ->
  exists ks, bin_indices ltb nbins cmul msk = Ok ks /\ length ks = length cmul.
Proof.
  intros Hlen Hne. revert msk Hlen.
  induction Hne as [|row cmul Hrow _ IH]; intros [|m msk] Hlen; simplify_eq/=.
  - by eexists.
  - destruct (argmax_is_Ok row Hrow) as [a Ha].
    destruct (IH msk) as (ks & Hks & Hl); [done|].
    unfold bin_index. rewrite Ha; simpl. rewrite Hks; simpl.
    eexists; split; [done|]. simpl. by rewrite Hl.
Qed.

Lemma split_indices_to_bins_spec cmul nbins bin_size :
  length cmul = nbins * bin_size ->
  Forall (fun row => row <> []) cmul ->
  exists bins,
    split_indices_to_bins ltb cmul nbins bin_size = Ok bins
    /\ length bins = nbins
    /\ Forall (fun b => length b = bin_size) bins
    /\ concat bins ≡ₚ seq 0 (length cmul).
Proof.
  intros Hlen Hne. unfold split_indices_to_bins.
  destruct (traverse_is_Ok (argmax ltb) cmul) as [ks Hks].
  { eapply Forall_impl; [done|]. apply argmax_is_Ok. }
  rewrite Hks; simpl. pose proof (traverse_length _ _ _ Hks) as Hl.
  assert (length (argsort (Z.of_nat <$> ks)) = nbins * bin_size) as Hs.
  { by rewrite argsort_length, length_fmap, Hl. }
  rewrite reshape2_Ok by done. eexists; split; [done|].
  split; [apply chunks_length|]. split; [by apply chunks_widths|].
  rewrite concat_chunks by done.
  by rewrite argsort_Permutation, length_fmap, Hl.
Qed.

Lemma split_indices_to_bins_event_spec cmul msk nbins bin_size :
  length cmul = nbins * bin_size ->
  length msk = length cmul ->
  Forall (fun row => row <> []) cmul ->
  exists bins,
    split_indices_to_bins_event ltb nbins bin_size cmul msk = Ok bins
    /\ length bins = nbins
    /\ Forall (fun b => length b = bin_size) bins
    /\ concat bins ≡ₚ seq 0 (length cmul).
Proof.
  intros Hlen Hm Hne. unfold split_indices_to_bins_event.
  destruct (bin_indices_is_Ok nbins cmul msk) as (ks & Hks & Hl); [done..|].
  rewrite Hks; simpl.
  assert (length (argsort ks) = nbins * bin_size) as Hs.
  { by rewrite argsort_length, Hl. }
  rewrite reshape2_Ok by done. eexists; split; [done|].
  split; [apply chunks_length|]. split; [by apply chunks_widths|].
  rewrite concat_chunks by done. by rewrite argsort_Permutation, Hl.
Qed.
End BinsFacts.

(** C3 as stated fails: an event of [bin_size = 2] elements has an element
    count divisible by [bin_size], but with [n_bins = 1] the codebook slice
    [[:, :n_bins // 2]] has no column, the hash scores both callers pass on
    have empty rows, and [tf.argmax] refuses them: neither variant returns
    bins. *)
Lemma bins_split_fails_without_hash_columns :
  GraphBuilderDense.hash_scores gbd_bins_of_two (2 / 2) [[1]; [2]]%R
    = Ok [[]; []]
  /\ split_indices_to_bins Rltb ([[]; []] : list (list R)) (2 / 2) 2
     = Raise InvalidArgumentError
  /\ split_indices_to_bins_batch Rltb ([[[]; []]] : list (list (list R)))
       (2 / 2) 2 [[true; true]] = Raise InvalidArgumentError
  /\ ~ bins_split_permutation_as_claimed [[]; []] [true; true] 2 2.
Proof.
  split; [reflexivity|]. split; [reflexivity|]. split; [reflexivity|].
  intros H. destruct H as [(bins & Hb & _) _]; [lia | by exists 1 | done..|].
  discriminate Hb.
Qed.

(** C3, amended: when the element count is an exact multiple of [bin_size],
    the number of bins is their quotient and every row of hash scores has at
    least one column (in both callers: when there are at least two bins),
    [split_indices_to_bins] (sparse variant) and every batch entry of
    [split_indices_to_bins_batch] (dense variant) return bins whose
    concatenation is a permutation of the indices [0 .. n_points - 1]:
    nothing repeated, nothing missing. *)
Theorem bins_split_is_permutation {A} (ltb : A -> A -> bool)
    (n_points bin_size : nat)
    (cmul : list (list A)) (cmul_batch : list (list (list A)))
    (msk : list (list bool)) :
  bin_size <> 0 ->
  (bin_size | n_points) ->
  length cmul = n_points ->
  Forall (fun row => row <> []) cmul ->
  Forall2 (fun c m => length c = n_points /\ length m = n_points
                      /\ Forall (fun row => row <> []) c) cmul_batch msk ->
  (exists bins,
      split_indices_to_bins ltb cmul (n_points / bin_size) bin_size = Ok bins
      /\ concat bins ≡ₚ seq 0 n_points
      /\ NoDup (concat bins)
      /\ (forall i, i ∈ concat bins <-> i < n_points))
  /\ (exists bins_batch,
      split_indices_to_bins_batch ltb cmul_batch (n_points / bin_size) bin_size msk
        = Ok bins_batch
      /\ length bins_batch = length cmul_batch
      /\ Forall (fun bins =>
           concat bins ≡ₚ seq 0 n_points
           /\ NoDup (concat bins)
           /\ (forall i, i ∈ concat bins <-> i < n_points)) bins_batch).
Proof.
  intros Hbs [q Hq] Hlen Hne Hbatch.
  assert (n_points = n_points / bin_size * bin_size) as Hdiv.
  { subst n_points. by rewrite Nat.div_mul. }
  assert (forall l : list nat, l ≡ₚ seq 0 n_points ->
            l ≡ₚ seq 0 n_points /\ NoDup l /\ (forall i, i ∈ l <-> i < n_points))
    as Hperm.
  { intros l Hl. split; [done|]. split.
    - rewrite Hl. apply NoDup_seq.
    - intros i. rewrite Hl, elem_of_seq. lia. }
  split.
  - destruct (split_indices_to_bins_spec ltb cmul (n_points / bin_size) bin_size)
      as (bins & Hb & _ & _ & Hp); [lia|done|].
    exists bins. split; [done|]. apply Hperm. by rewrite <- Hlen.
  - clear Hlen Hne. induction Hbatch as [|c m cs ms (Hc & Hm & Hne) _ IH]; simpl.
    + exists []. by repeat split.
    + destruct (split_indices_to_bins_event_spec ltb c m (n_points / bin_size) bin_size)
        as (bins & Hb & _ & _ & Hp); [lia|lia|done|].
      destruct IH as (bs & Hbs' & Hl & Hall).
      rewrite Hb; simpl. rewrite Hbs'; simpl.
      exists (bins :: bs). split; [done|]. split; [simpl; by rewrite Hl|].
      constructor; [|done]. apply Hperm. by rewrite <- Hc.
Qed.

Lemma bins_split_is_permutation_witness :
  (1 <> 0
   /\ (1 | 2)
   /\ length [[1; -1]; [-1; 1]]%Z = 2
   /\ Forall (fun row => row <> []) [[1; -1]; [-1; 1]]%Z
   /\ Forall2 (fun c m => length c = 2 /\ length m = 2
                          /\ Forall (fun row : list Z => row <> []) c)
        [[[1; -1]; [-1; 1]]%Z] [[true; false]])
  /\ ((exists bins,
        split_indices_to_bins Z.ltb [[1; -1]; [-1; 1]]%Z (2 / 1) 1 = Ok bins
        /\ concat bins ≡ₚ seq 0 2
        /\ NoDup (concat bins)
        /\ (forall i, i ∈ concat bins <-> i < 2))
      /\ (exists bins_batch,
        split_indices_to_bins_batch Z.ltb [[[1; -1]; [-1; 1]]%Z] (2 / 1) 1
          [[true; false]] = Ok bins_batch
        /\ length bins_batch = length [[[1; -1]; [-1; 1]]%Z]
        /\ Forall (fun bins =>
             concat bins ≡ₚ seq 0 2
             /\ NoDup (concat bins)
             /\ (forall i, i ∈ concat bins <-> i < 2)) bins_batch)).
Proof.
  assert (1 <> 0
   /\ (1 | 2)
   /\ length [[1; -1]; [-1; 1]]%Z = 2
   /\ Forall (fun row => row <> []) [[1; -1]; [-1; 1]]%Z
   /\ Forall2 (fun c m => length c = 2 /\ length m = 2
                          /\ Forall (fun row : list Z => row <> []) c)
        [[[1; -1]; [-1; 1]]%Z] [[true; false]]) as H.
  { split; [lia|]. split; [by exists 2|]. split; [reflexivity|].
    split; [by repeat constructor|]. by repeat constructor. }
  split; [exact H|].
  destruct H as (H1 & H2 & H3 & H4 & H5).
  exact (bins_split_is_permutation Z.ltb 2 1 _ _ _ H1 H2 H3 H4 H5).
Defined.

(** ** Comparison of concrete reals *)

Lemma Rltb_true x y : (x < y)%R -> Rltb x y = true.
Proof. intros H. unfold Rltb. by apply bool_decide_eq_true_2. Qed.

Lemma Rltb_false x y : (y <= x)%R -> Rltb x y = false.
Proof. intros H. unfold Rltb. apply bool_decide_eq_false_2. lra. Qed.

Ltac rcompare :=
  repeat match goal with
  | |- context [Rltb ?x ?y] =>
      first [rewrite (Rltb_true x y) by lra | rewrite (Rltb_false x y) by lra]
  end.

(** ** Bin indices of masked and valid elements *)

Lemma bin_indices_lookup {A} (ltb : A -> A -> bool) nbins cmul msk ks i m k :
  bin_indices ltb nbins cmul msk = Ok ks ->
  msk !! i = Some m -> ks !! i = Some k ->
  exists row, cmul !! i = Some row /\ bin_index ltb nbins row m = Ok k.
Proof.
  revert msk ks i; induction cmul as [|row cmul IH]; intros [|m' msk] ks i; simpl;
    try done.
  destruct (bin_index ltb nbins row m') as [k'|] eqn:Hk; simpl; [|done].
  destruct (bin_indices ltb nbins cmul msk) as [ks'|] eqn:Hks; simpl; [|done].
  intros [= <-]. destruct i as [|i]; simpl.
  - intros [= <-] [= <-]. eauto.
  - intros Hm Hki. by eapply IH.
Qed.

Lemma matmul_widths a b r rows :
  matmul a b = Ok rows -> r ∈ rows -> length r = ncols b.
Proof.
  unfold matmul. case_decide; [|done]. intros [= <-].
  intros (r0 & -> & _)%list_elem_of_fmap.
  by rewrite length_fmap, length_seq.
Qed.

Lemma ncols_take_cols h w : ncols (take_cols h w) <= h.
Proof.
  unfold ncols, take_cols. destruct w as [|r w]; simpl; [lia|].
  rewrite length_take. lia.
Qed.

Lemma hash_scores_width self n_bins x_dist cmul row :
  GraphBuilderDense.hash_scores self n_bins x_dist = Ok cmul ->
  row ∈ cmul ->
  exists h, length row = 2 * h /\ h <= n_bins / 2.
Proof.
  unfold GraphBuilderDense.hash_scores.
  destruct (matmul _ _) as [mul|] eqn:Hmul; simpl; [|done].
  intros [= <-] (i & Hi)%list_elem_of_lookup.
  apply lookup_zip_with_Some in Hi as (u & v & -> & Hu & Hv).
  apply list_lookup_fmap_Some in Hv as (u' & -> & Hu').
  simplify_eq.
  exists (length u). split.
  - unfold vneg. rewrite length_app, length_fmap. lia.
  - erewrite (matmul_widths _ _ u _ Hmul); [apply ncols_take_cols|].
    by eapply list_elem_of_lookup_2.
Qed.

Lemma gbd_two_bins_indices :
  exists cmul,
    GraphBuilderDense.hash_scores gbd_two_bins 2 [[-1]; [1]]%R = Ok cmul
    /\ bin_indices Rltb 2 cmul [true; false] = Ok [1; 1]%Z.
Proof.
  eexists. split; [reflexivity|].
  unfold bin_indices, bin_index, argmax, argmax_from, dot, column, vsum; simpl.
  rcompare. reflexivity.
Qed.

(** The statement of C4 read on the bin indices fails: with two bins, a valid
    element hashed to the last bin (index 1) and a masked element hashed to
    the first bin (index 0 + (2 - 1) = 1) get the same bin index. *)
Lemma masked_bins_disjoint_fails :
  ~ masked_bins_disjoint gbd_two_bins [[-1]; [1]]%R [true; false].
Proof.
  intros H. destruct gbd_two_bins_indices as (cmul & Hc & Hk).
  by apply (H 2 cmul [1; 1]%Z 0 1 1%Z 1%Z).
Qed.


(** ** Inverse bin scatter after the forward gather *)

Lemma traverse_Forall2 {A B} (f : A -> result B) l r :
  traverse f l = Ok r <-> Forall2 (fun x y => f x = Ok y) l r.
Proof.
  revert r; induction l as [|x l IH]; intros r; simpl.
  - split; [intros [= <-]; constructor | by inversion 1].
  - split.
    + destruct (f x) as [y|] eqn:Hy; simpl; [|done].
      destruct (traverse f l) as [ys|]; simpl; [|done].
      intros [= <-]. constructor; [done|]. by apply IH.
    + inversion 1 as [|? y ? ys Hy Hys]; subst. rewrite Hy; simpl.
      apply IH in Hys. by rewrite Hys.
Qed.

Lemma reshape2_concat {A} (t : list (list A)) n :
  Forall (fun r => length r = n) t -> reshape2 (concat t) (length t) n = Ok t.
Proof.
  intros Ht. rewrite reshape2_Ok by by apply concat_length_uniform.
  by rewrite chunks_concat.
Qed.

Lemma row_at_insert t b i ev row v b' i' :
  t !! b = Some ev -> ev !! i = Some row ->
  row_at (<[b := <[i := v]> ev]> t) b' i'
  = if decide ((b', i') = (b, i)) then Some v else row_at t b' i'.
Proof.
  intros Hev Hrow. unfold row_at.
  pose proof (lookup_lt_Some _ _ _ Hev). pose proof (lookup_lt_Some _ _ _ Hrow).
  destruct (decide (b' = b)) as [->|Hb].
  - rewrite list_lookup_insert_eq by done. simpl.
    destruct (decide (i' = i)) as [->|Hi].
    + rewrite list_lookup_insert_eq by done. by rewrite decide_True.
    + rewrite list_lookup_insert_ne by done. rewrite decide_False by congruence.
      by rewrite Hev.
  - rewrite list_lookup_insert_ne by done. by rewrite decide_False by congruence.
Qed.

Lemma scatter_add_spec (P : nat * nat -> vec -> Prop) acc indices updates :
  NoDup indices ->
  Forall2 P indices updates ->
  (forall b i, (b, i) ∈ indices -> is_Some (row_at acc b i)) ->
  exists r,
    scatter_add acc indices updates = Ok r
    /\ length <$> r = length <$> acc
    /\ (forall b i, (b, i) ∈ indices ->
          exists row u, row_at acc b i = Some row /\ P (b, i) u
                        /\ row_at r b i = Some (vadd row u))
    /\ (forall b i, (b, i) ∉ indices -> row_at r b i = row_at acc b i).
Proof.
  intros Hnd HP. revert acc Hnd.
  induction HP as [|[b i] u indices updates Hu _ IH]; intros acc Hnd Hin; simpl.
  - exists acc. split; [done|]. split; [done|]. split; [|done].
    intros b i Hbi. by apply elem_of_nil in Hbi.
  - apply NoDup_cons in Hnd as [Hni Hnd].
    destruct (Hin b i) as [row Hrow]; [by left|].
    unfold row_at in Hrow. destruct (acc !! b) as [ev|] eqn:Hev; simpl in Hrow; [|done].
    rewrite Hrow.
    set (acc' := <[b := <[i := vadd row u]> ev]> acc).
    assert (forall b' i', row_at acc' b' i'
              = if decide ((b', i') = (b, i)) then Some (vadd row u)
                else row_at acc b' i') as Hacc'.
    { intros. by apply (row_at_insert acc b i ev row). }
    destruct (IH acc' Hnd) as (r & Hr & Hshape & Hins & Houts).
    { intros b' i' Hbi. rewrite Hacc'. case_decide; [done|]. apply Hin. by right. }
    exists r. split; [done|]. split; [|split].
    + rewrite Hshape. unfold acc'. rewrite list_fmap_insert, length_insert.
      apply list_insert_id. by rewrite list_lookup_fmap, Hev.
    + intros b' i' [[= -> ->]|Hbi]%elem_of_cons.
      * exists row, u. split; [by unfold row_at; rewrite Hev|]. split; [done|].
        rewrite Houts, Hacc' by done. by rewrite decide_True.
      * destruct (Hins b' i' Hbi) as (row' & u' & Hrow' & HP' & Hr').
        exists row', u'. split; [|done].
        rewrite Hacc' in Hrow'. rewrite decide_False in Hrow'; [done|].
        intros [= -> ->]. done.
    + intros b' i' Hbi. apply not_elem_of_cons in Hbi as [Hne Hbi].
      rewrite Houts, Hacc' by done. by rewrite decide_False.
Qed.

Lemma concat_concat_fmap {A} (t : list (list (list A))) :
  concat (concat t) = concat (@concat _ <$> t).
Proof.
  induction t as [|e t IH]; simpl; [done|]. by rewrite concat_app, IH.
Qed.

Lemma zip_replicate_l {A} (b : nat) (l : list A) n :
  length l = n -> zip (replicate n b) l = pair b <$> l.
Proof.
  intros <-. induction l as [|x l IH]; simpl; [done|]. by rewrite IH.
Qed.

Lemma batch_inds_zip {A} (rows : list (list A)) n k :
  Forall (fun r => length r = n) rows ->
  zip_with zip (replicate n <$> seq k (length rows)) rows
  = imap (fun b r => pair (k + b) <$> r) rows.
Proof.
  intros Hrows. revert k. induction Hrows as [|r rows Hr _ IH]; intros k; simpl; [done|].
  rewrite zip_replicate_l by done. rewrite Nat.add_0_r. f_equal.
  rewrite IH. apply imap_ext. intros i x _. simpl.
  by replace (S (k + i)) with (k + S i) by lia.
Qed.

Lemma reverse_lsh_flat bins (Xb : list (list (list (list R)))) N f s1 s2 :
  shape4 Xb = (length Xb, s1, s2, f) ->
  s1 * s2 = N ->
  length bins = length Xb ->
  Forall (fun r => length r = N) (@concat _ <$> bins) ->
  Forall (fun r => length r = N) (@concat _ <$> Xb) ->
  Forall (fun v => length v = f) (concat (@concat _ <$> Xb)) ->
  reverse_lsh bins Xb
  = scatter_nd (imap (fun b r => pair b <$> r) (@concat _ <$> bins))
      (@concat _ <$> Xb) (length Xb) N f.
Proof.
  intros Hshape HN Hlen Hbins HXb Hf. unfold reverse_lsh. rewrite Hshape, HN.
  rewrite (concat_concat_fmap bins), (concat_concat_fmap Xb).
  assert (length (concat (@concat _ <$> Xb)) = length Xb * N) as HV.
  { rewrite (concat_length_uniform N) by done. by rewrite length_fmap. }
  replace (reshape2 (concat (@concat _ <$> bins)) (length Xb) N)
    with (Ok (@concat _ <$> bins) : result (list (list nat))); last first.
  { symmetry. rewrite <- Hlen, <- (length_fmap (@concat _) bins).
    by apply reshape2_concat. }
  simpl. unfold reshape3. rewrite decide_True; last first.
  { rewrite (concat_length_uniform f) by done. by rewrite HV. }
  simpl. rewrite <- HV. rewrite chunks_concat by done.
  replace (chunks N (length Xb) (concat (@concat _ <$> Xb)))
    with (@concat (list R) <$> Xb); last first.
  { symmetry. rewrite <- (length_fmap (@concat _) Xb). by apply chunks_concat. }
  replace (reshape2 (concat (replicate N <$> seq 0 (length Xb))) (length Xb) N)
    with (Ok (replicate N <$> seq 0 (length Xb)) : result (list (list nat)));
    last first.
  { symmetry.
    pose proof (reshape2_concat (replicate N <$> seq 0 (length Xb)) N) as H.
    rewrite length_fmap, length_seq in H. apply H.
    apply Forall_fmap, Forall_forall. intros b _. simpl. apply length_replicate. }
  simpl. f_equal.
  rewrite <- Hlen, <- (length_fmap (@concat _) bins).
  by rewrite (batch_inds_zip _ N 0).
Qed.

Lemma elem_of_concat {A} (x : A) ls : x ∈ concat ls <-> exists l, l ∈ ls /\ x ∈ l.
Proof.
  induction ls as [|l ls IH]; simpl.
  - split; [by intros ?%elem_of_nil|]. by intros (l & ?%elem_of_nil & _).
  - rewrite elem_of_app, IH. split.
    + intros [Hx|(l' & Hl' & Hx)]; [exists l; split; [left|done]|].
      exists l'. split; [by right|done].
    + intros (l' & [->|Hl']%elem_of_cons & Hx); [by left|]. right. eauto.
Qed.

Lemma Forall2_concat_rows {A B} (P : A -> B -> Prop) ls ks :
  Forall2 (Forall2 P) ls ks -> Forall2 P (concat ls) (concat ks).
Proof. induction 1; simpl; [constructor|]. by apply Forall2_app. Qed.

Lemma elem_of_tagged (g : nat -> nat) (idx : list (list nat)) t i :
  (t, i) ∈ concat (imap (fun b r => pair (g b) <$> r) idx)
  <-> exists b r, t = g b /\ idx !! b = Some r /\ i ∈ r.
Proof.
  rewrite elem_of_concat. split.
  - intros (l & (b & r & -> & Hr)%elem_of_lookup_imap & Hl).
    apply list_elem_of_fmap in Hl as (i' & [= -> ->] & Hi). eauto.
  - intros (b & r & -> & Hr & Hi). exists (pair (g b) <$> r). split.
    + apply elem_of_lookup_imap. eauto.
    + apply list_elem_of_fmap. eauto.
Qed.

Lemma NoDup_tagged (g : nat -> nat) (idx : list (list nat)) :
  Inj (=) (=) g -> Forall NoDup idx ->
  NoDup (concat (imap (fun b r => pair (g b) <$> r) idx)).
Proof.
  intros Hg Hidx. revert g Hg. induction Hidx as [|r idx Hr _ IH]; intros g Hg.
  - constructor.
  - rewrite imap_cons. simpl. apply NoDup_app. split; [|split].
    + apply NoDup_fmap_2; [|done]. intros ?? [=]. done.
    + intros [t i] (i' & [= -> ->] & Hi)%list_elem_of_fmap Hin.
      apply (elem_of_tagged (g ∘ S)) in Hin as (b & r' & Hb & _).
      simpl in Hb. by apply Hg in Hb.
    + apply (IH (g ∘ S)). intros ?? ?%Hg. lia.
Qed.

Lemma vadd_zeros (u : list R) f : length u = f -> vadd (zeros f) u = u.
Proof.
  intros <-. unfold vadd, zeros. induction u as [|x u IH]; simpl; [done|].
  rewrite IH. f_equal. lra.
Qed.

Lemma tensor3_eq (r X : list (list (list R))) :
  length <$> r = length <$> X ->
  (forall b i, row_at r b i = row_at X b i) ->
  r = X.
Proof.
  intros Hshape Hrows. apply list_eq. intros b.
  pose proof (f_equal (fun l => l !! b) Hshape) as Hb. simpl in Hb.
  rewrite !list_lookup_fmap in Hb.
  destruct (r !! b) as [ev|] eqn:Hev, (X !! b) as [Xe|] eqn:HXe; simplify_eq/=; [|done].
  f_equal. apply list_eq. intros i.
  specialize (Hrows b i). unfold row_at in Hrows. by rewrite Hev, HXe in Hrows.
Qed.

Lemma row_at_zeros B N f b i :
  row_at (replicate B (replicate N (zeros f))) b i
  = if decide (b < B /\ i < N) then Some (zeros f) else None.
Proof.
  unfold row_at. destruct (decide (b < B)) as [Hb|Hb].
  - rewrite lookup_replicate_2 by done. simpl.
    destruct (decide (i < N)) as [Hi|Hi].
    + rewrite lookup_replicate_2 by done. by rewrite decide_True.
    + rewrite decide_False by lia. apply lookup_replicate_None. lia.
  - rewrite decide_False by lia.
    rewrite (proj1 (lookup_replicate_None _ _ _)); [done|lia].
Qed.

Lemma scatter_nd_gathered (X : list (list (list R))) (idx : list (list nat))
    (upd : list (list (list R))) N f :
  Forall (fun Xe => length Xe = N) X ->
  (forall v, v ∈ concat X -> length v = f) ->
  length idx = length X -> length upd = length X ->
  Forall (fun ix => ix ≡ₚ seq 0 N) idx ->
  (forall b Xe ix u, X !! b = Some Xe -> idx !! b = Some ix -> upd !! b = Some u ->
     Forall2 (fun i v => Xe !! i = Some v) ix u) ->
  scatter_nd (imap (fun b r => pair b <$> r) idx) upd (length X) N f = Ok X.
Proof.
  intros HX Hf Hli Hlu Hperm Hupd. unfold scatter_nd.
  assert (forall b ix, idx !! b = Some ix ->
            exists Xe u, X !! b = Some Xe /\ upd !! b = Some u
                         /\ Forall2 (fun i v => Xe !! i = Some v) ix u) as Hrow.
  { intros b ix Hix. pose proof (lookup_lt_Some _ _ _ Hix) as Hb.
    destruct (lookup_lt_is_Some_2 X b) as [Xe HXe]; [lia|].
    destruct (lookup_lt_is_Some_2 upd b) as [u Hu]; [lia|]. eauto 10. }
  rewrite decide_True; last first.
  { apply list_eq. intros b. rewrite !list_lookup_fmap, list_lookup_imap.
    destruct (idx !! b) as [ix|] eqn:Hix; simpl.
    - destruct (Hrow b ix Hix) as (Xe & u & _ & -> & HF). simpl.
      by rewrite length_fmap, (Forall2_length _ _ _ HF).
    - rewrite (proj2 (lookup_ge_None upd b)); [done|].
      apply lookup_ge_None in Hix. lia. }
  destruct (scatter_add_spec (fun p u => row_at X p.1 p.2 = Some u)
              (replicate (length X) (replicate N (zeros f)))
              (concat (imap (fun b r => pair b <$> r) idx)) (concat upd))
    as (r & -> & Hshape & Hins & Houts).
  - apply (NoDup_tagged (@Datatypes.id nat)); [apply _|].
    eapply Forall_impl; [exact Hperm|]. intros ix ->. apply NoDup_seq.
  - apply Forall2_concat_rows, Forall2_same_length_lookup_2.
    { by rewrite length_imap, Hli, Hlu. }
    intros b l u (ix & Hix & ->)%list_lookup_imap_Some Hu.
    destruct (Hrow b ix Hix) as (Xe & u' & HXe & Hu' & HF). simplify_eq.
    apply Forall2_fmap_l. eapply Forall2_impl; [exact HF|].
    intros i v Hv. simpl. unfold row_at. by rewrite HXe.
  - intros b i (b' & ix & -> & Hix & Hi)%(elem_of_tagged (@Datatypes.id nat)).
    cbv [Datatypes.id].
    rewrite row_at_zeros, decide_True; [done|]. split.
    + apply lookup_lt_Some in Hix. lia.
    + rewrite (Forall_lookup_1 _ _ _ _ Hperm Hix) in Hi.
      apply elem_of_seq in Hi. lia.
  - f_equal. apply tensor3_eq.
    { rewrite Hshape. apply list_eq. intros b.
      rewrite !list_lookup_fmap.
      destruct (X !! b) as [Xe|] eqn:HXe; simpl.
      - rewrite lookup_replicate_2 by (by eapply lookup_lt_Some). simpl.
        by rewrite length_replicate, (Forall_lookup_1 _ _ _ _ HX HXe).
      - apply lookup_ge_None in HXe.
        by rewrite (proj1 (lookup_replicate_None _ _ _)). }
    intros b i.
    destruct (decide ((b, i) ∈ concat (imap (fun b r => pair b <$> r) idx)))
      as [Hin|Hout].
    + destruct (Hins b i Hin) as (row & u & Hrow0 & Hu & ->). simpl in Hu.
      rewrite Hu. f_equal.
      apply (elem_of_tagged (@Datatypes.id nat)) in Hin as (b' & ix & -> & Hix & Hi).
      cbv [Datatypes.id] in *.
      rewrite row_at_zeros in Hrow0. case_decide; [|done]. simplify_eq.
      apply vadd_zeros, Hf. unfold row_at in Hu.
      destruct (X !! b') as [Xe|] eqn:HXe; simpl in Hu; [|done].
      apply elem_of_concat. exists Xe.
      split; by eapply list_elem_of_lookup_2.
    + rewrite Houts by done. rewrite row_at_zeros.
      case_decide as Hbi.
      * destruct Hbi as [Hb Hi]. exfalso. apply Hout.
        destruct (lookup_lt_is_Some_2 idx b) as [ix Hix]; [lia|].
        apply (elem_of_tagged (@Datatypes.id nat)). exists b, ix. split; [done|]. split; [done|].
        rewrite (Forall_lookup_1 _ _ _ _ Hperm Hix). apply elem_of_seq. lia.
      * unfold row_at. destruct (X !! b) as [Xe|] eqn:HXe; simpl; [|done].
        symmetry. apply lookup_ge_None.
        rewrite (Forall_lookup_1 _ _ _ _ HX HXe).
        apply lookup_lt_Some in HXe. lia.
Qed.

Lemma gather_Forall2 {A} (Xe : list A) be Xbe :
  gather Xe be = Ok Xbe <-> Forall2 (Forall2 (fun i v => Xe !! i = Some v)) be Xbe.
Proof.
  assert (forall i v, gather1 Xe i = Ok v <-> Xe !! i = Some v) as Hg.
  { intros i v. unfold gather1. destruct (Xe !! i); split; congruence. }
  unfold gather. rewrite traverse_Forall2.
  split; intros H; (eapply Forall2_impl; [exact H|]); intros ix u; simpl;
    rewrite traverse_Forall2; intros H'; (eapply Forall2_impl; [exact H'|]);
    intros i v; apply Hg.
Qed.

Lemma gather_is_Ok {A} (Xe : list A) be :
  Forall (Forall (fun i => i < length Xe)) be -> is_Ok (gather Xe be).
Proof.
  intros Hbe. apply traverse_is_Ok. eapply Forall_impl; [exact Hbe|].
  intros ix Hix. apply traverse_is_Ok. eapply Forall_impl; [exact Hix|].
  intros i Hi. simpl in Hi. unfold gather1.
  destruct (lookup_lt_is_Some_2 Xe i Hi) as [x ->]. by eexists.
Qed.

Lemma gather_batch_is_Ok {A} (X : list (list A)) bins :
  Forall2 (fun Xe be => Forall (Forall (fun i => i < length Xe)) be) X bins ->
  is_Ok (gather_batch X bins).
Proof.
  induction 1 as [|Xe be X bins Hbe _ [gs Hgs]]; simpl; [by eexists|].
  destruct (gather_is_Ok Xe be Hbe) as [g ->]. simpl. rewrite Hgs. by eexists.
Qed.

Lemma gather_batch_lookup {A} (X : list (list A)) bins Xb :
  gather_batch X bins = Ok Xb ->
  length Xb = length X
  /\ forall b Xe be Xbe, X !! b = Some Xe -> bins !! b = Some be ->
       Xb !! b = Some Xbe ->
       Forall2 (Forall2 (fun i v => Xe !! i = Some v)) be Xbe.
Proof.
  revert bins Xb. induction X as [|Xe X IH]; intros [|be bins] Xb; simpl; try done.
  - intros [= <-]. split; [done|]. intros b ?????. by destruct b.
  - destruct (gather Xe be) as [g|] eqn:Hg; simpl; [|done].
    destruct (gather_batch X bins) as [gs|] eqn:Hgs; simpl; [|done].
    intros [= <-]. destruct (IH _ _ Hgs) as [Hl Hrows]. split; [simpl; lia|].
    intros [|b] Xe' be' Xbe'; simpl.
    + intros [= <-] [= <-] [= <-]. by apply gather_Forall2.
    + apply Hrows.
Qed.

(** C2: for a feature tensor [X] of shape (batch, nbins * bin_size, F) and a
    bin assignment that is, in every batch entry, a permutation of the
    element indices, the forward gather succeeds and [reverse_lsh] applied
    to its result gives [X] back. *)
Theorem reverse_lsh_gather_identity (X : list (list (list R)))
    (bins_split : list (list (list nat))) (nbins bin_size F : nat) :
  has_shape3 X (nbins * bin_size) F ->
  has_shape3 bins_split nbins bin_size ->
  length bins_split = length X ->
  Forall (fun bins => concat bins ≡ₚ seq 0 (nbins * bin_size)) bins_split ->
  exists Xb,
    gather_batch X bins_split = Ok Xb /\ reverse_lsh bins_split Xb = Ok X.
Proof.
  intros HX Hbins Hlen Hperm. set (N := nbins * bin_size) in *.
  assert (forall b Xe, X !! b = Some Xe ->
            length Xe = N /\ Forall (fun v => length v = F) Xe) as HXe.
  { intros b Xe Hb. exact (Forall_lookup_1 _ _ _ _ HX Hb). }
  destruct (gather_batch_is_Ok X bins_split) as [Xb HXb].
  { apply Forall2_same_length_lookup_2; [done|]. intros b Xe be Hb Hbe.
    apply Forall_forall. intros ix Hix. apply Forall_forall. intros i Hi.
    destruct (HXe b Xe Hb) as [-> _].
    assert (i ∈ concat be) as Hc by (apply elem_of_concat; eauto).
    rewrite (Forall_lookup_1 _ _ _ _ Hperm Hbe) in Hc.
    apply elem_of_seq in Hc. lia. }
  exists Xb. split; [done|].
  destruct (gather_batch_lookup _ _ _ HXb) as [HlXb Hrows].
  assert (forall b Xbe, Xb !! b = Some Xbe ->
            exists Xe be, X !! b = Some Xe /\ bins_split !! b = Some be
              /\ Forall2 (Forall2 (fun i v => Xe !! i = Some v)) be Xbe) as Hev.
  { intros b Xbe Hb. pose proof (lookup_lt_Some _ _ _ Hb) as Hlt.
    destruct (lookup_lt_is_Some_2 X b) as [Xe HbX]; [lia|].
    destruct (lookup_lt_is_Some_2 bins_split b) as [be Hbe]; [lia|].
    exists Xe, be. eauto. }
  destruct (shape4 Xb) as [[[B s1] s2] f] eqn:Hsh.
  unfold shape4 in Hsh. injection Hsh as HB Hs1 Hs2 Hf0.
  (* the first event fixes the bin shape and the feature width *)
  assert (Xb <> [] -> s1 * s2 = N) as Hs.
  { destruct Xb as [|Xbe0 Xb']; [done|]. intros _. simpl in *.
    destruct (Hev 0 Xbe0 eq_refl) as (Xe & be & _ & Hbe & HF).
    destruct (Forall_lookup_1 _ _ _ _ Hbins Hbe) as [Hnb Hbs].
    pose proof (Forall2_length _ _ _ HF) as Hl.
    destruct HF as [|ix u be' Xbe' Hu _]; simpl in *; [subst; unfold N; lia|].
    apply Forall_cons in Hbs as [Hix _].
    pose proof (Forall2_length _ _ _ Hu). subst. unfold N. lia. }
  assert (forall v, v ∈ concat X -> length v = f) as HfX.
  { intros v (Xe & (b & Hb)%list_elem_of_lookup & Hv)%elem_of_concat.
    destruct (HXe b Xe Hb) as [HlXe HF].
    rewrite (proj1 (Forall_forall _ _) HF v Hv).
    destruct Xb as [|Xbe0 Xb']; [simpl in HlXb; apply lookup_lt_Some in Hb; lia|].
    simpl in *. destruct (Hev 0 Xbe0 eq_refl) as (Xe0 & be & HXe0 & Hbe & HF0).
    destruct (Forall_lookup_1 _ _ _ _ Hbins Hbe) as [Hnb Hbs].
    assert (N <> 0) as HN.
    { destruct Xe; [by apply elem_of_nil in Hv|]. simpl in HlXe. lia. }
    destruct HF0 as [|ix u be' Xbe' Hu _]; simpl in *; [subst; unfold N in HN; lia|].
    apply Forall_cons in Hbs as [Hix _].
    destruct Hu as [|i v0 ix' u' Hv0 _]; simpl in *; [subst; unfold N in HN; lia|].
    destruct (HXe 0 Xe0 HXe0) as [_ HF0]. subst f.
    symmetry. apply (proj1 (Forall_forall _ _) HF0 v0).
    by eapply list_elem_of_lookup_2. }
  assert (forall b ix, (@concat _ <$> bins_split) !! b = Some ix -> ix ≡ₚ seq 0 N)
    as Hix.
  { intros b ix (be & -> & Hbe)%list_lookup_fmap_Some.
    exact (Forall_lookup_1 _ _ _ _ Hperm Hbe). }
  assert (forall b Xe ix u, X !! b = Some Xe ->
            (@concat _ <$> bins_split) !! b = Some ix ->
            (@concat _ <$> Xb) !! b = Some u ->
            Forall2 (fun i v => Xe !! i = Some v) ix u) as Hflat.
  { intros b Xe ix u Hb (be & -> & Hbe)%list_lookup_fmap_Some
      (Xbe & -> & HXbe)%list_lookup_fmap_Some.
    apply Forall2_concat_rows. by eapply Hrows. }
  destruct (decide (Xb = [])) as [->|Hne].
  { destruct X; [|done]. by destruct bins_split. }
  assert (Forall (fun r => length r = N) (@concat _ <$> bins_split)) as HNb.
  { apply Forall_lookup. intros b ix Hb. by rewrite (Hix b ix Hb), length_seq. }
  assert (Forall (fun r => length r = N) (@concat _ <$> Xb)) as HNX.
  { apply Forall_lookup. intros b u Hu.
    pose proof Hu as (Xbe & -> & HXbe)%list_lookup_fmap_Some.
    destruct (Hev b Xbe HXbe) as (Xe & be & Hb & Hbe & _).
    assert ((@concat _ <$> bins_split) !! b = Some (concat be)) as Hcb
      by (by rewrite list_lookup_fmap, Hbe).
    rewrite <- (Forall2_length _ _ _ (Hflat b Xe _ _ Hb Hcb Hu)).
    by rewrite (Hix b _ Hcb), length_seq. }
  rewrite (reverse_lsh_flat bins_split Xb N f s1 s2).
  - rewrite HlXb. apply scatter_nd_gathered; try done.
    + eapply Forall_impl; [exact HX|]. by intros Xe [? _].
    + by rewrite length_fmap.
    + by rewrite length_fmap.
    + apply Forall_lookup. exact Hix.
  - unfold shape4. by rewrite Hs1, Hs2, Hf0.
  - by apply Hs.
  - lia.
  - done.
  - done.
  - apply Forall_forall. intros v (l & (b & Hl)%list_elem_of_lookup & Hv)%elem_of_concat.
    pose proof Hl as (Xbe & -> & HXbe)%list_lookup_fmap_Some.
    destruct (Hev b Xbe HXbe) as (Xe & be & Hb & Hbe & _).
    assert ((@concat _ <$> bins_split) !! b = Some (concat be)) as Hcb
      by (by rewrite list_lookup_fmap, Hbe).
    pose proof (Hflat b Xe _ _ Hb Hcb Hl) as HF.
    apply list_elem_of_lookup in Hv as [p Hp].
    destruct (Forall2_lookup_r _ _ _ _ _ HF Hp) as (i & _ & Hi).
    apply HfX, elem_of_concat. exists Xe.
    split; by eapply list_elem_of_lookup_2.
Qed.

Lemma reverse_lsh_gather_identity_witness :
  (has_shape3 [[[1; 2]; [3; 4]]]%R (1 * 2) 2
   /\ has_shape3 [[[1; 0]]] 1 2
   /\ length [[[1; 0]]] = length [[[1; 2]; [3; 4]]]%R
   /\ Forall (fun bins => concat bins ≡ₚ seq 0 (1 * 2)) [[[1; 0]]])
  /\ exists Xb,
      gather_batch [[[1; 2]; [3; 4]]]%R [[[1; 0]]] = Ok Xb
      /\ reverse_lsh [[[1; 0]]] Xb = Ok [[[1; 2]; [3; 4]]]%R.
Proof.
  assert (has_shape3 [[[1; 2]; [3; 4]]]%R (1 * 2) 2) as H1.
  { repeat constructor. }
  assert (has_shape3 [[[1; 0]]] 1 2) as H2.
  { repeat constructor. }
  assert (Forall (fun bins => concat bins ≡ₚ seq 0 (1 * 2)) [[[1; 0]]]) as H3.
  { constructor; [|constructor]. simpl. apply perm_swap. }
  split; [by repeat split|].
  exact (reverse_lsh_gather_identity _ _ 1 2 2 H1 H2 eq_refl H3).
Defined.

(** ** Top-k selection *)

Section TopKFacts.
Context {A : Type} (leb : A -> A -> bool).
Hypothesis leb_total : forall x y, leb x y = true \/ leb y x = true.

Lemma insert_desc_Permutation x i l : insert_desc leb x i l ≡ₚ (x, i) :: l.
Proof.
  induction l as [|[y j] l IH]; simpl; [done|].
  destruct (leb y x); [done|]. rewrite IH. apply Permutation_swap.
Qed.

Lemma sort_desc_Permutation l : sort_desc leb l ≡ₚ l.
Proof.
  induction l as [|[x i] l IH]; simpl; [done|].
  rewrite insert_desc_Permutation. by constructor.
Qed.

Lemma insert_desc_Sorted x i l :
  Sorted (desc leb) l -> Sorted (desc leb) (insert_desc leb x i l).
Proof.
  induction 1 as [|[y j] l Hl IH Hhd]; simpl.
  - by repeat constructor.
  - destruct (leb y x) eqn:Hyx.
    + constructor; [by constructor|]. by constructor.
    + constructor; [done|].
      assert (desc leb (y, j) (x, i)) as Hxy.
      { unfold desc; simpl. destruct (leb_total x y); congruence. }
      destruct Hhd as [|[z k] l' Hz]; simpl; [by constructor|].
      destruct (leb z x); by constructor.
Qed.

Lemma sort_desc_Sorted l : Sorted (desc leb) (sort_desc leb l).
Proof.
  induction l as [|[x i] l IH]; simpl; [constructor|].
  by apply insert_desc_Sorted.
Qed.

Lemma Sorted_take {B} (R : B -> B -> Prop) k l : Sorted R l -> Sorted R (take k l).
Proof.
  intros Hl. revert k. induction Hl as [|x l Hl IH Hhd]; intros [|k]; simpl;
    try constructor; [done|].
  destruct Hhd; destruct k; simpl; by constructor.
Qed.

Lemma Sorted_lookup_adjacent {B} (R : B -> B -> Prop) l r p q :
  Sorted R l -> l !! r = Some p -> l !! S r = Some q -> R p q.
Proof.
  intros Hl. revert r. induction Hl as [|x l Hl IH Hhd]; intros r; [done|].
  destruct r as [|r]; simpl.
  - intros [= <-]. destruct Hhd; simpl; [done|]. by intros [= <-].
  - apply IH.
Qed.

Lemma top_k_spec k row t :
  top_k leb k row = Ok t ->
  length t = k /\ Sorted (desc leb) t /\ Forall (fun p => p.2 < length row) t.
Proof.
  unfold top_k. case_decide as Hk; [|done]. intros [= <-].
  assert (length (sort_desc leb (zip row (seq 0 (length row)))) = length row) as Hl.
  { rewrite sort_desc_Permutation, length_zip_with, length_seq. lia. }
  split; [rewrite length_take; lia|]. split.
  - apply Sorted_take, sort_desc_Sorted.
  - apply Forall_take. rewrite sort_desc_Permutation.
    apply Forall_forall. intros [x i] Hin. simpl.
    apply elem_of_zip_r, elem_of_seq in Hin. lia.
Qed.

Lemma top_k_is_Ok k row : k <= length row -> is_Ok (top_k leb k row).
Proof. intros Hk. unfold top_k. rewrite decide_True by done. by eexists. Qed.

End TopKFacts.

(** ** Edges emitted by the sparse graph builder *)

Lemma traverse_pure {A B} (f : A -> B) (l : list A) :
  traverse (fun x => Ok (f x)) l = Ok (f <$> l).
Proof. induction l as [|x l IH]; simpl; [done|]. by rewrite IH. Qed.

Lemma traverse_ext {A B} (f g : A -> result B) (l : list A) :
  Forall (fun x => f x = g x) l -> traverse f l = traverse g l.
Proof. induction 1 as [|x l Hx _ IH]; simpl; [done|]. by rewrite Hx, IH. Qed.

Lemma gather_nd_batch_is_Ok {X} (params : list (list X)) indices :
  Forall2 (fun p ix => Forall (fun i => i < length p) ix) params indices ->
  is_Ok (gather_nd_batch params indices).
Proof.
  induction 1 as [|p ix ps ixs Hix _ [gs Hgs]]; simpl; [by eexists|].
  destruct (traverse_is_Ok (gather1 p) ix) as [g ->].
  { eapply Forall_impl; [exact Hix|]. intros i Hi. simpl in Hi. unfold gather1.
    destruct (lookup_lt_is_Some_2 p i Hi) as [x ->]. by eexists. }
  simpl. rewrite Hgs. by eexists.
Qed.

Lemma lookup_concat_uniform {X} (ls : list (list X)) M r p :
  Forall (fun l => length l = M) ls -> p < M ->
  concat ls !! (r * M + p) = ls !! r ≫= fun l => l !! p.
Proof.
  intros Hls Hp. revert r. induction Hls as [|l ls Hl _ IH]; intros r; simpl.
  - by rewrite !lookup_nil.
  - destruct r as [|r]; simpl.
    + by rewrite lookup_app_l by lia.
    + rewrite lookup_app_r by lia. rewrite <- IH. f_equal. lia.
Qed.

Lemma slice_transpose_length {X} (dflt : X) i d1 d2 t :
  length (concat (slice_last dflt i (transpose_120 dflt d1 d2 t))) = d1 * d2.
Proof.
  unfold slice_last, transpose_120.
  rewrite (concat_length_uniform d2).
  - by rewrite !length_fmap, length_seq.
  - apply Forall_fmap, Forall_fmap, Forall_forall. intros b _. simpl.
    by rewrite !length_fmap, length_seq.
Qed.

Lemma nth_elem_of {X} (dflt : X) i l : i < length l -> nth i l dflt ∈ l.
Proof. intros Hi. apply list_elem_of_In. by apply nth_In. Qed.

Lemma filter_fst_zip_NoDup (s : nat) (src dst : list nat) :
  NoDup src -> length (filter (fun e => e.1 = s) (zip src dst)) <= 1.
Proof.
  intros Hnd. revert dst. induction Hnd as [|a src Ha _ IH]; intros [|b dst]; simpl;
    try lia.
  rewrite filter_cons. case_decide as Has; simpl in *; [|apply IH].
  subst a. destruct (filter (fun e => e.1 = s) (zip src dst)) as [|e l] eqn:He;
    [simpl; lia|].
  assert (e ∈ filter (fun e => e.1 = s) (zip src dst)) as Hin
    by (rewrite He; left).
  apply list_elem_of_filter in Hin as [Hs Hin]. destruct e as [s' b']. simpl in Hs.
  subst s'. by apply elem_of_zip_l in Hin.
Qed.

Lemma concat_fmap_fmap {X Y} (f : X -> Y) (t : list (list X)) :
  concat (fmap (M:=list) (fmap (M:=list) f) t) = f <$> concat t.
Proof.
  induction t as [|l t IH]; [done|].
  rewrite fmap_cons. simpl concat. by rewrite fmap_app, IH.
Qed.

Lemma Forall2_impl_Forall_l {X Y} (P : X -> Prop) (Q S : X -> Y -> Prop) l k :
  Forall P l -> Forall2 Q l k -> (forall x y, P x -> Q x y -> S x y) ->
  Forall2 S l k.
Proof.
  intros HP HQ HS. induction HQ as [|x y l k Hxy _ IH]; [constructor|].
  apply Forall_cons in HP as [Hx HP]. constructor; auto.
Qed.

Section KnnFacts.
Context {A : Type} (leb : A -> A -> bool) (d : A).
Hypothesis leb_total : forall x y, leb x y = true \/ leb y x = true.

Lemma knn_edges_normal k subindices (dm : list (list (list A))) nelems :
  has_shape3 dm nelems nelems ->
  length subindices = length dm ->
  Forall (fun ix => length ix = nelems) subindices ->
  k <= nelems ->
  exists (T : list (list (A * nat))) (dst : nat -> list nat),
    length T = length dm * nelems
    /\ Forall (fun t => length t = k /\ Sorted (desc leb) t) T
    /\ (forall i, length (dst i) = length dm * nelems)
    /\ knn_edges leb d k subindices dm
       = Ok (concat ((fun i => zip (concat subindices) (dst i)) <$> seq 0 k),
             concat ((fun i => (fun r => nth i r d) <$> (fmap (M:=list) fst <$> T))
                       <$> seq 0 k)).
Proof using leb_total.
  intros Hdm Hlen Hsub Hk.
  assert (length dm * length (hd [] dm) = length dm * nelems) as HM.
  { destruct dm as [|bin dm']; [done|]. simpl.
    apply Forall_cons in Hdm as [[-> _] _]. done. }
  destruct (traverse_is_Ok (traverse (top_k leb k)) dm) as [T HT].
  { eapply Forall_impl; [exact Hdm|]. intros bin [_ Hbin]. simpl in *.
    apply traverse_is_Ok. eapply Forall_impl; [exact Hbin|].
    intros row Hrow. simpl in *. apply top_k_is_Ok; [done|lia]. }
  pose proof HT as HT2. apply traverse_Forall2 in HT2.
  assert (Forall2 (fun (bin : list (list A)) Tb =>
            length Tb = nelems
            /\ Forall (fun t => length t = k /\ Sorted (desc leb) t
                               /\ Forall (fun p => p.2 < nelems) t) Tb) dm T) as HTs.
  { eapply Forall2_impl_Forall_l; [exact Hdm|exact HT2|].
    intros bin Tb [Hb Hrows] HTb. simpl in *.
    apply traverse_Forall2 in HTb. split.
    - by rewrite <- (Forall2_length _ _ _ HTb).
    - apply Forall_lookup. intros j t Hj.
      destruct (Forall2_lookup_r _ _ _ _ _ HTb Hj) as (row & Hrow & Ht).
      destruct (top_k_spec leb leb_total k row t Ht) as (? & ? & ?).
      rewrite (Forall_lookup_1 _ _ _ _ Hrows Hrow) in *. done. }
  set (Tidx := fmap (M:=list) (fmap (M:=list) (fmap (M:=list) snd)) T).
  destruct (traverse_is_Ok
              (fun i => gather_nd_batch subindices (slice_last 0 i Tidx)) (seq 0 k))
    as [G HG].
  { apply Forall_forall. intros i Hi%elem_of_seq. apply gather_nd_batch_is_Ok.
    apply Forall2_same_length_lookup_2.
    { unfold slice_last, Tidx. rewrite !length_fmap.
      by rewrite <- (Forall2_length _ _ _ HTs). }
    intros b p ix Hp Hix. unfold slice_last, Tidx in Hix.
    rewrite !list_lookup_fmap in Hix.
    destruct (T !! b) as [Tb|] eqn:HTb; simplify_eq/=.
    destruct (Forall2_lookup_r _ _ _ _ _ HTs HTb) as (bin & _ & _ & HTb').
    rewrite (Forall_lookup_1 _ _ _ _ Hsub Hp).
    apply Forall_fmap, Forall_fmap, Forall_forall. intros t Ht. simpl.
    destruct (proj1 (Forall_forall _ _) HTb' t Ht) as (Hlt & _ & Hidx).
    assert (nth i (snd <$> t) 0 ∈ snd <$> t) as Hin.
    { apply nth_elem_of. rewrite length_fmap. lia. }
    apply list_elem_of_fmap in Hin as (q & -> & Hq).
    exact (proj1 (Forall_forall _ _) Hidx q Hq). }
  exists (concat T),
    (fun i => concat (slice_last 0 i
       (transpose_120 0 (length dm) (length (hd [] dm)) G))).
  split; [|split; [|split]].
  - rewrite (concat_length_uniform nelems).
    + by rewrite <- (Forall2_length _ _ _ HTs).
    + apply Forall_lookup. intros b Tb HTb.
      by destruct (Forall2_lookup_r _ _ _ _ _ HTs HTb) as (bin & _ & ? & _).
  - apply Forall_forall. intros t (Tb & (b & HTb)%list_elem_of_lookup & Ht)%elem_of_concat.
    destruct (Forall2_lookup_r _ _ _ _ _ HTs HTb) as (bin & _ & _ & HTb').
    destruct (proj1 (Forall_forall _ _) HTb' t Ht) as (? & ? & _). done.
  - intros i. by rewrite slice_transpose_length.
  - unfold knn_edges. rewrite HT. simpl. fold Tidx. rewrite HG. simpl.
    rewrite decide_True; last first.
    { rewrite (concat_length_uniform nelems) by done. lia. }
    unfold mbind, result_bind. cbv beta iota.
    rewrite (traverse_pure (fun i => (zip (concat subindices) _, _))).
    rewrite <- !list_fmap_compose. by rewrite concat_fmap_fmap.
Qed.

Lemma knn_edges_spec k subindices (dm : list (list (list A))) nelems :
  has_shape3 dm nelems nelems ->
  length subindices = length dm ->
  Forall (fun ix => length ix = nelems) subindices ->
  k <= nelems ->
  exists inds vals,
    knn_edges leb d k subindices dm = Ok (inds, vals)
    /\ length inds = k * (length dm * nelems)
    /\ length vals = k * (length dm * nelems)
    /\ (forall r p, r < k -> p < length dm * nelems ->
          fst <$> inds !! (r * (length dm * nelems) + p) = concat subindices !! p)
    /\ (forall r p v v', p < length dm * nelems ->
          vals !! (r * (length dm * nelems) + p) = Some v ->
          vals !! (S r * (length dm * nelems) + p) = Some v' ->
          leb v' v = true)
    /\ (NoDup (concat subindices) ->
        forall s, length (filter (fun e => e.1 = s) inds) <= k).
Proof using leb_total.
  intros Hdm Hlen Hsub Hk.
  destruct (knn_edges_normal k subindices dm nelems Hdm Hlen Hsub Hk)
    as (T & dst & HlT & HT & Hdst & ->).
  set (M := length dm * nelems) in *.
  assert (length (concat subindices) = M) as Hsrc.
  { rewrite (concat_length_uniform nelems) by done. unfold M. lia. }
  set (I := fun i => zip (concat subindices) (dst i)).
  set (V := fun i => (fun r => nth i r d) <$> (fmap (M:=list) fst <$> T)).
  assert (Forall (fun l => length l = M) (I <$> seq 0 k)) as HI.
  { apply Forall_fmap, Forall_forall. intros i _. simpl. unfold I.
    rewrite length_zip_with, Hsrc, Hdst. lia. }
  assert (Forall (fun l => length l = M) (V <$> seq 0 k)) as HV.
  { apply Forall_fmap, Forall_forall. intros i _. simpl. unfold V.
    by rewrite !length_fmap. }
  eexists _, _. split; [done|].
  split; [by rewrite (concat_length_uniform M), length_fmap, length_seq|].
  split; [by rewrite (concat_length_uniform M), length_fmap, length_seq|].
  split; [|split].
  - intros r p Hr Hp. rewrite (lookup_concat_uniform _ M) by done.
    rewrite list_lookup_fmap, lookup_seq_lt by done. simpl. unfold I.
    rewrite lookup_zip_with.
    destruct (concat subindices !! p) as [a|] eqn:Ha; simpl; [|done].
    destruct (lookup_lt_is_Some_2 (dst r) p) as [b ->]; [by rewrite Hdst|]. done.
  - intros r p v v' Hp Hv Hv'.
    assert (S r < k) as Hr.
    { apply lookup_lt_Some in Hv'.
      rewrite (concat_length_uniform M), length_fmap, length_seq in Hv' by done.
      destruct (decide (S r < k)); [done|]. exfalso.
      assert (k * M <= S r * M) by (apply Nat.mul_le_mono_r; lia). lia. }
    rewrite (lookup_concat_uniform _ M) in Hv, Hv' by done.
    rewrite list_lookup_fmap, lookup_seq_lt in Hv, Hv' by lia. simpl in Hv, Hv'.
    unfold V in Hv, Hv'. rewrite !list_lookup_fmap in Hv, Hv'.
    destruct (T !! p) as [t|] eqn:Ht; simplify_eq/=.
    destruct (proj1 (Forall_forall _ _) HT t) as [Hlt Hst];
      [by eapply list_elem_of_lookup_2|].
    rewrite !nth_lookup, !list_lookup_fmap.
    destruct (lookup_lt_is_Some_2 t r) as [q Hq]; [lia|].
    destruct (lookup_lt_is_Some_2 t (S r)) as [q' Hq']; [lia|].
    rewrite Hq, Hq'. simpl.
    exact (Sorted_lookup_adjacent _ _ _ _ _ Hst Hq Hq').
  - intros Hnd s. clear HI.
    assert (forall js : list nat,
              length (filter (fun e => e.1 = s) (concat (I <$> js))) <= length js)
      as Hcount.
    { induction js as [|j js IH]; csimpl; [done|].
      rewrite filter_app, length_app.
      pose proof (filter_fst_zip_NoDup s (concat subindices) (dst j) Hnd).
      fold (I j) in *. lia. }
    specialize (Hcount (seq 0 k)). by rewrite length_seq in Hcount.
Qed.
End KnnFacts.

Lemma Rleb_total x y : Rleb x y = true \/ Rleb y x = true.
Proof.
  unfold Rleb. destruct (Rle_or_lt x y).
  - left. by apply bool_decide_eq_true_2.
  - right. apply bool_decide_eq_true_2. lra.
Qed.

Lemma pairwise_gaussian_dist_shape (bin : list (list R)) n F :
  length bin = n -> Forall (fun r => length r = F) bin ->
  exists D, pairwise_gaussian_dist bin bin = Ok D
    /\ length D = n /\ Forall (fun r => length r = n) D.
Proof.
  intros Hn HF. unfold pairwise_gaussian_dist, matmul_nt.
  rewrite decide_True; last first.
  { destruct HF as [|r bin Hr HF]; [constructor|]. unfold ncols. simpl.
    constructor; [done|]. eapply Forall_impl; [exact HF|]. simpl. congruence. }
  simpl. eexists. split; [done|]. split.
  - rewrite length_zip_with, !length_fmap. lia.
  - apply Forall_forall. intros row (i & Hi)%list_elem_of_lookup.
    apply lookup_zip_with_Some in Hi as (na & ab & -> & _ & Hab).
    apply list_lookup_fmap_Some in Hab as (r & -> & _).
    rewrite length_zip_with, !length_fmap. lia.
Qed.

(** ** Input encoding *)

Lemma Int_part_IZR z : Int_part (IZR z) = z.
Proof.
  unfold Int_part. rewrite <- (tech_up (IZR z) (z + 1)); [lia| |].
  - rewrite plus_IZR. lra.
  - rewrite plus_IZR. lra.
Qed.

Lemma trunc_IZR z : trunc (IZR z) = z.
Proof.
  unfold trunc. case_decide as Hz.
  - apply Int_part_IZR.
  - rewrite <- opp_IZR, Int_part_IZR. lia.
Qed.

Lemma cast_int32_IZR z :
  (- 2 ^ 31 <= z < 2 ^ 31)%Z -> cast_int32 (IZR z) = z.
Proof. intros Hz. unfold cast_int32. rewrite trunc_IZR. by rewrite decide_True. Qed.

Example cast_int32_ex : cast_int32 (-1) = (-1)%Z /\ cast_int32 9 = 9%Z.
Proof. split; apply cast_int32_IZR; lia. Qed.

Lemma one_hot_length idx depth : length (one_hot idx depth) = depth.
Proof. unfold one_hot. by rewrite length_fmap, length_seq. Qed.

Lemma one_hot_out_of_range idx depth :
  (idx < 0 \/ Z.of_nat depth <= idx)%Z -> one_hot idx depth = zeros depth.
Proof.
  intros Hidx. unfold one_hot, zeros. apply list_eq. intros j.
  rewrite list_lookup_fmap. destruct (decide (j < depth)) as [Hj|Hj].
  - rewrite lookup_seq_lt, lookup_replicate_2 by done. simpl.
    by rewrite decide_False by lia.
  - rewrite lookup_seq_ge by lia. simpl. symmetry.
    apply lookup_replicate_None. lia.
Qed.

Lemma encode_spec n x x0 xs :
  x = x0 :: xs ->
  InputEncoding.encode n x = Ok (one_hot (cast_int32 x0) n ++ xs).
Proof. by intros ->. Qed.

(** C10: on a tensor whose elements have [F >= 1] features,
    [InputEncoding.call] raises no error whatever the type indices are; the
    output elements have [num_input_classes + (F - 1)] features, and an
    element whose type index is negative or at least [num_input_classes]
    gets an all-zero one-hot block. *)
Theorem InputEncoding_call_total (num_input_classes : nat) (X : list (list (list R)))
    (N F : nat) :
  1 <= F ->
  has_shape3 X N F ->
  exists Y,
    InputEncoding.call num_input_classes X = Ok Y
    /\ has_shape3 Y N (num_input_classes + (F - 1))
    /\ forall b i x idx,
         row_at X b i = Some x ->
         InputEncoding.type_index x = Ok idx ->
         (idx < 0 \/ Z.of_nat num_input_classes <= idx)%Z ->
         exists y, row_at Y b i = Some y
                   /\ take num_input_classes y = zeros num_input_classes.
Proof.
  intros HF HX.
  assert (forall x : list R, length x = F ->
            exists x0 xs, x = x0 :: xs /\ length xs = F - 1) as Hcons.
  { intros [|x0 xs] Hx; simpl in Hx; [lia|]. exists x0, xs. split; [done|lia]. }
  destruct (traverse_is_Ok
              (traverse (InputEncoding.encode num_input_classes)) X) as [Y HY].
  { eapply Forall_impl; [exact HX|]. intros ev [_ Hev]. simpl in *.
    apply traverse_is_Ok. eapply Forall_impl; [exact Hev|]. intros x Hx. simpl in *.
    destruct (Hcons x Hx) as (x0 & xs & -> & _). by eexists. }
  exists Y. split; [done|].
  pose proof HY as HY2. apply traverse_Forall2 in HY2.
  split.
  - apply Forall_lookup. intros b ev' Hb.
    destruct (Forall2_lookup_r _ _ _ _ _ HY2 Hb) as (ev & Hev & Henc).
    destruct (Forall_lookup_1 _ _ _ _ HX Hev) as [HN Hrows].
    apply traverse_Forall2 in Henc. split.
    + by rewrite <- (Forall2_length _ _ _ Henc).
    + apply Forall_lookup. intros i y Hy.
      destruct (Forall2_lookup_r _ _ _ _ _ Henc Hy) as (x & Hx & Hxy).
      destruct (Hcons x (Forall_lookup_1 _ _ _ _ Hrows Hx)) as (x0 & xs & -> & Hxs).
      rewrite (encode_spec _ _ x0 xs eq_refl) in Hxy. injection Hxy as <-.
      by rewrite length_app, one_hot_length, Hxs.
  - intros b i x idx Hx Hidx Hrange. unfold row_at in *.
    destruct (X !! b) as [ev|] eqn:Hev; simpl in Hx; [|done].
    destruct (Forall2_lookup_l _ _ _ _ _ HY2 Hev) as (ev' & -> & Henc). simpl.
    apply traverse_Forall2 in Henc.
    destruct (Forall2_lookup_l _ _ _ _ _ Henc Hx) as (y & -> & Hxy).
    exists y. split; [done|].
    destruct x as [|x0 xs]; [done|]. simpl in Hidx.
    rewrite (encode_spec _ _ x0 xs eq_refl) in Hxy.
    injection Hidx as <-. injection Hxy as <-.
    rewrite take_app_length' by (by rewrite one_hot_length).
    by apply one_hot_out_of_range.
Qed.

Lemma InputEncoding_call_total_witness :
  (1 <= 2 /\ has_shape3 [[[-1; 5]; [9; 7]]]%R 2 2)
  /\ exists Y,
      InputEncoding.call 8 [[[-1; 5]; [9; 7]]]%R = Ok Y
      /\ has_shape3 Y 2 (8 + (2 - 1))
      /\ forall b i x idx,
           row_at [[[-1; 5]; [9; 7]]]%R b i = Some x ->
           InputEncoding.type_index x = Ok idx ->
           (idx < 0 \/ Z.of_nat 8 <= idx)%Z ->
           exists y, row_at Y b i = Some y /\ take 8 y = zeros 8.
Proof.
  assert (has_shape3 [[[-1; 5]; [9; 7]]]%R 2 2) as H by repeat constructor.
  split; [split; [lia|done]|].
  exact (InputEncoding_call_total 8 _ 2 2 ltac:(lia) H).
Defined.

(** ** Gated dense convolution *)

Lemma sigmoid_range x : (0 < sigmoid x < 1)%R.
Proof.
  unfold sigmoid. pose proof (exp_pos (- x)) as He.
  split.
  - apply Rdiv_lt_0_compat; lra.
  - apply Rmult_lt_reg_r with (1 + exp (- x))%R; [lra|].
    unfold Rdiv. rewrite Rmult_assoc, Rinv_l by lra. lra.
Qed.

Lemma matmul_Ok a b :
  Forall (fun r => length r = length b) a ->
  exists c, matmul a b = Ok c /\ length c = length a
            /\ Forall (fun r => length r = ncols b) c.
Proof.
  intros Ha. unfold matmul. rewrite decide_True by done.
  eexists. split; [done|]. split; [by rewrite length_fmap|].
  apply Forall_fmap, Forall_forall. intros r _. simpl.
  by rewrite length_fmap, length_seq.
Qed.

Lemma matmul_length a b c : matmul a b = Ok c -> length c = length a.
Proof.
  unfold matmul. case_decide; [|done]. intros [= <-]. by rewrite length_fmap.
Qed.

Lemma mul_col_length x col : length (mul_col x col) = min (length x) (length col).
Proof. unfold mul_col. by rewrite length_zip_with. Qed.

Lemma mul_col_widths x col n :
  Forall (fun r => length r = n) x -> Forall (fun r => length r = n) (mul_col x col).
Proof.
  intros Hx. apply Forall_forall. intros row (i & Hi)%list_elem_of_lookup.
  apply lookup_zip_with_Some in Hi as (r & m & -> & Hr & _).
  rewrite length_fmap. exact (Forall_lookup_1 _ _ _ _ Hx Hr).
Qed.

Lemma mul_col_masked x col i m row :
  mul_col x col !! i = Some row -> col !! i = Some m -> hd 0%R m = 0%R ->
  Forall (fun v => v = 0%R) row.
Proof.
  intros Hrow Hm H0. apply lookup_zip_with_Some in Hrow as (r & m' & -> & _ & Hm').
  assert (m' = m) as -> by congruence.
  apply Forall_fmap, Forall_forall. intros v _. simpl. rewrite H0. lra.
Qed.

Lemma Int_part_floor x : (IZR (Int_part x) <= x < IZR (Int_part x) + 1)%R.
Proof. destruct (base_Int_part x) as [H1 H2]. lra. Qed.

Lemma Int_part_eq x z : (IZR z <= x < IZR z + 1)%R -> Int_part x = z.
Proof.
  intros [H1 H2]. destruct (Int_part_floor x) as [H3 H4].
  assert (Int_part x < z + 1)%Z by (apply lt_IZR; rewrite plus_IZR; lra).
  assert (z < Int_part x + 1)%Z by (apply lt_IZR; rewrite plus_IZR; lra).
  lia.
Qed.

Lemma round_half_even_bounds x :
  (Int_part x <= round_half_even x <= Int_part x + 1)%Z.
Proof.
  unfold round_half_even. repeat case_decide; try lia.
  destruct (Z.even (Int_part x)); lia.
Qed.

Lemma round_half_even_down x z :
  (IZR z <= x)%R -> (x - IZR z < 1 / 2)%R -> round_half_even x = z.
Proof.
  intros H1 H2. unfold round_half_even.
  rewrite (Int_part_eq x z) by lra. by rewrite decide_True.
Qed.

Lemma round_half_even_up x z :
  (IZR z - 1 / 2 < x)%R -> (x < IZR z)%R -> round_half_even x = z.
Proof.
  intros H1 H2. unfold round_half_even.
  rewrite (Int_part_eq x (z - 1)) by (rewrite minus_IZR; lra).
  rewrite minus_IZR.
  rewrite decide_False by lra. rewrite decide_True by lra. lia.
Qed.

Lemma ln_2_pos : (0 < ln 2)%R.
Proof. rewrite <- ln_1. apply ln_increasing; lra. Qed.

Lemma powerRZ_2_IZR (z : Z) : (0 <= z)%Z -> powerRZ 2 z = IZR (2 ^ z).
Proof.
  intros Hz. rewrite <- (Z2Nat.id z) by done.
  by rewrite <- pow_powerRZ, pow_IZR.
Qed.

(** A float32 never leaves the closed unit interval when the real does
    not leave the open one. *)
Lemma float32_unit_interval (y : R) : (0 < y < 1)%R -> (0 <= float32 y <= 1)%R.
Proof.
  intros [H0 H1]. unfold float32. rewrite decide_False by lra.
  set (e := Z.max _ _).
  assert (e <= -1)%Z as He.
  { unfold e. apply Z.max_lub; [|lia].
    destruct (Int_part_floor (ln (Rabs y) / ln 2)) as [Hl _].
    assert (ln (Rabs y) / ln 2 < 0)%R as Hneg.
    { rewrite Rabs_right by lra. pose proof ln_2_pos.
      assert (ln y < 0)%R by (rewrite <- ln_1; apply ln_increasing; lra).
      apply Rmult_lt_reg_r with (ln 2); [done|].
      unfold Rdiv. rewrite Rmult_assoc, Rinv_l by lra. lra. }
    assert (Int_part (ln (Rabs y) / ln 2) < 0)%Z by (apply lt_IZR; lra). lia. }
  assert (0 < powerRZ 2 (23 - e))%R as Hp by (apply powerRZ_lt; lra).
  assert (0 < powerRZ 2 (e - 23))%R as Hq by (apply powerRZ_lt; lra).
  assert (powerRZ 2 (23 - e) * powerRZ 2 (e - 23) = 1)%R as Hinv.
  { rewrite <- powerRZ_add by lra. replace (23 - e + (e - 23))%Z with 0%Z by lia.
    done. }
  assert (exists N : Z, powerRZ 2 (23 - e) = IZR N) as [N HN].
  { exists (2 ^ (23 - e))%Z. apply powerRZ_2_IZR. lia. }
  rewrite HN in *. clear HN.
  pose proof (round_half_even_bounds (y * IZR N)) as [Hr1 Hr2].
  destruct (Int_part_floor (y * IZR N)) as [Hf1 Hf2].
  assert (0 <= Int_part (y * IZR N))%Z as Hi0.
  { apply Z.lt_succ_r, lt_IZR. rewrite succ_IZR.
    assert (0 < y * IZR N)%R by (apply Rmult_lt_0_compat; lra). lra. }
  assert (Int_part (y * IZR N) + 1 <= N)%Z as HiN.
  { apply Z.lt_succ_r, lt_IZR. rewrite succ_IZR, plus_IZR.
    assert (y * IZR N < IZR N)%R by nra. lra. }
  split.
  - apply Rmult_le_pos; [|lra]. apply IZR_le. lia.
  - rewrite <- Hinv. apply Rmult_le_compat_r; [lra|].
    apply IZR_le. lia.
Qed.

Lemma exp_ge_pow2 (n : nat) : (powerRZ 2 (Z.of_nat n) <= exp (INR n))%R.
Proof.
  induction n as [|n IH].
  - simpl. rewrite exp_0. lra.
  - rewrite Nat2Z.inj_succ, S_INR. unfold Z.succ.
    rewrite powerRZ_add by lra. rewrite exp_plus.
    pose proof (exp_ineq1 1 ltac:(lra)) as H1.
    assert (0 < powerRZ 2 (Z.of_nat n))%R by (apply powerRZ_lt; lra).
    pose proof (exp_pos (INR n)).
    replace (powerRZ 2 1) with 2%R by (simpl; lra). nra.
Qed.

Lemma exp_ge_pow2_Z (z : Z) (x : R) :
  (0 <= z)%Z -> (IZR z <= x)%R -> (powerRZ 2 z <= exp x)%R.
Proof.
  intros Hz Hx. rewrite <- (Z2Nat.id z) by done.
  etransitivity; [apply exp_ge_pow2|].
  rewrite INR_IZR_INZ, Z2Nat.id by done.
  destruct (Rle_lt_or_eq_dec _ _ Hx) as [Hlt | ->]; [|lra].
  left. by apply exp_increasing.
Qed.

(** The float32 sigmoid saturates: at 100 the real value is closer to 1 than
    to the float32 below it, and at -200 it is below half the smallest
    positive float32. *)
Lemma sigmoid_f32_saturates_high : sigmoid_f32 100 = 1%R.
Proof.
  unfold sigmoid_f32, float32, sigmoid.
  set (y := (1 / (1 + exp (Ropp 100)))%R).
  pose proof (exp_pos (Ropp 100)) as Hpos.
  pose proof (exp_pos 100) as Hpos'.
  pose proof (exp_ge_pow2_Z 25 100 ltac:(lia) ltac:(lra)) as Hbig.
  set (P := powerRZ 2 24) in *.
  assert (0 < P)%R as HP by (apply powerRZ_lt; lra).
  assert (powerRZ 2 25 = 2 * P)%R as H25.
  { unfold P. replace 25%Z with (1 + 24)%Z by lia. rewrite powerRZ_add by lra.
    simpl. lra. }
  rewrite H25 in Hbig.
  assert (exp (Ropp 100) = / exp 100)%R as Hinv by apply exp_Ropp.
  assert (y * (1 + exp (Ropp 100)) = 1)%R as Hy.
  { unfold y. field. lra. }
  assert (1 / 2 <= y < 1)%R as [Hy1 Hy2].
  { assert (exp (Ropp 100) < 1)%R.
    { rewrite <- exp_0. apply exp_increasing. lra. }
    split; nra. }
  rewrite decide_False by lra.
  assert (Int_part (ln (Rabs y) / ln 2) = (-1)%Z) as ->.
  { apply Int_part_eq. rewrite Rabs_right by lra. pose proof ln_2_pos as H2.
    assert (ln y < 0)%R by (rewrite <- ln_1; apply ln_increasing; lra).
    assert (- ln 2 <= ln y)%R as Hlow.
    { rewrite <- ln_Rinv by lra.
      destruct (Rle_lt_or_eq_dec _ _ Hy1) as [Hlt | <-].
      - left. apply ln_increasing; lra.
      - right. f_equal. lra. }
    split.
    - apply Rmult_le_reg_r with (ln 2); [done|].
      unfold Rdiv. rewrite Rmult_assoc, Rinv_l by lra. lra.
    - apply Rmult_lt_reg_r with (ln 2); [done|].
      unfold Rdiv. rewrite Rmult_assoc, Rinv_l by lra. lra. }
  replace (Z.max (-1) (-126)) with (-1)%Z by lia.
  replace (23 - -1)%Z with 24%Z by lia. replace (-1 - 23)%Z with (-24)%Z by lia.
  fold P.
  assert (P = IZR (2 ^ 24)) as HPz by (apply powerRZ_2_IZR; lia).
  assert (exp (Ropp 100) * exp 100 = 1)%R as Hee by (rewrite Hinv; field; lra).
  rewrite (round_half_even_up (y * P) (2 ^ 24)).
  - rewrite <- HPz. unfold P. rewrite <- powerRZ_add by lra. done.
  - rewrite <- HPz.
    assert ((1 - y) * (1 + exp 100) = 1)%R.
    { replace (1 - y)%R with (y * exp (Ropp 100))%R by lra. nra. }
    assert ((1 - y) * (2 * P) < 1)%R by nra. nra.
  - rewrite <- HPz. nra.
Qed.

Lemma sigmoid_f32_saturates_low : sigmoid_f32 (- 200) = 0%R.
Proof.
  unfold sigmoid_f32, float32, sigmoid.
  replace (Ropp (-200)) with 200%R by lra.
  set (y := (1 / (1 + exp 200))%R).
  pose proof (exp_pos 200) as Hpos.
  pose proof (exp_ge_pow2_Z 150 200 ltac:(lia) ltac:(lra)) as Hbig.
  set (P := powerRZ 2 149) in *.
  assert (0 < P)%R as HP by (apply powerRZ_lt; lra).
  assert (powerRZ 2 150 = 2 * P)%R as H150.
  { unfold P. replace 150%Z with (1 + 149)%Z by lia. rewrite powerRZ_add by lra.
    simpl. lra. }
  rewrite H150 in Hbig.
  assert (y * (1 + exp 200) = 1)%R as Hy by (unfold y; field; lra).
  assert (0 < y)%R as Hy0 by (unfold y; apply Rdiv_lt_0_compat; lra).
  rewrite decide_False by lra.
  assert (Int_part (ln (Rabs y) / ln 2) <= -126)%Z as He.
  { rewrite Rabs_right by lra. pose proof ln_2_pos as H2.
    destruct (Int_part_floor (ln y / ln 2)) as [Hl _].
    assert (ln 2 < 1)%R as Hln2.
    { rewrite <- (ln_exp 1). apply ln_increasing; [lra|].
      pose proof (exp_ineq1 1 ltac:(lra)). lra. }
    assert (ln y < - 200)%R as Hlny.
    { unfold y. rewrite Rdiv_1_l, ln_Rinv by lra.
      assert (200 < ln (1 + exp 200))%R.
      { rewrite <- (ln_exp 200) at 1. apply ln_increasing; lra. }
      lra. }
    assert (ln y / ln 2 < -126)%R.
    { apply Rmult_lt_reg_r with (ln 2); [done|].
      unfold Rdiv. rewrite Rmult_assoc, Rinv_l by lra. nra. }
    apply le_IZR. lra. }
  replace (Z.max _ (-126)) with (-126)%Z by lia.
  replace (23 - -126)%Z with 149%Z by lia. fold P.
  rewrite (round_half_even_down (y * P) 0); [lra| |].
  - apply Rmult_le_pos; lra.
  - nra.
Qed.

Lemma gate_entries self x g :
  GHConvDense.gate self x = Ok g ->
  length g = length x
  /\ (forall i xi j b,
        x !! i = Some xi -> j < ncols (GHConvDense.W_t self) ->
        GHConvDense.b_t self !! j = Some b ->
        (row ← g !! i; (row : list R) !! j)
        = Some (sigmoid_f32 (dot xi (column j (GHConvDense.W_t self)) + b)))
  /\ Forall (fun row => length row
              = min (ncols (GHConvDense.W_t self)) (length (GHConvDense.b_t self))) g
  /\ Forall (Forall (fun v => 0 <= v <= 1)%R) g.
Proof.
  unfold GHConvDense.gate, matmul. case_decide; simpl; [|done].
  intros [= <-]. split; [by rewrite !length_fmap|]. split; [|split].
  - intros i xi j b Hxi Hj Hb. rewrite !list_lookup_fmap, Hxi. simpl.
    by rewrite list_lookup_fmap, lookup_zip_with, list_lookup_fmap,
      lookup_seq_lt, Hb by done.
  - apply Forall_fmap, Forall_fmap, Forall_forall. intros r _. simpl.
    by rewrite length_fmap, length_zip_with, length_fmap, length_seq.
  - apply Forall_fmap, Forall_forall. intros row _. simpl.
    apply Forall_fmap, Forall_forall. intros v _. simpl.
    apply float32_unit_interval, sigmoid_range.
Qed.

(** C7 as stated fails for the gate: the float32 sigmoid of 100 is exactly 1
    and that of -200 exactly 0, so the gate of a layer with unit weight and
    zero bias is not strictly inside the unit interval at these inputs. *)
Lemma gate_reaches_zero_and_one :
  GHConvDense.gate ghconv_unit [[100]; [-200]]%R = Ok [[1]; [0]]%R
  /\ ~ gate_strictly_inside ghconv_unit [[100]; [-200]]%R.
Proof.
  assert (GHConvDense.gate ghconv_unit [[100]; [-200]]%R = Ok [[1]; [0]]%R) as Hg.
  { unfold GHConvDense.gate, matmul. rewrite decide_True by repeat constructor.
    cbn -[sigmoid_f32]. unfold dot, vsum; simpl.
    replace (100 * 1 + 0 + 0)%R with 100%R by lra.
    replace (-200 * 1 + 0 + 0)%R with (-200)%R by lra.
    by rewrite sigmoid_f32_saturates_high, sigmoid_f32_saturates_low. }
  split; [done|]. intros H. specialize (H _ Hg).
  apply Forall_cons in H as [H _]. apply Forall_cons in H as [[_ H] _]. lra.
Qed.

Lemma mul_col_row x col i m row :
  mul_col x col !! i = Some row -> col !! i = Some m -> hd 0%R m = 0%R ->
  row = replicate (length row) 0%R.
Proof.
  intros Hrow Hm H0. apply lookup_zip_with_Some in Hrow as (r & m' & -> & _ & Hm').
  assert (m' = m) as -> by congruence. rewrite H0, length_fmap.
  clear. induction r as [|v r IH]; csimpl; [done|]. rewrite <- IH. f_equal. lra.
Qed.

Lemma matmul_shape a b c D :
  matmul a b = Ok c -> b <> [] -> Forall (fun r => length r = D) b ->
  length c = length a /\ Forall (fun r => length r = D) c.
Proof.
  unfold matmul. case_decide; [|done]. intros [= <-] Hb HD.
  split; [by rewrite length_fmap|].
  apply Forall_fmap, Forall_forall. intros r _. simpl.
  rewrite length_fmap, length_seq. unfold ncols.
  destruct b as [|r0 b]; [done|]. simpl. by apply Forall_cons in HD as [-> _].
Qed.

Lemma map2_widths op (a b : list (list R)) D :
  Forall (fun r => length r = D) a -> Forall (fun r => length r = D) b ->
  Forall (fun r => length r = D) (map2 op a b).
Proof.
  intros Ha Hb. apply Forall_lookup. intros i r Hr.
  apply lookup_zip_with_Some in Hr as (r1 & r2 & -> & H1 & H2).
  rewrite length_zip_with, (Forall_lookup_1 _ _ _ _ Ha H1),
    (Forall_lookup_1 _ _ _ _ Hb H2). lia.
Qed.

Lemma map_entries_widths f (a : list (list R)) D :
  Forall (fun r => length r = D) a ->
  Forall (fun r => length r = D) (map_entries f a).
Proof.
  intros Ha. apply Forall_fmap. eapply Forall_impl; [exact Ha|].
  intros r Hr. simpl. by rewrite length_fmap.
Qed.

(** C7, amended: on [n] nodes with [H >= 1] features, an [n] by [n]
    adjacency, a mask column and weights of shape (H, D), as [build]
    creates them, [GHConvDense.call] returns [n] rows of width [D].  Every
    component of the gate is the float32 sigmoid of [x W_t + b_t] and lies
    in the closed interval from 0 to 1 (the real sigmoid is strictly
    inside, its float32 value reaches both ends), and the output row of
    every node whose mask entry is 0 is the zero row of width [D]. *)
Theorem GHConvDense_gate_range_and_mask (self : GHConvDense.t)
    (x adj msk : list (list R)) (n H D : nat) :
  1 <= H ->
  length x = n -> Forall (fun r => length r = H) x ->
  length adj = n -> Forall (fun r => length r = n) adj ->
  length msk = n ->
  length (GHConvDense.theta self) = H ->
  Forall (fun r => length r = D) (GHConvDense.theta self) ->
  length (GHConvDense.W_h self) = H ->
  Forall (fun r => length r = D) (GHConvDense.W_h self) ->
  length (GHConvDense.W_t self) = H ->
  Forall (fun r => length r = D) (GHConvDense.W_t self) ->
  length (GHConvDense.b_t self) = D ->
  exists gate out,
    GHConvDense.gate self x = Ok gate
    /\ GHConvDense.call self x adj msk = Ok out
    /\ length gate = n /\ Forall (fun r => length r = D) gate
    /\ length out = n /\ Forall (fun r => length r = D) out
    /\ (forall i xi j b,
          x !! i = Some xi -> GHConvDense.b_t self !! j = Some b ->
          (row ← gate !! i; (row : list R) !! j)
          = Some (sigmoid_f32 (dot xi (column j (GHConvDense.W_t self)) + b)))
    /\ Forall (Forall (fun v => 0 <= v <= 1)%R) gate
    /\ forall i m,
         msk !! i = Some m -> hd 0%R m = 0%R ->
         out !! i = Some (replicate D 0%R).
Proof.
  intros HH Hx HxH Hadj Hadjn Hmsk Htheta HthD HWh HWhD HWt HWtD Hb.
  assert (forall W : list (list R), length W = H -> W <> []) as Hne.
  { intros W HW ->. simpl in HW. lia. }
  assert (forall W : list (list R), length W = H ->
            Forall (fun r => length r = D) W -> ncols W = D) as Hnc.
  { intros [|r W] HW HD; [simpl in HW; lia|].
    unfold ncols. simpl. by apply Forall_cons in HD as [-> _]. }
  destruct (matmul_Ok x (GHConvDense.W_t self)) as (xw & Hxw & Hlxw & _).
  { by rewrite HWt. }
  assert (is_Ok (GHConvDense.gate self x)) as [g Hg].
  { unfold GHConvDense.gate. rewrite Hxw. by eexists. }
  destruct (gate_entries self x g Hg) as (Hlg & Hge & Hgw & Hgr).
  rewrite (Hnc _ HWt HWtD), Hb, Nat.min_id in Hgw.
  exists g. unfold GHConvDense.call.
  destruct (matmul_Ok (mul_col x msk) (GHConvDense.theta self))
    as (fh & Hfh & Hlfh & _).
  { rewrite Htheta. by apply mul_col_widths. }
  rewrite Hfh. simpl.
  destruct (matmul_shape _ _ _ D Hfh (Hne _ Htheta) HthD) as [_ Hwfh].
  rewrite mul_col_length in Hlfh.
  assert (exists fh', (if GHConvDense.normalize_degrees self
            then
              r ← matmul adj (mul_col (mul_col fh msk) (GHConvDense.norm adj msk));
              Ok (mul_col r (GHConvDense.norm adj msk))
            else matmul adj (mul_col fh msk)) = Ok fh' /\ length fh' = n
            /\ Forall (fun r => length r = D) fh')
    as (fh' & -> & Hlfh' & Hwfh').
  { assert (forall b fh'' : list (list R), length b = n ->
              Forall (fun r => length r = D) b ->
              matmul adj b = Ok fh'' ->
              length fh'' = n /\ Forall (fun r => length r = D) fh'') as Hmm.
    { intros b fh'' Hlb HbD Hm. destruct b as [|r0 b].
      - simpl in Hlb. subst n. apply matmul_length in Hm.
        destruct adj; [|simpl in Hadj; lia]. destruct fh''; [|done]. by split.
      - destruct (matmul_shape _ _ _ D Hm ltac:(done) HbD) as [H1 H2].
        split; [lia|done]. }
    destruct (GHConvDense.normalize_degrees self).
    - destruct (matmul_Ok adj (mul_col (mul_col fh msk) (GHConvDense.norm adj msk)))
        as (r & Hr & Hlr & _).
      { eapply Forall_impl; [exact Hadjn|]. intros r ->. simpl.
        unfold GHConvDense.norm. rewrite !mul_col_length, !length_fmap. lia. }
      rewrite Hr. simpl. eexists. split; [done|].
      assert (length (mul_col (mul_col fh msk) (GHConvDense.norm adj msk)) = n)
        as Hlb'.
      { unfold GHConvDense.norm. rewrite !mul_col_length, !length_fmap. lia. }
      assert (Forall (fun r => length r = D)
                (mul_col (mul_col fh msk) (GHConvDense.norm adj msk))) as HbD'
        by (by do 2 apply mul_col_widths).
      destruct (Hmm _ r Hlb' HbD' Hr) as [H1 H2].
      split; [|by apply mul_col_widths].
      unfold GHConvDense.norm. rewrite !mul_col_length, !length_fmap. lia.
    - destruct (matmul_Ok adj (mul_col fh msk)) as (r & Hr & Hlr & _).
      { eapply Forall_impl; [exact Hadjn|]. intros r ->. simpl.
        rewrite mul_col_length. lia. }
      rewrite Hr. eexists. split; [done|].
      apply (Hmm (mul_col fh msk)); [rewrite mul_col_length; lia| |done].
      by apply mul_col_widths. }
  simpl.
  destruct (matmul_Ok (mul_col x msk) (GHConvDense.W_h self))
    as (fhet & Hfhet & Hlfhet & _).
  { rewrite HWh. by apply mul_col_widths. }
  rewrite Hfhet.
  destruct (matmul_shape _ _ _ D Hfhet (Hne _ HWh) HWhD) as [_ Hwfhet].
  rewrite mul_col_length in Hlfhet.
  simpl. rewrite Hg. simpl.
  set (out := mul_col _ msk).
  assert (length out = n) as Hlo.
  { unfold out. rewrite mul_col_length. unfold map_entries, map2.
    rewrite !length_fmap, !length_zip_with, !length_fmap. lia. }
  assert (Forall (fun r => length r = D) out) as Hwo.
  { unfold out. apply mul_col_widths, map_entries_widths, map2_widths.
    - by apply map2_widths.
    - apply map2_widths; [by apply map_entries_widths|done]. }
  exists out. split; [done|]. split; [done|]. split; [lia|].
  split; [done|]. split; [done|]. split; [done|]. split.
  { intros i xi j b Hxi Hbj. apply Hge; [done| |done].
    rewrite (Hnc _ HWt HWtD), <- Hb. by eapply lookup_lt_Some. }
  split; [done|].
  intros i m Hm H0.
  destruct (lookup_lt_is_Some_2 out i) as [row Hrow].
  { rewrite Hlo, <- Hmsk. by eapply lookup_lt_Some. }
  rewrite Hrow. f_equal.
  rewrite <- (Forall_lookup_1 _ _ _ _ Hwo Hrow).
  by eapply mul_col_row.
Qed.

Lemma GHConvDense_gate_range_and_mask_witness :
  (1 <= 1
   /\ length [[2]; [3]]%R = 2 /\ Forall (fun r => length r = 1) [[2]; [3]]%R
   /\ length [[1; 1]; [1; 1]]%R = 2
   /\ Forall (fun r => length r = 2) [[1; 1]; [1; 1]]%R
   /\ length [[1]; [0]]%R = 2
   /\ length (GHConvDense.theta ghconv_unit) = 1
   /\ Forall (fun r => length r = 1) (GHConvDense.theta ghconv_unit)
   /\ length (GHConvDense.W_h ghconv_unit) = 1
   /\ Forall (fun r => length r = 1) (GHConvDense.W_h ghconv_unit)
   /\ length (GHConvDense.W_t ghconv_unit) = 1
   /\ Forall (fun r => length r = 1) (GHConvDense.W_t ghconv_unit)
   /\ length (GHConvDense.b_t ghconv_unit) = 1)
  /\ exists gate out,
      GHConvDense.gate ghconv_unit [[2]; [3]]%R = Ok gate
      /\ GHConvDense.call ghconv_unit [[2]; [3]]%R [[1; 1]; [1; 1]]%R [[1]; [0]]%R = Ok out
      /\ length gate = 2 /\ length out = 2
      /\ Forall (Forall (fun v => 0 <= v <= 1)%R) gate
      /\ out !! 1 = Some [0%R].
Proof.
  assert (Forall (fun r => length r = 1) [[2]; [3]]%R) as H1 by repeat constructor.
  assert (Forall (fun r => length r = 2) [[1; 1]; [1; 1]]%R) as H2
    by repeat constructor.
  assert (Forall (fun r : list R => length r = 1) [[1%R]]) as H3
    by repeat constructor.
  split; [by repeat (split; [done|])|].
  destruct (GHConvDense_gate_range_and_mask ghconv_unit
              [[2]; [3]]%R [[1; 1]; [1; 1]]%R [[1]; [0]]%R 2 1 1
              ltac:(lia) eq_refl H1 eq_refl H2 eq_refl eq_refl H3 eq_refl H3
              eq_refl H3 eq_refl)
    as (gate & out & Hg & Ho & Hlg & _ & Hlo & _ & _ & Hr & Hz).
  exists gate, out. split; [done|]. split; [done|]. split; [done|].
  split; [done|]. split; [done|]. by apply (Hz 1 [0%R]).
Defined.

(** ** Message-passing node function *)

(** C8 as stated fails: for one node with feature 2 and a self-edge of weight
    1 the code concatenates the mean edge entry, 1, where the claim has the
    weighted neighbour feature, 2. *)
Lemma mpnn_as_claimed_differs :
  MPNNNodeFunction.call mpnn_identity [[2]]%R [[[1]]]%R [[1]]%R
  <> mpnn_as_claimed mpnn_identity [[2]]%R [[[1]]]%R.
Proof.
  unfold MPNNNodeFunction.call, mpnn_as_claimed, MPNNNodeFunction.concat_cols.
  simpl. unfold reduce_mean_rows, column, vsum, scale. simpl.
  intros [= H]. lra.
Qed.

Lemma reduce_mean_rows_nth (t : list (list R)) c :
  c < ncols t ->
  nth c (reduce_mean_rows t) 0%R = (vsum (column c t) / INR (length t))%R.
Proof.
  intros Hc. unfold reduce_mean_rows. rewrite nth_lookup, list_lookup_fmap.
  by rewrite lookup_seq_lt.
Qed.

(** C8, amended: for [n] nodes, [MPNNNodeFunction.call] gives node [i] the
    feed-forward stack applied to the concatenation of its own features
    with the mean, over the neighbour axis, of the adjacency entries
    [adj[i, j, :]] themselves, the concatenation being multiplied by the
    mask entry first.  Component [c] of that mean is the sum of the entries
    [adj[i, j, c]] divided by the number of neighbours; the neighbours'
    feature vectors do not enter. *)
Theorem MPNN_call_mean_of_edges (self : MPNNNodeFunction.t)
    (x : list (list R)) (adj : list (list (list R))) (msk : list (list R)) (n : nat) :
  length x = n -> length adj = n -> length msk = n ->
  exists out,
    MPNNNodeFunction.call self x adj msk = Ok out
    /\ length out = n
    /\ forall i x_i a_i m_i,
         x !! i = Some x_i -> adj !! i = Some a_i -> msk !! i = Some m_i ->
         out !! i = Some (MPNNNodeFunction.ffn self
                            ((fun v => v * hd 0 m_i)%R <$> (x_i ++ reduce_mean_rows a_i)))
         /\ forall c, c < ncols a_i ->
               nth c (reduce_mean_rows a_i) 0%R
               = (vsum (column c a_i) / INR (length a_i))%R.
Proof.
  intros Hx Hadj Hmsk.
  unfold MPNNNodeFunction.call, MPNNNodeFunction.concat_cols,
    MPNNNodeFunction.avg_message.
  rewrite decide_True by (by rewrite length_fmap, Hx, Hadj). simpl.
  eexists. split; [done|]. split.
  - rewrite length_fmap, mul_col_length, length_zip_with, length_fmap. lia.
  - intros i x_i a_i m_i Hxi Hai Hmi. split; [|apply reduce_mean_rows_nth].
    rewrite list_lookup_fmap. unfold mul_col. rewrite lookup_zip_with.
    rewrite lookup_zip_with, Hxi, list_lookup_fmap, Hai. simpl.
    by rewrite Hmi.
Qed.

Lemma MPNN_call_mean_of_edges_witness :
  (length [[2]]%R = 1 /\ length [[[1]]]%R = 1 /\ length [[1]]%R = 1)
  /\ exists out,
      MPNNNodeFunction.call mpnn_identity [[2]]%R [[[1]]]%R [[1]]%R = Ok out
      /\ length out = 1.
Proof.
  split; [done|].
  destruct (MPNN_call_mean_of_edges mpnn_identity [[2]]%R [[[1]]]%R [[1]]%R 1
              eq_refl eq_refl eq_refl) as (out & Ho & Hl & _).
  by exists out.
Defined.

(** ** Unsupported configuration choices *)

Lemma pop_singleton key v : pop key {[ key := v ]} = Ok (v, ∅).
Proof. unfold pop. by rewrite lookup_singleton_eq, delete_singleton_eq. Qed.

Lemma Layer_init_empty : Layer_init ∅ = Ok tt.
Proof. unfold Layer_init. by rewrite map_to_list_empty. Qed.

Lemma GraphBuilderDense_init_kernel cvl dd mnb bs dm kernel ffn codebook :
  exists layer,
    GraphBuilderDense.init cvl dd mnb bs dm {[ "kernel" := kernel ]} ffn codebook
      = Ok layer
    /\ GraphBuilderDense.kernel layer = kernel.
Proof.
  unfold GraphBuilderDense.init. rewrite pop_singleton. simpl.
  rewrite Layer_init_empty. simpl. by eexists.
Qed.

(** C9 fails for the graph kernel: [GraphBuilderDense.__init__] accepts the
    kernel name "sigmoid" without raising. *)
Lemma unknown_kernel_accepted :
  ~ unknown_kernel_refused_at_construction (VStr "sigmoid").
Proof.
  intros H.
  destruct (H eq_refl eq_refl 0%R 128 200 128 (1 / 10)%R (fun v => v) [])
    as [e He].
  destruct (GraphBuilderDense_init_kernel 0%R 128 200 128 (1 / 10)%R
              (VStr "sigmoid") (fun v => v) []) as (layer & Hl & _).
  congruence.
Qed.

(** C9, amended: an unknown convolution type makes [get_conv_layer] raise a
    [KeyError], which happens while the model is built; an unknown graph
    kernel passes [GraphBuilderDense.__init__] and every later forward pass
    of the layer raises. *)
Theorem unsupported_choice_errors (config_dict : gmap string value)
    (class_name kernel : value)
    (clip_value_low dist_mult : R) (distance_dim max_num_bins bin_size : nat)
    (ffn : list R -> list R) (codebook : list (list R)) :
  config_dict !! "type" = Some class_name ->
  is_str class_name "MPNNNodeFunction" = false ->
  is_str class_name "GHConvDense" = false ->
  is_str kernel "learnable" = false ->
  is_str kernel "gaussian" = false ->
  get_conv_layer config_dict = Raise (KeyError class_name)
  /\ exists layer,
      GraphBuilderDense.init clip_value_low distance_dim max_num_bins bin_size
        dist_mult {[ "kernel" := kernel ]} ffn codebook = Ok layer
      /\ forall x_dist x_features msk,
           exists e, GraphBuilderDense.call layer x_dist x_features msk = Raise e.
Proof.
  intros Htype Hc1 Hc2 Hk1 Hk2. split.
  - unfold get_conv_layer, pop. rewrite Htype. simpl.
    unfold classes. by rewrite Hc1, Hc2.
  - destruct (GraphBuilderDense_init_kernel clip_value_low distance_dim max_num_bins
                bin_size dist_mult kernel ffn codebook) as (layer & -> & Hkernel).
    exists layer. split; [done|]. intros x_dist x_features msk.
    unfold GraphBuilderDense.call. rewrite Hkernel, Hk1, Hk2.
    repeat match goal with
    | |- exists e, (?m ≫= _) = Raise e =>
        destruct m; simpl; [|by eexists]
    end.
    by eexists.
Qed.

Lemma unsupported_choice_errors_witness :
  (({[ "type" := VStr "SGConv" ]} : gmap string value) !! "type"
     = Some (VStr "SGConv")
   /\ is_str (VStr "SGConv") "MPNNNodeFunction" = false
   /\ is_str (VStr "SGConv") "GHConvDense" = false
   /\ is_str (VStr "sigmoid") "learnable" = false
   /\ is_str (VStr "sigmoid") "gaussian" = false)
  /\ get_conv_layer {[ "type" := VStr "SGConv" ]} = Raise (KeyError (VStr "SGConv"))
  /\ exists layer,
      GraphBuilderDense.init 0 128 200 128 (1 / 10) {[ "kernel" := VStr "sigmoid" ]}
        (fun v => v) [] = Ok layer
      /\ forall x_dist x_features msk,
           exists e, GraphBuilderDense.call layer x_dist x_features msk = Raise e.
Proof.
  assert (({[ "type" := VStr "SGConv" ]} : gmap string value) !! "type"
          = Some (VStr "SGConv")) as H by apply lookup_singleton_eq.
  split; [by repeat split|].
  exact (unsupported_choice_errors _ (VStr "SGConv") (VStr "sigmoid")
           0%R (1 / 10)%R 128 200 128 (fun v => v) []
           H eq_refl eq_refl eq_refl eq_refl).
Defined.

(** ** Masks, clipping and shapes in the top-level models *)

Lemma bind_Ok_inv {A B} (m : result A) (f : A -> result B) b :
  m ≫= f = Ok b -> exists a, m = Ok a /\ f a = Ok b.
Proof. destruct m as [a|]; simpl; [eauto|done]. Qed.

Ltac bind_inv H :=
  let a := fresh "a" in
  let Ha := fresh "H" a in
  apply bind_Ok_inv in H as (a & Ha & H).

Ltac bind_inv_as H a Ha := apply bind_Ok_inv in H as (a & Ha & H).

Lemma row_at_map_rows3 f t b i : row_at (map_rows3 f t) b i = f <$> row_at t b i.
Proof.
  unfold row_at, map_rows3. rewrite list_lookup_fmap.
  destruct (t !! b) as [ev|]; simpl; [|done]. by rewrite list_lookup_fmap.
Qed.

Lemma row_at_mul_mask_masked t m b i v :
  row_at (mul_mask t m) b i = Some v -> row_at m b i = Some [0%R] ->
  Forall (fun a => a = 0%R) v.
Proof.
  unfold row_at, mul_mask. rewrite lookup_zip_with.
  destruct (t !! b) as [ev|]; simpl; [|done].
  destruct (m !! b) as [mv|]; simpl; [|done].
  intros Hv Hm. by eapply mul_col_masked.
Qed.

Lemma row_at_mask_input X msk b i x :
  traverse (traverse valid) X = Ok msk ->
  row_at X b i = Some x -> hd 0%R x = 0%R ->
  row_at (mask_input msk) b i = Some [0%R].
Proof.
  intros Hmsk Hx H0. apply traverse_Forall2 in Hmsk. unfold row_at in *.
  destruct (X !! b) as [ev|] eqn:Hev; simpl in Hx; [|done].
  destruct (Forall2_lookup_l _ _ _ _ _ Hmsk Hev) as (mev & Hmev & Hval).
  apply traverse_Forall2 in Hval.
  destruct (Forall2_lookup_l _ _ _ _ _ Hval Hx) as (m & Hm & Hxm).
  unfold mask_input. rewrite list_lookup_fmap, Hmev. simpl.
  rewrite list_lookup_fmap, Hm. simpl.
  destruct x as [|x0 xs]; [done|]. simpl in *. injection Hxm as <-. subst x0.
  by rewrite bool_decide_eq_false_2 by (intros H; by apply H).
Qed.


Lemma clip_by_value_id x lo hi :
  (lo <= x <= hi)%R -> clip_by_value x lo hi = x.
Proof.
  intros [H1 H2]. unfold clip_by_value. rewrite Rmax_left by done.
  by rewrite Rmin_left.
Qed.


Lemma vsum_exp_zeros (v : list R) :
  Forall (fun a => a = 0%R) v -> vsum (exp <$> v) = INR (length v).
Proof.
  induction 1 as [|a v -> _ IH]; [done|].
  rewrite fmap_cons. change (vsum (exp 0 :: (exp <$> v))) with (exp 0 + vsum (exp <$> v))%R.
  rewrite IH, exp_0. change (length (0%R :: v)) with (S (length v)).
  rewrite S_INR. lra.
Qed.

Lemma softmax_zeros (v : list R) :
  Forall (fun a => a = 0%R) v ->
  Forall (fun a => a = (1 / INR (length v))%R) (softmax v).
Proof.
  intros Hv. unfold softmax. rewrite (vsum_exp_zeros v Hv).
  apply Forall_fmap. eapply Forall_impl; [exact Hv|]. intros a ->. simpl.
  by rewrite exp_0.
Qed.

Lemma softmax_length v : length (softmax v) = length v.
Proof. unfold softmax. by rewrite length_fmap. Qed.

Lemma Forall_zero_slice (v : list R) a b :
  Forall (fun x => x = 0%R) v -> Forall (fun x => x = 0%R) (take (b - a) (drop a v)).
Proof. intros Hv. by apply Forall_take, Forall_drop. Qed.

Lemma Forall_zero_scaled (w v : list R) :
  Forall (fun x => x = 0%R) v -> Forall (fun x => x = 0%R) (zip_with Rmult w v).
Proof.
  intros Hv. apply Forall_forall. intros x (j & Hj)%list_elem_of_lookup.
  apply lookup_zip_with_Some in Hj as (a & c & -> & _ & Hc).
  rewrite (Forall_lookup_1 _ _ _ _ Hv Hc). lra.
Qed.

Lemma shape2_map_rows3 f t : shape2 (map_rows3 f t) = shape2 t.
Proof.
  unfold shape2, map_rows3. rewrite <- list_fmap_compose.
  apply list_fmap_ext. intros _ ev _. simpl. by rewrite length_fmap.
Qed.

Lemma shape2_mul_mask t m : shape2 t = shape2 m -> shape2 (mul_mask t m) = shape2 t.
Proof.
  unfold shape2, mul_mask. revert m. induction t as [|ev t IH]; intros [|mv m]; simpl;
    try done.
  intros [= H1 H2]. rewrite mul_col_length, <- H1, Nat.min_id. f_equal. by apply IH.
Qed.

Lemma shape2_traverse (f : list R -> result (list R)) X Y :
  traverse (traverse f) X = Ok Y -> shape2 Y = shape2 X.
Proof.
  intros H. apply traverse_Forall2 in H. unfold shape2.
  induction H as [|ev ev' X Y Hev _ IH]; csimpl; [done|].
  by rewrite (traverse_length _ _ _ Hev), IH.
Qed.

Lemma shape2_mask_input X msk :
  traverse (traverse valid) X = Ok msk -> shape2 (mask_input msk) = shape2 X.
Proof.
  intros H. apply traverse_Forall2 in H. unfold shape2, mask_input.
  induction H as [|ev ev' X Y Hev _ IH]; csimpl; [done|].
  by rewrite length_fmap, (traverse_length _ _ _ Hev), IH.
Qed.

Lemma shape2_zip_app (t r : list (list (list R))) :
  shape2 t = shape2 r -> shape2 (zip_with (zip_with app) t r) = shape2 r.
Proof.
  unfold shape2. revert r. induction t as [|ev t IH]; intros [|rv r]; simpl; try done.
  intros [= H1 H2]. rewrite length_zip_with, H1, Nat.min_id. f_equal. by apply IH.
Qed.

Lemma concat_last_shape ts r :
  concat_last ts = Ok r -> Forall (fun t => shape2 t = shape2 r) ts.
Proof.
  revert r. induction ts as [|t ts IH]; intros r; [done|].
  destruct ts as [|t' ts].
  - simpl. intros [= <-]. by repeat constructor.
  - change (concat_last (t :: t' :: ts))
      with (r' ← concat_last (t' :: ts);
            if decide (shape2 t = shape2 r') then Ok (zip_with (zip_with app) t r')
            else Raise InvalidArgumentError).
    intros H. bind_inv H. case_decide as Hs; [|done]. injection H as <-.
    rewrite shape2_zip_app by done. constructor; [done|]. by apply IH.
Qed.

Lemma run_layers_shape cgs x msk ys :
  PFNetDense.run_layers cgs x msk = Ok ys -> Forall (fun y => shape2 y = shape2 x) ys.
Proof.
  revert x ys. induction cgs as [|cg cgs IH]; intros x ys; simpl.
  - intros [= <-]. constructor.
  - intros H. bind_inv H. bind_inv H. injection H as <-.
    pose proof (run_shape cg x msk a Ha) as Hs. constructor; [done|].
    rewrite <- Hs. by apply IH.
Qed.

Lemma last_encoding_elem encs e :
  PFNetDense.last_encoding encs = Ok e -> e ∈ encs.
Proof.
  unfold PFNetDense.last_encoding. destruct (last encs) as [e'|] eqn:He; [|done].
  intros [= <-]. apply last_Some in He as [l ->]. apply elem_of_app. right. by left.
Qed.

Lemma mul_momentum_inv w t t' :
  PFNetDense.mul_momentum w t = Ok t' -> t' = map_rows3 (zip_with Rmult w) t.
Proof. unfold PFNetDense.mul_momentum. case_decide; [|done]. by intros [= <-]. Qed.

Lemma zero_at_mul_mask t m b i :
  row_at m b i = Some [0%R] -> zero_at (mul_mask t m) b i.
Proof. intros Hm v Hv. by eapply row_at_mul_mask_masked. Qed.

Lemma zero_at_map_rows3 f t b i :
  (forall v, Forall (fun a => a = 0%R) v -> Forall (fun a => a = 0%R) (f v)) ->
  zero_at t b i -> zero_at (map_rows3 f t) b i.
Proof.
  intros Hf Ht v Hv. rewrite row_at_map_rows3 in Hv.
  destruct (row_at t b i) as [u|] eqn:Hu; simplify_eq/=. by apply Hf, Ht.
Qed.

Lemma const_at_map_entries3 g t b i v :
  zero_at t b i -> row_at (map_entries3 g t) b i = Some v ->
  Forall (fun a => a = g 0%R) v.
Proof.
  intros Ht Hv. unfold map_entries3 in Hv. rewrite row_at_map_rows3 in Hv.
  destruct (row_at t b i) as [u|] eqn:Hu; simplify_eq/=.
  apply Forall_fmap. eapply Forall_impl; [exact (Ht u Hu)|].
  by intros a ->.
Qed.

Lemma uniform_at_softmax t b i v :
  zero_at t b i ->
  row_at (map_entries3 (fun p => clip_by_value p 0 1) (map_rows3 softmax t)) b i
    = Some v ->
  Forall (fun a => a = (1 / INR (length v))%R) v.
Proof.
  intros Ht Hv. unfold map_entries3 in Hv. rewrite !row_at_map_rows3 in Hv.
  destruct (row_at t b i) as [u|] eqn:Hu; simplify_eq/=.
  rewrite length_fmap, softmax_length.
  destruct u as [|u0 u]; [constructor|].
  pose proof (softmax_zeros _ (Ht _ Hu)) as Hs.
  assert (1 <= INR (length (u0 :: u)))%R as Hn.
  { change (length (u0 :: u)) with (S (length u)). rewrite S_INR.
    pose proof (pos_INR (length u)) as Hp. lra. }
  set (n := INR (length (u0 :: u))) in *. clearbody n.
  apply Forall_fmap. eapply Forall_impl; [exact Hs|].
  intros a ->. cbv beta. apply clip_by_value_id.
  split.
  - apply Rlt_le, Rdiv_lt_0_compat; lra.
  - apply Rmult_le_reg_r with n; [lra|].
    unfold Rdiv. rewrite Rmult_assoc, Rinv_l by lra. lra.
Qed.

Lemma run_encoder_shape e X enc :
  PFNetDense.run_encoder e X = Ok enc -> shape2 enc = shape2 X.
Proof. destruct e; apply shape2_traverse. Qed.

Lemma shape2_slice_cols a b t : shape2 (slice_cols a b t) = shape2 t.
Proof. apply shape2_map_rows3. Qed.

Lemma shape2_map_entries3 f t : shape2 (map_entries3 f t) = shape2 t.
Proof. apply shape2_map_rows3. Qed.

Lemma zero_at_slice_cols a b t bi i :
  zero_at t bi i -> zero_at (slice_cols a b t) bi i.
Proof. apply zero_at_map_rows3. intros v. apply Forall_zero_slice. Qed.

Lemma exp_clip_zero lo hi : (lo <= 0 <= hi)%R -> exp (clip_by_value 0 lo hi) = 1%R.
Proof. intros H. rewrite clip_by_value_id by done. apply exp_0. Qed.

Lemma PFNetDense_masked self X ret :
  PFNetDense.call self X = Ok (PFNetDense.Named ret) ->
  outputs_cover X ret
  /\ masked_outputs_computed (negb (PFNetDense.focal_loss_from_logits self)) X ret.
Proof.
  intros H. unfold PFNetDense.call in H.
  bind_inv H. rename a into msk, Ha into Hmsk.
  bind_inv H. rename a into encoder, Ha into Hencoder.
  bind_inv H. rename a into enc, Ha into Henc.
  bind_inv H. rename a into encs_id, Ha into Hencs_id.
  bind_inv H. rename a into encs_reg, Ha into Hencs_reg.
  bind_inv H. rename a into last_id, Ha into Hlast_id.
  bind_inv H. rename a into dec_id, Ha into Hdec_id.
  bind_inv H. rename a into last_reg, Ha into Hlast_reg.
  bind_inv H. rename a into dec_reg, Ha into Hdec_reg.
  bind_inv H. rename a into pm0, Ha into Hpm0.
  bind_inv H. rename a into pm, Ha into Hpm.
  destruct (PFNetDense.multi_output self); [|by bind_inv H].
  injection H as <-.
  set (mi := mask_input msk) in *.
  pose proof (shape2_mask_input X msk Hmsk) as Hmi. fold mi in Hmi.
  pose proof (run_encoder_shape _ _ _ Henc) as Hsenc.
  assert (forall cgs f encs last dec pre,
            PFNetDense.run_layers cgs
              (map_entries3 (PFNetDense.activation self) (map_rows3 f enc)) msk
              = Ok encs ->
            PFNetDense.last_encoding encs = Ok last ->
            concat_last (pre ++ encs ++ [PFNetDense.graph_sum X last]) = Ok dec ->
            shape2 dec = shape2 X) as Hdec.
  { intros cgs f encs last dec pre Hrun Hlast Hcat.
    apply concat_last_shape in Hcat. apply last_encoding_elem in Hlast.
    rewrite <- (proj1 (Forall_forall _ _) Hcat last)
      by (rewrite !elem_of_app; auto).
    rewrite (proj1 (Forall_forall _ _) (run_layers_shape _ _ _ _ Hrun) last Hlast).
    by rewrite shape2_map_entries3, shape2_map_rows3. }
  pose proof (Hdec _ _ _ _ _ _ Hencs_id Hlast_id Hdec_id) as Hsid.
  rewrite app_assoc in Hdec_reg.
  pose proof (Hdec _ _ _ _ _ _ Hencs_reg Hlast_reg Hdec_reg) as Hsreg.
  assert (forall t, shape2 t = shape2 X -> shape2 (mul_mask t mi) = shape2 X) as Hmm.
  { intros t Ht. rewrite shape2_mul_mask; [done|]. by rewrite Ht, Hmi. }
  assert (shape2 pm0 = shape2 X) as Hspm0.
  { destruct (PFNetDense.ffn_momentum self) as [ffns|ffn].
    - bind_inv Hpm0. injection Hpm0 as <-. apply Hmm.
      pose proof (concat_last_shape _ _ Ha) as Hall.
      destruct ffns as [|ffn ffns]; [done|]. rewrite fmap_cons in Hall.
      apply Forall_cons in Hall as [<- _]. rewrite shape2_map_rows3. by apply Hmm.
    - injection Hpm0 as <-. apply Hmm. rewrite shape2_map_rows3. by apply Hmm. }
  apply mul_momentum_inv in Hpm. subst pm.
  assert (shape2 (map_rows3 (zip_with Rmult (PFNetDense.momentum_mult self)) pm0)
          = shape2 X) as Hspm by (by rewrite shape2_map_rows3).
  set (pm := map_rows3 (zip_with Rmult (PFNetDense.momentum_mult self)) pm0) in *.
  set (logits := mul_mask (map_rows3 (PFNetDense.ffn_id self) (mul_mask dec_id mi)) mi).
  assert (shape2 logits = shape2 X) as Hslog.
  { apply Hmm. rewrite shape2_map_rows3. by apply Hmm. }
  split.
  - unfold outputs_cover. simpl.
    repeat (apply Forall_cons; split);
      rewrite ?shape2_map_entries3, ?shape2_slice_cols; try done.
    + destruct (PFNetDense.focal_loss_from_logits self); [done|].
      by rewrite shape2_map_entries3, shape2_map_rows3.
    + apply Hmm. rewrite shape2_map_rows3. by apply Hmm.
  - intros b i x Hx H0. simpl.
    pose proof (row_at_mask_input X msk b i x Hmsk Hx H0) as Hm. fold mi in Hm.
    assert (zero_at pm0 b i) as Hz0.
    { destruct (PFNetDense.ffn_momentum self) as [ffns|ffn].
      - bind_inv Hpm0. injection Hpm0 as <-. by apply zero_at_mul_mask.
      - injection Hpm0 as <-. by apply zero_at_mul_mask. }
    assert (zero_at pm b i) as Hz.
    { apply zero_at_map_rows3; [|done]. intros v. apply Forall_zero_scaled. }
    split; [|split; [|split; [|split; [|split; [|split]]]]].
    + intros v Hv. apply const_at_map_entries3 in Hv; [|by apply zero_at_mul_mask].
      eapply Forall_impl; [exact Hv|]. intros a ->. simpl.
      apply clip_by_value_id. lra.
    + by apply zero_at_slice_cols.
    + by apply zero_at_slice_cols.
    + by apply zero_at_slice_cols.
    + intros v Hv. apply const_at_map_entries3 in Hv; [|by apply zero_at_slice_cols].
      eapply Forall_impl; [exact Hv|]. intros a ->. simpl.
      apply exp_clip_zero. lra.
    + intros v Hv. apply const_at_map_entries3 in Hv; [|by apply zero_at_slice_cols].
      eapply Forall_impl; [exact Hv|]. intros a ->. simpl.
      apply exp_clip_zero. lra.
    + intros v Hv. destruct (PFNetDense.focal_loss_from_logits self); simpl.
      * exact (zero_at_mul_mask _ _ _ _ Hm v Hv).
      * apply uniform_at_softmax in Hv; [done|]. by apply zero_at_mul_mask.
Qed.

Lemma PFNet_masked self X ret matrix :
  PFNet.call self X = Ok (PFNet.Named ret matrix) ->
  outputs_cover X ret /\ masked_outputs_computed true X ret.
Proof.
  intros H. unfold PFNet.call in H.
  bind_inv H. rename a into msk, Ha into Hmsk.
  bind_inv H. rename a into enc, Ha into Henc.
  bind_inv H. destruct a as [dm bins]. rename Ha into Hdist.
  bind_inv H. rename a into x_id, Ha into Hx_id.
  bind_inv H. rename a into dec_id, Ha into Hdec_id.
  bind_inv H. rename a into reg_input, Ha into Hreg_input.
  bind_inv H. rename a into x_reg, Ha into Hx_reg.
  bind_inv H. rename a into dec_reg, Ha into Hdec_reg.
  destruct (PFNet.multi_output self); [|by bind_inv H].
  injection H as <- _.
  set (mi := mask_input msk) in *.
  pose proof (shape2_mask_input X msk Hmsk) as Hmi. fold mi in Hmi.
  pose proof (shape2_traverse _ _ _ Henc) as Hsenc.
  assert (forall t, shape2 t = shape2 X -> shape2 (mul_mask t mi) = shape2 X) as Hmm.
  { intros t Ht. rewrite shape2_mul_mask; [done|]. by rewrite Ht, Hmi. }
  assert (shape2 dec_id = shape2 X) as Hsid.
  { apply concat_last_shape in Hdec_id.
    rewrite <- (proj1 (Forall_forall _ _) Hdec_id x_id)
      by (rewrite elem_of_app; right; by left).
    by rewrite (run_shape _ _ _ _ Hx_id). }
  assert (shape2 dec_reg = shape2 X) as Hsreg.
  { apply concat_last_shape in Hdec_reg.
    rewrite <- (proj1 (Forall_forall _ _) Hdec_reg x_reg)
      by (rewrite elem_of_app; right; right; by left).
    rewrite (run_shape _ _ _ _ Hx_reg).
    apply concat_last_shape in Hreg_input.
    by apply Forall_cons in Hreg_input as [<- _]. }
  split.
  - unfold outputs_cover. simpl.
    repeat (apply Forall_cons; split);
      rewrite ?shape2_map_entries3, ?shape2_slice_cols, ?shape2_map_rows3; try done;
      apply Hmm; by rewrite shape2_map_rows3.
  - intros b i x Hx H0. simpl.
    pose proof (row_at_mask_input X msk b i x Hmsk Hx H0) as Hm. fold mi in Hm.
    split; [|split; [|split; [|split; [|split; [|split]]]]].
    + intros v Hv. apply const_at_map_entries3 in Hv; [|by apply zero_at_mul_mask].
      eapply Forall_impl; [exact Hv|]. intros a ->. simpl.
      apply clip_by_value_id. lra.
    + by apply zero_at_slice_cols, zero_at_mul_mask.
    + by apply zero_at_slice_cols, zero_at_mul_mask.
    + by apply zero_at_slice_cols, zero_at_mul_mask.
    + intros v Hv. apply const_at_map_entries3 in Hv;
        [|by apply zero_at_slice_cols, zero_at_mul_mask].
      eapply Forall_impl; [exact Hv|]. intros a ->. simpl.
      apply exp_clip_zero. lra.
    + intros v Hv. apply const_at_map_entries3 in Hv;
        [|by apply zero_at_slice_cols, zero_at_mul_mask].
      eapply Forall_impl; [exact Hv|]. intros a ->. simpl.
      apply exp_clip_zero. lra.
    + intros v Hv. apply uniform_at_softmax in Hv; [done|].
      by apply zero_at_mul_mask.
Qed.

(** ** Named outputs at masked elements *)

Lemma pfnet_dense_small_runs :
  exists ret,
    PFNetDense.call pfnet_dense_small two_elements = Ok (PFNetDense.Named ret)
    /\ exists p, row_at (pt ret) 0 0 = Some [exp p].
Proof. eexists. split; [reflexivity|]. eexists. reflexivity. Qed.

Lemma pfnet_small_runs :
  exists ret matrix,
    PFNet.call pfnet_small two_elements = Ok (PFNet.Named ret matrix).
Proof. eexists _, _. reflexivity. Qed.

(** C1 as stated fails: the dense model run on an event whose first element
    is masked returns a [pt] that is an exponential, hence not zero, at that
    element. *)
Lemma masked_outputs_not_zero :
  exists ret,
    PFNetDense.call pfnet_dense_small two_elements = Ok (PFNetDense.Named ret)
    /\ ~ masked_outputs_zero two_elements ret.
Proof.
  destruct pfnet_dense_small_runs as (ret & Hret & p & Hp).
  exists ret. split; [done|]. intros H.
  destruct (H 0 0 [0; 5]%R eq_refl eq_refl) as (_ & _ & Hpt & _).
  specialize (Hpt _ Hp). apply Forall_cons in Hpt as [Hpt _].
  pose proof (exp_pos p). lra.
Qed.

(** C1, amended: when a top-level model returns its named outputs, every
    output has a row for every input element, and at each masked element
    (feature 0 equal to 0) charge, eta, sin_phi and cos_phi are exactly
    zero, pt and energy are exactly 1 (the exponential of the zeroed
    pre-activation), and the class scores are the softmax of zero logits,
    1 / number of classes each (zero when the dense model returns the
    logits themselves). *)
Theorem masked_outputs_as_computed (dense : PFNetDense.t) (sparse : PFNet.t)
    (X X' : list (list (list R))) (ret ret' : outputs)
    (matrix : option (sparse_tensor * list (list (list nat)))) :
  PFNetDense.call dense X = Ok (PFNetDense.Named ret) ->
  PFNet.call sparse X' = Ok (PFNet.Named ret' matrix) ->
  (outputs_cover X ret
   /\ masked_outputs_computed
        (negb (PFNetDense.focal_loss_from_logits dense)) X ret)
  /\ (outputs_cover X' ret' /\ masked_outputs_computed true X' ret').
Proof.
  intros Hd Hs. split; [by apply PFNetDense_masked|by eapply PFNet_masked].
Qed.

Lemma masked_outputs_as_computed_witness :
  exists ret ret' matrix,
    (PFNetDense.call pfnet_dense_small two_elements = Ok (PFNetDense.Named ret)
     /\ PFNet.call pfnet_small two_elements = Ok (PFNet.Named ret' matrix))
    /\ (outputs_cover two_elements ret
        /\ masked_outputs_computed
             (negb (PFNetDense.focal_loss_from_logits pfnet_dense_small))
             two_elements ret)
       /\ (outputs_cover two_elements ret'
           /\ masked_outputs_computed true two_elements ret').
Proof.
  destruct pfnet_dense_small_runs as (ret & Hret & _).
  destruct pfnet_small_runs as (ret' & matrix & Hret').
  exists ret, ret', matrix. split; [done|].
  exact (masked_outputs_as_computed pfnet_dense_small pfnet_small
           two_elements two_elements ret ret' matrix Hret Hret').
Defined.

(** ** Bounds of the momentum outputs *)








Lemma clip_by_value_high x lo hi : (lo <= hi <= x)%R -> clip_by_value x lo hi = hi.
Proof.
  intros H. unfold clip_by_value. rewrite Rmax_left by lra. apply Rmin_right. lra.
Qed.

Lemma clip_by_value_low x lo hi : (x <= lo <= hi)%R -> clip_by_value x lo hi = lo.
Proof.
  intros H. unfold clip_by_value. rewrite Rmax_right by lra. apply Rmin_left. lra.
Qed.

(** Pre-activations of plus and minus one million at the valid element of
    [two_elements] come out as [exp 8] and [exp (-6)]. *)
Example extreme_preactivations_clipped :
  exists ret,
    PFNetDense.call pfnet_dense_small two_elements = Ok (PFNetDense.Named ret)
    /\ row_at (pt ret) 0 1 = Some [exp 8]
    /\ row_at (energy ret) 0 1 = Some [exp (-6)].
Proof.
  eexists. split; [reflexivity|].
  assert (bool_decide (1%R <> 0%R) = true) as Hv
    by (apply bool_decide_eq_true_2; lra).
  split.
  - cbn -[clip_by_value exp bool_decide]. rewrite Hv. simpl cast_bool.
    rewrite clip_by_value_high by lra. done.
  - cbn -[clip_by_value exp bool_decide]. rewrite Hv. simpl cast_bool.
    rewrite clip_by_value_low by lra. done.
Qed.

(** ** Masked elements in the adjacency of the dense graph builder *)

Lemma mask_rows_cols_zero (D : list (list (list R))) (m : list R) i j row e :
  GraphBuilderDense.mask_rows_cols D m !! i = Some row -> row !! j = Some e ->
  m !! i = Some 0%R \/ m !! j = Some 0%R ->
  Forall (fun a => a = 0%R) e.
Proof.
  unfold GraphBuilderDense.mask_rows_cols. intros Hrow He Hm.
  apply list_lookup_fmap_Some in Hrow as (r1 & -> & Hr1).
  apply lookup_zip_with_Some in Hr1 as (r0 & m_i & -> & Hr0 & Hmi).
  apply lookup_zip_with_Some in He as (e1 & m_j & -> & He1 & Hmj).
  apply list_lookup_fmap_Some in He1 as (e0 & -> & He0).
  unfold scale. rewrite <- list_fmap_compose.
  apply Forall_fmap, Forall_forall. intros a _. simpl.
  destruct Hm as [Hm|Hm]; simplify_eq; lra.
Qed.

Lemma GraphBuilderDense_adjacency_masked self x_dist x_features msk out :
  GraphBuilderDense.call self x_dist x_features msk = Ok out ->
  adjacency_masked out.
Proof.
  intros H. unfold GraphBuilderDense.call in H.
  bind_inv_as H n_bins Hn_bins. bind_inv_as H cmul Hcmul.
  bind_inv_as H bins_split Hbins. bind_inv_as H x_dist_binned Hxd.
  bind_inv_as H x_features_binned Hxf. bind_inv_as H msk_f_binned Hmf.
  destruct (is_str (GraphBuilderDense.kernel self) "learnable").
  - destruct (GraphBuilderDense.ffn_dist self) as [ffn|]; [|done].
    injection H as <-. intros b k dmk mk i j row e m Hdm Hmk Hrow He Hm H0.
    simpl in Hdm, Hmk.
    rewrite lookup_zip_with in Hdm.
    destruct (GraphBuilderDense.learnable_kernel ffn x_dist_binned !! b)
      as [Db|]; [|done].
    unfold GraphBuilderDense.squeeze in Hdm. rewrite list_lookup_fmap in Hdm.
    destruct (msk_f_binned !! b) as [mb|]; [|done]. simpl in Hdm, Hmk.
    rewrite lookup_zip_with in Hdm.
    destruct (Db !! k) as [Dk|]; [|done]. rewrite list_lookup_fmap, Hmk in Hdm.
    simpl in Hdm. injection Hdm as <-.
    eapply mask_rows_cols_zero; [exact Hrow|exact He|].
    rewrite !list_lookup_fmap.
    destruct Hm as [Hm|Hm]; rewrite Hm; simpl; rewrite H0; auto.
  - destruct (is_str (GraphBuilderDense.kernel self) "gaussian"); [|done].
    by bind_inv H.
Qed.

Lemma gbd_two_bins_runs :
  exists out,
    GraphBuilderDense.call gbd_two_bins [[[-1]; [1]]]%R [[[-1]; [1]]]%R
      [[true; false]] = Ok out.
Proof.
  unfold GraphBuilderDense.call. simpl.
  unfold split_indices_to_bins_event, bin_indices, bin_index, argmax, argmax_from,
    dot, column, vsum; simpl.
  rcompare. eexists. reflexivity.
Qed.

(** The bins are cut by position after the sort: with three valid elements,
    one masked element and bins of two, the masked element 3 shares the
    last bin with the valid element 2. *)
Example masked_element_shares_bin :
  exists out,
    GraphBuilderDense.call gbd_bins_of_two [[[-1]; [-1]; [-1]; [1]]]%R
      [[[-1]; [-1]; [-1]; [1]]]%R [[true; true; true; false]] = Ok out
    /\ GraphBuilderDense.bins_split out = [[[0; 1]; [2; 3]]].
Proof.
  unfold GraphBuilderDense.call. simpl.
  unfold split_indices_to_bins_event, bin_indices, bin_index, argmax, argmax_from,
    dot, column, vsum; simpl.
  rcompare. eexists. split; reflexivity.
Qed.

(** C4, amended: in [GraphBuilderDense.call] every valid element has a bin
    index between 0 and [n_bins - 1], and every masked element has a bin
    index of at least [n_bins - 1]; so no masked element sorts below a valid
    one, and the two can only meet at [n_bins - 1] (when [n_bins] is odd the
    hash scores have [n_bins - 1] columns and the indices are disjoint).
    Masked elements are kept out of the computation by the returned
    adjacency, which is zero on their rows and columns. *)
Theorem masked_bins_not_below_valid (self : GraphBuilderDense.t)
    (x_dist x_features : list (list (list R))) (msk : list (list bool))
    (out : GraphBuilderDense.output)
    (b : nat) (x_dist_b : list (list R)) (msk_b : list bool)
    n_bins cmul ks i j ki kj :
  GraphBuilderDense.call self x_dist x_features msk = Ok out ->
  x_dist !! b = Some x_dist_b -> msk !! b = Some msk_b ->
  floordiv (length x_dist_b) (GraphBuilderDense.bin_size self) = Ok n_bins ->
  GraphBuilderDense.hash_scores self n_bins x_dist_b = Ok cmul ->
  bin_indices Rltb n_bins cmul msk_b = Ok ks ->
  msk_b !! i = Some true -> msk_b !! j = Some false ->
  ks !! i = Some ki -> ks !! j = Some kj ->
  (0 <= ki <= Z.of_nat n_bins - 1)%Z
  /\ (Z.of_nat n_bins - 1 <= kj)%Z
  /\ (Nat.Odd n_bins -> (ki < kj)%Z)
  /\ adjacency_masked out.
Proof.
  intros Hcall _ _ _ Hc Hks Hmi Hmj Hki Hkj.
  destruct (bin_indices_lookup _ _ _ _ _ _ _ _ Hks Hmi Hki) as (ri & Hri & Hbi).
  destruct (bin_indices_lookup _ _ _ _ _ _ _ _ Hks Hmj Hkj) as (rj & Hrj & Hbj).
  unfold bin_index in Hbi, Hbj.
  destruct (argmax Rltb ri) as [ai|] eqn:Hai; simplify_eq/=.
  destruct (argmax Rltb rj) as [aj|] eqn:Haj; simplify_eq/=.
  apply argmax_bound in Hai.
  destruct (hash_scores_width _ _ _ _ ri Hc) as (h & Hh & Hle);
    [by eapply list_elem_of_lookup_2|].
  pose proof (Nat.div_mod_eq n_bins 2) as Hd.
  pose proof (Nat.mod_upper_bound n_bins 2 ltac:(lia)) as Hr.
  split; [lia|]. split; [lia|]. split.
  - intros [k Hk]. lia.
  - by eapply GraphBuilderDense_adjacency_masked.
Qed.

Lemma masked_bins_not_below_valid_witness :
  exists out cmul,
    (GraphBuilderDense.call gbd_two_bins [[[-1]; [1]]]%R [[[-1]; [1]]]%R
       [[true; false]] = Ok out
     /\ [[[-1]; [1]]]%R !! 0 = Some [[-1]; [1]]%R
     /\ [[true; false]] !! 0 = Some [true; false]
     /\ floordiv (length [[-1]; [1]]%R) (GraphBuilderDense.bin_size gbd_two_bins)
        = Ok 2
     /\ GraphBuilderDense.hash_scores gbd_two_bins 2 [[-1]; [1]]%R = Ok cmul
     /\ bin_indices Rltb 2 cmul [true; false] = Ok [1; 1]%Z
     /\ [true; false] !! 0 = Some true /\ [true; false] !! 1 = Some false
     /\ [1; 1]%Z !! 0 = Some 1%Z /\ [1; 1]%Z !! 1 = Some 1%Z)
    /\ ((0 <= 1 <= Z.of_nat 2 - 1)%Z
        /\ (Z.of_nat 2 - 1 <= 1)%Z
        /\ (Nat.Odd 2 -> (1 < 1)%Z)
        /\ adjacency_masked out).
Proof.
  destruct gbd_two_bins_runs as (out & Hout).
  destruct gbd_two_bins_indices as (cmul & Hc & Hk). exists out, cmul.
  split; [by repeat split|].
  exact (masked_bins_not_below_valid gbd_two_bins _ _ _ out 0 _ _
           2 cmul [1; 1]%Z 0 1 1%Z 1%Z
           Hout eq_refl eq_refl eq_refl Hc Hk eq_refl eq_refl eq_refl eq_refl).
Defined.

(** * Further properties of the model code *)

(** ** Graph builders on short inputs *)

Lemma traverse_Raise {A B} (f : A -> result B) l e :
  traverse f l = Raise e -> exists x, x ∈ l /\ f x = Raise e.
Proof.
  induction l as [|x l IH]; simpl; [done|].
  destruct (f x) as [y|e'] eqn:Hx; simpl.
  - destruct (traverse f l) as [ys|e'']; simpl; [done|].
    intros [= ->]. destruct IH as (z & Hz & Hfz); [done|].
    exists z. split; [by right | done].
  - intros [= ->]. exists x. split; [by left | done].
Qed.

Lemma matmul_Raise a b e : matmul a b = Raise e -> e = InvalidArgumentError.
Proof. unfold matmul. case_decide; congruence. Qed.

Lemma matmul_no_columns a w c :
  matmul a (take_cols 0 w) = Ok c -> Forall (fun r => r = []) c.
Proof.
  unfold matmul. case_decide; [|done]. intros [= <-].
  assert (ncols (take_cols 0 w) = 0) as ->
    by (pose proof (ncols_take_cols 0 w); lia).
  apply Forall_fmap, Forall_true. done.
Qed.

Lemma hash_scores_one_bin self n_bins x_dist :
  n_bins < 2 ->
  match GraphBuilderDense.hash_scores self n_bins x_dist with
  | Ok cmul => length cmul = length x_dist /\ Forall (fun r => r = []) cmul
  | Raise e => e = InvalidArgumentError
  end.
Proof.
  intros Hn. unfold GraphBuilderDense.hash_scores.
  replace (n_bins / 2) with 0 by (symmetry; apply Nat.div_small; lia).
  destruct (matmul x_dist _) as [mul|e] eqn:Hm; simpl.
  - pose proof (matmul_length _ _ _ Hm) as Hl.
    apply matmul_no_columns in Hm. split.
    + rewrite length_zip_with, length_fmap. lia.
    + clear Hl. induction Hm as [|r mul -> _ IH]; [constructor|].
      csimpl. constructor; [done | apply IH].
  - by eapply matmul_Raise.
Qed.

Lemma bin_indices_empty_row {A} (ltb : A -> A -> bool) nbins cmul msk :
  bin_indices ltb nbins ([] :: cmul) msk = Raise InvalidArgumentError.
Proof. by destruct msk. Qed.

(** Both graph builders need two bins: on a non-empty event with fewer than
    [2 * bin_size] elements the hash scores have no column
    ([n_bins // 2 = 0]), and [tf.argmax] refuses the empty axis. *)
Theorem graph_builders_need_two_bins (dense : GraphBuilderDense.t)
    (sparse : SparseHashedNNDistance.t)
    (ev : list (list R)) (rest x_features : list (list (list R)))
    (msk : list (list bool)) :
  ev <> [] ->
  (length ev < 2 * GraphBuilderDense.bin_size dense ->
   GraphBuilderDense.call dense (ev :: rest) x_features msk
   = Raise InvalidArgumentError)
  /\ (length ev < 2 * SparseHashedNNDistance.bin_size sparse ->
      SparseHashedNNDistance.construct_sparse_dm_batch sparse ev
      = Raise InvalidArgumentError).
Proof.
  intros Hev. split; intros Hlen.
  - unfold GraphBuilderDense.call, floordiv. simpl hd.
    case_decide as Hb; [done|]. simpl.
    set (n_bins := length ev / GraphBuilderDense.bin_size dense).
    assert (n_bins < 2) as Hn
      by (apply Nat.Div0.div_lt_upper_bound; lia).
    pose proof (hash_scores_one_bin dense _ ev Hn) as Hh.
    destruct (GraphBuilderDense.hash_scores dense n_bins ev) as [c|e] eqn:Hc;
      simpl; [|by subst].
    destruct (traverse (GraphBuilderDense.hash_scores dense n_bins) rest)
      as [cs|e] eqn:Ht; simpl.
    + destruct Hh as [Hl Hrows].
      destruct c as [|r c]; [by destruct ev|].
      apply Forall_cons in Hrows as [-> _].
      destruct msk as [|m msk]; [done|]. simpl.
      unfold split_indices_to_bins_event.
      by rewrite bin_indices_empty_row.
    + apply traverse_Raise in Ht as (x & _ & Hx).
      pose proof (hash_scores_one_bin dense _ x Hn) as Hh'.
      rewrite Hx in Hh'. by subst.
  - unfold SparseHashedNNDistance.construct_sparse_dm_batch, floordiv.
    case_decide as Hb; [done|].
    set (n_bins := length ev / SparseHashedNNDistance.bin_size sparse).
    assert (n_bins < 2) as Hn
      by (apply Nat.Div0.div_lt_upper_bound; lia).
    unfold mbind at 1, result_bind at 1. cbv beta iota.
    replace (n_bins / 2) with 0 by (symmetry; apply Nat.div_small; lia).
    destruct (matmul ev _) as [mul|e] eqn:Hm; simpl.
    + pose proof (matmul_length _ _ _ Hm) as Hl.
      apply matmul_no_columns in Hm.
      destruct mul as [|r mul]; [by destruct ev|].
      apply Forall_cons in Hm as [-> _]. done.
    + apply matmul_Raise in Hm. by subst.
Qed.

Lemma graph_builders_need_two_bins_witness :
  [[1]; [2]]%R <> []
  /\ GraphBuilderDense.call gbd_bins_of_two [[[1]; [2]]%R] [[[1]; [2]]%R]
       [[true; true]] = Raise InvalidArgumentError
  /\ SparseHashedNNDistance.construct_sparse_dm_batch shnn_one_neighbor
       [[1]; [2]]%R = Raise InvalidArgumentError.
Proof.
  split; [done|].
  destruct (graph_builders_need_two_bins gbd_bins_of_two shnn_one_neighbor
              [[1]; [2]]%R [] [[[1]; [2]]%R] [[true; true]]) as [H1 H2];
    [done|].
  split; [apply H1 | apply H2]; simpl; lia.
Defined.

(** ** Widths of the named outputs *)

Lemma rows_width_map_rows3 f t n m :
  (forall v, length v = n -> length (f v) = m) ->
  rows_width t n -> rows_width (map_rows3 f t) m.
Proof.
  intros Hf Ht. unfold rows_width, map_rows3.
  apply Forall_fmap. eapply Forall_impl; [exact Ht|]. intros ev Hev. simpl.
  apply Forall_fmap. eapply Forall_impl; [exact Hev|]. intros row Hrow. simpl.
  by apply Hf.
Qed.

Lemma rows_width_slice_cols a b t n m :
  rows_width t n -> m = min (b - a) (n - a) -> rows_width (slice_cols a b t) m.
Proof.
  intros Ht ->. revert Ht. apply rows_width_map_rows3. intros v <-.
  by rewrite length_take, length_drop.
Qed.

Lemma rows_width_map_entries3 f t n :
  rows_width t n -> rows_width (map_entries3 f t) n.
Proof. apply rows_width_map_rows3. intros v <-. by rewrite length_fmap. Qed.

Lemma rows_width_mul_mask t msk n :
  rows_width t n -> rows_width (mul_mask t msk) n.
Proof.
  unfold rows_width, mul_mask. intros Ht. revert msk.
  induction Ht as [|ev t Hev _ IH]; intros [|m msk]; simpl; try constructor.
  - clear IH. unfold mul_col. revert m.
    induction Hev as [|row ev Hrow _ IH]; intros [|c m]; simpl; constructor.
    + by rewrite length_fmap.
    + apply IH.
  - apply IH.
Qed.

Lemma mul_momentum_width w t r :
  PFNetDense.mul_momentum w t = Ok r -> rows_width r (length w).
Proof.
  unfold PFNetDense.mul_momentum. case_decide as Hw; [|done]. intros [= <-].
  eapply rows_width_map_rows3; [|exact Hw].
  intros v Hv. rewrite length_zip_with. lia.
Qed.

(** The five momentum fields are one-column slices of the momentum
    prediction at the fixed positions 0 to 4, so a field exists only when
    the prediction is wide enough: with [k] momentum outputs (the length of
    [momentum_mult] in the dense model, the output width of
    [layer_momentum] in the sparse one) the field at position [j] has one
    column when [j < k] and none otherwise.  With the default of three
    momentum outputs, [cos_phi] and [energy] are empty. *)
Theorem momentum_fields_cut_at_fixed_positions (dense : PFNetDense.t)
    (sparse : PFNet.t) (X X' : list (list (list R))) (ret ret' : outputs)
    (matrix : option (sparse_tensor * list (list (list nat)))) (k k' : nat) :
  PFNetDense.call dense X = Ok (PFNetDense.Named ret) ->
  length (PFNetDense.momentum_mult dense) = k ->
  PFNet.call sparse X' = Ok (PFNet.Named ret' matrix) ->
  (forall v, length (PFNet.layer_momentum sparse v) = k') ->
  (rows_width (pt ret) (min 1 k) /\ rows_width (eta ret) (min 1 (k - 1))
   /\ rows_width (sin_phi ret) (min 1 (k - 2))
   /\ rows_width (cos_phi ret) (min 1 (k - 3))
   /\ rows_width (energy ret) (min 1 (k - 4)))
  /\ (rows_width (pt ret') (min 1 k') /\ rows_width (eta ret') (min 1 (k' - 1))
      /\ rows_width (sin_phi ret') (min 1 (k' - 2))
      /\ rows_width (cos_phi ret') (min 1 (k' - 3))
      /\ rows_width (energy ret') (min 1 (k' - 4))).
Proof.
  intros H Hk H' Hk'. split.
  - unfold PFNetDense.call in H. repeat bind_inv H.
    destruct (PFNetDense.multi_output dense); [|by bind_inv H].
    injection H as <-. cbn [pt eta sin_phi cos_phi energy].
    match goal with
    | Hm : PFNetDense.mul_momentum _ _ = Ok ?pm |- _ =>
        pose proof (mul_momentum_width _ _ _ Hm) as Hw
    end.
    rewrite Hk in Hw.
    repeat split;
      try apply rows_width_map_entries3;
      (eapply rows_width_slice_cols; [exact Hw | lia]).
  - unfold PFNet.call in H'.
    bind_inv H'. bind_inv H'. bind_inv H'. destruct a1 as [dm bins].
    repeat bind_inv H'.
    destruct (PFNet.multi_output sparse); [|by bind_inv H'].
    injection H' as <- _. cbn [pt eta sin_phi cos_phi energy].
    match goal with
    | |- context [slice_cols 0 1 ?pm] =>
        assert (rows_width pm k') as Hw
    end.
    { apply rows_width_mul_mask.
      unfold rows_width, map_rows3.
      apply Forall_fmap, Forall_true. intros ev.
      apply Forall_fmap, Forall_true. intros row. apply Hk'. }
    repeat split;
      try apply rows_width_map_entries3;
      (eapply rows_width_slice_cols; [exact Hw | lia]).
Qed.

Lemma pfnet_three_outputs_run :
  exists ret ret' matrix,
    PFNetDense.call pfnet_dense_three_outputs two_elements
    = Ok (PFNetDense.Named ret)
    /\ PFNet.call pfnet_three_outputs two_elements = Ok (PFNet.Named ret' matrix).
Proof. eexists _, _, _. split; reflexivity. Qed.

Lemma momentum_fields_cut_at_fixed_positions_witness :
  exists ret ret' matrix,
    (PFNetDense.call pfnet_dense_three_outputs two_elements
     = Ok (PFNetDense.Named ret)
     /\ length (PFNetDense.momentum_mult pfnet_dense_three_outputs) = 3
     /\ PFNet.call pfnet_three_outputs two_elements = Ok (PFNet.Named ret' matrix)
     /\ (forall v, length (PFNet.layer_momentum pfnet_three_outputs v) = 3))
    /\ (rows_width (cos_phi ret) 0 /\ rows_width (energy ret) 0)
    /\ (rows_width (cos_phi ret') 0 /\ rows_width (energy ret') 0).
Proof.
  destruct pfnet_three_outputs_run as (ret & ret' & matrix & Hret & Hret').
  exists ret, ret', matrix. split; [by repeat split|].
  destruct (momentum_fields_cut_at_fixed_positions pfnet_dense_three_outputs
              pfnet_three_outputs two_elements two_elements ret ret' matrix 3 3
              Hret eq_refl Hret' (fun _ => eq_refl))
    as [(_ & _ & _ & Hc & He) (_ & _ & _ & Hc' & He')].
  by repeat split.
Defined.

(** ** The CMS input encoding *)

Lemma feature_is_Ok (x : list R) j :
  j < length x -> exists v, InputEncodingCMS.feature x j = Ok v.
Proof.
  intros Hj. unfold InputEncodingCMS.feature.
  destruct (lookup_lt_is_Some_2 x j Hj) as [v ->]. eauto.
Qed.

Lemma feature_Raise (x : list R) j :
  length x <= j -> InputEncodingCMS.feature x j = Raise InvalidArgumentError.
Proof.
  intros Hj. unfold InputEncodingCMS.feature.
  by rewrite (proj2 (lookup_ge_None x j) Hj).
Qed.

Lemma feature_Ok_or_Raise (x : list R) j :
  (exists v, InputEncodingCMS.feature x j = Ok v)
  \/ InputEncodingCMS.feature x j = Raise InvalidArgumentError.
Proof.
  destruct (decide (j < length x)).
  - left. by apply feature_is_Ok.
  - right. apply feature_Raise. lia.
Qed.

Lemma InputEncodingCMS_encode_wide n (x : list R) :
  13 <= length x ->
  exists y, InputEncodingCMS.encode n x = Ok y
            /\ length y = n + 12 + length x /\ drop (n + 12) y = x.
Proof.
  intros Hx. unfold InputEncodingCMS.encode.
  destruct x as [|x0 xs] eqn:Ex; [simpl in Hx; lia|]. rewrite <- Ex in *.
  replace (InputEncoding.type_index x) with (Ok (cast_int32 x0)) by by subst.
  unfold mbind at 1, result_bind at 1. cbv beta iota.
  destruct (feature_is_Ok x 1) as [x1 ->]; [lia|].
  destruct (feature_is_Ok x 2) as [x2 ->]; [lia|].
  destruct (feature_is_Ok x 3) as [x3 ->]; [lia|].
  destruct (feature_is_Ok x 4) as [x4 ->]; [lia|].
  destruct (feature_is_Ok x 5) as [x5 ->]; [lia|].
  destruct (feature_is_Ok x 6) as [x6 ->]; [lia|].
  destruct (feature_is_Ok x 10) as [x10 ->]; [lia|].
  destruct (feature_is_Ok x 12) as [x12 ->]; [lia|].
  unfold mbind, result_bind. cbv beta iota. eexists. split; [done|].
  split.
  - rewrite !length_app, one_hot_length. simpl length. lia.
  - rewrite app_assoc. apply drop_app_length'.
    rewrite length_app, one_hot_length. simpl. lia.
Qed.

Lemma InputEncodingCMS_encode_narrow n (x : list R) :
  length x < 13 -> InputEncodingCMS.encode n x = Raise InvalidArgumentError.
Proof.
  intros Hx. unfold InputEncodingCMS.encode.
  destruct x as [|x0 xs] eqn:Ex; [done|]. rewrite <- Ex in *.
  replace (InputEncoding.type_index x) with (Ok (cast_int32 x0)) by by subst.
  unfold mbind at 1, result_bind at 1. cbv beta iota.
  rewrite (feature_Raise x 12) by lia.
  destruct (feature_Ok_or_Raise x 1) as [[? ->]| ->]; [|done].
  destruct (feature_Ok_or_Raise x 2) as [[? ->]| ->]; [|done].
  destruct (feature_Ok_or_Raise x 3) as [[? ->]| ->]; [|done].
  destruct (feature_Ok_or_Raise x 4) as [[? ->]| ->]; [|done].
  destruct (feature_Ok_or_Raise x 5) as [[? ->]| ->]; [|done].
  destruct (feature_Ok_or_Raise x 6) as [[? ->]| ->]; [|done].
  destruct (feature_Ok_or_Raise x 10) as [[? ->]| ->]; done.
Qed.

(** [InputEncodingCMS.call] reads the feature columns up to 12.  On a
    batch of elements with [F >= 13] features it returns, for every
    element, [num_input_classes + 12 + F] features whose last [F] are the
    input features unchanged; with fewer than 13 features it raises on the
    first element. *)
Theorem InputEncodingCMS_needs_13_features (num_input_classes : nat)
    (X : list (list (list R))) (N F : nat) :
  has_shape3 X N F ->
  (13 <= F ->
   exists Y,
     InputEncodingCMS.call num_input_classes X = Ok Y
     /\ has_shape3 Y N (num_input_classes + 12 + F)
     /\ forall b i x, row_at X b i = Some x ->
          exists y, row_at Y b i = Some y
                    /\ drop (num_input_classes + 12) y = x)
  /\ (F < 13 -> X <> [] -> 1 <= N ->
      InputEncodingCMS.call num_input_classes X = Raise InvalidArgumentError).
Proof.
  intros HX. split.
  - intros HF. unfold InputEncodingCMS.call.
    assert (Forall (fun ev => Forall (fun x =>
              exists y, InputEncodingCMS.encode num_input_classes x = Ok y
                /\ length y = num_input_classes + 12 + F
                /\ drop (num_input_classes + 12) y = x) ev) X) as Hall.
    { eapply Forall_impl; [exact HX|]. intros ev [_ Hev].
      eapply Forall_impl; [exact Hev|]. intros x Hx. simpl in Hx.
      destruct (InputEncodingCMS_encode_wide num_input_classes x) as (y & ? & ? & ?);
        [lia|]. exists y. repeat split; [done|lia|done]. }
    destruct (traverse_is_Ok
                (traverse (InputEncodingCMS.encode num_input_classes)) X) as [Y HY].
    { eapply Forall_impl; [exact Hall|]. intros ev Hev.
      apply traverse_is_Ok. eapply Forall_impl; [exact Hev|].
      intros x (y & Hy & _). by exists y. }
    exists Y. split; [done|].
    pose proof (proj1 (traverse_Forall2 _ _ _) HY) as H2. split.
    + unfold has_shape3. clear HY.
      induction H2 as [|ev Yev X' Y' Hev _ IH]; [constructor|].
      apply Forall_cons in HX as [[Hlen _] HX'].
      apply Forall_cons in Hall as [Hall1 Hall'].
      constructor; [|by apply IH]. split.
      * by rewrite (traverse_length _ _ _ Hev).
      * apply traverse_Forall2 in Hev. clear Hlen.
        induction Hev as [|x y ev' Yev' Hxy _ IH']; [constructor|].
        apply Forall_cons in Hall1 as [(y' & Hy' & Hl & _) Hall1'].
        constructor; [congruence | by apply IH'].
    + intros b i x Hx. unfold row_at in *.
      destruct (X !! b) as [ev|] eqn:Hev; [|done]. simpl in Hx.
      destruct (traverse_lookup _ _ _ _ _ HY Hev) as (Yev & HYev & ->). simpl.
      destruct (traverse_lookup _ _ _ _ _ HYev Hx) as (y & Hy & ->).
      exists y. split; [done|].
      pose proof (proj1 (Forall_forall _ _) Hall ev
                    (list_elem_of_lookup_2 _ _ _ Hev)) as Hall1.
      destruct (proj1 (Forall_forall _ _) Hall1 x
                  (list_elem_of_lookup_2 _ _ _ Hx)) as (y' & Hy' & _ & Hd).
      congruence.
  - intros HF HX0 HN. unfold InputEncodingCMS.call.
    destruct X as [|ev X']; [done|].
    apply Forall_cons in HX as [[Hlen Hev] _].
    destruct ev as [|x ev']; [simpl in Hlen; lia|].
    apply Forall_cons in Hev as [Hx _]. simpl.
    rewrite InputEncodingCMS_encode_narrow by lia. done.
Qed.

Lemma InputEncodingCMS_needs_13_features_witness :
  (has_shape3 [[[1; 2; 3]]]%R 1 3 /\ 3 < 13 /\ 1 <= 1
   /\ InputEncodingCMS.call 8 [[[1; 2; 3]]]%R = Raise InvalidArgumentError)
  /\ (has_shape3 [[[1; 0; 0; 0; 0; 0; 0; 0; 0; 0; 0; 0; 0]]]%R 1 13 /\ 13 <= 13
      /\ exists Y,
           InputEncodingCMS.call 8 [[[1; 0; 0; 0; 0; 0; 0; 0; 0; 0; 0; 0; 0]]]%R
           = Ok Y
           /\ has_shape3 Y 1 (8 + 12 + 13)).
Proof.
  assert (has_shape3 [[[1; 2; 3]]]%R 1 3) as H by repeat constructor.
  assert (has_shape3 [[[1; 0; 0; 0; 0; 0; 0; 0; 0; 0; 0; 0; 0]]]%R 1 13) as H'
    by repeat constructor.
  split.
  - split; [exact H|]. split; [lia|]. split; [lia|].
    apply (proj2 (InputEncodingCMS_needs_13_features 8 _ 1 3 H)); [lia|done|lia].
  - split; [exact H'|]. split; [lia|].
    destruct (proj1 (InputEncodingCMS_needs_13_features 8 _ 1 13 H'))
      as (Y & HY & HS & _); [lia|].
    by exists Y.
Defined.

(** ** The element-wise cross-check model *)

Lemma concat_last_two a b :
  shape2 a = shape2 b -> concat_last [a; b] = Ok (zip_with (zip_with app) a b).
Proof. intros H. simpl. by rewrite decide_True. Qed.

Lemma row_at_zip_app (a c : list (list (list R))) b i :
  row_at (zip_with (zip_with app) a c) b i
  = u ← row_at a b i; v ← row_at c b i; Some (u ++ v).
Proof.
  unfold row_at. rewrite lookup_zip_with.
  destruct (a !! b) as [ea|]; simpl; [|done].
  destruct (c !! b) as [ec|]; simpl.
  - rewrite lookup_zip_with. destruct (ea !! i); simpl; [|done].
    by destruct (ec !! i).
  - by destruct (ea !! i).
Qed.

Lemma valid_mask_is_Ok (X : list (list (list R))) N F :
  1 <= F -> has_shape3 X N F -> is_Ok (traverse (traverse valid) X).
Proof.
  intros HF HX. apply traverse_is_Ok. eapply Forall_impl; [exact HX|].
  intros ev [_ Hev]. apply traverse_is_Ok. eapply Forall_impl; [exact Hev|].
  intros [|x0 xs] Hx; simpl in Hx; [lia|]. by eexists.
Qed.

Lemma InputEncoding_call_rows n (X : list (list (list R))) N F :
  1 <= F -> has_shape3 X N F ->
  exists enc, InputEncoding.call n X = Ok enc
    /\ forall b i x, row_at X b i = Some x ->
         exists e, InputEncoding.encode n x = Ok e /\ row_at enc b i = Some e.
Proof.
  intros HF HX. unfold InputEncoding.call.
  destruct (traverse_is_Ok (traverse (InputEncoding.encode n)) X) as [enc Henc].
  { eapply Forall_impl; [exact HX|]. intros ev [_ Hev].
    apply traverse_is_Ok. eapply Forall_impl; [exact Hev|].
    intros [|x0 xs] Hx; simpl in Hx; [lia|]. eexists. by apply encode_spec. }
  exists enc. split; [done|]. intros b i x Hx. unfold row_at in *.
  destruct (X !! b) as [ev|] eqn:Hev; [|done]. simpl in Hx.
  destruct (traverse_lookup _ _ _ _ _ Henc Hev) as (eev & Heev & ->). simpl.
  destruct (traverse_lookup _ _ _ _ _ Heev Hx) as (e & He & ->). eauto.
Qed.

(** [DummyNet.call] runs on every batch whose elements have at least one
    feature and returns one row per element.  At a masked element (feature 0
    equal to 0) the charge and momentum columns of the row are zero, but the
    row starts with the class logits [ffn_id(enc)] as the network computed
    them: the logits are not multiplied by the mask. *)
Theorem DummyNet_masks_charge_and_momentum_only (self : DummyNet.t)
    (X : list (list (list R))) (N F : nat) :
  1 <= F ->
  has_shape3 X N F ->
  exists Y,
    DummyNet.call self X = Ok Y
    /\ shape2 Y = shape2 X
    /\ forall b i x, row_at X b i = Some x -> hd 0%R x = 0%R ->
         exists e z,
           InputEncoding.encode (DummyNet.num_input_classes self) x = Ok e
           /\ row_at Y b i = Some (DummyNet.ffn_id self e ++ z)
           /\ Forall (fun a => a = 0%R) z.
Proof.
  intros HF HX. unfold DummyNet.call.
  destruct (valid_mask_is_Ok X N F HF HX) as [msk Hmsk]. rewrite Hmsk.
  destruct (InputEncoding_call_rows (DummyNet.num_input_classes self) X N F HF HX)
    as (enc & Henc & Hrows). rewrite Henc.
  unfold mbind at 1 2, result_bind at 1 2. cbv beta iota.
  pose proof (shape2_traverse _ _ _ Henc) as Hsenc.
  pose proof (shape2_mask_input _ _ Hmsk) as Hsm.
  set (mi := mask_input msk) in *.
  set (logits := map_rows3 (DummyNet.ffn_id self) enc).
  assert (shape2 logits = shape2 X) as Hslog by (by unfold logits; rewrite shape2_map_rows3).
  rewrite concat_last_two by congruence.
  unfold mbind at 1, result_bind at 1. cbv beta iota.
  set (dec := zip_with (zip_with app) enc logits).
  assert (shape2 dec = shape2 X) as Hsdec
    by (unfold dec; rewrite shape2_zip_app; congruence).
  set (chg := mul_mask (map_rows3 (DummyNet.ffn_charge self) enc) mi).
  set (mom := mul_mask (map_rows3 (DummyNet.ffn_momentum self) dec) mi).
  assert (shape2 chg = shape2 X) as Hschg.
  { unfold chg. rewrite shape2_mul_mask; rewrite shape2_map_rows3; congruence. }
  assert (shape2 mom = shape2 X) as Hsmom.
  { unfold mom. rewrite shape2_mul_mask; rewrite shape2_map_rows3; congruence. }
  change (concat_last [logits; chg; mom])
    with (r ← concat_last [chg; mom];
          if decide (shape2 logits = shape2 r)
          then Ok (zip_with (zip_with app) logits r)
          else Raise InvalidArgumentError).
  rewrite concat_last_two by congruence.
  unfold mbind at 1, result_bind at 1. cbv beta iota.
  assert (shape2 (zip_with (zip_with app) chg mom) = shape2 X) as Hsz
    by (rewrite shape2_zip_app; congruence).
  rewrite decide_True by congruence.
  eexists. split; [done|]. split.
  { rewrite shape2_zip_app; congruence. }
  intros b i x Hx H0.
  destruct (Hrows b i x Hx) as (e & He & Hre).
  pose proof (row_at_mask_input X msk b i x Hmsk Hx H0) as Hm. fold mi in Hm.
  assert (is_Some (row_at chg b i)) as [c Hc].
  { unfold row_at in Hx |- *.
    assert (shape2 chg = shape2 X) as Hs by done. unfold shape2 in Hs.
    destruct (X !! b) as [ev|] eqn:Hev; [|done]. simpl in Hx.
    assert (length <$> chg !! b = Some (length ev)) as Hl
      by (rewrite <- list_lookup_fmap, Hs, list_lookup_fmap, Hev; done).
    destruct (chg !! b) as [cev|]; [|done]. simpl in *.
    apply lookup_lt_is_Some. injection Hl as ->. by eapply lookup_lt_Some. }
  assert (is_Some (row_at mom b i)) as [m Hmo].
  { unfold row_at in Hx |- *.
    assert (shape2 mom = shape2 X) as Hs by done. unfold shape2 in Hs.
    destruct (X !! b) as [ev|] eqn:Hev; [|done]. simpl in Hx.
    assert (length <$> mom !! b = Some (length ev)) as Hl
      by (rewrite <- list_lookup_fmap, Hs, list_lookup_fmap, Hev; done).
    destruct (mom !! b) as [cev|]; [|done]. simpl in *.
    apply lookup_lt_is_Some. injection Hl as ->. by eapply lookup_lt_Some. }
  exists e, (c ++ m). split; [done|]. split.
  - rewrite !row_at_zip_app. unfold logits. rewrite row_at_map_rows3, Hre, Hc, Hmo.
    done.
  - apply Forall_app. split.
    + by eapply row_at_mul_mask_masked.
    + by eapply row_at_mul_mask_masked.
Qed.

Lemma DummyNet_masks_charge_and_momentum_only_witness :
  (1 <= 2 /\ has_shape3 two_elements 2 2)
  /\ exists Y,
      DummyNet.call dummynet_small two_elements = Ok Y
      /\ shape2 Y = shape2 two_elements
      /\ exists e z,
          InputEncoding.encode 1 [0; 5]%R = Ok e
          /\ row_at Y 0 0 = Some ([7; 8]%R ++ z)
          /\ Forall (fun a => a = 0%R) z.
Proof.
  assert (has_shape3 two_elements 2 2) as H by repeat constructor.
  split; [split; [lia | exact H]|].
  destruct (DummyNet_masks_charge_and_momentum_only dummynet_small
              two_elements 2 2 ltac:(lia) H) as (Y & HY & HS & Hrow).
  exists Y. split; [done|]. split; [done|].
  exact (Hrow 0 0 [0; 5]%R eq_refl eq_refl).
Defined.

(** ** Training targets *)

Lemma row_at_mask_input_valid X msk b i x :
  traverse (traverse valid) X = Ok msk ->
  row_at X b i = Some x -> hd 0%R x <> 0%R ->
  row_at (mask_input msk) b i = Some [1%R].
Proof.
  intros Hmsk Hx H0. apply traverse_Forall2 in Hmsk. unfold row_at in *.
  destruct (X !! b) as [ev|] eqn:Hev; simpl in Hx; [|done].
  destruct (Forall2_lookup_l _ _ _ _ _ Hmsk Hev) as (mev & Hmev & Hval).
  apply traverse_Forall2 in Hval.
  destruct (Forall2_lookup_l _ _ _ _ _ Hval Hx) as (m & Hm & Hxm).
  unfold mask_input. rewrite list_lookup_fmap, Hmev. simpl.
  rewrite list_lookup_fmap, Hm. simpl.
  destruct x as [|x0 xs]; [done|]. simpl in *. injection Hxm as <-.
  by rewrite bool_decide_eq_true_2.
Qed.

Lemma row_at_mul_mask t m b i :
  row_at (mul_mask t m) b i
  = v ← row_at t b i; c ← row_at m b i;
    Some (fmap (M:=list) (fun a => a * hd 0 c)%R v).
Proof.
  unfold row_at, mul_mask. rewrite lookup_zip_with.
  destruct (t !! b) as [ev|]; simpl; [|done].
  destruct (m !! b) as [mv|]; simpl.
  - unfold mul_col. rewrite lookup_zip_with. destruct (ev !! i); simpl; [|done].
    by destruct (mv !! i).
  - by destruct (ev !! i).
Qed.

Lemma row_at_slice_cols a b t bi i :
  row_at (slice_cols a b t) bi i = (fun row => take (b - a) (drop a row)) <$> row_at t bi i.
Proof. apply row_at_map_rows3. Qed.

Lemma fmap_mul_0 (v : list R) : Forall (fun a => a = 0%R) ((fun a => a * 0)%R <$> v).
Proof. apply Forall_fmap, Forall_true. intros a. simpl. lra. Qed.

Lemma fmap_mul_1 (v : list R) : (fun a => a * 1)%R <$> v = v.
Proof.
  rewrite <- (list_fmap_id v) at 2. apply list_fmap_ext. intros _ a _. simpl. lra.
Qed.

(** [targets_multi_output] runs on every target batch whose elements have
    at least one feature and passes [X] and [w] on unchanged.  A padded
    target element (feature 0 equal to 0) gets the one-hot vector of class 0
    as its [cls] target and zeros in the six regression targets; a valid
    element keeps column [j] of [y] as its regression target [j]. *)
Theorem targets_of_padded_elements {TX TW} (num_output_classes : nat)
    (X : TX) (y : list (list (list R))) (w : TW) (N F : nat) :
  1 <= F ->
  has_shape3 y N F ->
  exists t,
    targets_multi_output num_output_classes X y w = Ok (X, t, w)
    /\ outputs_cover y t
    /\ forall b i r, row_at y b i = Some r ->
         (hd 0%R r = 0%R ->
          row_at (cls t) b i = Some (one_hot 0 num_output_classes)
          /\ zero_at (charge t) b i /\ zero_at (pt t) b i /\ zero_at (eta t) b i
          /\ zero_at (sin_phi t) b i /\ zero_at (cos_phi t) b i
          /\ zero_at (energy t) b i)
         /\ (hd 0%R r <> 0%R ->
             row_at (charge t) b i = Some (take 1 (drop 1 r))
             /\ row_at (pt t) b i = Some (take 1 (drop 2 r))
             /\ row_at (eta t) b i = Some (take 1 (drop 3 r))
             /\ row_at (sin_phi t) b i = Some (take 1 (drop 4 r))
             /\ row_at (cos_phi t) b i = Some (take 1 (drop 5 r))
             /\ row_at (energy t) b i = Some (take 1 (drop 6 r))).
Proof.
  intros HF Hy. unfold targets_multi_output.
  destruct (valid_mask_is_Ok y N F HF Hy) as [msk Hmsk]. rewrite Hmsk.
  destruct (traverse_is_Ok (traverse InputEncoding.type_index) y) as [idx Hidx].
  { eapply Forall_impl; [exact Hy|]. intros ev [_ Hev].
    apply traverse_is_Ok. eapply Forall_impl; [exact Hev|].
    intros [|x0 xs] Hx; simpl in Hx; [lia|]. by eexists. }
  rewrite Hidx. unfold mbind, result_bind. cbv beta iota.
  pose proof (shape2_mask_input _ _ Hmsk) as Hsm.
  set (mi := mask_input msk) in *.
  assert (forall a b, shape2 (mul_mask (slice_cols a b y) mi) = shape2 y) as Hs.
  { intros a b. rewrite shape2_mul_mask; rewrite shape2_slice_cols; congruence. }
  eexists. split; [done|]. split.
  { unfold outputs_cover. cbn [cls charge pt eta sin_phi cos_phi energy].
    repeat (apply Forall_cons; split); try apply Hs; [|constructor].
    unfold shape2. rewrite <- list_fmap_compose.
    apply traverse_Forall2 in Hidx. clear -Hidx.
    induction Hidx as [|ev iev y' idx' Hev _ IH]; csimpl; [done|].
    rewrite length_fmap, (traverse_length _ _ _ Hev). by f_equal. }
  intros b i r Hr. cbn [cls charge pt eta sin_phi cos_phi energy]. split.
  - intros H0.
    pose proof (row_at_mask_input y msk b i r Hmsk Hr H0) as Hm. fold mi in Hm.
    split.
    + unfold row_at in Hr |- *.
      destruct (y !! b) as [ev|] eqn:Hev; [|done]. simpl in Hr.
      destruct (traverse_lookup _ _ _ _ _ Hidx Hev) as (iev & Hiev & Hb).
      destruct (traverse_lookup _ _ _ _ _ Hiev Hr) as (k & Hk & Hi).
      rewrite list_lookup_fmap, Hb. simpl. rewrite list_lookup_fmap, Hi. simpl.
      destruct r as [|r0 rs]; [done|]. simpl in *. injection Hk as <-. subst r0.
      by rewrite (cast_int32_IZR 0).
    + repeat split; by apply zero_at_mul_mask.
  - intros H0.
    pose proof (row_at_mask_input_valid y msk b i r Hmsk Hr H0) as Hm. fold mi in Hm.
    repeat split;
      rewrite row_at_mul_mask, row_at_slice_cols, Hr, Hm; simpl;
      by rewrite fmap_mul_1.
Qed.

Lemma targets_of_padded_elements_witness :
  (1 <= 2 /\ has_shape3 two_elements 2 2)
  /\ exists t,
      targets_multi_output 3 tt two_elements tt = Ok (tt, t, tt)
      /\ row_at (cls t) 0 0 = Some (one_hot 0 3)
      /\ zero_at (charge t) 0 0
      /\ row_at (charge t) 0 1 = Some [6%R].
Proof.
  assert (has_shape3 two_elements 2 2) as H by repeat constructor.
  split; [split; [lia | exact H]|].
  destruct (targets_of_padded_elements 3 tt two_elements tt 2 2 ltac:(lia) H)
    as (t & Ht & _ & Hrow).
  exists t. split; [done|].
  destruct (Hrow 0 0 [0; 5]%R eq_refl) as [Hpad _].
  destruct (Hrow 0 1 [1; 6]%R eq_refl) as [_ Hval].
  destruct (Hpad eq_refl) as (Hcls & Hchg & _).
  destruct Hval as (Hchg1 & _).
  { simpl. lra. }
  done.
Defined.

(** ** Order of the elements inside the bins *)

Lemma insert_key_Sorted k i l :
  Sorted (fun p q : Z * nat => (p.1 <= q.1)%Z) l ->
  Sorted (fun p q : Z * nat => (p.1 <= q.1)%Z) (insert_key k i l).
Proof.
  induction 1 as [|[k' i'] l Hl IH Hhd]; simpl.
  - repeat constructor.
  - destruct (Z.leb_spec k k').
    + constructor; [by constructor|]. constructor. simpl. lia.
    + constructor; [done|].
      destruct l as [|[k'' i''] l]; simpl in *.
      * constructor. simpl. lia.
      * destruct (Z.leb_spec k k''); constructor; simpl; try lia.
        by apply HdRel_inv in Hhd.
Qed.

Lemma sort_keys_Sorted l :
  Sorted (fun p q : Z * nat => (p.1 <= q.1)%Z) (sort_keys l).
Proof.
  induction l as [|[k i] l IH]; simpl; [constructor|].
  by apply insert_key_Sorted.
Qed.

Lemma Sorted_lookup_le (l : list (Z * nat)) p q a b :
  Sorted (fun p q : Z * nat => (p.1 <= q.1)%Z) l ->
  p <= q -> l !! p = Some a -> l !! q = Some b -> (a.1 <= b.1)%Z.
Proof.
  intros Hs. apply Sorted_StronglySorted in Hs; [|intros x y z; simpl; lia].
  revert p q. induction Hs as [|x l Hs IH Hall]; intros p q Hpq Hp Hq; [done|].
  destruct p as [|p], q as [|q]; simpl in *; simplify_eq; try lia.
  - eapply (proj1 (Forall_forall _ _) Hall). by eapply list_elem_of_lookup_2.
  - eapply (IH p q); [lia|done..].
Qed.

(** [argsort] lists the positions by non-decreasing key. *)
Lemma argsort_sorted keys p q i j ki kj :
  argsort keys !! p = Some i -> argsort keys !! q = Some j ->
  keys !! i = Some ki -> keys !! j = Some kj ->
  (ki < kj)%Z -> p < q.
Proof.
  unfold argsort. rewrite !list_lookup_fmap. intros Hp Hq Hi Hj Hlt.
  destruct (sort_keys _ !! p) as [[k1 i1]|] eqn:Ep; [|done].
  destruct (sort_keys _ !! q) as [[k2 i2]|] eqn:Eq; [|done].
  simpl in *. simplify_eq.
  assert (forall k i', (k, i') ∈ sort_keys (zip keys (seq 0 (length keys))) ->
            keys !! i' = Some k) as Hin.
  { intros k i'. rewrite sort_keys_Permutation.
    intros Hi'. apply list_elem_of_lookup in Hi' as [n Hn].
    apply lookup_zip_with_Some in Hn as (a & b & [= <- <-] & Ha & Hb).
    apply lookup_seq in Hb as [-> _]. done. }
  pose proof (Hin _ _ (list_elem_of_lookup_2 _ _ _ Ep)) as H1.
  pose proof (Hin _ _ (list_elem_of_lookup_2 _ _ _ Eq)) as H2.
  simplify_eq.
  destruct (decide (p < q)) as [|Hge]; [done|].
  pose proof (Sorted_lookup_le _ q p _ _ (sort_keys_Sorted _) ltac:(lia) Eq Ep).
  simpl in *. lia.
Qed.

Lemma reshape2_inv {A} (l : list A) d0 d1 t :
  reshape2 l d0 d1 = Ok t -> concat t = l.
Proof.
  unfold reshape2. case_decide as Hl; [|done]. intros [= <-].
  by apply concat_chunks.
Qed.

(** The dense graph builder fills the bins of an event in the order of the
    bin indices: with the elements read bin after bin, an element with a
    smaller bin index (argmax of the hash scores, plus [n_bins - 1] when
    masked) comes before every element with a larger one.  So a valid
    element whose hash bin is below [n_bins - 1] is placed before every
    masked element. *)
Theorem bins_are_filled_in_bin_index_order {A} (ltb : A -> A -> bool)
    (nbins bin_size : nat) (cmul : list (list A)) (msk : list bool) :
  length cmul = nbins * bin_size ->
  length msk = length cmul ->
  Forall (fun row => row <> []) cmul ->
  exists bins ks,
    split_indices_to_bins_event ltb nbins bin_size cmul msk = Ok bins
    /\ bin_indices ltb nbins cmul msk = Ok ks
    /\ (forall p q i j ki kj,
          concat bins !! p = Some i -> concat bins !! q = Some j ->
          ks !! i = Some ki -> ks !! j = Some kj ->
          (ki < kj)%Z -> p < q)
    /\ (forall p q i j ki,
          concat bins !! p = Some i -> concat bins !! q = Some j ->
          msk !! i = Some true -> msk !! j = Some false ->
          ks !! i = Some ki -> (ki < Z.of_nat nbins - 1)%Z ->
          p < q).
Proof.
  intros Hlen Hmsk Hrows.
  destruct (split_indices_to_bins_event_spec ltb cmul msk nbins bin_size
              Hlen Hmsk Hrows) as (bins & Hbins & _).
  destruct (bin_indices_is_Ok ltb nbins cmul msk Hmsk Hrows) as (ks & Hks & Hkl).
  exists bins, ks. split; [done|]. split; [done|].
  unfold split_indices_to_bins_event in Hbins. rewrite Hks in Hbins.
  simpl in Hbins. apply reshape2_inv in Hbins.
  assert (forall p q i j ki kj,
            concat bins !! p = Some i -> concat bins !! q = Some j ->
            ks !! i = Some ki -> ks !! j = Some kj ->
            (ki < kj)%Z -> p < q) as Hsorted.
  { rewrite Hbins. intros p q i j ki kj. apply argsort_sorted. }
  split; [exact Hsorted|].
  intros p q i j ki Hp Hq Hmi Hmj Hki Hlt.
  assert (is_Some (ks !! j)) as [kj Hkj].
  { apply lookup_lt_is_Some. rewrite Hkl, <- Hmsk. by eapply lookup_lt_Some. }
  apply (Hsorted p q i j ki kj); try done.
  destruct (bin_indices_lookup _ _ _ _ _ _ _ _ Hks Hmj Hkj) as (rj & _ & Hbj).
  unfold bin_index in Hbj.
  destruct (argmax ltb rj) as [aj|]; simplify_eq/=. lia.
Qed.

Lemma bins_are_filled_in_bin_index_order_witness :
  (length [[1; -1]; [-1; 1]; [3; -3]; [-2; 2]]%Z = 2 * 2
   /\ length [true; false; true; true] = length [[1; -1]; [-1; 1]; [3; -3]; [-2; 2]]%Z
   /\ Forall (fun row : list Z => row <> []) [[1; -1]; [-1; 1]; [3; -3]; [-2; 2]]%Z)
  /\ exists bins,
      split_indices_to_bins_event Z.ltb 2 2 [[1; -1]; [-1; 1]; [3; -3]; [-2; 2]]%Z
        [true; false; true; true] = Ok bins
      /\ forall p q, concat bins !! p = Some 0 -> concat bins !! q = Some 1 -> p < q.
Proof.
  assert (Forall (fun row : list Z => row <> [])
            [[1; -1]; [-1; 1]; [3; -3]; [-2; 2]]%Z) as H by (by repeat constructor).
  split; [by repeat split|].
  destruct (bins_are_filled_in_bin_index_order Z.ltb 2 2
              [[1; -1]; [-1; 1]; [3; -3]; [-2; 2]]%Z [true; false; true; true]
              eq_refl eq_refl H) as (bins & ks & Hbins & Hks & _ & Hord).
  exists bins. split; [done|]. intros p q Hp Hq.
  injection Hks as <-.
  exact (Hord p q 0 1 0%Z Hp Hq eq_refl eq_refl eq_refl ltac:(lia)).
Defined.

(** ** The forward gather after the inverse bin scatter *)

Lemma gather_batch_intro {A} (X : list (list A)) bins Xb :
  length bins = length X -> length Xb = length X ->
  (forall b Xe be Xbe, X !! b = Some Xe -> bins !! b = Some be ->
     Xb !! b = Some Xbe ->
     Forall2 (Forall2 (fun i v => Xe !! i = Some v)) be Xbe) ->
  gather_batch X bins = Ok Xb.
Proof.
  revert bins Xb. induction X as [|Xe X IH]; intros [|be bins] [|Xbe Xb];
    simpl; try done.
  intros [= Hb] [= HXb] Hrows.
  rewrite (proj2 (gather_Forall2 Xe be Xbe) (Hrows 0 Xe be Xbe eq_refl eq_refl eq_refl)).
  simpl. rewrite (IH bins Xb Hb HXb); [done|].
  intros b. apply (Hrows (S b)).
Qed.

Lemma has_shape3_concat {A} (t : list (list (list A))) d1 d2 :
  has_shape3 t d1 d2 -> Forall (fun r => length r = d1 * d2) (@concat _ <$> t).
Proof.
  intros H. apply Forall_fmap. eapply Forall_impl; [exact H|].
  intros ev [Hl Hr]. simpl. by rewrite (concat_length_uniform d2), Hl.
Qed.

Lemma has_shape3_lookup {A} (t : list (list (list A))) d1 d2 b k ev r :
  has_shape3 t d1 d2 -> t !! b = Some ev -> ev !! k = Some r ->
  length ev = d1 /\ length r = d2.
Proof.
  intros H Hb Hk. destruct (Forall_lookup_1 _ _ _ _ H Hb) as [Hl Hr].
  split; [done|]. exact (Forall_lookup_1 _ _ _ _ Hr Hk).
Qed.

Lemma reverse_lsh_rows (bins : list (list (list nat)))
    (Xb : list (list (list (list R)))) (nbins bin_size f : nat) :
  0 < nbins * bin_size ->
  has_shape3 bins nbins bin_size ->
  has_shape4 Xb nbins bin_size f ->
  length bins = length Xb ->
  Forall (fun be => concat be ≡ₚ seq 0 (nbins * bin_size)) bins ->
  exists X,
    reverse_lsh bins Xb = Ok X
    /\ length X = length Xb
    /\ has_shape3 X (nbins * bin_size) f
    /\ gather_batch X bins = Ok Xb.
Proof.
  intros Hpos Hbins HXb Hlen Hperm. set (N := nbins * bin_size) in *.
  destruct (decide (Xb = [])) as [->|Hne].
  { destruct bins; [|done]. exists []. by repeat split; try constructor. }
  assert (Forall (fun r => length r = N) (@concat _ <$> bins)) as HNb
    by (by apply has_shape3_concat).
  assert (Forall (fun r => length r = N) (@concat _ <$> Xb)) as HNX.
  { apply Forall_fmap. eapply Forall_impl; [exact HXb|].
    intros ev [Hl Hr]. simpl.
    rewrite (concat_length_uniform bin_size), Hl; [done|].
    eapply Forall_impl; [exact Hr|]. by intros bin [? _]. }
  assert (Forall (fun v => length v = f) (concat (@concat _ <$> Xb))) as Hf.
  { apply Forall_forall.
    intros v (l & (ev & -> & Hev)%list_elem_of_fmap & Hv)%elem_of_concat.
    apply elem_of_concat in Hv as (bin & Hbin & Hv).
    destruct (proj1 (Forall_forall _ _) HXb ev Hev) as [_ Hr].
    destruct (proj1 (Forall_forall _ _) Hr bin Hbin) as [_ Hw].
    exact (proj1 (Forall_forall _ _) Hw v Hv). }
  assert (shape4 Xb = (length Xb, nbins, bin_size, f)) as Hshape4.
  { destruct Xb as [|ev Xb']; [done|]. unfold shape4. simpl.
    apply Forall_cons in HXb as [[Hl Hr] _].
    destruct ev as [|bin ev']; [simpl in Hl; unfold N in Hpos; nia|]. simpl.
    apply Forall_cons in Hr as [[Hlb Hw] _].
    destruct bin as [|v bin']; [simpl in Hlb; unfold N in Hpos; nia|]. simpl.
    apply Forall_cons in Hw as [Hv _]. simpl in Hl, Hlb, Hv.
    by rewrite Hl, Hlb, Hv. }
  rewrite (reverse_lsh_flat bins Xb N f nbins bin_size) by done.
  unfold scatter_nd. rewrite decide_True; last first.
  { apply list_eq. intros b.
    rewrite (list_lookup_fmap length), list_lookup_imap,
      (list_lookup_fmap length (@concat _ <$> Xb)).
    destruct ((@concat _ <$> bins) !! b) as [ix|] eqn:Hix;
      destruct ((@concat _ <$> Xb) !! b) as [ub|] eqn:Hub; simpl.
    - rewrite length_fmap.
      by rewrite (Forall_lookup_1 _ _ _ _ HNb Hix), (Forall_lookup_1 _ _ _ _ HNX Hub).
    - apply lookup_lt_Some in Hix. apply lookup_ge_None in Hub.
      rewrite length_fmap in Hix. rewrite length_fmap in Hub. lia.
    - apply lookup_lt_Some in Hub. apply lookup_ge_None in Hix.
      rewrite length_fmap in Hix. rewrite length_fmap in Hub. lia.
    - done. }
  set (P := fun (p : nat * nat) (u : list R) =>
              length u = f
              /\ exists q ix ub, (@concat _ <$> bins) !! p.1 = Some ix
                   /\ (@concat _ <$> Xb) !! p.1 = Some ub
                   /\ ix !! q = Some p.2 /\ ub !! q = Some u).
  assert (forall b ix, (@concat _ <$> bins) !! b = Some ix -> ix ≡ₚ seq 0 N) as Hpix.
  { intros b ix (be & -> & Hbe)%list_lookup_fmap_Some.
    exact (Forall_lookup_1 _ _ _ _ Hperm Hbe). }
  destruct (scatter_add_spec P
              (replicate (length Xb) (replicate N (zeros f)))
              (concat (imap (fun b r => pair b <$> r) (@concat _ <$> bins)))
              (concat (@concat _ <$> Xb)))
    as (r & -> & Hshape & Hins & Houts).
  - apply (NoDup_tagged (@Datatypes.id nat)); [apply _|].
    apply Forall_lookup. intros b ix Hix. rewrite (Hpix b ix Hix). apply NoDup_seq.
  - apply Forall2_concat_rows, Forall2_same_length_lookup_2.
    { by rewrite length_imap, !length_fmap. }
    intros b l ub (ix & Hix & ->)%list_lookup_imap_Some Hub.
    apply Forall2_fmap_l, Forall2_same_length_lookup_2.
    { by rewrite (Forall_lookup_1 _ _ _ _ HNb Hix), (Forall_lookup_1 _ _ _ _ HNX Hub). }
    intros q i u Hi Hu. split.
    + apply (proj1 (Forall_forall _ _) Hf). apply elem_of_concat.
      exists ub. split; by eapply list_elem_of_lookup_2.
    + exists q, ix, ub. by repeat split.
  - intros b i (b' & ix & -> & Hix & Hi)%(elem_of_tagged (@Datatypes.id nat)).
    cbv [Datatypes.id].
    rewrite row_at_zeros, decide_True; [done|]. split.
    + apply lookup_lt_Some in Hix. rewrite length_fmap in Hix. lia.
    + rewrite (Hpix _ _ Hix) in Hi. apply elem_of_seq in Hi. lia.
  - assert (length r = length Xb) as Hlr.
    { apply (f_equal length) in Hshape.
      by rewrite !length_fmap, length_replicate in Hshape. }
    assert (forall b re, r !! b = Some re -> length re = N) as Hre.
    { intros b re Hb.
      assert ((length <$> r) !! b = Some (length re)) as Hl
        by (by rewrite list_lookup_fmap, Hb).
      rewrite Hshape, list_lookup_fmap in Hl.
      rewrite lookup_replicate_2 in Hl
        by (apply lookup_lt_Some in Hb; lia).
      simpl in Hl. rewrite length_replicate in Hl. by injection Hl. }
    assert (forall b q ix ub i u,
              (@concat _ <$> bins) !! b = Some ix ->
              (@concat _ <$> Xb) !! b = Some ub ->
              ix !! q = Some i -> ub !! q = Some u ->
              row_at r b i = Some u /\ length u = f) as Hrow.
    { intros b q ix ub i u Hix Hub Hi Hu.
      destruct (Hins b i) as (row & u' & Hrow0 & [Hlu' HP] & Hr).
      { apply (elem_of_tagged (@Datatypes.id nat)). exists b, ix.
        split; [done|]. split; [done|]. by eapply list_elem_of_lookup_2. }
      destruct HP as (q' & ix' & ub' & Hix' & Hub' & Hi' & Hu').
      simpl in *. simplify_eq.
      assert (q' = q) as ->.
      { eapply NoDup_lookup; [|exact Hi'|exact Hi].
        rewrite (Hpix _ _ Hix). apply NoDup_seq. }
      simplify_eq. rewrite row_at_zeros in Hrow0. case_decide; [|done].
      simplify_eq. by rewrite vadd_zeros in Hr. }
    exists r. split; [done|]. split; [done|]. split.
    + apply Forall_lookup. intros b re Hb. split; [by eapply Hre|].
      apply Forall_lookup. intros i v Hv.
      destruct (lookup_lt_is_Some_2 (@concat _ <$> bins) b) as [ix Hix].
      { apply lookup_lt_Some in Hb. rewrite length_fmap. lia. }
      destruct (lookup_lt_is_Some_2 (@concat _ <$> Xb) b) as [ub Hub].
      { apply lookup_lt_Some in Hb. rewrite length_fmap. lia. }
      assert (i ∈ ix) as Hi.
      { rewrite (Hpix _ _ Hix). apply elem_of_seq.
        apply lookup_lt_Some in Hv. rewrite (Hre _ _ Hb) in Hv. lia. }
      apply list_elem_of_lookup in Hi as [q Hq].
      destruct (lookup_lt_is_Some_2 ub q) as [u Hu].
      { rewrite (Forall_lookup_1 _ _ _ _ HNX Hub).
        rewrite <- (Forall_lookup_1 _ _ _ _ HNb Hix). by eapply lookup_lt_Some. }
      destruct (Hrow b q ix ub i u Hix Hub Hq Hu) as [Hr Hlu].
      unfold row_at in Hr. rewrite Hb in Hr. simpl in Hr. by simplify_eq.
    + apply gather_batch_intro; [lia | lia |].
      intros b re be Xbe Hb Hbe HXbe.
      destruct (Forall_lookup_1 _ _ _ _ Hbins Hbe) as [Hlbe Hwbe].
      destruct (Forall_lookup_1 _ _ _ _ HXb HXbe) as [HlXbe HwXbe].
      apply Forall2_same_length_lookup_2; [lia|].
      intros k bin xbin Hk Hxk.
      pose proof (Forall_lookup_1 _ _ _ _ Hwbe Hk) as Hlbin.
      destruct (Forall_lookup_1 _ _ _ _ HwXbe Hxk) as [Hlxbin _].
      simpl in Hlbin. apply Forall2_same_length_lookup_2; [lia|].
      intros s i v Hs Hv.
      assert (s < bin_size) as Hsb by (apply lookup_lt_Some in Hs; lia).
      destruct (Hrow b (k * bin_size + s) (concat be) (concat Xbe) i v) as [Hr _].
      * by rewrite list_lookup_fmap, Hbe.
      * by rewrite list_lookup_fmap, HXbe.
      * rewrite (lookup_concat_uniform be bin_size) by done.
        by rewrite Hk.
      * rewrite (lookup_concat_uniform Xbe bin_size); [by rewrite Hxk|
          eapply Forall_impl; [exact HwXbe|]; by intros ? [? _] | done].
      * unfold row_at in Hr. by rewrite Hb in Hr.
Qed.

(** [reverse_lsh] puts every binned row back at the element its bin slot
    names: for a bin assignment that is a permutation of the elements of
    each event and a binned tensor of shape (B, nbins, bin_size, f), it
    returns a tensor of shape (B, nbins * bin_size, f) from which the
    forward gather with the same bins gives the binned tensor back. *)
Theorem gather_after_reverse_lsh (bins_split : list (list (list nat)))
    (points_binned_enc : list (list (list (list R)))) (nbins bin_size f : nat) :
  0 < nbins * bin_size ->
  has_shape3 bins_split nbins bin_size ->
  has_shape4 points_binned_enc nbins bin_size f ->
  length bins_split = length points_binned_enc ->
  Forall (fun be => concat be ≡ₚ seq 0 (nbins * bin_size)) bins_split ->
  exists X,
    reverse_lsh bins_split points_binned_enc = Ok X
    /\ length X = length points_binned_enc
    /\ has_shape3 X (nbins * bin_size) f
    /\ gather_batch X bins_split = Ok points_binned_enc.
Proof. apply reverse_lsh_rows. Qed.

Lemma gather_after_reverse_lsh_witness :
  (0 < 1 * 2
   /\ has_shape3 [[[1; 0]]] 1 2
   /\ has_shape4 [[[[3; 4]; [1; 2]]]]%R 1 2 2
   /\ length [[[1; 0]]] = length [[[[3; 4]; [1; 2]]]]%R
   /\ Forall (fun be => concat be ≡ₚ seq 0 (1 * 2)) [[[1; 0]]])
  /\ exists X,
      reverse_lsh [[[1; 0]]] [[[[3; 4]; [1; 2]]]]%R = Ok X
      /\ gather_batch X [[[1; 0]]] = Ok [[[[3; 4]; [1; 2]]]]%R.
Proof.
  assert (has_shape3 [[[1; 0]]] 1 2) as H1 by repeat constructor.
  assert (has_shape4 [[[[3; 4]; [1; 2]]]]%R 1 2 2) as H2 by repeat constructor.
  assert (Forall (fun be => concat be ≡ₚ seq 0 (1 * 2)) [[[1; 0]]]) as H3.
  { constructor; [|constructor]. simpl. apply Permutation_swap. }
  split; [repeat split; [lia | exact H1 | exact H2 | exact H3]|].
  destruct (gather_after_reverse_lsh [[[1; 0]]] [[[[3; 4]; [1; 2]]]]%R 1 2 2
              ltac:(lia) H1 H2 eq_refl H3) as (X & HX & _ & _ & HG).
  by exists X.
Defined.

(** ** The combined graph layer *)

Lemma ncols_take_cols_eq h w : ncols (take_cols h w) = min h (ncols w).
Proof.
  unfold ncols, take_cols. destruct w as [|r w]; simpl.
  - by rewrite Nat.min_0_r.
  - by rewrite length_take.
Qed.

Lemma hash_scores_rows self n_bins (x_dist : list (list R)) :
  Forall (fun r => length r = length (GraphBuilderDense.codebook_random_rotations self))
    x_dist ->
  1 <= n_bins / 2 ->
  1 <= ncols (GraphBuilderDense.codebook_random_rotations self) ->
  exists cmul,
    GraphBuilderDense.hash_scores self n_bins x_dist = Ok cmul
    /\ length cmul = length x_dist
    /\ Forall (fun row => row <> []) cmul.
Proof.
  intros Hx Hn Hc. unfold GraphBuilderDense.hash_scores.
  set (cb := take_cols (n_bins / 2) (GraphBuilderDense.codebook_random_rotations self)).
  destruct (matmul_Ok x_dist cb) as (mul & -> & Hl & Hw).
  { unfold cb, take_cols. by rewrite length_fmap. }
  simpl. eexists. split; [done|]. split.
  - rewrite length_zip_with, length_fmap. lia.
  - assert (1 <= ncols cb) as Hcb by (unfold cb; rewrite ncols_take_cols_eq; lia).
    clear Hl. induction Hw as [|r mul Hr _ IH]; csimpl; constructor; [|done].
    destruct r; [simpl in Hr; lia | done].
Qed.

Lemma split_indices_to_bins_batch_spec {A} (ltb : A -> A -> bool)
    (cmul : list (list (list A))) (msk : list (list bool)) nbins bin_size :
  length msk = length cmul ->
  Forall (fun c => length c = nbins * bin_size
                   /\ Forall (fun row => row <> []) c) cmul ->
  Forall (fun m => length m = nbins * bin_size) msk ->
  exists bins,
    split_indices_to_bins_batch ltb cmul nbins bin_size msk = Ok bins
    /\ length bins = length cmul
    /\ has_shape3 bins nbins bin_size
    /\ Forall (fun be => concat be ≡ₚ seq 0 (nbins * bin_size)) bins.
Proof.
  revert msk. induction cmul as [|c cmul IH]; intros [|m msk]; simpl; try done.
  - intros _ _ _. exists []. by repeat split; constructor.
  - intros [= Hl] [[Hc Hrows] Hcmul]%Forall_cons [Hm Hmsk]%Forall_cons.
    destruct (split_indices_to_bins_event_spec ltb c m nbins bin_size)
      as (b & -> & Hb1 & Hb2 & Hb3); [done | lia | done |].
    destruct (IH msk Hl Hcmul Hmsk) as (bs & -> & Hbs1 & Hbs2 & Hbs3).
    simpl. eexists. split; [done|]. split; [simpl; lia|]. split.
    + constructor; [done|done].
    + constructor; [|done]. by rewrite Hb3, Hc.
Qed.

Lemma gather_batch_shape {A} (X : list (list (list A))) bins Xb N F nbins bin_size :
  gather_batch X bins = Ok Xb ->
  has_shape3 X N F ->
  has_shape3 bins nbins bin_size ->
  length Xb = length X /\ has_shape4 Xb nbins bin_size F.
Proof.
  intros HG HX Hbins. destruct (gather_batch_lookup _ _ _ HG) as [Hl Hrows].
  split; [done|]. apply Forall_lookup. intros b Xbe HXbe.
  destruct (lookup_lt_is_Some_2 X b) as [Xe HXe];
    [apply lookup_lt_Some in HXbe; lia|].
  assert (length bins = length X) as Hlb.
  { clear -HG. revert bins Xb HG.
    induction X as [|Xe X IH]; intros [|be bins] Xb; simpl; try done.
    intros H. bind_inv H. bind_inv H. f_equal. by eapply IH. }
  destruct (lookup_lt_is_Some_2 bins b) as [be Hbe];
    [apply lookup_lt_Some in HXe; lia|].
  pose proof (Hrows b Xe be Xbe HXe Hbe HXbe) as HF.
  destruct (Forall_lookup_1 _ _ _ _ Hbins Hbe) as [Hlbe Hwbe].
  destruct (Forall_lookup_1 _ _ _ _ HX HXe) as [_ HwXe].
  split; [by rewrite <- (Forall2_length _ _ _ HF)|].
  apply Forall_lookup. intros k xbin Hk.
  destruct (Forall2_lookup_r _ _ _ _ _ HF Hk) as (bin & Hbin & Hrow).
  split.
  - rewrite <- (Forall2_length _ _ _ Hrow).
    exact (Forall_lookup_1 _ _ _ _ Hwbe Hbin).
  - apply Forall_lookup. intros s v Hv.
    destruct (Forall2_lookup_r _ _ _ _ _ Hrow Hv) as (i & _ & Hi).
    exact (Forall_lookup_1 _ _ _ _ HwXe Hi).
Qed.

Lemma gather_batch_perm_is_Ok {A} (X : list (list (list A))) bins N F :
  has_shape3 X N F ->
  length bins = length X ->
  Forall (fun be => concat be ≡ₚ seq 0 N) bins ->
  is_Ok (gather_batch X bins).
Proof.
  intros HX Hl Hperm. apply gather_batch_is_Ok.
  apply Forall2_same_length_lookup_2; [done|]. intros b Xe be Hb Hbe.
  apply Forall_forall. intros ix Hix. apply Forall_forall. intros i Hi.
  destruct (Forall_lookup_1 _ _ _ _ HX Hb) as [-> _].
  assert (i ∈ concat be) as Hc by (apply elem_of_concat; eauto).
  rewrite (Forall_lookup_1 _ _ _ _ Hperm Hbe) in Hc.
  apply elem_of_seq in Hc. lia.
Qed.

Lemma mask_rows_cols_length (D : list (list (list R))) (m : list R) :
  length (GraphBuilderDense.mask_rows_cols D m) = min (length D) (length m).
Proof.
  unfold GraphBuilderDense.mask_rows_cols.
  by rewrite length_fmap, length_zip_with.
Qed.

Lemma GraphBuilderDense_call_learnable (self : GraphBuilderDense.t)
    (kffn : list R -> list R) (x_dist x_features : list (list (list R)))
    (msk : list (list bool)) (nbins F : nat) :
  GraphBuilderDense.kernel self = VStr "learnable" ->
  GraphBuilderDense.ffn_dist self = Some kffn ->
  x_dist <> [] ->
  has_shape3 x_dist (nbins * GraphBuilderDense.bin_size self)
    (length (GraphBuilderDense.codebook_random_rotations self)) ->
  has_shape3 x_features (nbins * GraphBuilderDense.bin_size self) F ->
  length x_features = length x_dist ->
  length msk = length x_dist ->
  Forall (fun m => length m = nbins * GraphBuilderDense.bin_size self) msk ->
  2 <= nbins -> 1 <= GraphBuilderDense.bin_size self ->
  1 <= ncols (GraphBuilderDense.codebook_random_rotations self) ->
  exists out,
    GraphBuilderDense.call self x_dist x_features msk = Ok out
    /\ length (GraphBuilderDense.bins_split out) = length x_dist
    /\ has_shape3 (GraphBuilderDense.bins_split out) nbins
         (GraphBuilderDense.bin_size self)
    /\ Forall (fun be => concat be ≡ₚ seq 0 (nbins * GraphBuilderDense.bin_size self))
         (GraphBuilderDense.bins_split out)
    /\ gather_batch x_features (GraphBuilderDense.bins_split out)
       = Ok (GraphBuilderDense.x_features_binned out)
    /\ length (GraphBuilderDense.dm out) = length x_dist
    /\ has_shape3 (GraphBuilderDense.dm out) nbins (GraphBuilderDense.bin_size self)
    /\ length (GraphBuilderDense.msk_f_binned out) = length x_dist
    /\ has_shape3 (GraphBuilderDense.msk_f_binned out) nbins
         (GraphBuilderDense.bin_size self).
Proof.
  intros Hk Hffn Hne Hxd Hxf Hlf Hlm Hm Hnb Hbs Hcb.
  set (bs := GraphBuilderDense.bin_size self) in *.
  set (N := nbins * bs) in *.
  unfold GraphBuilderDense.call.
  assert (length (hd [] x_dist) = N) as ->.
  { destruct x_dist as [|ev ?]; [done|]. simpl.
    by apply Forall_cons in Hxd as [[? _] _]. }
  unfold floordiv. fold bs. rewrite decide_False by lia.
  unfold mbind at 1, result_bind at 1. cbv beta iota.
  replace (N / bs) with nbins by (unfold N; symmetry; apply Nat.div_mul; lia).
  assert (1 <= nbins / 2) as Hh.
  { pose proof (Nat.div_mod_eq nbins 2).
    pose proof (Nat.mod_upper_bound nbins 2 ltac:(lia)). lia. }
  destruct (traverse_is_Ok (GraphBuilderDense.hash_scores self nbins) x_dist)
    as [cmul Hcmul].
  { eapply Forall_impl; [exact Hxd|]. intros ev [_ Hev].
    destruct (hash_scores_rows self nbins ev Hev Hh Hcb) as (c & Hc & _).
    by exists c. }
  rewrite Hcmul. unfold mbind at 1, result_bind at 1. cbv beta iota.
  pose proof (traverse_length _ _ _ Hcmul) as Hlc.
  destruct (split_indices_to_bins_batch_spec Rltb cmul msk nbins bs)
    as (bins & Hbins & Hlb & Hsb & Hperm); [lia | | done |].
  { apply Forall_lookup. intros b c Hc.
    destruct (lookup_lt_is_Some_2 x_dist b) as [ev Hev];
      [apply lookup_lt_Some in Hc; lia|].
    destruct (traverse_lookup _ _ _ _ _ Hcmul Hev) as (c' & Hc' & Hcc).
    assert (c' = c) as -> by congruence.
    destruct (Forall_lookup_1 _ _ _ _ Hxd Hev) as [Hlev Hwev].
    destruct (hash_scores_rows self nbins ev Hwev Hh Hcb) as (c'' & Hc'' & Hl & Hr).
    assert (c'' = c) as -> by congruence.
    split; [lia | done]. }
  rewrite Hbins. unfold mbind at 1, result_bind at 1. cbv beta iota.
  destruct (gather_batch_perm_is_Ok x_dist bins N _ Hxd) as [xdb Hxdb];
    [lia | done |].
  destruct (gather_batch_perm_is_Ok x_features bins N _ Hxf) as [xfb Hxfb];
    [lia | done |].
  assert (has_shape3 (GraphBuilderDense.expand_mask msk) N 1) as Hem.
  { unfold GraphBuilderDense.expand_mask. apply Forall_fmap.
    eapply Forall_impl; [exact Hm|]. intros m Hlen. simpl.
    split; [by rewrite length_fmap|]. apply Forall_fmap, Forall_true. done. }
  destruct (gather_batch_perm_is_Ok (GraphBuilderDense.expand_mask msk) bins N _ Hem)
    as [mfb Hmfb]; [|done|].
  { unfold GraphBuilderDense.expand_mask. rewrite length_fmap. lia. }
  rewrite Hxdb, Hxfb, Hmfb. unfold mbind, result_bind. cbv beta iota.
  rewrite Hk, Hffn. simpl. eexists. split; [done|]. simpl.
  destruct (gather_batch_shape _ _ _ _ _ _ _ Hxdb Hxd Hsb) as [Hlxdb Hsxdb].
  destruct (gather_batch_shape _ _ _ _ _ _ _ Hmfb Hem Hsb) as [Hlmfb Hsmfb].
  unfold GraphBuilderDense.expand_mask in Hlmfb. rewrite length_fmap in Hlmfb.
  assert (has_shape3 mfb nbins bs) as Hsm3.
  { eapply Forall_impl; [exact Hsmfb|]. intros e [Hl Hr]. split; [done|].
    eapply Forall_impl; [exact Hr|]. by intros bin [? _]. }
  split; [lia|]. split; [done|]. split; [done|]. split; [done|].
  split; [|split; [|split; [lia | done]]].
  - rewrite length_zip_with. unfold GraphBuilderDense.learnable_kernel,
      GraphBuilderDense.squeeze. rewrite !length_fmap. lia.
  - apply Forall_lookup. intros b e He.
    apply lookup_zip_with_Some in He as (ke & me & -> & Hke & Hme).
    unfold GraphBuilderDense.learnable_kernel in Hke.
    apply list_lookup_fmap_Some in Hke as (xe & -> & Hxe).
    unfold GraphBuilderDense.squeeze in Hme.
    apply list_lookup_fmap_Some in Hme as (me' & -> & Hme').
    destruct (Forall_lookup_1 _ _ _ _ Hsxdb Hxe) as [Hlxe Hwxe].
    destruct (Forall_lookup_1 _ _ _ _ Hsmfb Hme') as [Hlme Hwme].
    split.
    + rewrite length_zip_with, !length_fmap. lia.
    + apply Forall_lookup. intros k bin Hbin.
      apply lookup_zip_with_Some in Hbin as (D & m & -> & HD & Hmk).
      apply list_lookup_fmap_Some in HD as (xbin & -> & Hxbin).
      apply list_lookup_fmap_Some in Hmk as (mbin & -> & Hmbin).
      destruct (Forall_lookup_1 _ _ _ _ Hwxe Hxbin) as [Hlx _].
      destruct (Forall_lookup_1 _ _ _ _ Hwme Hmbin) as [Hlmb _].
      rewrite mask_rows_cols_length. unfold pairwise_learnable_dist.
      rewrite !length_fmap. lia.
Qed.

Lemma traverse3_is_Ok {A B C D} (f : A -> B -> C -> result D) (Q : D -> Prop)
    la lb lc :
  length lb = length la -> length lc = length la ->
  (forall i a b c, la !! i = Some a -> lb !! i = Some b -> lc !! i = Some c ->
     exists y, f a b c = Ok y /\ Q y) ->
  exists r, traverse3 f la lb lc = Ok r /\ length r = length la /\ Forall Q r.
Proof.
  revert lb lc. induction la as [|a la IH]; intros [|b lb] [|c lc]; simpl; try done.
  - intros _ _ _. exists []. by repeat split.
  - intros [= Hb] [= Hc] Hf.
    destruct (Hf 0 a b c eq_refl eq_refl eq_refl) as (y & -> & Hy).
    destruct (IH lb lc Hb Hc) as (r & -> & Hl & Hr).
    { intros i. apply (Hf (S i)). }
    simpl. exists (y :: r). split; [done|]. split; [simpl; lia|].
    by constructor.
Qed.

Lemma MPNN_call_shape (l : MPNNNodeFunction.t) (x : list (list R))
    (adj : list (list (list R))) (msk : list (list R)) bs E :
  length x = bs -> length adj = bs -> length msk = bs ->
  (forall v, length (MPNNNodeFunction.ffn l v) = E) ->
  exists y, MPNNNodeFunction.call l x adj msk = Ok y
            /\ length y = bs /\ Forall (fun r => length r = E) y.
Proof.
  intros Hx Hadj Hmsk HE. unfold MPNNNodeFunction.call, MPNNNodeFunction.concat_cols.
  rewrite decide_True
    by (unfold MPNNNodeFunction.avg_message; rewrite length_fmap; lia).
  simpl. eexists. split; [done|]. split.
  - rewrite length_fmap, mul_col_length, length_zip_with.
    unfold MPNNNodeFunction.avg_message. rewrite length_fmap. lia.
  - apply Forall_fmap, Forall_true. intros r. apply HE.
Qed.

Lemma MPNN_conv_shape (l : MPNNNodeFunction.t) (xb : list (list (list (list R))))
    (dm : list (list (list (list (list R))))) (mfb : list (list (list (list R))))
    nbins bs E :
  length dm = length xb -> length mfb = length xb ->
  has_shape3 xb nbins bs -> has_shape3 dm nbins bs -> has_shape3 mfb nbins bs ->
  (forall v, length (MPNNNodeFunction.ffn l v) = E) ->
  exists y, CombinedGraphLayer.MPNN_conv l xb dm mfb = Ok y
            /\ length y = length xb /\ has_shape4 y nbins bs E.
Proof.
  intros Hld Hlm Hxb Hdm Hmfb HE. unfold CombinedGraphLayer.MPNN_conv.
  apply (traverse3_is_Ok _ (fun ev => length ev = nbins /\ has_shape3 ev bs E));
    [done | done |].
  intros b xe de me Hxe Hde Hme.
  destruct (Forall_lookup_1 _ _ _ _ Hxb Hxe) as [Hlx Hwx].
  destruct (Forall_lookup_1 _ _ _ _ Hdm Hde) as [Hld' Hwd].
  destruct (Forall_lookup_1 _ _ _ _ Hmfb Hme) as [Hlm' Hwm].
  destruct (traverse3_is_Ok (MPNNNodeFunction.call l)
              (fun y => length y = bs /\ Forall (fun r => length r = E) y)
              xe de me) as (r & Hr & Hlr & HQ); [lia | lia | |].
  - intros k x adj m Hx Hadj Hm.
    apply MPNN_call_shape; [| | |done].
    + exact (Forall_lookup_1 _ _ _ _ Hwx Hx).
    + exact (Forall_lookup_1 _ _ _ _ Hwd Hadj).
    + exact (Forall_lookup_1 _ _ _ _ Hwm Hm).
  - exists r. split; [done|]. split; [lia|]. done.
Qed.

Lemma run_MPNN_convs (ls : list MPNNNodeFunction.t) dropout training
    (xb : list (list (list (list R))))
    (dm : list (list (list (list (list R))))) (mfb : list (list (list (list R))))
    nbins bs F E :
  training = false \/ dropout = None ->
  length dm = length xb -> length mfb = length xb ->
  has_shape4 xb nbins bs F -> has_shape3 dm nbins bs -> has_shape3 mfb nbins bs ->
  Forall (fun l => forall v, length (MPNNNodeFunction.ffn l v) = E) ls ->
  exists y,
    CombinedGraphLayer.run_convs (CombinedGraphLayer.MPNN_conv <$> ls)
      dropout training xb dm mfb = Ok y
    /\ length y = length xb
    /\ has_shape4 y nbins bs (if ls is [] then F else E)
    /\ (ls = [] -> y = xb).
Proof.
  intros Hdrop Hld Hlm Hxb Hdm Hmfb Hls. revert xb F Hld Hlm Hxb.
  induction Hls as [|l ls Hl _ IH]; intros xb F Hld Hlm Hxb; csimpl.
  - exists xb. by repeat split.
  - destruct (MPNN_conv_shape l xb dm mfb nbins bs E) as (y & -> & Hly & Hy);
      try done.
    { eapply Forall_impl; [exact Hxb|]. intros e [? Hr]. split; [done|].
      eapply Forall_impl; [exact Hr|]. by intros bin [? _]. }
    unfold mbind at 1, result_bind at 1. cbv beta iota.
    assert (match dropout with
            | Some d => if training then d y else y
            | None => y
            end = y) as ->.
    { destruct Hdrop as [-> | ->]; [by destruct dropout | done]. }
    destruct (IH y E) as (z & Hz & Hlz & Hsz & _); [lia | lia | done |].
    exists z. split; [done|]. split; [lia|]. split; [|done].
    by destruct ls.
Qed.

Lemma gather_batch_inj (X X' : list (list (list R))) bins Xb N F F' :
  gather_batch X bins = Ok Xb -> gather_batch X' bins = Ok Xb ->
  has_shape3 X N F -> has_shape3 X' N F' ->
  Forall (fun be => concat be ≡ₚ seq 0 N) bins ->
  X = X'.
Proof.
  intros HG HG' HX HX' Hperm.
  destruct (gather_batch_lookup _ _ _ HG) as [Hl Hrows].
  destruct (gather_batch_lookup _ _ _ HG') as [Hl' Hrows'].
  assert (length bins = length X) as Hlb.
  { clear -HG. revert bins Xb HG.
    induction X as [|Xe X IH]; intros [|be bins] Xb; simpl; try done.
    intros H. bind_inv H. bind_inv H. f_equal. by eapply IH. }
  apply tensor3_eq.
  - apply list_eq. intros b. rewrite !list_lookup_fmap.
    destruct (X !! b) as [Xe|] eqn:HXe; destruct (X' !! b) as [Xe'|] eqn:HXe'; simpl.
    + destruct (Forall_lookup_1 _ _ _ _ HX HXe) as [-> _].
      by destruct (Forall_lookup_1 _ _ _ _ HX' HXe') as [-> _].
    + apply lookup_lt_Some in HXe. apply lookup_ge_None in HXe'. lia.
    + apply lookup_lt_Some in HXe'. apply lookup_ge_None in HXe. lia.
    + done.
  - intros b i. unfold row_at.
    destruct (X !! b) as [Xe|] eqn:HXe; destruct (X' !! b) as [Xe'|] eqn:HXe'; simpl.
    + destruct (Forall_lookup_1 _ _ _ _ HX HXe) as [HlXe _].
      destruct (Forall_lookup_1 _ _ _ _ HX' HXe') as [HlXe' _].
      destruct (decide (i < N)) as [Hi|Hi].
      * destruct (lookup_lt_is_Some_2 bins b) as [be Hbe];
          [apply lookup_lt_Some in HXe; lia|].
        destruct (lookup_lt_is_Some_2 Xb b) as [Xbe HXbe];
          [apply lookup_lt_Some in HXe; lia|].
        assert (i ∈ concat be) as Hin.
        { rewrite (Forall_lookup_1 _ _ _ _ Hperm Hbe). apply elem_of_seq. lia. }
        apply list_elem_of_lookup in Hin as [p Hp].
        pose proof (Forall2_concat_rows _ _ _ (Hrows b Xe be Xbe HXe Hbe HXbe)) as H1.
        pose proof (Forall2_concat_rows _ _ _ (Hrows' b Xe' be Xbe HXe' Hbe HXbe)) as H2.
        destruct (Forall2_lookup_l _ _ _ _ _ H1 Hp) as (v & Hv & ->).
        destruct (Forall2_lookup_l _ _ _ _ _ H2 Hp) as (v' & Hv' & ->).
        congruence.
      * rewrite (proj2 (lookup_ge_None Xe i)) by lia.
        by rewrite (proj2 (lookup_ge_None Xe' i)) by lia.
    + apply lookup_lt_Some in HXe. apply lookup_ge_None in HXe'. lia.
    + apply lookup_lt_Some in HXe'. apply lookup_ge_None in HXe. lia.
    + done.
Qed.

(** [CombinedGraphLayer.call] with the learnable kernel and message-passing
    convolution layers runs on every well-shaped input: a non-empty batch
    of events with [nbins * bin_size] elements, at least two bins, a mask
    of the same shape and a distance embedding as wide as the codebook is
    high.  The bins it returns are a permutation of the elements of each
    event, and the encoding has one row per input element, in the order of
    the input, with the width of the last convolution layer.  Without
    convolution layers and layer normalisation the encoding is the input:
    binning followed by [reverse_lsh] loses nothing.  Dropout is off
    (inference, or a zero rate). *)
Theorem CombinedGraphLayer_call_runs (self : CombinedGraphLayer.t)
    (kffn : list R -> list R) (ls : list MPNNNodeFunction.t)
    (x : list (list (list R))) (msk : list (list bool)) (training : bool)
    (nbins F E : nat) :
  let gb := CombinedGraphLayer.dist self in
  let bs := GraphBuilderDense.bin_size gb in
  let cb := GraphBuilderDense.codebook_random_rotations gb in
  GraphBuilderDense.kernel gb = VStr "learnable" ->
  GraphBuilderDense.ffn_dist gb = Some kffn ->
  CombinedGraphLayer.convs self = CombinedGraphLayer.MPNN_conv <$> ls ->
  Forall (fun l => forall v, length (MPNNNodeFunction.ffn l v) = E) ls ->
  training = false \/ CombinedGraphLayer.dropout_layer self = None ->
  (forall ln v, CombinedGraphLayer.layernorm self = Some ln ->
     length (ln v) = length v) ->
  (forall v, length (CombinedGraphLayer.ffn_dist self v) = length cb) ->
  1 <= ncols cb ->
  x <> [] ->
  has_shape3 x (nbins * bs) F ->
  2 <= nbins -> 1 <= bs ->
  length msk = length x ->
  Forall (fun m => length m = nbins * bs) msk ->
  exists out,
    CombinedGraphLayer.call self x msk training = Ok out
    /\ length (CombinedGraphLayer.enc out) = length x
    /\ has_shape3 (CombinedGraphLayer.enc out) (nbins * bs)
         (if ls is [] then F else E)
    /\ Forall (fun be => concat be ≡ₚ seq 0 (nbins * bs))
         (CombinedGraphLayer.bins out)
    /\ (ls = [] -> CombinedGraphLayer.layernorm self = None ->
        CombinedGraphLayer.enc out = x).
Proof.
  intros gb bs cb Hk Hffn Hconvs Hls Hdrop Hln Hfd Hcb Hne Hx Hnb Hbs Hlm Hm.
  unfold CombinedGraphLayer.call.
  set (x' := match CombinedGraphLayer.layernorm self with
             | Some ln => map_rows3 ln x
             | None => x
             end).
  assert (has_shape3 x' (nbins * bs) F /\ length x' = length x) as [Hx' Hlx'].
  { unfold x'. destruct (CombinedGraphLayer.layernorm self) as [ln|] eqn:Eln;
      [|done].
    split; [|unfold map_rows3; by rewrite length_fmap].
    unfold map_rows3. apply Forall_fmap. eapply Forall_impl; [exact Hx|].
    intros ev [Hl Hr]. simpl. split; [by rewrite length_fmap|].
    apply Forall_fmap. eapply Forall_impl; [exact Hr|]. intros v Hv. simpl.
    by rewrite (Hln ln v). }
  set (x_dist := map_rows3 (CombinedGraphLayer.ffn_dist self) x').
  assert (has_shape3 x_dist (nbins * bs) (length cb)) as Hxd.
  { unfold x_dist, map_rows3. apply Forall_fmap. eapply Forall_impl; [exact Hx'|].
    intros ev [Hl Hr]. simpl. split; [by rewrite length_fmap|].
    apply Forall_fmap, Forall_true. intros v. apply Hfd. }
  assert (length x_dist = length x) as Hlxd
    by (unfold x_dist, map_rows3; rewrite length_fmap; lia).
  destruct (GraphBuilderDense_call_learnable gb kffn x_dist x' msk nbins F)
    as (out & Hout & Hlb & Hsb & Hperm & Hxfb & Hldm & Hsdm & Hlmf & Hsmf);
    try done; try lia.
  { intros E0. rewrite E0 in Hlxd. destruct x; [done|]. simpl in Hlxd. lia. }
  cbv zeta. fold x'. fold x_dist. fold gb. rewrite Hout.
  unfold mbind at 1, result_bind at 1. cbv beta iota.
  destruct (gather_batch_shape _ _ _ _ _ _ _ Hxfb Hx' Hsb) as [Hlxfb Hsxfb].
  destruct (run_MPNN_convs ls (CombinedGraphLayer.dropout_layer self) training
              (GraphBuilderDense.x_features_binned out)
              (GraphBuilderDense.dm out) (GraphBuilderDense.msk_f_binned out)
              nbins bs F E) as (y & Hy & Hly & Hsy & Hyid); try done; try lia.
  rewrite Hconvs, Hy. unfold mbind at 1, result_bind at 1. cbv beta iota.
  destruct (reverse_lsh_rows (GraphBuilderDense.bins_split out) y nbins bs
              (if ls is [] then F else E)) as (X & -> & HlX & HsX & HG);
    try done; [nia | lia |].
  simpl. eexists. split; [done|]. simpl.
  split; [lia|]. split; [done|]. split; [done|].
  intros -> Eln. rewrite (Hyid eq_refl) in HG.
  unfold x' in Hxfb, Hx'. rewrite Eln in Hxfb, Hx'.
  by eapply gather_batch_inj.
Qed.

Lemma CombinedGraphLayer_call_runs_witness :
  (has_shape3 [[[1; 2]; [3; 4]]]%R (2 * 1) 2
   /\ length [[true; false]] = length [[[1; 2]; [3; 4]]]%R
   /\ Forall (fun m : list bool => length m = 2 * 1) [[true; false]])
  /\ (exists out,
        CombinedGraphLayer.call cgl_mpnn [[[1; 2]; [3; 4]]]%R [[true; false]] false
        = Ok out
        /\ has_shape3 (CombinedGraphLayer.enc out) (2 * 1) 1)
  /\ (exists out,
        CombinedGraphLayer.call cgl_no_conv [[[1; 2]; [3; 4]]]%R [[true; false]] false
        = Ok out
        /\ CombinedGraphLayer.enc out = [[[1; 2]; [3; 4]]]%R).
Proof.
  assert (has_shape3 [[[1; 2]; [3; 4]]]%R (2 * 1) 2) as H1 by repeat constructor.
  assert (Forall (fun m : list bool => length m = 2 * 1) [[true; false]]) as H2
    by repeat constructor.
  split; [by repeat split|]. split.
  - destruct (CombinedGraphLayer_call_runs cgl_mpnn (fun v => v) [mpnn_sum]
                [[[1; 2]; [3; 4]]]%R [[true; false]] false 2 2 1)
      as (out & Hout & _ & Hs & _); try done.
    + by repeat constructor.
    + by left.
    + by exists out.
  - destruct (CombinedGraphLayer_call_runs cgl_no_conv (fun v => v) []
                [[[1; 2]; [3; 4]]]%R [[true; false]] false 2 2 0)
      as (out & Hout & _ & _ & _ & Hid); try done.
    + by left.
    + exists out. split; [done|]. by apply Hid.
Defined.

(** [GraphBuilderDense.call] with the learnable kernel runs on every
    well-shaped input (a non-empty batch of events of [nbins * bin_size]
    elements, at least two bins, distance embeddings as wide as the codebook
    is high, features and mask of the same batch and element counts).  The
    bins it returns are a permutation of the elements of every event, the
    binned features are the features gathered by the bins, and the adjacency
    and the binned mask have one [bin_size]-row block per bin. *)
Theorem GraphBuilderDense_call_runs (self : GraphBuilderDense.t)
    (kffn : list R -> list R) (x_dist x_features : list (list (list R)))
    (msk : list (list bool)) (nbins F : nat) :
  GraphBuilderDense.kernel self = VStr "learnable" ->
  GraphBuilderDense.ffn_dist self = Some kffn ->
  x_dist <> [] ->
  has_shape3 x_dist (nbins * GraphBuilderDense.bin_size self)
    (length (GraphBuilderDense.codebook_random_rotations self)) ->
  has_shape3 x_features (nbins * GraphBuilderDense.bin_size self) F ->
  length x_features = length x_dist ->
  length msk = length x_dist ->
  Forall (fun m => length m = nbins * GraphBuilderDense.bin_size self) msk ->
  2 <= nbins -> 1 <= GraphBuilderDense.bin_size self ->
  1 <= ncols (GraphBuilderDense.codebook_random_rotations self) ->
  exists out,
    GraphBuilderDense.call self x_dist x_features msk = Ok out
    /\ length (GraphBuilderDense.bins_split out) = length x_dist
    /\ has_shape3 (GraphBuilderDense.bins_split out) nbins
         (GraphBuilderDense.bin_size self)
    /\ Forall (fun be => concat be ≡ₚ seq 0 (nbins * GraphBuilderDense.bin_size self))
         (GraphBuilderDense.bins_split out)
    /\ gather_batch x_features (GraphBuilderDense.bins_split out)
       = Ok (GraphBuilderDense.x_features_binned out)
    /\ length (GraphBuilderDense.dm out) = length x_dist
    /\ has_shape3 (GraphBuilderDense.dm out) nbins (GraphBuilderDense.bin_size self)
    /\ length (GraphBuilderDense.msk_f_binned out) = length x_dist
    /\ has_shape3 (GraphBuilderDense.msk_f_binned out) nbins
         (GraphBuilderDense.bin_size self).
Proof. apply GraphBuilderDense_call_learnable. Qed.

Lemma GraphBuilderDense_call_runs_witness :
  (has_shape3 [[[-1]; [1]]]%R (2 * 1) 1
   /\ has_shape3 [[[5; 6]; [7; 8]]]%R (2 * 1) 2
   /\ Forall (fun m : list bool => length m = 2 * 1) [[true; false]])
  /\ exists out,
      GraphBuilderDense.call gbd_two_bins [[[-1]; [1]]]%R [[[5; 6]; [7; 8]]]%R
        [[true; false]] = Ok out
      /\ Forall (fun be => concat be ≡ₚ seq 0 (2 * 1))
           (GraphBuilderDense.bins_split out)
      /\ gather_batch [[[5; 6]; [7; 8]]]%R (GraphBuilderDense.bins_split out)
         = Ok (GraphBuilderDense.x_features_binned out).
Proof.
  assert (has_shape3 [[[-1]; [1]]]%R (2 * 1) 1) as H1 by repeat constructor.
  assert (has_shape3 [[[5; 6]; [7; 8]]]%R (2 * 1) 2) as H2 by repeat constructor.
  assert (Forall (fun m : list bool => length m = 2 * 1) [[true; false]]) as H3
    by repeat constructor.
  split; [by repeat split|].
  destruct (GraphBuilderDense_call_runs gbd_two_bins (fun v => v)
              [[[-1]; [1]]]%R [[[5; 6]; [7; 8]]]%R [[true; false]] 2 2)
    as (out & Hout & _ & _ & Hperm & Hg & _); try done.
  by exists out.
Defined.

(** ** Jet reconstruction *)

Lemma tensor_scatter_nd_add1_spec (t : list R) indices updates :
  length updates = length indices ->
  Forall (fun i => 0 <= i < Z.of_nat (length t))%Z indices ->
  exists r,
    tensor_scatter_nd_add1 t indices updates = Ok r
    /\ length r = length t
    /\ forall k a, t !! k = Some a ->
         r !! k = Some (a + vsum (snd <$> filter (fun e : Z * R => e.1 = Z.of_nat k)
                                    (zip indices updates)))%R.
Proof.
  intros Hl Hin. revert t updates Hl Hin.
  induction indices as [|i indices IH]; intros t [|u updates]; simpl; try done.
  - intros _ _. exists t. split; [done|]. split; [done|].
    intros k a ->. f_equal. lra.
  - intros [= Hl] [Hi Hin]%Forall_cons. rewrite decide_True by done.
    destruct (IH (alter (fun a => a + u)%R (Z.to_nat i) t) updates Hl)
      as (r & -> & Hlr & Hr).
    { by rewrite length_alter. }
    exists r. split; [done|]. split; [by rewrite Hlr, length_alter|].
    intros k a Hk.
    rewrite filter_cons. simpl.
    destruct (decide (k = Z.to_nat i)) as [->|Hne].
    + assert (alter (fun a => a + u)%R (Z.to_nat i) t !! Z.to_nat i
              = Some (a + u)%R) as Ha
        by (rewrite list_lookup_alter, decide_True, Hk by done; reflexivity).
      rewrite (Hr _ _ Ha).
      rewrite decide_True by lia. csimpl. f_equal. lra.
    + rewrite (Hr k a) by (by rewrite list_lookup_alter, decide_False).
      rewrite decide_False by lia. done.
Qed.

Lemma tensor_scatter_nd_add1_is_Ok (t : list R) indices updates :
  is_Ok (tensor_scatter_nd_add1 t indices updates) ->
  length updates = length indices
  /\ Forall (fun i => 0 <= i < Z.of_nat (length t))%Z indices.
Proof.
  revert t updates.
  induction indices as [|i indices IH]; intros t [|u updates]; simpl;
    try (by intros [? ?]).
  case_decide as Hi; [|by intros [? ?]]. intros H.
  destruct (IH _ _ H) as [Hl Hin]. rewrite length_alter in Hin.
  split; [by f_equal|]. by constructor.
Qed.

Lemma jet_reco_runs (px py : list R) (jet_idx : list Z) (max_jets : nat) :
  1 <= max_jets ->
  length py = length px -> length jet_idx = length px ->
  Forall (fun j => 0 <= j /\ j <> Z.of_nat max_jets)%Z jet_idx ->
  exists r, jet_reco px py jet_idx max_jets = Ok r /\ length r = max_jets.
Proof.
  intros Hmax Hl1 Hl2 Hj. unfold jet_reco. rewrite decide_True by done. simpl.
  assert (Forall (fun i => 0 <= i < Z.of_nat (length (zeros max_jets)))%Z
            (cap_jet_idx max_jets <$> jet_idx)) as Hcap.
  { rewrite Forall_fmap. unfold zeros. rewrite length_replicate.
    eapply Forall_impl; [exact Hj|]. intros j. unfold cap_jet_idx. simpl.
    case_decide; lia. }
  destruct (tensor_scatter_nd_add1_spec (zeros max_jets)
              (cap_jet_idx max_jets <$> jet_idx) px) as (rx & -> & Hlx & _);
    [rewrite length_fmap; lia | done |].
  destruct (tensor_scatter_nd_add1_spec (zeros max_jets)
              (cap_jet_idx max_jets <$> jet_idx) py) as (ry & -> & Hly & _);
    [rewrite length_fmap; lia | done |].
  simpl. eexists. split; [done|].
  unfold zeros in *. rewrite length_replicate in Hlx, Hly.
  rewrite length_zip_with. lia.
Qed.

(** [jet_reco] succeeds exactly when its three inputs have one length and
    every jet index, after the cap, addresses one of the [max_jets] jets:
    the cap [jet_idx <= max_jets] lets the index [max_jets] itself and
    negative indices through, and the scatter refuses them (CPU kernel).
    When it succeeds it returns [max_jets] transverse momenta, none
    negative, and jet [k] gets the length of the summed [(px, py)] of the
    particles whose capped index is [k]; particles with an index above
    [max_jets] are added to jet 0. *)
Theorem jet_reco_succeeds_iff (px py : list R) (jet_idx : list Z) (max_jets : nat) :
  1 <= max_jets ->
  (is_Ok (jet_reco px py jet_idx max_jets)
   <-> length py = length px /\ length jet_idx = length px
       /\ Forall (fun j => 0 <= j /\ j <> Z.of_nat max_jets)%Z jet_idx)
  /\ forall jet_pt,
       jet_reco px py jet_idx max_jets = Ok jet_pt ->
       length jet_pt = max_jets
       /\ forall k, k < max_jets ->
            jet_pt !! k
            = Some (sqrt (jet_sum max_jets jet_idx px k ^ 2
                          + jet_sum max_jets jet_idx py k ^ 2))%R.
Proof.
  intros Hmax.
  assert (Forall (fun j => 0 <= j /\ j <> Z.of_nat max_jets)%Z jet_idx
          <-> Forall (fun i => 0 <= i < Z.of_nat (length (zeros max_jets)))%Z
                (cap_jet_idx max_jets <$> jet_idx)) as Hcap.
  { rewrite Forall_fmap. unfold zeros. rewrite length_replicate.
    apply Forall_iff. intros j. unfold cap_jet_idx. simpl.
    case_decide; lia. }
  assert (forall (p : list R) k,
            vsum (snd <$> filter (fun e : Z * R => e.1 = Z.of_nat k)
                            (zip (cap_jet_idx max_jets <$> jet_idx) p))
            = jet_sum max_jets jet_idx p k) as Hsum.
  { intros p k. unfold jet_sum. f_equal. clear. revert p.
    induction jet_idx as [|j jet_idx IH]; intros [|a p]; csimpl; try done.
    rewrite !filter_cons. simpl. case_decide; csimpl; by rewrite IH. }
  split.
  - unfold jet_reco. split.
    + intros [r Hr]. case_decide as Hlen; [|done]. simpl in Hr.
      destruct Hlen as [Hl1 Hl2]. split; [done|]. split; [done|].
      bind_inv Hr. apply Hcap.
      by destruct (tensor_scatter_nd_add1_is_Ok _ _ _ (ex_intro _ a Ha)).
    + intros (Hl1 & Hl2 & Hj). rewrite decide_True by done. simpl.
      apply Hcap in Hj.
      destruct (tensor_scatter_nd_add1_spec (zeros max_jets)
                  (cap_jet_idx max_jets <$> jet_idx) px) as (rx & -> & _);
        [rewrite length_fmap; lia | done |].
      destruct (tensor_scatter_nd_add1_spec (zeros max_jets)
                  (cap_jet_idx max_jets <$> jet_idx) py) as (ry & -> & _);
        [rewrite length_fmap; lia | done |].
      simpl. by eexists.
  - intros jet_pt H. unfold jet_reco in H.
    case_decide as Hlen; [|done]. simpl in H. destruct Hlen as [Hl1 Hl2].
    bind_inv_as H rx Hrx. bind_inv_as H ry Hry. injection H as <-.
    destruct (tensor_scatter_nd_add1_is_Ok _ _ _ (ex_intro _ rx Hrx)) as [Hlx Hin].
    destruct (tensor_scatter_nd_add1_is_Ok _ _ _ (ex_intro _ ry Hry)) as [Hly _].
    destruct (tensor_scatter_nd_add1_spec _ _ _ Hlx Hin) as (rx' & Hrx' & Hlrx & Hx).
    destruct (tensor_scatter_nd_add1_spec _ _ _ Hly Hin) as (ry' & Hry' & Hlry & Hy).
    assert (rx' = rx) as -> by congruence. assert (ry' = ry) as -> by congruence.
    unfold zeros in *. rewrite length_replicate in Hlrx, Hlry.
    split; [rewrite length_zip_with; lia|].
    intros k Hk. rewrite lookup_zip_with.
    rewrite (Hx k 0%R) by (by apply lookup_replicate_2).
    rewrite (Hy k 0%R) by (by apply lookup_replicate_2).
    simpl. rewrite !Hsum. do 2 f_equal; f_equal; lra.
Qed.

Lemma jet_reco_succeeds_iff_witness :
  1 <= 2
  /\ ~ is_Ok (jet_reco [3; 4]%R [0; 0]%R [0; 2]%Z 2)
  /\ is_Ok (jet_reco [3; 4]%R [0; 0]%R [0; 3]%Z 2).
Proof.
  destruct (jet_reco_succeeds_iff [3; 4]%R [0; 0]%R [0; 2]%Z 2 ltac:(lia))
    as [H1 _].
  destruct (jet_reco_succeeds_iff [3; 4]%R [0; 0]%R [0; 3]%Z 2 ltac:(lia))
    as [H2 _].
  split; [lia|]. split.
  - intros H. apply H1 in H as (_ & _ & H).
    apply Forall_cons in H as [_ H]. apply Forall_cons in H as [[_ H] _]. done.
  - apply H2. repeat split; try done. repeat constructor; done.
Defined.

(** ** Jet losses *)

Lemma traverse2_pure {A B} (f : A -> result B) (g : A -> B) (t : list (list A)) :
  Forall (Forall (fun x => f x = Ok (g x))) t ->
  traverse (traverse f) t = Ok (fmap (M:=list) (fmap (M:=list) g) t).
Proof.
  intros H. rewrite <- (traverse_pure (fmap (M:=list) g) t).
  apply traverse_ext. eapply Forall_impl; [exact H|]. intros l Hl. simpl.
  rewrite <- (traverse_pure g l). by apply traverse_ext.
Qed.

Lemma last_index_shape j (y : list (list (list R))) N F :
  has_shape3 y N F -> j < F ->
  last_index j y
  = Ok (fmap (M:=list) (fmap (M:=list) (fun row => nth j row 0%R)) y).
Proof.
  intros Hy Hj. unfold last_index. apply traverse2_pure.
  eapply Forall_impl; [exact Hy|]. intros ev [_ Hev].
  eapply Forall_impl; [exact Hev|]. intros row Hrow. simpl in *.
  unfold InputEncodingCMS.feature.
  destruct (lookup_lt_is_Some_2 row j) as [v Hv]; [lia|].
  rewrite Hv. f_equal. symmetry. by apply nth_lookup_Some.
Qed.

Lemma batched_jet_reco_is_Ok (px py : list (list R)) (jet_idx : list (list Z))
    max_jets n :
  1 <= max_jets ->
  length py = length px -> length jet_idx = length px ->
  Forall (fun r => length r = n) px ->
  Forall (fun r => length r = n) py ->
  Forall (fun r => length r = n) jet_idx ->
  Forall (Forall (fun j => 0 <= j /\ j <> Z.of_nat max_jets)%Z) jet_idx ->
  exists r, batched_jet_reco px py jet_idx max_jets = Ok r
            /\ length r = length px
            /\ Forall (fun row => length row = max_jets) r.
Proof.
  intros Hmax Hlp Hli Hpx Hpy Hidx Hval. unfold batched_jet_reco.
  assert (px <> [] -> length (hd [] px) = n) as Hn.
  { destruct px as [|r px']; [done|]. intros _. simpl.
    by apply Forall_cons in Hpx as [? _]. }
  rewrite decide_True; last first.
  { destruct (decide (px = [])) as [->|Hne].
    - destruct py; [|done]. destruct jet_idx; [|done]. by repeat split.
    - rewrite (Hn Hne). by repeat split. }
  simpl.
  apply (traverse3_is_Ok _ (fun row => length row = max_jets)); [done|done|].
  intros i a b c Ha Hb Hc.
  pose proof (Forall_lookup_1 _ _ _ _ Hpx Ha) as Hla.
  pose proof (Forall_lookup_1 _ _ _ _ Hpy Hb) as Hlb.
  pose proof (Forall_lookup_1 _ _ _ _ Hidx Hc) as Hlc.
  pose proof (Forall_lookup_1 _ _ _ _ Hval Hc) as Hvc.
  simpl in *.
  destruct (jet_reco_runs a b c max_jets Hmax) as (r & Hr & Hlr); [lia|lia|done|].
  by exists r.
Qed.

Lemma jet_pt_of_runs (y : list (list (list R))) (jet_idx : list (list Z))
    N F max_jets :
  1 <= max_jets ->
  has_shape3 y N F -> 5 <= F ->
  length jet_idx = length y ->
  Forall (fun r => length r = N) jet_idx ->
  Forall (Forall (fun j => 0 <= j /\ j <> Z.of_nat max_jets)%Z) jet_idx ->
  exists r, jet_pt_of y jet_idx max_jets = Ok r
            /\ length r = length y
            /\ Forall (fun row => length row = max_jets) r.
Proof.
  intros Hmax Hy HF Hl Hn Hval. unfold jet_pt_of.
  rewrite !(last_index_shape _ y N F) by (done || lia).
  unfold mbind, result_bind. cbv beta iota.
  assert (forall j k,
            length (map2 Rmult
                      (fmap (M:=list) (fmap (M:=list) (fun row => nth j row 0%R)) y)
                      (fmap (M:=list) (fmap (M:=list) (fun row => nth k row 0%R)) y))
            = length y
            /\ Forall (fun r => length r = N)
                 (map2 Rmult
                    (fmap (M:=list) (fmap (M:=list) (fun row => nth j row 0%R)) y)
                    (fmap (M:=list) (fmap (M:=list) (fun row => nth k row 0%R)) y)))
    as Hm.
  { intros j k. unfold map2. split.
    - rewrite length_zip_with, !length_fmap. lia.
    - apply Forall_lookup. intros b r Hr.
      apply lookup_zip_with_Some in Hr as (r1 & r2 & -> & H1 & H2).
      apply list_lookup_fmap_Some in H1 as (ev & -> & Hev).
      apply list_lookup_fmap_Some in H2 as (ev' & -> & Hev').
      assert (ev' = ev) as -> by congruence.
      destruct (Forall_lookup_1 _ _ _ _ Hy Hev) as [Hlen _].
      rewrite length_zip_with, !length_fmap. lia. }
  destruct (Hm 0 4) as [Hl1 Hs1]. destruct (Hm 0 3) as [Hl2 Hs2].
  destruct (batched_jet_reco_is_Ok _ _ jet_idx max_jets N Hmax
              (eq_trans Hl2 (eq_sym Hl1)) (eq_trans Hl (eq_sym Hl1)) Hs1 Hs2 Hn Hval)
    as (r & Hr & Hlr & Hwr).
  exists r. split; [done|]. split; [lia | done].
Qed.

Lemma compute_jet_pt_runs (y_true y_pred : list (list (list R))) N F F' max_jets :
  1 <= max_jets ->
  has_shape3 y_true N F -> 6 <= F ->
  has_shape3 y_pred N F' -> 5 <= F' ->
  length y_pred = length y_true ->
  jet_indices_valid max_jets y_true ->
  exists jt jp,
    compute_jet_pt y_true y_pred max_jets = Ok (jt, jp)
    /\ length jt = length y_true /\ length jp = length y_true
    /\ Forall (fun row => length row = max_jets) jt
    /\ Forall (fun row => length row = max_jets) jp
    /\ (y_pred = y_true -> jp = jt).
Proof.
  intros Hmax Hyt HF Hyp HF' Hl Hval. unfold compute_jet_pt.
  rewrite (last_index_shape 5 y_true N F) by (done || lia).
  unfold mbind at 1, result_bind at 1. cbv beta iota.
  set (jet_idx := fmap (M:=list) (fmap (M:=list) cast_int32)
         (fmap (M:=list) (fmap (M:=list) (fun row => nth 5 row 0%R)) y_true)).
  assert (length jet_idx = length y_true) as Hli
    by (unfold jet_idx; by rewrite !length_fmap).
  assert (Forall (fun r => length r = N) jet_idx) as Hni.
  { unfold jet_idx. rewrite <- list_fmap_compose. apply Forall_fmap.
    eapply Forall_impl; [exact Hyt|]. intros ev [Hlen _]. simpl.
    by rewrite !length_fmap. }
  assert (Forall (Forall (fun j => 0 <= j /\ j <> Z.of_nat max_jets)%Z) jet_idx)
    as Hvi.
  { unfold jet_idx. rewrite <- list_fmap_compose. apply Forall_fmap.
    eapply Forall_impl; [exact Hval|]. intros ev Hev. simpl.
    rewrite <- list_fmap_compose. apply Forall_fmap.
    eapply Forall_impl; [exact Hev|]. by intros row Hrow. }
  destruct (jet_pt_of_runs y_true jet_idx N F max_jets)
    as (jt & Hjt & Hljt & Hwjt); try done; [lia|].
  destruct (jet_pt_of_runs y_pred jet_idx N F' max_jets)
    as (jp & Hjp & Hljp & Hwjp); try done; [lia|].
  rewrite Hjt, Hjp. simpl. exists jt, jp. split; [done|].
  split; [done|]. split; [lia|]. split; [done|]. split; [done|].
  intros ->. congruence.
Qed.

Lemma vsum_nonneg (v : list R) : Forall (fun a => 0 <= a)%R v -> (0 <= vsum v)%R.
Proof. induction 1 as [|a v Ha _ IH]; simpl; lra. Qed.

Lemma vsum_zero (v : list R) : Forall (fun a => a = 0%R) v -> vsum v = 0%R.
Proof. induction 1 as [|a v Ha _ IH]; simpl; lra. Qed.

Lemma mean_nonneg (v : list R) :
  Forall (fun a => 0 <= a)%R v -> (0 <= vsum v / INR (length v))%R.
Proof.
  intros H. destruct v as [|a v]; [simpl; lra|].
  apply Rmult_le_pos; [by apply vsum_nonneg|].
  apply Rlt_le, Rinv_0_lt_compat, lt_0_INR. simpl. lia.
Qed.

Lemma mean_zero (v : list R) :
  Forall (fun a => a = 0%R) v -> (vsum v / INR (length v))%R = 0%R.
Proof. intros H. rewrite vsum_zero by done. lra. Qed.

Lemma logcosh_nonneg x : (0 <= x + ln (1 + exp (- 2 * x)) - ln 2)%R.
Proof.
  set (t := exp (- x)).
  assert (0 < t)%R as Ht by apply exp_pos.
  assert (exp (- 2 * x) = t * t)%R as ->.
  { unfold t. rewrite <- exp_plus. f_equal. lra. }
  assert (x = - ln t)%R as Hx by (unfold t; rewrite ln_exp; lra).
  assert (ln (2 * t) <= ln (1 + t * t))%R as Hle.
  { pose proof (Rle_0_sqr (t - 1)) as Hsq. unfold Rsqr in Hsq.
    destruct (Rle_lt_or_eq_dec (2 * t) (1 + t * t) ltac:(lra)) as [Hlt | ->];
      [|lra].
    apply Rlt_le, ln_increasing; lra. }
  rewrite ln_mult in Hle by lra. lra.
Qed.

Lemma logcosh_zero : (0 + ln (1 + exp (- 2 * 0)) - ln 2)%R = 0%R.
Proof.
  replace (- 2 * 0)%R with 0%R by lra. rewrite exp_0.
  replace (1 + 1)%R with 2%R by lra. lra.
Qed.

(** The jet losses run on every well-formed pair of batches: targets with
    at least six features whose jet indices (column 5) are from 0 and differ
    from 201, predictions with at least five features, both with the same
    events and elements.  [gen_jet_mse_loss] returns a non-negative number
    and [gen_jet_logcosh_loss] one non-negative number per event; for a
    prediction equal to the target both are zero. *)
Theorem jet_losses_vanish_on_truth (y_true y_pred : list (list (list R)))
    (N F F' : nat) :
  has_shape3 y_true N F -> 6 <= F ->
  has_shape3 y_pred N F' -> 5 <= F' ->
  length y_pred = length y_true ->
  jet_indices_valid 201 y_true ->
  exists l ls,
    gen_jet_mse_loss y_true y_pred = Ok l
    /\ gen_jet_logcosh_loss y_true y_pred = Ok ls
    /\ (0 <= l)%R
    /\ length ls = length y_true
    /\ Forall (fun a => 0 <= a)%R ls
    /\ (y_pred = y_true -> l = 0%R /\ Forall (fun a => a = 0%R) ls).
Proof.
  intros Hyt HF Hyp HF' Hl Hval.
  destruct (compute_jet_pt_runs y_true y_pred N F F' 201)
    as (jt & jp & Hc & Hljt & Hljp & Hwjt & Hwjp & Heq); try done; [lia|].
  unfold gen_jet_mse_loss, gen_jet_logcosh_loss. rewrite Hc. simpl.
  eexists _, _. split; [done|]. split; [done|].
  split; [apply sqrt_pos|]. split.
  { unfold log_cosh. rewrite length_zip_with. lia. }
  split.
  { unfold log_cosh. apply Forall_lookup. intros b a Ha.
    apply lookup_zip_with_Some in Ha as (t & p & -> & _ & _).
    apply mean_nonneg. apply Forall_lookup. intros i v Hv.
    apply lookup_zip_with_Some in Hv as (u & w & -> & _ & _).
    apply logcosh_nonneg. }
  intros E. rewrite (Heq E). split.
  - replace (reduce_mean_all _) with 0%R; [apply sqrt_0|].
    symmetry. unfold reduce_mean_all. apply mean_zero.
    apply Forall_forall. intros v (row & Hrow & Hv)%elem_of_concat.
    unfold map2 in Hrow. apply list_elem_of_lookup in Hrow as [b Hb].
    apply lookup_zip_with_Some in Hb as (r1 & r2 & -> & H1 & H2).
    assert (r2 = r1) as -> by congruence.
    apply list_elem_of_lookup in Hv as [i Hi].
    apply lookup_zip_with_Some in Hi as (a1 & a2 & -> & Ha1 & Ha2).
    assert (a2 = a1) as -> by congruence. lra.
  - unfold log_cosh. apply Forall_lookup. intros b a Ha.
    apply lookup_zip_with_Some in Ha as (r1 & r2 & -> & H1 & H2).
    assert (r2 = r1) as -> by congruence.
    apply mean_zero. apply Forall_lookup. intros i v Hv.
    apply lookup_zip_with_Some in Hv as (a1 & a2 & -> & Ha1 & Ha2).
    assert (a2 = a1) as -> by congruence.
    replace (a1 - a1)%R with 0%R by lra. apply logcosh_zero.
Qed.

Lemma jet_losses_vanish_on_truth_witness :
  (has_shape3 one_particle 1 6 /\ 6 <= 6 /\ 5 <= 6
   /\ jet_indices_valid 201 one_particle)
  /\ gen_jet_mse_loss one_particle one_particle = Ok 0%R
  /\ exists ls, gen_jet_logcosh_loss one_particle one_particle = Ok ls
                /\ Forall (fun a => a = 0%R) ls.
Proof.
  assert (has_shape3 one_particle 1 6) as H1 by repeat constructor.
  assert (jet_indices_valid 201 one_particle) as H2.
  { repeat constructor; simpl; rewrite (cast_int32_IZR 0); lia. }
  split; [repeat split; [exact H1 | lia | lia | exact H2]|].
  destruct (jet_losses_vanish_on_truth one_particle one_particle 1 6 6
              H1 ltac:(lia) H1 ltac:(lia) eq_refl H2)
    as (l & ls & Hl & Hls & _ & _ & _ & Hz).
  destruct (Hz eq_refl) as [-> Hz']. split; [done|]. by exists ls.
Defined.

(** ** Histogram loss *)

Lemma Int_part_bounds x : (IZR (Int_part x) <= x < IZR (Int_part x) + 1)%R.
Proof. destruct (base_Int_part x) as [H1 H2]. lra. Qed.

Lemma trunc_range (x : R) (n : Z) :
  (0 <= x <= IZR n)%R -> (0 <= trunc x <= n)%Z.
Proof.
  intros [H0 Hn]. unfold trunc. rewrite decide_True by done.
  destruct (Int_part_bounds x) as [Hl Hu]. split.
  - apply Z.lt_succ_r, lt_IZR. rewrite succ_IZR. lra.
  - apply le_IZR. lra.
Qed.

Lemma clip_by_value_range x lo hi :
  (lo <= hi)%R -> (lo <= clip_by_value x lo hi <= hi)%R.
Proof.
  intros H. unfold clip_by_value, Rmin, Rmax.
  repeat destruct (Rle_dec _ _); lra.
Qed.

(** A number always gets a bin; NaN never does. *)
Lemma histogram_fixed_width_bins_range v value_range nbins :
  1 <= nbins -> (Z.of_nat nbins <= 2 ^ 31)%Z ->
  (0 <= histogram_fixed_width_bins v value_range nbins < Z.of_nat nbins)%Z
  <-> v <> NaN.
Proof.
  intros H1 H2. destruct v as [v|]; simpl; [|split; [lia|done]].
  split; [done|]. intros _.
  set (c := clip_by_value _ 0 (INR nbins - 1)).
  assert (0 <= c <= IZR (Z.of_nat nbins - 1))%R as Hc.
  { rewrite minus_IZR, <- INR_IZR_INZ. apply clip_by_value_range.
    pose proof (le_INR 1 nbins H1) as Hle. simpl in Hle. lra. }
  apply trunc_range in Hc. unfold cast_int32. cbv zeta.
  rewrite decide_True by lia. lia.
Qed.

Lemma tensor_scatter_nd_add2_spec (P : fval -> Prop) (t : list (list fval))
    indices updates n :
  length updates = length indices ->
  Forall (fun r => length r = n) t ->
  Forall (fun e : Z * Z => (0 <= e.1 < Z.of_nat (length t))%Z
                           /\ (0 <= e.2 < Z.of_nat n)%Z) indices ->
  (forall a u, P a -> P u -> P (fval_map2 Rplus a u)) ->
  exists r, tensor_scatter_nd_add2 t indices updates = Ok r
            /\ length r = length t /\ Forall (fun row => length row = n) r
            /\ (Forall (Forall P) t -> Forall P updates -> Forall (Forall P) r).
Proof.
  intros Hl Ht Hin HP. revert t updates Hl Ht Hin.
  induction indices as [|[i j] indices IH]; intros t [|u updates]; simpl; try done.
  - intros _ Ht _. by exists t.
  - intros [= Hl] Ht [[Hi Hj] Hin]%Forall_cons. simpl in Hi, Hj.
    assert (length (hd [] t) = n) as Hnc.
    { destruct t as [|r t']; [simpl in Hi; lia|]. simpl.
      by apply Forall_cons in Ht as [? _]. }
    rewrite decide_True by (rewrite Hnc; done).
    destruct (IH (alter (alter (fun a => fval_map2 Rplus a u) (Z.to_nat j))
                    (Z.to_nat i) t) updates Hl) as (r & -> & Hlr & Hr & HrP).
    + apply Forall_lookup. intros k row. rewrite list_lookup_alter.
      case_decide; [|apply (Forall_lookup_1 _ _ _ _ Ht)].
      intros (row' & Hrow' & ->)%fmap_Some. rewrite length_alter.
      exact (Forall_lookup_1 _ _ _ _ Ht Hrow').
    + by rewrite length_alter.
    + exists r. split; [done|]. split; [by rewrite Hlr, length_alter|].
      split; [done|]. intros HtP [Hu Hup]%Forall_cons. apply HrP; [|done].
      apply Forall_lookup. intros k row. rewrite list_lookup_alter.
      case_decide; [|apply (Forall_lookup_1 _ _ _ _ HtP)].
      intros (row' & Hrow' & ->)%fmap_Some.
      pose proof (Forall_lookup_1 _ _ _ _ HtP Hrow') as Hrow'P.
      apply Forall_lookup. intros c a. rewrite list_lookup_alter.
      case_decide; [|apply (Forall_lookup_1 _ _ _ _ Hrow'P)].
      intros (a' & Ha' & ->)%fmap_Some. apply HP; [|done].
      exact (Forall_lookup_1 _ _ _ _ Hrow'P Ha').
Qed.

Lemma tensor_scatter_nd_add2_is_Ok (t : list (list fval)) indices updates n :
  Forall (fun r => length r = n) t ->
  is_Ok (tensor_scatter_nd_add2 t indices updates) ->
  Forall (fun e : Z * Z => (0 <= e.1 < Z.of_nat (length t))%Z
                           /\ (0 <= e.2 < Z.of_nat n)%Z) indices.
Proof.
  revert t updates.
  induction indices as [|[i j] indices IH]; intros t [|u updates] Ht; simpl;
    try (by intros [? ?]).
  case_decide as Hij; [|by intros [? ?]]. intros H.
  assert (length (hd [] t) = n) as Hnc.
  { destruct t as [|r t']; [simpl in Hij; lia|]. simpl.
    by apply Forall_cons in Ht as [? _]. }
  rewrite Hnc in Hij. apply IH in H.
  - rewrite length_alter in H. by constructor.
  - apply Forall_lookup. intros k row. rewrite list_lookup_alter.
    case_decide; [|apply (Forall_lookup_1 _ _ _ _ Ht)].
    intros (row' & Hrow' & ->)%fmap_Some. rewrite length_alter.
    exact (Forall_lookup_1 _ _ _ _ Ht Hrow').
Qed.

Lemma boolean_mask_length {A} (t : list A) mask r n :
  boolean_mask t mask = Ok r -> length t = n ->
  length r = length (filter (fun m => m = true) mask).
Proof.
  unfold boolean_mask. case_decide as Hl; [|done]. intros [= <-] _.
  rewrite length_fmap. clear n. revert mask Hl.
  induction t as [|a t IH]; intros [|m mask]; simpl; try done.
  intros [= Hl]. rewrite !filter_cons. simpl.
  case_decide; simpl; by rewrite IH.
Qed.

Lemma boolean_mask_elem {A} (t : list A) mask r x :
  boolean_mask t mask = Ok r ->
  x ∈ r <-> exists i, t !! i = Some x /\ mask !! i = Some true.
Proof.
  unfold boolean_mask. case_decide as Hl; [|done]. intros [= <-].
  rewrite list_elem_of_fmap. split.
  - intros ([a m] & -> & [Hm Hin]%list_elem_of_filter). simpl in *. subst m.
    apply list_elem_of_lookup in Hin as [i Hi].
    apply lookup_zip_with_Some in Hi as (a' & m' & [= <- <-] & Ha & Hm).
    by exists i.
  - intros (i & Hx & Hm). exists (x, true). split; [done|].
    apply list_elem_of_filter. split; [done|].
    apply list_elem_of_lookup. exists i. by rewrite lookup_zip_with, Hx, Hm.
Qed.

Lemma boolean_mask_Forall {A} (P : A -> Prop) (t : list A) mask r :
  boolean_mask t mask = Ok r -> Forall P t -> Forall P r.
Proof.
  intros Hr Ht. apply Forall_forall. intros x Hx.
  apply (boolean_mask_elem _ _ _ _ Hr) in Hx as (i & Hi & _).
  exact (Forall_lookup_1 _ _ _ _ Ht Hi).
Qed.

Lemma boolean_mask_all_false {A} (t : list A) mask :
  length mask = length t -> Forall (fun m => m = false) mask ->
  boolean_mask t mask = Ok [].
Proof.
  intros Hl Hm. unfold boolean_mask. rewrite decide_True by done. f_equal.
  revert mask Hl Hm. induction t as [|a t IH]; intros [|m mask]; simpl; try done.
  intros [= Hl] [-> Hm]%Forall_cons. rewrite filter_cons.
  rewrite decide_False by done. by apply IH.
Qed.

Lemma boolean_mask_is_Ok {A} (t : list A) mask :
  length mask = length t -> is_Ok (boolean_mask t mask).
Proof. intros Hl. unfold boolean_mask. rewrite decide_True by done. by eexists. Qed.

Lemma is_Ok_bind {A B} (m : result A) (f : A -> result B) :
  is_Ok (m ≫= f) -> exists a, m = Ok a /\ is_Ok (f a).
Proof. destruct m as [a|e]; simpl; [by exists a|by intros [? ?]]. Qed.

Lemma fval_sqrt_nonneg (f : R -> R -> R) a b x :
  fval_map2 (fun u v => sqrt (f u v)) a b = Num x -> (0 <= x)%R.
Proof. destruct a, b; simpl; try done. intros [= <-]. apply sqrt_pos. Qed.

Lemma histogram_2d_spec (mask : list bool)
    (eta phi weights_px weights_py : list fval)
    (eta_range phi_range : R * R) (nbins n : nat) :
  length mask = n -> length eta = n -> length phi = n ->
  length weights_px = n -> length weights_py = n ->
  1 <= nbins -> (Z.of_nat nbins <= 2 ^ 31)%Z ->
  (is_Ok (histogram_2d mask eta phi weights_px weights_py eta_range phi_range
            nbins)
   <-> forall i, mask !! i = Some true ->
         eta !! i <> Some NaN /\ phi !! i <> Some NaN)
  /\ forall hist_pt,
       histogram_2d mask eta phi weights_px weights_py eta_range phi_range nbins
       = Ok hist_pt ->
       length hist_pt = nbins
       /\ Forall (fun row => length row = nbins) hist_pt
       /\ Forall (Forall (fun a => forall x, a = Num x -> (0 <= x)%R)) hist_pt
       /\ (Forall (fun m => m = false) mask ->
           Forall (Forall (fun a => a = Num 0)) hist_pt)
       /\ (Forall (fun a => a <> NaN) weights_px ->
           Forall (fun a => a <> NaN) weights_py ->
           Forall (Forall (fun a => a <> NaN)) hist_pt).
Proof.
  intros Hm He Hp Hwx Hwy Hn1 Hn2.
  set (indices :=
         zip ((fun v => histogram_fixed_width_bins v eta_range nbins) <$> eta)
             ((fun v => histogram_fixed_width_bins v phi_range nbins) <$> phi)).
  set (Z0 := replicate nbins (replicate nbins (Num 0))).
  assert (length indices = n) as Hli.
  { unfold indices. rewrite length_zip_with, !length_fmap. lia. }
  destruct (boolean_mask_is_Ok indices mask) as [im Him]; [lia|].
  destruct (boolean_mask_is_Ok weights_px mask) as [wxm Hwxm]; [lia|].
  destruct (boolean_mask_is_Ok weights_py mask) as [wym Hwym]; [lia|].
  assert (histogram_2d mask eta phi weights_px weights_py eta_range phi_range
            nbins
          = (hist_px ← tensor_scatter_nd_add2 Z0 im wxm;
             hist_py ← tensor_scatter_nd_add2 Z0 im wym;
             Ok (zip_with (zip_with
                   (fval_map2 (fun a b => sqrt (a ^ 2 + b ^ 2))%R))
                   hist_px hist_py))) as ->.
  { unfold histogram_2d.
    rewrite (decide_False (P := nbins = 0)) by lia.
    unfold mbind at 1, result_bind at 1. cbv beta iota.
    rewrite decide_True by (by rewrite !length_fmap, He, Hp).
    unfold mbind at 1, result_bind at 1. cbv beta iota.
    fold indices. rewrite Him, Hwxm, Hwym. done. }
  pose proof (boolean_mask_length _ _ _ _ Him Hli) as Hlim.
  pose proof (boolean_mask_length _ _ _ _ Hwxm Hwx) as Hlwx.
  pose proof (boolean_mask_length _ _ _ _ Hwym Hwy) as Hlwy.
  assert (length Z0 = nbins) as HlZ by apply length_replicate.
  assert (Forall (fun r : list fval => length r = nbins) Z0) as Hz.
  { apply Forall_replicate. apply length_replicate. }
  assert (Forall (fun e : Z * Z => (0 <= e.1 < Z.of_nat (length Z0))%Z
                                   /\ (0 <= e.2 < Z.of_nat nbins)%Z) im
          <-> forall i, mask !! i = Some true ->
                eta !! i <> Some NaN /\ phi !! i <> Some NaN) as Hrange.
  { rewrite HlZ, Forall_forall. split.
    - intros Hall i Hmi.
      destruct (lookup_lt_is_Some_2 eta i) as [e Hei];
        [rewrite He, <- Hm; by eapply lookup_lt_Some|].
      destruct (lookup_lt_is_Some_2 phi i) as [p Hpi];
        [rewrite Hp, <- Hm; by eapply lookup_lt_Some|].
      destruct (Hall (histogram_fixed_width_bins e eta_range nbins,
                      histogram_fixed_width_bins p phi_range nbins)) as [H1 H2].
      { apply (boolean_mask_elem _ _ _ _ Him). exists i. split; [|done].
        unfold indices. by rewrite lookup_zip_with, !list_lookup_fmap, Hei, Hpi. }
      simpl in H1, H2.
      apply histogram_fixed_width_bins_range in H1; [|done..].
      apply histogram_fixed_width_bins_range in H2; [|done..].
      rewrite Hei, Hpi. split; congruence.
    - intros Hall [i j] Hij.
      apply (boolean_mask_elem _ _ _ _ Him) in Hij as (k & Hk & Hmk).
      unfold indices in Hk.
      apply lookup_zip_with_Some in Hk as (a & b & [= <- <-] & Ha & Hb).
      apply list_lookup_fmap_Some in Ha as (v & -> & Hv).
      apply list_lookup_fmap_Some in Hb as (w & -> & Hw).
      destruct (Hall k Hmk) as [H1 H2]. simpl.
      split; apply histogram_fixed_width_bins_range; (done || congruence). }
  assert (forall a u : fval, a <> NaN -> u <> NaN -> fval_map2 Rplus a u <> NaN)
    as Hplus by (by intros [|] [|]).
  split.
  - split.
    + intros (hx & Hhx & _)%is_Ok_bind. apply Hrange.
      apply (tensor_scatter_nd_add2_is_Ok Z0 im wxm nbins Hz). by eexists.
    + intros Hall%Hrange.
      destruct (tensor_scatter_nd_add2_spec (fun a => a <> NaN) Z0 im wxm nbins)
        as (hx & -> & _); [lia|done..|].
      destruct (tensor_scatter_nd_add2_spec (fun a => a <> NaN) Z0 im wym nbins)
        as (hy & -> & _); [lia|done..|].
      by eexists.
  - intros hist_pt H.
    bind_inv_as H hx Hhx. bind_inv_as H hy Hhy. injection H as <-.
    pose proof (tensor_scatter_nd_add2_is_Ok Z0 im wxm nbins Hz
                  (ex_intro _ hx Hhx)) as Hin.
    destruct (tensor_scatter_nd_add2_spec (fun a => a <> NaN) Z0 im wxm nbins)
      as (hx' & Hhx' & Hlx & Hsx & HPx); [lia|done..|].
    destruct (tensor_scatter_nd_add2_spec (fun a => a <> NaN) Z0 im wym nbins)
      as (hy' & Hhy' & Hly & Hsy & HPy); [lia|done..|].
    assert (hx' = hx) as -> by congruence. assert (hy' = hy) as -> by congruence.
    rewrite HlZ in Hlx, Hly.
    assert (Forall (Forall (fun a : fval => a <> NaN)) Z0) as HZnum.
    { apply Forall_replicate, Forall_replicate. done. }
    split; [rewrite length_zip_with; lia|]. split; [|split; [|split]].
    + apply Forall_lookup. intros i row Hrow.
      apply lookup_zip_with_Some in Hrow as (rx & ry & -> & Hrx & Hry).
      rewrite length_zip_with, (Forall_lookup_1 _ _ _ _ Hsx Hrx),
        (Forall_lookup_1 _ _ _ _ Hsy Hry). lia.
    + apply Forall_lookup. intros i row Hrow.
      apply lookup_zip_with_Some in Hrow as (rx & ry & -> & _ & _).
      apply Forall_lookup. intros j a Ha.
      apply lookup_zip_with_Some in Ha as (x & y & -> & _ & _).
      intros z Hz'. by eapply (fval_sqrt_nonneg (fun u v => u ^ 2 + v ^ 2)%R).
    + intros Hfalse.
      rewrite boolean_mask_all_false in Him by (done || lia).
      rewrite boolean_mask_all_false in Hwxm by (done || lia).
      rewrite boolean_mask_all_false in Hwym by (done || lia).
      injection Him as <-. injection Hwxm as <-. injection Hwym as <-.
      simpl in Hhx, Hhy. injection Hhx as <-. injection Hhy as <-.
      apply Forall_lookup. intros i row Hrow.
      apply lookup_zip_with_Some in Hrow as (rx & ry & -> & Hrx & Hry).
      apply lookup_replicate in Hrx as [-> _]. apply lookup_replicate in Hry as [-> _].
      apply Forall_lookup. intros j a Ha.
      apply lookup_zip_with_Some in Ha as (x & y & -> & Hx & Hy).
      apply lookup_replicate in Hx as [-> _]. apply lookup_replicate in Hy as [-> _].
      simpl. f_equal. transitivity (sqrt 0); [f_equal; lra | apply sqrt_0].
    + intros Hnx Hny.
      pose proof (HPx HZnum (boolean_mask_Forall _ _ _ _ Hwxm Hnx)) as Hxn.
      pose proof (HPy HZnum (boolean_mask_Forall _ _ _ _ Hwym Hny)) as Hyn.
      apply Forall_lookup. intros i row Hrow.
      apply lookup_zip_with_Some in Hrow as (rx & ry & -> & Hrx & Hry).
      apply Forall_lookup. intros j a Ha.
      apply lookup_zip_with_Some in Ha as (x & y & -> & Hx & Hy).
      pose proof (Forall_lookup_1 _ _ _ _ (Forall_lookup_1 _ _ _ _ Hxn Hrx) Hx).
      pose proof (Forall_lookup_1 _ _ _ _ (Forall_lookup_1 _ _ _ _ Hyn Hry) Hy).
      by destruct x, y.
Qed.

Lemma batched_histogram_2d_spec (mask : list (list bool))
    (eta phi w_px w_py : list (list fval)) (x_range y_range : R * R)
    (nbins N : nat) :
  length eta = length mask -> length phi = length mask ->
  length w_px = length mask -> length w_py = length mask ->
  Forall (fun r => length r = N) mask -> Forall (fun r => length r = N) eta ->
  Forall (fun r => length r = N) phi -> Forall (fun r => length r = N) w_px ->
  Forall (fun r => length r = N) w_py ->
  1 <= nbins -> (Z.of_nat nbins <= 2 ^ 31)%Z ->
  (is_Ok (batched_histogram_2d mask eta phi w_px w_py x_range y_range nbins)
   <-> forall b m e p i,
         mask !! b = Some m -> eta !! b = Some e -> phi !! b = Some p ->
         m !! i = Some true -> e !! i <> Some NaN /\ p !! i <> Some NaN)
  /\ forall hs,
       batched_histogram_2d mask eta phi w_px w_py x_range y_range nbins = Ok hs ->
       length hs = length mask
       /\ Forall (fun h => length h = nbins
                          /\ Forall (fun row => length row = nbins) h) hs
       /\ (Forall (Forall (fun a => a <> NaN)) w_px ->
           Forall (Forall (fun a => a <> NaN)) w_py ->
           Forall (Forall (Forall (fun a => a <> NaN))) hs).
Proof.
  intros He Hp Hx Hy Hm. revert eta phi w_px w_py He Hp Hx Hy.
  induction Hm as [|m mask Hlm _ IH];
    intros [|e eta] [|p phi] [|wx w_px] [|wy w_py]; simpl; try done.
  - intros _ _ _ _ _ _ _ _ _ _. split.
    + split; [by intros _ b m e p i Hb | by eexists].
    + intros hs [= <-]. by repeat split.
  - intros [= He] [= Hp] [= Hx] [= Hy] [Hle Hse]%Forall_cons [Hlp Hsp]%Forall_cons
      [Hlx Hsx]%Forall_cons [Hly Hsy]%Forall_cons Hn1 Hn2.
    destruct (histogram_2d_spec m e p wx wy x_range y_range nbins N)
      as [Hiff Hshape]; try done.
    destruct (IH eta phi w_px w_py) as [IHiff IHshape]; try done.
    split.
    + split.
      * intros (h & Hh & (hs & Hhs & _)%is_Ok_bind)%is_Ok_bind.
        intros [|b] m' e' p' i Hm' He' Hp' Hi; simpl in *; simplify_eq.
        -- apply (proj1 Hiff); [by eexists|done].
        -- eapply (proj1 IHiff); [by eexists|done..].
      * intros Hall.
        destruct (proj2 Hiff) as [h Hh].
        { intros i Hi. by apply (Hall 0 m e p i). }
        destruct (proj2 IHiff) as [hs Hhs].
        { intros b m' e' p' i Hm' He' Hp' Hi. by apply (Hall (S b) m' e' p' i). }
        rewrite Hh; simpl. rewrite Hhs; simpl. by eexists.
    + intros hs H. bind_inv_as H h Hh. bind_inv_as H hs' Hhs. injection H as <-.
      destruct (Hshape h Hh) as (Hlh & Hwh & _ & _ & Hnum).
      destruct (IHshape hs' Hhs) as (Hlhs & Hwhs & Hnums).
      split; [simpl; lia|]. split; [by constructor|].
      intros [Hnx Hnxs]%Forall_cons [Hny Hnys]%Forall_cons.
      constructor; [by apply Hnum | by apply Hnums].
Qed.

Lemma last_index_fval_shape j (y : list (list (list fval))) N F :
  has_shape3 y N F -> j < F ->
  last_index_fval j y
  = Ok (fmap (M:=list) (fmap (M:=list) (fun row => nth j row NaN)) y).
Proof.
  intros Hy Hj. unfold last_index_fval. apply traverse2_pure.
  eapply Forall_impl; [exact Hy|]. intros ev [_ Hev].
  eapply Forall_impl; [exact Hev|]. intros row Hrow. simpl in *.
  destruct (lookup_lt_is_Some_2 row j) as [v Hv]; [lia|].
  rewrite Hv. f_equal. symmetry. by apply nth_lookup_Some.
Qed.

Lemma fval_column_shape (g : list fval -> fval) (y : list (list (list fval))) N F :
  has_shape3 y N F ->
  length (fmap (M:=list) (fmap (M:=list) g) y) = length y
  /\ Forall (fun r => length r = N) (fmap (M:=list) (fmap (M:=list) g) y).
Proof.
  intros Hy. split; [by rewrite length_fmap|]. apply Forall_fmap.
  eapply Forall_impl; [exact Hy|]. intros ev [Hl _]. simpl. by rewrite length_fmap.
Qed.

Lemma fval_mul2_shape (a b : list (list fval)) B N :
  length a = B -> length b = B ->
  Forall (fun r => length r = N) a -> Forall (fun r => length r = N) b ->
  length (fval_mul2 a b) = B /\ Forall (fun r => length r = N) (fval_mul2 a b).
Proof.
  intros Ha Hb Hsa Hsb. unfold fval_mul2. split; [rewrite length_zip_with; lia|].
  apply Forall_lookup. intros i r Hr.
  apply lookup_zip_with_Some in Hr as (r1 & r2 & -> & H1 & H2).
  rewrite length_zip_with, (Forall_lookup_1 _ _ _ _ Hsa H1),
    (Forall_lookup_1 _ _ _ _ Hsb H2). lia.
Qed.

Lemma fval_mul2_numbers (a b : list (list fval)) :
  Forall (Forall (fun v => v <> NaN)) a -> Forall (Forall (fun v => v <> NaN)) b ->
  Forall (Forall (fun v => v <> NaN)) (fval_mul2 a b).
Proof.
  intros Ha Hb. apply Forall_lookup. intros i r Hr.
  apply lookup_zip_with_Some in Hr as (r1 & r2 & -> & H1 & H2).
  apply Forall_lookup. intros j v Hv.
  apply lookup_zip_with_Some in Hv as (x & y & -> & Hx & Hy).
  pose proof (Forall_lookup_1 _ _ _ _ (Forall_lookup_1 _ _ _ _ Ha H1) Hx).
  pose proof (Forall_lookup_1 _ _ _ _ (Forall_lookup_1 _ _ _ _ Hb H2) Hy).
  by destruct x, y.
Qed.

Lemma fval_column_numbers j (y : list (list (list fval))) N F :
  has_shape3 y N F -> j < F -> all_numbers y ->
  Forall (Forall (fun v => v <> NaN))
    (fmap (M:=list) (fmap (M:=list) (fun row => nth j row NaN)) y).
Proof.
  intros Hy Hj Hnum. apply Forall_fmap, Forall_lookup. intros b ev Hev. simpl.
  apply Forall_fmap, Forall_lookup. intros i row Hrow. simpl.
  destruct (Forall_lookup_1 _ _ _ _ Hy Hev) as [_ Hw].
  pose proof (Forall_lookup_1 _ _ _ _ Hw Hrow) as Hlr. simpl in Hlr.
  destruct (lookup_lt_is_Some_2 row j) as [v Hv]; [lia|].
  rewrite (nth_lookup_Some _ _ _ _ Hv).
  exact (Forall_lookup_1 _ _ _ _
           (Forall_lookup_1 _ _ _ _ (Forall_lookup_1 _ _ _ _ Hnum Hev) Hrow) Hv).
Qed.

Lemma fval_mean_zero (l : list fval) :
  l <> [] -> Forall (fun a => a = Num 0) l -> fval_mean l = Num 0.
Proof.
  intros Hne Hl. unfold fval_mean. destruct l as [|a l]; [done|].
  assert (foldr (fval_map2 Rplus) (Num 0) (a :: l) = Num 0) as ->.
  { clear Hne. induction Hl as [|b l' -> _ IH]; [done|].
    simpl. rewrite IH. simpl. f_equal. lra. }
  simpl fval_map. f_equal. lra.
Qed.

Lemma fval_nonzero_true v : fval_nonzero v = true <-> v <> Num 0.
Proof.
  destruct v as [x|]; simpl; [|done]. rewrite bool_decide_eq_true.
  split; [congruence|]. intros H Hx. apply H. by f_equal.
Qed.

(** [hist_2d_loss] succeeds exactly when no element that the mask keeps has
    a NaN among the coordinates that are binned: a NaN eta or sin_phi, of
    the target or of the prediction, becomes the bin index [-2^31] and the
    scatter refuses it.  (The mask keeps an element whose target eta is not
    the number 0, so also one whose target eta is NaN.)  When it succeeds
    it returns one value per event, none of them a negative number, and for
    a prediction equal to a target without NaN every value is 0. *)
Theorem hist_2d_loss_succeeds_iff (y_true y_pred : list (list (list fval)))
    (N F F' : nat) :
  has_shape3 y_true N F -> 5 <= F ->
  has_shape3 y_pred N F' -> 5 <= F' ->
  length y_pred = length y_true ->
  (is_Ok (hist_2d_loss y_true y_pred)
   <-> binned_coordinates_are_numbers y_true y_pred)
  /\ forall mse,
       hist_2d_loss y_true y_pred = Ok mse ->
       length mse = length y_true
       /\ Forall (fun a => forall x, a = Num x -> (0 <= x)%R) mse
       /\ (y_pred = y_true -> all_numbers y_true ->
           Forall (fun a => a = Num 0) mse).
Proof.
  intros Hyt HF Hyp HF' Hl.
  set (col := fun j (y : list (list (list fval))) =>
         fmap (M:=list) (fmap (M:=list) (fun row : list fval => nth j row NaN)) y).
  set (mask := fmap (M:=list) (fmap (M:=list) fval_nonzero) (col 2 y_true)).
  set (run := fun y =>
         batched_histogram_2d mask (col 2 y) (col 3 y)
           (fval_mul2 (col 0 y) (col 4 y)) (fval_mul2 (col 0 y) (col 3 y))
           (-6, 6)%R (-1, 1)%R 20).
  assert (hist_2d_loss y_true y_pred
          = (pt_hist_true ← run y_true; pt_hist_pred ← run y_pred;
             Ok (zip_with (fun t p =>
                   fval_map sqrt
                     (fval_mean (concat (zip_with (zip_with
                        (fval_map2 (fun a b => (a - b) ^ 2)%R)) t p))))
                   pt_hist_true pt_hist_pred))) as ->.
  { unfold hist_2d_loss.
    rewrite !(last_index_fval_shape _ y_true N F) by (done || lia).
    rewrite !(last_index_fval_shape _ y_pred N F') by (done || lia).
    done. }
  assert (forall j, length (col j y_true) = length y_true
            /\ Forall (fun r => length r = N) (col j y_true)) as Hct
    by (intros j; by eapply fval_column_shape).
  assert (forall j, length (col j y_pred) = length y_true
            /\ Forall (fun r => length r = N) (col j y_pred)) as Hcp.
  { intros j. rewrite <- Hl. by eapply fval_column_shape. }
  assert (length mask = length y_true /\ Forall (fun r => length r = N) mask)
    as [Hlm Hsm].
  { unfold mask. split; [rewrite length_fmap; apply Hct|].
    apply Forall_fmap. eapply Forall_impl; [exact (proj2 (Hct 2))|].
    intros r Hr. simpl. by rewrite length_fmap. }
  assert (forall (y : list (list (list fval))) j k,
            (forall i, length (col i y) = length y_true
               /\ Forall (fun r => length r = N) (col i y)) ->
            length (fval_mul2 (col j y) (col k y)) = length y_true
            /\ Forall (fun r => length r = N) (fval_mul2 (col j y) (col k y)))
    as Hprod.
  { intros y j k Hc. apply fval_mul2_shape; apply Hc. }
  destruct (batched_histogram_2d_spec mask (col 2 y_true) (col 3 y_true)
              (fval_mul2 (col 0 y_true) (col 4 y_true))
              (fval_mul2 (col 0 y_true) (col 3 y_true)) (-6, 6)%R (-1, 1)%R 20 N)
    as [Hifft Hshapet]; try done; try lia;
    try (rewrite Hlm; first [apply Hct | by apply Hprod]);
    try (first [apply Hct | by apply Hprod]).
  destruct (batched_histogram_2d_spec mask (col 2 y_pred) (col 3 y_pred)
              (fval_mul2 (col 0 y_pred) (col 4 y_pred))
              (fval_mul2 (col 0 y_pred) (col 3 y_pred)) (-6, 6)%R (-1, 1)%R 20 N)
    as [Hiffp Hshapep]; try done; try lia;
    try (rewrite Hlm; first [apply Hcp | by apply Hprod]);
    try (first [apply Hcp | by apply Hprod]).
  fold (run y_true) in Hifft, Hshapet. fold (run y_pred) in Hiffp, Hshapep.
  (* rows of the two tensors and their columns *)
  assert (forall (y : list (list (list fval))) W j b e i,
            has_shape3 y N W -> j < W ->
            col j y !! b = Some e ->
            (exists v, e !! i = Some v) ->
            exists ev row v,
              y !! b = Some ev /\ ev !! i = Some row /\ row !! j = Some v
              /\ e !! i = Some v) as Hcol.
  { intros y W j b e i Hy Hj He [v Hv]. unfold col in He.
    apply list_lookup_fmap_Some in He as (ev & -> & Hev).
    apply list_lookup_fmap_Some in Hv as (row & -> & Hrow).
    destruct (Forall_lookup_1 _ _ _ _ Hy Hev) as [_ Hw].
    pose proof (Forall_lookup_1 _ _ _ _ Hw Hrow) as Hlr. simpl in Hlr.
    destruct (lookup_lt_is_Some_2 row j) as [v Hv]; [lia|].
    exists ev, row, v. rewrite list_lookup_fmap, Hrow. simpl.
    by rewrite (nth_lookup_Some _ _ _ _ Hv). }
  assert (forall (y : list (list (list fval))) W j b i ev row,
            has_shape3 y N W -> j < W ->
            y !! b = Some ev -> ev !! i = Some row ->
            exists v, row !! j = Some v
              /\ col j y !! b = Some ((fun r => nth j r NaN) <$> ev)
              /\ ((fun r => nth j r NaN) <$> ev) !! i = Some v) as Hrowcol.
  { intros y W j b i ev row Hy Hj Hev Hrow.
    destruct (Forall_lookup_1 _ _ _ _ Hy Hev) as [_ Hw].
    pose proof (Forall_lookup_1 _ _ _ _ Hw Hrow) as Hlr. simpl in Hlr.
    destruct (lookup_lt_is_Some_2 row j) as [v Hv]; [lia|].
    exists v. split; [done|]. unfold col. split.
    - by rewrite list_lookup_fmap, Hev.
    - rewrite list_lookup_fmap, Hrow. simpl.
      by rewrite (nth_lookup_Some _ _ _ _ Hv). }
  assert (binned_coordinates_are_numbers y_true y_pred
          <-> (forall b m e p i,
                 mask !! b = Some m -> col 2 y_true !! b = Some e ->
                 col 3 y_true !! b = Some p -> m !! i = Some true ->
                 e !! i <> Some NaN /\ p !! i <> Some NaN)
              /\ (forall b m e p i,
                 mask !! b = Some m -> col 2 y_pred !! b = Some e ->
                 col 3 y_pred !! b = Some p -> m !! i = Some true ->
                 e !! i <> Some NaN /\ p !! i <> Some NaN)) as Hbinned.
  { unfold binned_coordinates_are_numbers. split.
    - intros Hall.
      assert (forall b m i,
                mask !! b = Some m -> m !! i = Some true ->
                exists evt rt evp rp,
                  y_true !! b = Some evt /\ evt !! i = Some rt
                  /\ y_pred !! b = Some evp /\ evp !! i = Some rp
                  /\ rt !! 2 <> Some (Num 0)) as Hrows.
      { intros b m i Hm Hi. unfold mask in Hm.
        apply list_lookup_fmap_Some in Hm as (e & -> & He).
        apply list_lookup_fmap_Some in Hi as (v & Hv & Hvi).
        destruct (Hcol y_true F 2 b e i Hyt ltac:(lia) He (ex_intro _ v Hvi))
          as (evt & rt & v' & Hevt & Hrt & Hv' & Hvi').
        assert (v' = v) as -> by congruence.
        destruct (lookup_lt_is_Some_2 y_pred b) as [evp Hevp].
        { rewrite Hl. by eapply lookup_lt_Some. }
        destruct (lookup_lt_is_Some_2 evp i) as [rp Hrp].
        { rewrite (proj1 (Forall_lookup_1 _ _ _ _ Hyp Hevp)).
          rewrite <- (proj1 (Forall_lookup_1 _ _ _ _ Hyt Hevt)).
          by eapply lookup_lt_Some. }
        exists evt, rt, evp, rp. repeat (split; [done|]).
        rewrite Hv'. symmetry in Hv. apply fval_nonzero_true in Hv. congruence. }
      split; intros b m e p i Hm He Hp Hi;
        destruct (Hrows b m i Hm Hi)
          as (evt & rt & evp & rp & Hevt & Hrt & Hevp & Hrp & Hnz);
        destruct (Hall b i rt rp) as (H1 & H2 & H3 & H4);
        try (by rewrite ?Hevt, ?Hevp).
      + destruct (Hrowcol y_true F 2 b i evt rt Hyt ltac:(lia) Hevt Hrt)
          as (v2 & Hv2 & Hc2 & Hi2).
        destruct (Hrowcol y_true F 3 b i evt rt Hyt ltac:(lia) Hevt Hrt)
          as (v3 & Hv3 & Hc3 & Hi3).
        rewrite Hc2 in He. rewrite Hc3 in Hp. simplify_eq.
        rewrite Hi2, Hi3. split; congruence.
      + destruct (Hrowcol y_pred F' 2 b i evp rp Hyp ltac:(lia) Hevp Hrp)
          as (v2 & Hv2 & Hc2 & Hi2).
        destruct (Hrowcol y_pred F' 3 b i evp rp Hyp ltac:(lia) Hevp Hrp)
          as (v3 & Hv3 & Hc3 & Hi3).
        rewrite Hc2 in He. rewrite Hc3 in Hp. simplify_eq.
        rewrite Hi2, Hi3. split; congruence.
    - intros [Ht Hp] b i rt rp Hrt Hrp Hnz.
      destruct (y_true !! b) as [evt|] eqn:Hevt; simpl in Hrt; [|done].
      destruct (y_pred !! b) as [evp|] eqn:Hevp; simpl in Hrp; [|done].
      destruct (Hrowcol y_true F 2 b i evt rt Hyt ltac:(lia) Hevt Hrt)
        as (t2 & Ht2 & Hct2 & Hit2).
      destruct (Hrowcol y_true F 3 b i evt rt Hyt ltac:(lia) Hevt Hrt)
        as (t3 & Ht3 & Hct3 & Hit3).
      destruct (Hrowcol y_pred F' 2 b i evp rp Hyp ltac:(lia) Hevp Hrp)
        as (p2 & Hp2 & Hcp2 & Hip2).
      destruct (Hrowcol y_pred F' 3 b i evp rp Hyp ltac:(lia) Hevp Hrp)
        as (p3 & Hp3 & Hcp3 & Hip3).
      assert (mask !! b = Some (fval_nonzero <$> ((fun r => nth 2 r NaN) <$> evt)))
        as Hmb by (unfold mask; by rewrite list_lookup_fmap, Hct2).
      assert ((fval_nonzero <$> ((fun r => nth 2 r NaN) <$> evt)) !! i = Some true)
        as Hmi.
      { rewrite list_lookup_fmap, Hit2. simpl. f_equal.
        apply fval_nonzero_true. congruence. }
      destruct (Ht b _ _ _ i Hmb Hct2 Hct3 Hmi) as [H1 H2].
      destruct (Hp b _ _ _ i Hmb Hcp2 Hcp3 Hmi) as [H3 H4].
      rewrite Hit2 in H1. rewrite Hit3 in H2. rewrite Hip2 in H3. rewrite Hip3 in H4.
      rewrite Ht2, Ht3, Hp2, Hp3. done. }
  split.
  - rewrite Hbinned, <- Hifft, <- Hiffp. split.
    + intros (ht & Hht & (hp & Hhp & _)%is_Ok_bind)%is_Ok_bind.
      split; by eexists.
    + intros [[ht Hht] [hp Hhp]]. rewrite Hht; simpl. rewrite Hhp; simpl.
      by eexists.
  - intros mse H. bind_inv_as H ht Hht. bind_inv_as H hp Hhp. injection H as <-.
    destruct (Hshapet ht Hht) as (Hlht & Hwht & Hnumt).
    destruct (Hshapep hp Hhp) as (Hlhp & Hwhp & _).
    split; [rewrite length_zip_with; lia|]. split.
    + apply Forall_lookup. intros b a Ha.
      apply lookup_zip_with_Some in Ha as (t & p & -> & _ & _).
      intros x Hx. destruct (fval_mean _) as [s|]; simpl in Hx; [|done].
      injection Hx as <-. apply sqrt_pos.
    + intros E Hnum. rewrite E in Hhp. assert (hp = ht) as -> by congruence.
      assert (Forall (Forall (Forall (fun a => a <> NaN))) ht) as Hn.
      { apply Hnumt; apply fval_mul2_numbers;
          eapply fval_column_numbers; (done || lia). }
      apply Forall_lookup. intros b a Ha.
      apply lookup_zip_with_Some in Ha as (t & p & -> & Ht & Hp).
      assert (p = t) as -> by congruence.
      destruct (Forall_lookup_1 _ _ _ _ Hwht Ht) as [Hlt Hwt].
      pose proof (Forall_lookup_1 _ _ _ _ Hn Ht) as Hnt. simpl in Hlt, Hwt, Hnt.
      rewrite fval_mean_zero.
      * simpl. f_equal. apply sqrt_0.
      * destruct t as [|r t']; [simpl in Hlt; lia|].
        apply Forall_cons in Hwt as [Hr _].
        destruct r as [|a r']; [simpl in Hr; lia|]. done.
      * apply Forall_forall. intros v (row & Hrow & Hv)%elem_of_concat.
        apply list_elem_of_lookup in Hrow as [i Hi].
        apply lookup_zip_with_Some in Hi as (r1 & r2 & -> & H1 & H2).
        assert (r2 = r1) as -> by congruence.
        apply list_elem_of_lookup in Hv as [j Hj].
        apply lookup_zip_with_Some in Hj as (a1 & a2 & -> & Ha1 & Ha2).
        assert (a2 = a1) as -> by congruence.
        pose proof (Forall_lookup_1 _ _ _ _ (Forall_lookup_1 _ _ _ _ Hnt H1) Ha1).
        destruct a1 as [x|]; [|done]. simpl. f_equal. lra.
Qed.

Lemma hist_2d_loss_succeeds_iff_witness :
  (has_shape3 one_particle_fval 1 6 /\ has_shape3 one_particle_nan 1 6
   /\ 5 <= 6 /\ length one_particle_nan = length one_particle_fval)
  /\ (exists mse, hist_2d_loss one_particle_fval one_particle_fval = Ok mse
                  /\ Forall (fun a => a = Num 0) mse)
  /\ ~ is_Ok (hist_2d_loss one_particle_fval one_particle_nan).
Proof.
  assert (has_shape3 one_particle_fval 1 6) as H1 by repeat constructor.
  assert (has_shape3 one_particle_nan 1 6) as H2 by repeat constructor.
  split; [split; [done|]; split; [done|]; split; [lia|done]|].
  destruct (hist_2d_loss_succeeds_iff one_particle_fval one_particle_fval 1 6 6
              H1 ltac:(lia) H1 ltac:(lia) eq_refl) as [Hiff Hval].
  destruct (hist_2d_loss_succeeds_iff one_particle_fval one_particle_nan 1 6 6
              H1 ltac:(lia) H2 ltac:(lia) eq_refl) as [Hiff' _].
  split.
  - destruct (proj2 Hiff) as [mse Hmse].
    { intros [|b] [|i] rt rp Hrt Hrp Hnz; simplify_eq/=. done. }
    exists mse. split; [done|].
    apply (Hval mse Hmse); [done|]. repeat constructor; done.
  - intros H. pose proof (proj1 Hiff' H) as Hb.
    destruct (Hb 0 0 _ _ eq_refl eq_refl) as (_ & _ & H3 & _); [|done].
    simpl. intros [= E]. lra.
Defined.

(** [histogram_2d] on five vectors of one length, with a positive int32
    number of bins and two proper ranges, succeeds exactly when no element
    that the mask keeps has a NaN eta or phi: a number outside a range is
    clipped into the first or the last bin, but NaN becomes the bin index
    [-2^31], which the scatter refuses.  When it succeeds the histogram has
    shape (nbins, nbins), no entry is a negative number, and every entry is
    0 when the mask keeps no element. *)
Theorem histogram_2d_succeeds_iff (mask : list bool)
    (eta phi weights_px weights_py : list fval) (eta_range phi_range : R * R)
    (nbins n : nat) :
  length mask = n -> length eta = n -> length phi = n ->
  length weights_px = n -> length weights_py = n ->
  1 <= nbins -> (Z.of_nat nbins <= 2 ^ 31)%Z ->
  (eta_range.1 < eta_range.2)%R -> (phi_range.1 < phi_range.2)%R ->
  (is_Ok (histogram_2d mask eta phi weights_px weights_py eta_range phi_range
            nbins)
   <-> forall i, mask !! i = Some true ->
         eta !! i <> Some NaN /\ phi !! i <> Some NaN)
  /\ forall hist_pt,
       histogram_2d mask eta phi weights_px weights_py eta_range phi_range nbins
       = Ok hist_pt ->
       length hist_pt = nbins
       /\ Forall (fun row => length row = nbins) hist_pt
       /\ Forall (Forall (fun a => forall x, a = Num x -> (0 <= x)%R)) hist_pt
       /\ (Forall (fun m => m = false) mask ->
           Forall (Forall (fun a => a = Num 0)) hist_pt).
Proof.
  intros Hm He Hp Hwx Hwy Hn1 Hn2 _ _.
  destruct (histogram_2d_spec mask eta phi weights_px weights_py eta_range
              phi_range nbins n) as [Hiff Hval]; try done.
  split; [done|]. intros h Hh. destruct (Hval h Hh) as (? & ? & ? & ? & _).
  done.
Qed.

Lemma histogram_2d_succeeds_iff_witness :
  (1 <= 20 /\ (Z.of_nat 20 <= 2 ^ 31)%Z /\ (-6 < 6)%R /\ (-1 < 1)%R)
  /\ is_Ok (histogram_2d [true; false] [Num 100; NaN] [Num (-100); Num 0]
              [Num 3; Num 1] [Num 4; Num 1] (-6, 6)%R (-1, 1)%R 20)
  /\ ~ is_Ok (histogram_2d [true; false] [NaN; Num 0] [Num (-100); Num 0]
                [Num 3; Num 1] [Num 4; Num 1] (-6, 6)%R (-1, 1)%R 20).
Proof.
  assert (1 <= 20 /\ (Z.of_nat 20 <= 2 ^ 31)%Z /\ (-6 < 6)%R /\ (-1 < 1)%R)
    as H by (split; [lia|]; split; [lia|]; split; lra).
  split; [exact H|]. destruct H as (Ha & Hb & Hc & Hd).
  destruct (histogram_2d_succeeds_iff [true; false] [Num 100; NaN]
              [Num (-100); Num 0] [Num 3; Num 1] [Num 4; Num 1]
              (-6, 6)%R (-1, 1)%R 20 2 eq_refl eq_refl eq_refl eq_refl eq_refl
              Ha Hb Hc Hd) as [H1 _].
  destruct (histogram_2d_succeeds_iff [true; false] [NaN; Num 0]
              [Num (-100); Num 0] [Num 3; Num 1] [Num 4; Num 1]
              (-6, 6)%R (-1, 1)%R 20 2 eq_refl eq_refl eq_refl eq_refl eq_refl
              Ha Hb Hc Hd) as [H2 _].
  split.
  - apply H1. intros [|[|i]] Hi; simplify_eq/=. done.
  - intros H. by destruct (proj1 H2 H 0 eq_refl) as [? _].
Defined.

(** ** Destinations of the edges of the sparse graph builder *)

Lemma gather_nd_batch_lookup {X} (params : list (list X)) indices g :
  gather_nd_batch params indices = Ok g ->
  length g = length params
  /\ forall b p ix, params !! b = Some p -> indices !! b = Some ix ->
       exists gb, g !! b = Some gb /\ Forall2 (fun i v => p !! i = Some v) ix gb.
Proof.
  revert indices g.
  induction params as [|p ps IH]; intros [|ix ixs] g; simpl; try done.
  - intros [= <-]. split; [done|]. intros b p ix Hp. by rewrite lookup_nil in Hp.
  - intros H. bind_inv_as H gb Hgb. bind_inv_as H gs Hgs. injection H as <-.
    destruct (IH _ _ Hgs) as [Hl Hrows]. split; [simpl; lia|].
    intros [|b] p' ix' Hp Hix; simpl in *.
    + simplify_eq. exists gb. split; [done|].
      apply traverse_Forall2 in Hgb. eapply Forall2_impl; [exact Hgb|].
      intros i v Hv. unfold gather1 in Hv. by destruct (p' !! i); simplify_eq.
    + by apply Hrows.
Qed.

Section KnnDestinations.
Context {A : Type} (leb : A -> A -> bool) (d : A).
Hypothesis leb_total : forall x y, leb x y = true \/ leb y x = true.

Lemma top_k_positions k (row : list A) t :
  top_k leb k row = Ok t -> NoDup (snd <$> t).
Proof using leb_total.
  unfold top_k. case_decide as Hk; [|done]. intros [= <-].
  rewrite fmap_take. eapply sublist_NoDup; [|apply sublist_take].
  rewrite (sort_desc_Permutation leb leb_total).
  rewrite snd_zip by (rewrite length_seq; lia).
  apply NoDup_seq.
Qed.

Lemma top_k_entries k (row : list A) t r q :
  top_k leb k row = Ok t -> t !! r = Some q -> row !! q.2 = Some q.1.
Proof using leb_total.
  unfold top_k. case_decide as Hk; [|done]. intros [= <-] Hq.
  apply lookup_take_Some in Hq as [Hq _].
  apply list_elem_of_lookup_2 in Hq.
  rewrite (sort_desc_Permutation leb leb_total) in Hq.
  apply list_elem_of_lookup in Hq as [i Hi].
  apply lookup_zip_with_Some in Hi as (a & j & -> & Ha & Hj).
  apply lookup_seq in Hj as [-> _]. done.
Qed.

Lemma knn_edges_destinations k subindices (dm : list (list (list A))) nelems :
  has_shape3 dm nelems nelems ->
  length subindices = length dm ->
  Forall (fun ix => length ix = nelems) subindices ->
  k <= nelems ->
  exists T inds vals,
    traverse (traverse (top_k leb k)) dm = Ok T
    /\ knn_edges leb d k subindices dm = Ok (inds, vals)
    /\ length inds = k * (length dm * nelems)
    /\ forall r b e, r < k -> b < length dm -> e < nelems ->
         exists sub t q s j,
           subindices !! b = Some sub
           /\ T !! b ≫= (fun Tb => Tb !! e) = Some t
           /\ t !! r = Some q /\ q.2 < nelems
           /\ sub !! e = Some s /\ sub !! q.2 = Some j
           /\ inds !! (r * (length dm * nelems) + (b * nelems + e)) = Some (s, j)
           /\ vals !! (r * (length dm * nelems) + (b * nelems + e)) = Some q.1
           /\ (D ← dm !! b; row ← (D : list (list A)) !! e;
               (row : list A) !! q.2) = Some q.1.
Proof using leb_total.
  intros Hdm Hlen Hsub Hk.
  assert (dm <> [] -> length (hd [] dm) = nelems) as Hne.
  { destruct dm as [|bin dm']; [done|]. intros _. simpl.
    by apply Forall_cons in Hdm as [[-> _] _]. }
  assert (length dm * length (hd [] dm) = length dm * nelems) as HM.
  { destruct dm as [|bin dm']; [done|]. by rewrite Hne. }
  destruct (traverse_is_Ok (traverse (top_k leb k)) dm) as [T HT].
  { eapply Forall_impl; [exact Hdm|]. intros bin [_ Hbin]. simpl in *.
    apply traverse_is_Ok. eapply Forall_impl; [exact Hbin|].
    intros row Hrow. simpl in *. apply top_k_is_Ok; [done|lia]. }
  pose proof HT as HT2. apply traverse_Forall2 in HT2.
  assert (Forall2 (fun (bin : list (list A)) Tb =>
            length Tb = nelems
            /\ Forall (fun t => length t = k
                               /\ Forall (fun p => p.2 < nelems) t) Tb) dm T) as HTs.
  { eapply Forall2_impl_Forall_l; [exact Hdm|exact HT2|].
    intros bin Tb [Hb Hrows] HTb. simpl in *.
    apply traverse_Forall2 in HTb. split.
    - by rewrite <- (Forall2_length _ _ _ HTb).
    - apply Forall_lookup. intros j t Hj.
      destruct (Forall2_lookup_r _ _ _ _ _ HTb Hj) as (row & Hrow & Ht).
      destruct (top_k_spec leb leb_total k row t Ht) as (? & ? & ?).
      rewrite (Forall_lookup_1 _ _ _ _ Hrows Hrow) in *. done. }
  set (Tidx := fmap (M:=list) (fmap (M:=list) (fmap (M:=list) snd)) T).
  destruct (traverse_is_Ok
              (fun i => gather_nd_batch subindices (slice_last 0 i Tidx)) (seq 0 k))
    as [G HG].
  { apply Forall_forall. intros i Hi%elem_of_seq. apply gather_nd_batch_is_Ok.
    apply Forall2_same_length_lookup_2.
    { unfold slice_last, Tidx. rewrite !length_fmap.
      by rewrite <- (Forall2_length _ _ _ HTs). }
    intros b p ix Hp Hix. unfold slice_last, Tidx in Hix.
    rewrite !list_lookup_fmap in Hix.
    destruct (T !! b) as [Tb|] eqn:HTb; simplify_eq/=.
    destruct (Forall2_lookup_r _ _ _ _ _ HTs HTb) as (bin & _ & _ & HTb').
    rewrite (Forall_lookup_1 _ _ _ _ Hsub Hp).
    apply Forall_fmap, Forall_fmap, Forall_forall. intros t Ht. simpl.
    destruct (proj1 (Forall_forall _ _) HTb' t Ht) as (Hlt & Hidx).
    assert (nth i (snd <$> t) 0 ∈ snd <$> t) as Hin.
    { apply nth_elem_of. rewrite length_fmap. lia. }
    apply list_elem_of_fmap in Hin as (q & -> & Hq).
    exact (proj1 (Forall_forall _ _) Hidx q Hq). }
  set (dst := fun i => concat (slice_last 0 i
       (transpose_120 0 (length dm) (length (hd [] dm)) G))).
  assert (knn_edges leb d k subindices dm
          = Ok (concat ((fun i => zip (concat subindices) (dst i)) <$> seq 0 k),
                concat ((fun i => (fun r => nth i r d) <$>
                           (fmap (M:=list) fst <$> concat T)) <$> seq 0 k))) as Hknn.
  { unfold knn_edges. rewrite HT. simpl. fold Tidx. rewrite HG. simpl.
    rewrite decide_True; last first.
    { rewrite (concat_length_uniform nelems) by done. lia. }
    unfold mbind, result_bind. cbv beta iota.
    rewrite (traverse_pure (fun i => (zip (concat subindices) _, _))).
    rewrite <- !list_fmap_compose. by rewrite concat_fmap_fmap. }
  set (M := length dm * nelems) in *.
  assert (length (concat subindices) = M) as Hsrc.
  { rewrite (concat_length_uniform nelems) by done. unfold M. lia. }
  assert (forall i, length (dst i) = M) as Hdst.
  { intros i. unfold dst. rewrite slice_transpose_length. exact HM. }
  assert (Forall (fun l => length l = M)
            ((fun i => zip (concat subindices) (dst i)) <$> seq 0 k)) as HI.
  { apply Forall_fmap, Forall_forall. intros i _. simpl.
    rewrite length_zip_with, Hsrc, Hdst. lia. }
  eexists T, _, _. split; [done|]. split; [exact Hknn|].
  split; [by rewrite (concat_length_uniform M), length_fmap, length_seq|].
  intros r b e Hr Hb He.
  destruct (lookup_lt_is_Some_2 subindices b) as [sub Hsubb]; [lia|].
  destruct (lookup_lt_is_Some_2 dm b) as [bin Hbin]; [lia|].
  destruct (Forall2_lookup_l _ _ _ _ _ HTs Hbin) as (Tb & HTb & HlTb & HTb').
  destruct (lookup_lt_is_Some_2 Tb e) as [t Ht]; [lia|].
  destruct (Forall_lookup_1 _ _ _ _ HTb' Ht) as [Hlt Hidx].
  destruct (lookup_lt_is_Some_2 t r) as [q Hq]; [lia|].
  pose proof (Forall_lookup_1 _ _ _ _ Hidx Hq) as Hq2.
  pose proof (Forall_lookup_1 _ _ _ _ Hsub Hsubb) as Hlsub.
  simpl in Hq2, Hlsub.
  destruct (lookup_lt_is_Some_2 sub e) as [s Hs]; [lia|].
  destruct (lookup_lt_is_Some_2 sub q.2) as [j Hj]; [lia|].
  exists sub, t, q, s, j. split; [done|]. split; [by rewrite HTb|].
  split; [done|]. split; [done|]. split; [done|]. split; [done|].
  assert (b * nelems + e < M) as Hp.
  { unfold M. apply Nat.lt_le_trans with (S b * nelems); [simpl; lia|].
    apply Nat.mul_le_mono_r. lia. }
  assert (Forall (fun Tb : list (list (A * nat)) => length Tb = nelems) T) as HwT.
  { apply Forall_lookup. intros b' Tb' HTb''.
    by destruct (Forall2_lookup_r _ _ _ _ _ HTs HTb'') as (? & _ & ? & _). }
  match goal with
  | |- _ /\ ?V /\ ?W => cut (V /\ W); [intros [? ?]; split; [|by split]|]
  end; last first.
  { split; [|rewrite Hbin; simpl;
      destruct (Forall2_lookup_l _ _ _ _ _ HT2 Hbin) as (Tb2 & HTb2 & Htrav);
      assert (Tb2 = Tb) as -> by congruence;
      apply traverse_Forall2 in Htrav;
      destruct (Forall2_lookup_r _ _ _ _ _ Htrav Ht) as (row & Hrow & Htop);
      rewrite Hrow; simpl; by eapply top_k_entries].
    rewrite (lookup_concat_uniform _ M); last first.
    - done.
    - apply Forall_fmap, Forall_forall. intros i _. simpl.
      rewrite !length_fmap, (concat_length_uniform nelems) by done.
      by rewrite <- (Forall2_length _ _ _ HTs).
    - rewrite list_lookup_fmap, lookup_seq_lt by done. simpl.
      rewrite !list_lookup_fmap, (lookup_concat_uniform T nelems) by done.
      rewrite HTb. simpl. rewrite Ht. simpl. f_equal.
      apply nth_lookup_Some. by rewrite list_lookup_fmap, Hq. }
  rewrite (lookup_concat_uniform _ M) by done.
  rewrite list_lookup_fmap, lookup_seq_lt by done. simpl.
  rewrite lookup_zip_with.
  rewrite (lookup_concat_uniform subindices nelems) by done.
  rewrite Hsubb. simpl. rewrite Hs. simpl.
  (* the gathered destination *)
  destruct (lookup_lt_is_Some_2 G r) as [Gr HGr];
    [by rewrite (traverse_length _ _ _ HG), length_seq|].
  destruct (traverse_lookup _ _ _ _ _ HG (lookup_seq_lt 0 k r Hr))
    as (Gr' & HGr' & HGr''). simpl in HGr'.
  assert (Gr' = Gr) as -> by congruence.
  destruct (gather_nd_batch_lookup _ _ _ HGr') as [HlGr Hrows].
  destruct (Hrows b sub ((fun l => nth r l 0) <$> (fmap (M:=list) snd <$> Tb)) Hsubb)
    as (gb & Hgb & HF).
  { unfold slice_last, Tidx. rewrite !list_lookup_fmap, HTb. done. }
  assert (((fun l => nth r l 0) <$> (fmap (M:=list) snd <$> Tb)) !! e
          = Some (nth r (snd <$> t) 0)) as Hix
    by (rewrite !list_lookup_fmap, Ht; done).
  destruct (Forall2_lookup_l _ _ _ _ _ HF Hix) as (j' & Hj' & Hsj').
  assert (nth r (snd <$> t) 0 = q.2) as Hnth.
  { apply nth_lookup_Some. by rewrite list_lookup_fmap, Hq. }
  rewrite Hnth in Hsj'. assert (j' = j) as -> by congruence.
  assert (dst r !! (b * nelems + e) = Some j) as ->; [|done].
  unfold dst. rewrite Hne by (intros ->; simpl in Hb; lia).
  assert (Forall (fun l : list nat => length l = nelems)
            (slice_last 0 r (transpose_120 0 (length dm) nelems G))) as Hw.
  { unfold slice_last, transpose_120. apply Forall_fmap, Forall_fmap, Forall_forall.
    intros b' _. simpl. by rewrite !length_fmap, length_seq. }
  rewrite (lookup_concat_uniform _ nelems) by done.
  unfold slice_last, transpose_120.
  rewrite !list_lookup_fmap, lookup_seq_lt by done. simpl.
  rewrite !list_lookup_fmap, lookup_seq_lt by done. simpl. f_equal.
  apply nth_lookup_Some. rewrite list_lookup_fmap, HGr. simpl. f_equal.
  rewrite (nth_lookup_Some _ _ _ _ Hgb). by apply nth_lookup_Some.
Qed.

End KnnDestinations.

Lemma pairwise_gaussian_dist_lookup (A B D : list (list R)) i j a b :
  pairwise_gaussian_dist A B = Ok D ->
  A !! i = Some a -> B !! j = Some b ->
  (row ← D !! i; (row : list R) !! j) = Some (gaussian_dist a b).
Proof.
  unfold pairwise_gaussian_dist, matmul_nt. case_decide; [|done]. simpl.
  intros [= <-] Ha Hb. rewrite lookup_zip_with, !list_lookup_fmap, Ha. simpl.
  rewrite lookup_zip_with, !list_lookup_fmap, Hb. done.
Qed.

Lemma subpoints_to_sparse_matrix_edges (self : SparseHashedNNDistance.t)
    (subindices : list (list nat)) (subpoints : list (list (list R)))
    (nelems F : nat) :
  has_shape3 subpoints nelems F ->
  length subindices = length subpoints ->
  Forall (fun ix => length ix = nelems) subindices ->
  SparseHashedNNDistance.num_neighbors self <= nelems ->
  exists inds vals,
    SparseHashedNNDistance.subpoints_to_sparse_matrix self subindices subpoints
      = Ok (inds, vals)
    /\ length inds
       = SparseHashedNNDistance.num_neighbors self * (length subpoints * nelems)
    /\ length vals
       = SparseHashedNNDistance.num_neighbors self * (length subpoints * nelems)
    /\ forall r b e,
         r < SparseHashedNNDistance.num_neighbors self ->
         b < length subpoints -> e < nelems ->
         exists sub bin s j e' a c,
           subindices !! b = Some sub /\ subpoints !! b = Some bin
           /\ sub !! e = Some s /\ sub !! e' = Some j /\ e' < nelems
           /\ bin !! e = Some a /\ bin !! e' = Some c
           /\ inds !! (r * (length subpoints * nelems) + (b * nelems + e))
              = Some (s, j)
           /\ vals !! (r * (length subpoints * nelems) + (b * nelems + e))
              = Some (exp (- SparseHashedNNDistance.dist_mult self
                             * gaussian_dist a c)).
Proof.
  intros Hsp Hlen Hsub Hk.
  set (k := SparseHashedNNDistance.num_neighbors self) in *.
  unfold SparseHashedNNDistance.subpoints_to_sparse_matrix. fold k.
  destruct (traverse_is_Ok (fun bin => pairwise_gaussian_dist bin bin) subpoints)
    as [dm Hdm].
  { eapply Forall_impl; [exact Hsp|]. intros bin [Hb HF]. simpl in *.
    destruct (pairwise_gaussian_dist_shape bin nelems F Hb HF) as (D & -> & _).
    by eexists. }
  rewrite Hdm. simpl.
  pose proof Hdm as Hdm2. apply traverse_Forall2 in Hdm2.
  pose proof (Forall2_length _ _ _ Hdm2) as Hldm.
  set (g := fun x => exp (- SparseHashedNNDistance.dist_mult self * x)).
  set (dm' := fmap (M:=list) _ dm).
  assert (length dm' = length subpoints) as Hldm' by (unfold dm'; by rewrite length_fmap).
  assert (has_shape3 dm' nelems nelems) as Hshape.
  { apply Forall_fmap, Forall_lookup. intros b D HD. simpl.
    destruct (Forall2_lookup_r _ _ _ _ _ Hdm2 HD) as (bin & Hbin & HDb).
    destruct (Forall_lookup_1 _ _ _ _ Hsp Hbin) as [Hb HF].
    destruct (pairwise_gaussian_dist_shape bin nelems F Hb HF) as (D' & HD' & Hl & Hw).
    rewrite HDb in HD'. injection HD' as <-. split; [by rewrite length_fmap|].
    apply Forall_fmap. eapply Forall_impl; [exact Hw|]. intros r Hr. simpl.
    by rewrite length_fmap. }
  destruct (knn_edges_destinations Rleb 0%R Rleb_total k subindices dm' nelems)
    as (T & inds & vals & _ & Hknn & Hli & Hedges); try done.
  { by rewrite Hldm'. }
  destruct (knn_edges_spec Rleb 0%R Rleb_total k subindices dm' nelems)
    as (inds' & vals' & Hknn' & _ & Hlv & _); try done.
  { by rewrite Hldm'. }
  rewrite Hknn in Hknn'. injection Hknn' as <- <-.
  rewrite Hknn. rewrite Hldm' in *.
  exists inds, vals. split; [done|]. split; [done|]. split; [done|].
  intros r b e Hr Hb He.
  destruct (Hedges r b e Hr Hb He)
    as (sub & t & q & s & j & Hsubb & _ & _ & Hq2 & Hs & Hj & Hi & Hv & Hd).
  destruct (lookup_lt_is_Some_2 subpoints b) as [bin Hbin]; [lia|].
  destruct (Forall_lookup_1 _ _ _ _ Hsp Hbin) as [Hlbin _].
  destruct (lookup_lt_is_Some_2 bin e) as [a Ha]; [lia|].
  destruct (lookup_lt_is_Some_2 bin q.2) as [c Hc]; [lia|].
  exists sub, bin, s, j, q.2, a, c.
  repeat (split; [done|]). rewrite Hv. f_equal.
  destruct (Forall2_lookup_l _ _ _ _ _ Hdm2 Hbin) as (D & HD & HDb).
  pose proof (pairwise_gaussian_dist_lookup _ _ _ e q.2 a c HDb Ha Hc) as Hg.
  unfold dm' in Hd. rewrite list_lookup_fmap, HD in Hd. simpl in Hd.
  rewrite list_lookup_fmap in Hd.
  destruct (D !! e) as [row|]; simpl in Hd, Hg; [|done].
  rewrite list_lookup_fmap, Hg in Hd. simpl in Hd. by injection Hd.
Qed.

Section TopKLargest.
Context {A : Type} (leb : A -> A -> bool).
Hypothesis leb_total : forall x y, leb x y = true \/ leb y x = true.
Hypothesis leb_trans :
  forall x y z, leb x y = true -> leb y z = true -> leb x z = true.

Lemma desc_lookup (l : list (A * nat)) i j p q :
  Sorted (desc leb) l -> i < j -> l !! i = Some p -> l !! j = Some q ->
  leb q.1 p.1 = true.
Proof using leb_trans.
  intros Hs. apply Sorted_StronglySorted in Hs; last first.
  { intros x y z Hxy Hyz. unfold desc in *. by eapply leb_trans. }
  revert i j. induction Hs as [|x l Hs IH Hall]; intros i j Hij Hi Hj; [done|].
  destruct i as [|i], j as [|j]; simpl in *; simplify_eq; try lia.
  - apply (proj1 (Forall_forall _ _) Hall q). by eapply list_elem_of_lookup_2.
  - eapply (IH i j); [lia|done..].
Qed.

(** No entry of the row that [tf.nn.top_k] leaves out is larger than one it
    returns. *)
Lemma top_k_largest k (row : list A) t p v q :
  top_k leb k row = Ok t -> row !! p = Some v -> p ∉ snd <$> t -> q ∈ t ->
  leb v q.1 = true.
Proof using leb_total leb_trans.
  unfold top_k. case_decide as Hk; [|done]. intros [= <-] Hv Hp Hq.
  set (L := sort_desc leb (zip row (seq 0 (length row)))) in *.
  assert ((v, p) ∈ L) as Hin.
  { unfold L. rewrite (sort_desc_Permutation leb leb_total).
    apply list_elem_of_lookup. exists p. rewrite lookup_zip_with, Hv. simpl.
    rewrite lookup_seq_lt by (by eapply lookup_lt_Some). done. }
  apply list_elem_of_lookup in Hin as [i Hi].
  apply list_elem_of_lookup in Hq as [j Hj].
  apply lookup_take_Some in Hj as [Hj Hjk].
  destruct (decide (i < k)) as [Hik|Hik].
  - exfalso. apply Hp. apply list_elem_of_fmap. exists (v, p). split; [done|].
    apply list_elem_of_lookup. exists i. by rewrite lookup_take_lt.
  - change v with (v, p).1.
    eapply (desc_lookup L j i); [by apply sort_desc_Sorted|lia|done..].
Qed.
End TopKLargest.

Lemma Rleb_trans x y z : Rleb x y = true -> Rleb y z = true -> Rleb x z = true.
Proof.
  unfold Rleb. intros H1%bool_decide_eq_true_1 H2%bool_decide_eq_true_1.
  apply bool_decide_eq_true_2. lra.
Qed.

(** C5: on bins of [nelems] elements, with [1 <= num_neighbors <= nelems],
    [subpoints_to_sparse_matrix] returns [num_neighbors] blocks of edges,
    one block per rank; block [r] holds for every source element of every
    bin its neighbour of rank [r], an element of the same bin, with their
    similarity [exp(-dist_mult * distance)] as value.  The neighbours of one
    source at different ranks are different elements, the similarity at
    rank [r + 1] is at most that at rank [r], no element of the bin that is
    left out is more similar to the source than a neighbour that is kept,
    and when the bins hold every element once an element is the source of
    at most [num_neighbors] edges. *)
Theorem top_k_edges_bounded_sorted (self : SparseHashedNNDistance.t)
    (subindices : list (list nat)) (subpoints : list (list (list R)))
    (nelems F : nat) :
  has_shape3 subpoints nelems F ->
  length subindices = length subpoints ->
  Forall (fun ix => length ix = nelems) subindices ->
  1 <= SparseHashedNNDistance.num_neighbors self ->
  SparseHashedNNDistance.num_neighbors self <= nelems ->
  let k := SparseHashedNNDistance.num_neighbors self in
  let M := length subpoints * nelems in
  let sim (a c : list R) :=
    exp (- SparseHashedNNDistance.dist_mult self * gaussian_dist a c) in
  exists inds vals (dst : nat -> nat -> nat -> nat),
    SparseHashedNNDistance.subpoints_to_sparse_matrix self subindices subpoints
      = Ok (inds, vals)
    /\ length inds = k * M
    /\ length vals = k * M
    /\ (forall r b e, r < k -> b < length subpoints -> e < nelems ->
          dst r b e < nelems
          /\ exists sub bin s j a c,
               subindices !! b = Some sub /\ subpoints !! b = Some bin
               /\ sub !! e = Some s /\ sub !! dst r b e = Some j
               /\ bin !! e = Some a /\ bin !! dst r b e = Some c
               /\ inds !! (r * M + (b * nelems + e)) = Some (s, j)
               /\ vals !! (r * M + (b * nelems + e)) = Some (sim a c))
    /\ (forall r r' b e, r < r' -> r' < k -> b < length subpoints -> e < nelems ->
          dst r b e <> dst r' b e)
    /\ (forall r p v v', p < M ->
          vals !! (r * M + p) = Some v -> vals !! (S r * M + p) = Some v' ->
          (v' <= v)%R)
    /\ (forall r b e e' bin a c v,
          r < k -> b < length subpoints -> e < nelems ->
          subpoints !! b = Some bin -> bin !! e = Some a -> bin !! e' = Some c ->
          (forall r', r' < k -> dst r' b e <> e') ->
          vals !! (r * M + (b * nelems + e)) = Some v ->
          (sim a c <= v)%R)
    /\ (NoDup (concat subindices) ->
        forall s, length (filter (fun e => e.1 = s) inds) <= k).
Proof.
  intros Hsp Hlen Hsub Hk1 Hk. cbv zeta.
  set (k := SparseHashedNNDistance.num_neighbors self) in *.
  set (M := length subpoints * nelems).
  set (g := fun x => exp (- SparseHashedNNDistance.dist_mult self * x)).
  unfold SparseHashedNNDistance.subpoints_to_sparse_matrix. fold k.
  destruct (traverse_is_Ok (fun bin => pairwise_gaussian_dist bin bin) subpoints)
    as [dm Hdm].
  { eapply Forall_impl; [exact Hsp|]. intros bin [Hb HF]. simpl in *.
    destruct (pairwise_gaussian_dist_shape bin nelems F Hb HF) as (D & -> & _).
    by eexists. }
  rewrite Hdm. simpl.
  pose proof Hdm as Hdm2. apply traverse_Forall2 in Hdm2.
  pose proof (Forall2_length _ _ _ Hdm2) as Hldm.
  set (dm' := fmap (M:=list) _ dm).
  assert (length dm' = length subpoints) as Hldm'
    by (unfold dm'; by rewrite length_fmap).
  assert (has_shape3 dm' nelems nelems) as Hshape.
  { apply Forall_fmap, Forall_lookup. intros b D HD. simpl.
    destruct (Forall2_lookup_r _ _ _ _ _ Hdm2 HD) as (bin & Hbin & HDb).
    destruct (Forall_lookup_1 _ _ _ _ Hsp Hbin) as [Hb HF].
    destruct (pairwise_gaussian_dist_shape bin nelems F Hb HF) as (D' & HD' & Hl & Hw).
    rewrite HDb in HD'. injection HD' as <-. split; [by rewrite length_fmap|].
    apply Forall_fmap. eapply Forall_impl; [exact Hw|]. intros r Hr. simpl.
    by rewrite length_fmap. }
  (* entry (e, e') of the similarity matrix of bin b *)
  assert (forall b bin e e' a c,
            subpoints !! b = Some bin -> bin !! e = Some a -> bin !! e' = Some c ->
            (D ← dm' !! b; row ← (D : list (list R)) !! e; (row : list R) !! e')
            = Some (g (gaussian_dist a c))) as Hentry.
  { intros b bin e e' a c Hbin Ha Hc.
    destruct (Forall2_lookup_l _ _ _ _ _ Hdm2 Hbin) as (D & HD & HDb).
    pose proof (pairwise_gaussian_dist_lookup _ _ _ e e' a c HDb Ha Hc) as Hg.
    unfold dm'. rewrite list_lookup_fmap, HD. simpl. rewrite list_lookup_fmap.
    destruct (D !! e) as [row|]; simpl in *; [|done].
    by rewrite list_lookup_fmap, Hg. }
  destruct (knn_edges_destinations Rleb 0%R Rleb_total k subindices dm' nelems)
    as (T & inds & vals & HT & Hknn & Hli & Hedges); try done.
  { by rewrite Hldm'. }
  destruct (knn_edges_spec Rleb 0%R Rleb_total k subindices dm' nelems)
    as (inds' & vals' & Hknn' & _ & Hlv & _ & Hsorted & Hcount); try done.
  { by rewrite Hldm'. }
  rewrite Hknn in Hknn'. injection Hknn' as <- <-.
  rewrite Hknn. rewrite Hldm' in *. fold M in Hli, Hlv, Hedges, Hsorted.
  (* the rows of the similarity matrix and their top-k lists *)
  assert (forall b e t,
            b < length subpoints -> e < nelems ->
            T !! b ≫= (fun Tb => Tb !! e) = Some t ->
            exists row, (D ← dm' !! b; (D : list (list R)) !! e) = Some row
                        /\ top_k Rleb k row = Ok t) as Htop.
  { intros b e t Hb He Ht. apply traverse_Forall2 in HT.
    destruct (T !! b) as [Tb|] eqn:HTb; simpl in Ht; [|done].
    destruct (Forall2_lookup_r _ _ _ _ _ HT HTb) as (D & HD & HDT).
    apply traverse_Forall2 in HDT.
    destruct (Forall2_lookup_r _ _ _ _ _ HDT Ht) as (row & Hrow & Hrt).
    exists row. by rewrite HD. }
  set (dst := fun r b e : nat =>
         (nth r (nth e (nth b T []) []) (0%R, 0)).2).
  assert (forall r b e t q,
            T !! b ≫= (fun Tb => Tb !! e) = Some t -> t !! r = Some q ->
            dst r b e = q.2) as Hdst.
  { intros r b e t q Ht Hq. unfold dst.
    destruct (T !! b) as [Tb|] eqn:HTb; simpl in Ht; [|done].
    by rewrite (nth_lookup_Some _ _ _ _ HTb), (nth_lookup_Some _ _ _ _ Ht),
      (nth_lookup_Some _ _ _ _ Hq). }
  exists inds, vals, dst. split; [done|]. split; [done|]. split; [done|].
  split.
  { intros r b e Hr Hb He.
    destruct (Hedges r b e Hr Hb He)
      as (sub & t & q & s & j & Hsubb & Ht & Hq & Hq2 & Hs & Hj & Hi & Hv & Hd).
    rewrite (Hdst r b e t q Ht Hq). split; [done|].
    destruct (lookup_lt_is_Some_2 subpoints b) as [bin Hbin]; [lia|].
    destruct (Forall_lookup_1 _ _ _ _ Hsp Hbin) as [Hlbin _].
    destruct (lookup_lt_is_Some_2 bin e) as [a Ha]; [lia|].
    destruct (lookup_lt_is_Some_2 bin q.2) as [c Hc]; [lia|].
    exists sub, bin, s, j, a, c. repeat (split; [done|]).
    rewrite Hv. f_equal.
    rewrite (Hentry b bin e q.2 a c Hbin Ha Hc) in Hd. by injection Hd. }
  split.
  { intros r r' b e Hrr Hr' Hb He.
    destruct (Hedges r b e ltac:(lia) Hb He)
      as (_ & t & q & _ & _ & _ & Ht & Hq & _).
    destruct (Hedges r' b e Hr' Hb He)
      as (_ & t' & q' & _ & _ & _ & Ht' & Hq' & _).
    assert (t' = t) as -> by congruence.
    rewrite (Hdst r b e t q Ht Hq), (Hdst r' b e t q' Ht Hq').
    destruct (Htop b e t Hb He Ht) as (row & _ & Hrt).
    pose proof (top_k_positions Rleb Rleb_total k row t Hrt) as Hnd.
    intros Heq.
    assert (r = r'); [|lia].
    eapply (NoDup_lookup _ r r' q.2 Hnd); rewrite list_lookup_fmap.
    - by rewrite Hq.
    - by rewrite Hq', Heq. }
  split.
  { intros r p v v' Hp Hv Hv'.
    specialize (Hsorted r p v v' Hp Hv Hv'). unfold Rleb in Hsorted.
    by apply bool_decide_eq_true_1 in Hsorted. }
  split; [|done].
  intros r b e e' bin a c v Hr Hb He Hbin Ha Hc Hout Hv.
  destruct (Hedges r b e Hr Hb He)
    as (_ & t & q & _ & _ & _ & Ht & Hq & _ & _ & _ & _ & Hv' & _).
  assert (v = q.1) as -> by congruence.
  destruct (Htop b e t Hb He Ht) as (row & Hrow & Hrt).
  pose proof (Hentry b bin e e' a c Hbin Ha Hc) as Hd.
  destruct (dm' !! b) as [D|]; simpl in Hrow, Hd; [|done].
  rewrite Hrow in Hd. simpl in Hd.
  assert (Rleb (g (gaussian_dist a c)) q.1 = true) as Hle.
  { eapply (top_k_largest Rleb Rleb_total Rleb_trans k row t e');
      [done|done| |by eapply list_elem_of_lookup_2].
    intros (q' & Hq'2 & Hq')%list_elem_of_fmap.
    apply list_elem_of_lookup in Hq' as [r' Hr'].
    destruct (top_k_spec Rleb Rleb_total k row t Hrt) as (Hlt & _).
    apply (Hout r'); [rewrite <- Hlt; by eapply lookup_lt_Some|].
    by rewrite (Hdst r' b e t q' Ht Hr'). }
  unfold Rleb in Hle. by apply bool_decide_eq_true_1 in Hle.
Qed.

Lemma top_k_edges_bounded_sorted_witness :
  (has_shape3 [[[0]; [1]]]%R 2 1
   /\ length [[0; 1]] = length [[[0]; [1]]]%R
   /\ Forall (fun ix => length ix = 2) [[0; 1]]
   /\ 1 <= SparseHashedNNDistance.num_neighbors shnn_two_neighbors
   /\ SparseHashedNNDistance.num_neighbors shnn_two_neighbors <= 2)
  /\ exists inds vals (dst : nat -> nat -> nat -> nat),
      SparseHashedNNDistance.subpoints_to_sparse_matrix shnn_two_neighbors
        [[0; 1]] [[[0]; [1]]]%R = Ok (inds, vals)
      /\ length inds = 4 /\ length vals = 4
      /\ dst 0 0 0 <> dst 1 0 0
      /\ (forall p v v', p < 2 ->
            vals !! p = Some v -> vals !! (2 + p) = Some v' -> (v' <= v)%R)
      /\ (NoDup [0; 1] -> forall s, length (filter (fun e => e.1 = s) inds) <= 2).
Proof.
  assert (has_shape3 [[[0]; [1]]]%R 2 1) as H1 by repeat constructor.
  assert (Forall (fun ix => length ix = 2) [[0; 1]]) as H2 by repeat constructor.
  assert (1 <= SparseHashedNNDistance.num_neighbors shnn_two_neighbors) as H3
    by (simpl; lia).
  assert (SparseHashedNNDistance.num_neighbors shnn_two_neighbors <= 2) as H4
    by (simpl; lia).
  split; [by repeat split|].
  destruct (top_k_edges_bounded_sorted shnn_two_neighbors [[0; 1]] [[[0]; [1]]]%R
              2 1 H1 eq_refl H2 H3 H4)
    as (inds & vals & dst & He & Hi & Hv & _ & Hd & Hs & _ & Hc).
  exists inds, vals, dst. split; [done|]. split; [done|]. split; [done|].
  split; [apply Hd; simpl; lia|]. split; [|done].
  intros p v v' Hp Hvp Hvp'. by apply (Hs 0 p v v').
Defined.

(** [construct_sparse_dm_batch] runs on every event of [nbins * bin_size]
    embedded points with at least two bins and at most [bin_size] neighbours
    per element.  It returns bins that are a permutation of the elements and
    [num_neighbors] edges per element.  Every edge joins two elements of one
    bin, and its value is [exp(-dist_mult * d)] for the Euclidean distance
    [d] (not below 1e-3) of the two embedded points: no edge crosses a bin,
    and no index leaves the event. *)
Theorem sparse_graph_edges_stay_in_bins (self : SparseHashedNNDistance.t)
    (points : list (list R)) (nbins : nat) :
  let bs := SparseHashedNNDistance.bin_size self in
  let k := SparseHashedNNDistance.num_neighbors self in
  let cb := SparseHashedNNDistance.codebook_random_rotations self in
  length points = nbins * bs -> 2 <= nbins -> 1 <= bs -> k <= bs ->
  Forall (fun r => length r = length cb) points -> 1 <= ncols cb ->
  exists bins inds vals,
    SparseHashedNNDistance.construct_sparse_dm_batch self points
    = Ok (bins, (inds, vals))
    /\ concat bins ≡ₚ seq 0 (nbins * bs)
    /\ length inds = k * (nbins * bs) /\ length vals = k * (nbins * bs)
    /\ forall idx, idx < k * (nbins * bs) ->
         exists s j a c bin,
           inds !! idx = Some (s, j)
           /\ bin ∈ bins /\ s ∈ bin /\ j ∈ bin
           /\ points !! s = Some a /\ points !! j = Some c
           /\ vals !! idx
              = Some (exp (- SparseHashedNNDistance.dist_mult self
                             * gaussian_dist a c)).
Proof.
  intros bs k cb Hn Hnb Hbs Hk Hw Hcb.
  unfold SparseHashedNNDistance.construct_sparse_dm_batch, floordiv.
  fold bs cb. rewrite decide_False by lia.
  unfold mbind at 1, result_bind at 1. cbv beta iota.
  replace (length points / bs) with nbins
    by (rewrite Hn; symmetry; apply Nat.div_mul; lia).
  assert (1 <= nbins / 2) as Hh.
  { pose proof (Nat.div_mod_eq nbins 2).
    pose proof (Nat.mod_upper_bound nbins 2 ltac:(lia)). lia. }
  destruct (matmul_Ok points (take_cols (nbins / 2) cb)) as (mul & -> & Hlmul & Hwmul).
  { unfold take_cols. by rewrite length_fmap. }
  unfold mbind at 1, result_bind at 1. cbv beta iota.
  set (cmul := zip_with app mul (vneg <$> mul)).
  assert (length cmul = nbins * bs) as Hlc.
  { unfold cmul. rewrite length_zip_with, length_fmap. lia. }
  assert (Forall (fun row : list R => row <> []) cmul) as Hrows.
  { unfold cmul. rewrite ncols_take_cols_eq in Hwmul. clear Hlmul Hlc.
    assert (1 <= min (nbins / 2) (ncols cb)) as Hmin by lia.
    induction Hwmul as [|r mul' Hr _ IH]; csimpl; constructor; [|done].
    destruct r; [|done]. rewrite <- Hr in Hmin. simpl in Hmin. lia. }
  destruct (split_indices_to_bins_spec Rltb cmul nbins bs Hlc Hrows)
    as (bins & -> & Hlb & Hwb & Hperm).
  unfold mbind at 1, result_bind at 1. cbv beta iota. rewrite Hlc in Hperm.
  destruct (gather_is_Ok points bins) as [parts Hparts].
  { apply Forall_forall. intros bin Hbin. apply Forall_forall. intros i Hi.
    assert (i ∈ concat bins) as Hc by (apply elem_of_concat; eauto).
    rewrite Hperm in Hc. apply elem_of_seq in Hc. lia. }
  rewrite Hparts. unfold mbind at 1, result_bind at 1. cbv beta iota.
  pose proof (proj1 (gather_Forall2 _ _ _) Hparts) as HF.
  pose proof (Forall2_length _ _ _ HF) as Hlp.
  assert (has_shape3 parts bs (length cb)) as Hsp.
  { apply Forall_lookup. intros b bin Hbin.
    destruct (Forall2_lookup_r _ _ _ _ _ HF Hbin) as (ix & Hix & Hrow).
    split.
    - rewrite <- (Forall2_length _ _ _ Hrow).
      exact (Forall_lookup_1 _ _ _ _ Hwb Hix).
    - apply Forall_lookup. intros e v Hv.
      destruct (Forall2_lookup_r _ _ _ _ _ Hrow Hv) as (i & _ & Hi).
      exact (Forall_lookup_1 _ _ _ _ Hw Hi). }
  destruct (subpoints_to_sparse_matrix_edges self bins parts bs (length cb))
    as (inds & vals & -> & Hli & Hlv & Hedges); try done.
  simpl. fold k in Hli, Hlv, Hedges. rewrite <- Hlp, Hlb in Hli, Hlv, Hedges.
  exists bins, inds, vals. split; [done|]. split; [done|].
  split; [done|]. split; [done|].
  intros idx Hidx.
  set (M := nbins * bs) in *.
  assert (M = nbins * bs) as HMeq by done.
  assert (0 < M) as HM by nia.
  pose proof (Nat.div_mod_eq idx M) as Hd1.
  pose proof (Nat.mod_upper_bound idx M ltac:(lia)) as Hm1.
  pose proof (Nat.div_mod_eq (idx mod M) bs) as Hd2.
  pose proof (Nat.mod_upper_bound (idx mod M) bs ltac:(lia)) as Hm2.
  assert (idx / M < k) as Hr by (apply Nat.Div0.div_lt_upper_bound; lia).
  assert (idx mod M / bs < nbins) as Hb
    by (apply Nat.Div0.div_lt_upper_bound; nia).
  destruct (Hedges (idx / M) (idx mod M / bs) ((idx mod M) mod bs) Hr Hb Hm2)
    as (sub & bin & s & j & e' & a & c & Hsub & Hbin & Hs & Hj & He' & Ha & Hc
        & Hi & Hv).
  replace (idx / M * M + (idx mod M / bs * bs + (idx mod M) mod bs)) with idx
    in Hi, Hv by lia.
  pose proof (Forall2_lookup_lr _ _ _ _ _ _ HF Hsub Hbin) as Hrow.
  exists s, j, a, c, sub. split; [done|].
  split; [by eapply list_elem_of_lookup_2|].
  split; [by eapply list_elem_of_lookup_2|].
  split; [by eapply list_elem_of_lookup_2|].
  destruct (Forall2_lookup_l _ _ _ _ _ Hrow Hs) as (a' & Ha' & Hpa).
  destruct (Forall2_lookup_l _ _ _ _ _ Hrow Hj) as (c' & Hc' & Hpc).
  assert (a' = a) as -> by congruence. assert (c' = c) as -> by congruence.
  done.
Qed.

Lemma sparse_graph_edges_stay_in_bins_witness :
  (length [[1]; [2]; [3]; [4]]%R = 2 * 2 /\ 2 <= 2 /\ 1 <= 2 /\ 1 <= 2
   /\ Forall (fun r : list R => length r = 1) [[1]; [2]; [3]; [4]]%R
   /\ 1 <= ncols [[1%R]])
  /\ exists bins inds vals,
      SparseHashedNNDistance.construct_sparse_dm_batch shnn_one_neighbor
        [[1]; [2]; [3]; [4]]%R = Ok (bins, (inds, vals))
      /\ concat bins ≡ₚ seq 0 4 /\ length inds = 4 /\ length vals = 4.
Proof.
  assert (Forall (fun r : list R => length r = 1) [[1]; [2]; [3]; [4]]%R) as HF
    by repeat constructor.
  assert (1 <= ncols [[1%R]]) as Hc by (unfold ncols; simpl; lia).
  split; [by repeat (split; [done || lia|])|].
  destruct (sparse_graph_edges_stay_in_bins shnn_one_neighbor
              [[1]; [2]; [3]; [4]]%R 2)
    as (bins & inds & vals & Hrun & Hperm & Hli & Hlv & _);
    [done | lia | simpl; lia | simpl; lia | exact HF | exact Hc |].
  by exists bins, inds, vals.
Defined.

(** ** The Gaussian distance kernel *)

Lemma dot_comm (a b : list R) : dot a b = dot b a.
Proof.
  unfold dot. revert b.
  induction a as [|x a IH]; intros [|y b]; simpl; try done.
  rewrite IH. lra.
Qed.

Lemma dot_self (a : list R) : dot a a = vsum ((fun x => x * x)%R <$> a).
Proof.
  unfold dot. induction a as [|x a IH]; simpl; [done|]. by rewrite IH.
Qed.

Lemma sqrt_floor : sqrt (1 / 1000000) = (1 / 1000)%R.
Proof.
  replace (1 / 1000000)%R with ((1 / 1000) * (1 / 1000))%R by lra.
  apply sqrt_square. lra.
Qed.

Lemma gaussian_dist_comm (a b : list R) : gaussian_dist a b = gaussian_dist b a.
Proof.
  unfold gaussian_dist. rewrite (dot_comm a b). do 2 f_equal. lra.
Qed.

Lemma gaussian_dist_floor (a b : list R) : (1 / 1000 <= gaussian_dist a b)%R.
Proof.
  unfold gaussian_dist. rewrite <- sqrt_floor.
  apply sqrt_le_1_alt, Rmax_r.
Qed.

Lemma gaussian_dist_self (a : list R) : gaussian_dist a a = (1 / 1000)%R.
Proof.
  unfold gaussian_dist. rewrite dot_self, <- sqrt_floor. f_equal.
  apply Rmax_right. lra.
Qed.

(** [pairwise_gaussian_dist(A, A)] runs on every matrix with rows of one
    width.  The distance matrix is symmetric, no entry is below 1e-3, and
    the distance of two equal rows (so every diagonal entry) is exactly
    1e-3, not 0: the squared distance is held at 1e-6 before the root. *)
Theorem pairwise_gaussian_dist_floor (A : list (list R)) (F : nat) :
  Forall (fun r => length r = F) A ->
  exists D,
    pairwise_gaussian_dist A A = Ok D
    /\ forall i j, i < length A -> j < length A ->
         exists d,
           (row ← D !! i; (row : list R) !! j) = Some d
           /\ (row ← D !! j; (row : list R) !! i) = Some d
           /\ (1 / 1000 <= d)%R
           /\ (A !! i = A !! j -> d = 1 / 1000)%R.
Proof.
  intros HF.
  destruct (pairwise_gaussian_dist_shape A (length A) F eq_refl HF)
    as (D & HD & _ & _).
  exists D. split; [done|]. intros i j Hi Hj.
  destruct (lookup_lt_is_Some_2 A i Hi) as [a Ha].
  destruct (lookup_lt_is_Some_2 A j Hj) as [b Hb].
  exists (gaussian_dist a b).
  split; [exact (pairwise_gaussian_dist_lookup A A D i j a b HD Ha Hb)|].
  split.
  { rewrite gaussian_dist_comm.
    exact (pairwise_gaussian_dist_lookup A A D j i b a HD Hb Ha). }
  split; [apply gaussian_dist_floor|].
  intros Heq. assert (a = b) as -> by congruence. apply gaussian_dist_self.
Qed.

Lemma pairwise_gaussian_dist_floor_witness :
  Forall (fun r : list R => length r = 2) [[0; 0]; [3; 4]]%R
  /\ exists D,
      pairwise_gaussian_dist [[0; 0]; [3; 4]]%R [[0; 0]; [3; 4]]%R = Ok D
      /\ (row ← D !! 1; (row : list R) !! 1) = Some (1 / 1000)%R.
Proof.
  assert (Forall (fun r : list R => length r = 2) [[0; 0]; [3; 4]]%R) as HF
    by repeat constructor.
  split; [exact HF|].
  destruct (pairwise_gaussian_dist_floor [[0; 0]; [3; 4]]%R 2 HF)
    as (D & HD & Hall).
  exists D. split; [done|].
  destruct (Hall 1 1) as (d & Hd & _ & _ & Heq); [simpl; lia..|].
  by rewrite Hd, Heq.
Defined.
